(** * botbtc: the position state reconciliation engine

    A shallow embedding of [trading_bot.py] (class [TradingBot]) and of the
    part of [bybit_trader.py] it relies on ([set_trading_stop]), followed by
    the properties of the engine.

    Conventions.
    - A Python [Decimal] is a finite decimal number: sign, coefficient and
      exponent.  [str] and the constructor from a string follow the decimal
      module; the special values (NaN, Infinity) are outside the model and
      their spellings are rejected by the parser.
    - Comparisons between decimals are comparisons of their values
      ([dec_val], a rational), as in Python.
    - The tracked positions are a finite map from [(symbol, position_idx)] to
      a record with the documented fields of [active_positions_details].
    - The exchange is a gateway: a state of its own and two calls
      ([get_open_positions], [set_trading_stop]) that the engine threads
      through its steps; awaits and flushes are recorded in a trace. *)

From Stdlib Require Import ZArith NArith QArith Qpower Qabs Lia Lqa List Ascii String Bool.
From Stdlib Require Import DecimalFacts DecimalPos DecimalN.
From stdpp Require Import gmap strings.

Local Open Scope Z_scope.

(* ===================================================================== *)
(** * Part I. Definitions                                                 *)
(* ===================================================================== *)

(** ** Text *)

Abbreviation chars := (list ascii).

Definition is_digit (c : ascii) : bool :=
  let n := N_of_ascii c in ((48 <=? n) && (n <=? 57))%N.

Definition digit_val (c : ascii) : N := (N_of_ascii c - 48)%N.

(** [int(s)] on a string of ASCII digits. *)
Definition int_of_digits (l : chars) : N :=
  fold_left (fun a c => (10 * a + digit_val c)%N) l 0%N.

Fixpoint chars_of_uint (d : Init.Decimal.uint) : chars :=
  match d with
  | Init.Decimal.Nil => []
  | Init.Decimal.D0 d => "0"%char :: chars_of_uint d
  | Init.Decimal.D1 d => "1"%char :: chars_of_uint d
  | Init.Decimal.D2 d => "2"%char :: chars_of_uint d
  | Init.Decimal.D3 d => "3"%char :: chars_of_uint d
  | Init.Decimal.D4 d => "4"%char :: chars_of_uint d
  | Init.Decimal.D5 d => "5"%char :: chars_of_uint d
  | Init.Decimal.D6 d => "6"%char :: chars_of_uint d
  | Init.Decimal.D7 d => "7"%char :: chars_of_uint d
  | Init.Decimal.D8 d => "8"%char :: chars_of_uint d
  | Init.Decimal.D9 d => "9"%char :: chars_of_uint d
  end.

(** [str(n)] for a natural number: its decimal digits, no leading zero. *)
Definition digits_of_N (n : N) : chars := chars_of_uint (N.to_uint n).

(** The longest prefix of digits, and what follows it. *)
Fixpoint span_digits (l : chars) : chars * chars :=
  match l with
  | c :: r =>
      if is_digit c then let '(ds, rest) := span_digits r in (c :: ds, rest)
      else ([], l)
  | [] => ([], [])
  end.

(** ASCII white space, as [str.strip] removes it. *)
Definition is_space (c : ascii) : bool :=
  let n := N_of_ascii c in
  (((9 <=? n) && (n <=? 13)) || ((28 <=? n) && (n <=? 32)))%N.

Fixpoint lstrip (l : chars) : chars :=
  match l with
  | c :: r => if is_space c then lstrip r else l
  | [] => []
  end.

Definition strip (l : chars) : chars := rev (lstrip (rev (lstrip l))).

Definition remove_char (x : ascii) (l : chars) : chars :=
  List.filter (fun c => negb (Ascii.eqb c x)) l.

(** [str.lower] on ASCII letters. *)
Definition lower_char (c : ascii) : ascii :=
  let n := N_of_ascii c in
  if ((65 <=? n) && (n <=? 90))%N then ascii_of_N (n + 32) else c.

Definition lower (s : string) : string :=
  string_of_list_ascii (map lower_char (list_ascii_of_string s)).

Fixpoint is_prefix (p l : chars) : bool :=
  match p, l with
  | [], _ => true
  | a :: p', b :: l' => Ascii.eqb a b && is_prefix p' l'
  | _ :: _, [] => false
  end.

Fixpoint contains_chars (p l : chars) : bool :=
  is_prefix p l ||
  match l with
  | [] => false
  | _ :: r => contains_chars p r
  end.

(** [needle in haystack] on strings. *)
Definition str_in (needle haystack : string) : bool :=
  contains_chars (list_ascii_of_string needle) (list_ascii_of_string haystack).

(** What may follow a run of digits: the end of the text or a character
    that is not a digit. *)
Definition stops (l : chars) : bool :=
  match l with
  | [] => true
  | c :: _ => negb (is_digit c)
  end.

(** The characters a printed number is made of. *)
Definition numeric_char (c : ascii) : bool :=
  is_digit c || Ascii.eqb c "." || Ascii.eqb c "E" || Ascii.eqb c "-" || Ascii.eqb c "+".

Definition head_not_space (l : chars) : bool :=
  match l with
  | [] => true
  | c :: _ => negb (is_space c)
  end.

(** The characters of a ["%Y-%m-%d %H:%M:%S"] text. *)
Definition stamp_char (c : ascii) : bool :=
  is_digit c || Ascii.eqb c "-" || Ascii.eqb c ":" || Ascii.eqb c " ".

(** ** Decimal *)

Record Decimal := mkDecimal {
  d_sign : bool;      (* True for a negative number *)
  d_int : N;          (* the coefficient *)
  d_exp : Z           (* the exponent of ten *)
}.

Definition dec_val (d : Decimal) : Q :=
  inject_Z (if d_sign d then - Z.of_N (d_int d) else Z.of_N (d_int d))
  * (10 ^ d_exp d)%Q.

(** Truth value of a decimal: non zero. *)
Definition dec_truthy (d : Decimal) : bool := negb (d_int d =? 0)%N.

Definition dec_eqb (a b : Decimal) : bool := Qeq_bool (dec_val a) (dec_val b).
Definition dec_leb (a b : Decimal) : bool := Qle_bool (dec_val a) (dec_val b).
Definition dec_ltb (a b : Decimal) : bool := negb (Qle_bool (dec_val b) (dec_val a)).

Definition dec_of_Z (z : Z) : Decimal :=
  mkDecimal (z <? 0) (Z.abs_N z) 0.

(** The format ["%+d"]. *)
Definition signed_chars (z : Z) : chars :=
  (if z <? 0 then "-"%char else "+"%char) :: digits_of_N (Z.abs_N z).

(** [Decimal.__str__]: scientific notation of the decimal module. *)
Definition dec_chars (d : Decimal) : chars :=
  let digits := digits_of_N (d_int d) in
  let len := Z.of_nat (length digits) in
  let leftdigits := d_exp d + len in
  let dotplace :=
    if (d_exp d <=? 0) && (-6 <? leftdigits) then leftdigits else 1 in
  let intpart :=
    if dotplace <=? 0 then ["0"%char]
    else if len <=? dotplace
         then digits ++ repeat "0"%char (Z.to_nat (dotplace - len))
         else firstn (Z.to_nat dotplace) digits in
  let fracpart :=
    if dotplace <=? 0
    then "."%char :: repeat "0"%char (Z.to_nat (- dotplace)) ++ digits
    else if len <=? dotplace then []
         else "."%char :: skipn (Z.to_nat dotplace) digits in
  let exp :=
    if leftdigits =? dotplace then []
    else "E"%char :: signed_chars (leftdigits - dotplace) in
  (if d_sign d then ["-"%char] else []) ++ intpart ++ fracpart ++ exp.

Definition str_of_Decimal (d : Decimal) : string :=
  string_of_list_ascii (dec_chars d).

Definition split_sign (l : chars) : bool * chars :=
  match l with
  | c :: r =>
      if Ascii.eqb c "-" then (true, r)
      else if Ascii.eqb c "+" then (false, r)
      else (false, l)
  | [] => (false, [])
  end.

(** The optional exponent part, up to the end of the text. *)
Definition parse_exponent (l : chars) : option Z :=
  match l with
  | [] => Some 0
  | c :: r =>
      if Ascii.eqb c "E" || Ascii.eqb c "e" then
        let '(neg, r1) := split_sign r in
        let '(ds, rest) := span_digits r1 in
        match ds, rest with
        | _ :: _, [] =>
            Some (if neg then - Z.of_N (int_of_digits ds)
                  else Z.of_N (int_of_digits ds))
        | _, _ => None
        end
      else None
  end.

(** The numeric-string grammar of the decimal module, finite numbers:
    sign, digits, optional fraction, optional exponent. *)
Definition parse_decimal (l : chars) : option Decimal :=
  let '(sgn, r0) := split_sign l in
  let '(ip, r1) := span_digits r0 in
  let '(fp, r2) :=
    match r1 with
    | c :: r => if Ascii.eqb c "." then span_digits r else ([], r1)
    | [] => ([], r1)
    end in
  match ip ++ fp with
  | [] => None
  | ds =>
      match parse_exponent r2 with
      | Some e => Some (mkDecimal sgn (int_of_digits ds) (e - Z.of_nat (length fp)))
      | None => None
      end
  end.

(** [Decimal(s)] for a string [s]; [None] stands for [InvalidOperation]. *)
Definition Decimal_of_str (s : string) : option Decimal :=
  parse_decimal (remove_char "_" (strip (list_ascii_of_string s))).

(** ** datetime *)

(** A naive [datetime] (no time zone), as [datetime.utcnow()] returns. *)
Record datetime := mkDatetime {
  dt_year : N;
  dt_month : N;
  dt_day : N;
  dt_hour : N;
  dt_minute : N;
  dt_second : N;
  dt_microsecond : N
}.

Definition is_leap (y : N) : bool :=
  ((y mod 4 =? 0) && (negb (y mod 100 =? 0) || (y mod 400 =? 0)))%N.

Definition days_in_month (y m : N) : N :=
  if (m =? 2)%N then (if is_leap y then 29 else 28)%N
  else if ((m =? 4) || (m =? 6) || (m =? 9) || (m =? 11))%N then 30%N
       else 31%N.

(** The ranges the [datetime] constructor checks. *)
Definition valid_datetime (t : datetime) : bool :=
  ((1 <=? dt_year t) && (dt_year t <=? 9999)
   && (1 <=? dt_month t) && (dt_month t <=? 12)
   && (1 <=? dt_day t) && (dt_day t <=? days_in_month (dt_year t) (dt_month t))
   && (dt_hour t <? 24) && (dt_minute t <? 60) && (dt_second t <? 60)
   && (dt_microsecond t <? 1000000))%N.

Definition digit_char (k : N) : ascii := ascii_of_N (48 + k).

(** ["%0wd" % n] for a number below [10^w], which the fields of a valid
    datetime are: the [w] low decimal digits. *)
Fixpoint fixed_digits (w : nat) (n : N) : chars :=
  match w with
  | O => []
  | S w' => fixed_digits w' (n / 10) ++ [digit_char (n mod 10)]
  end.

Definition date_chars (t : datetime) : chars :=
  fixed_digits 4 (dt_year t) ++ "-"%char :: fixed_digits 2 (dt_month t)
  ++ "-"%char :: fixed_digits 2 (dt_day t).

Definition time_chars (t : datetime) : chars :=
  fixed_digits 2 (dt_hour t) ++ ":"%char :: fixed_digits 2 (dt_minute t)
  ++ ":"%char :: fixed_digits 2 (dt_second t).

(** [datetime.isoformat()]: the microseconds are printed when not zero. *)
Definition isoformat (t : datetime) : string :=
  string_of_list_ascii
    (date_chars t ++ "T"%char :: time_chars t
     ++ (if (dt_microsecond t =? 0)%N then []
         else "."%char :: fixed_digits 6 (dt_microsecond t))).

(** [strftime("%Y-%m-%d %H:%M:%S")]. *)
Definition strftime_ymd_hms (t : datetime) : string :=
  string_of_list_ascii (date_chars t ++ " "%char :: time_chars t).

(** Exactly [w] digits, and the rest of the text. *)
Definition take_fixed (w : nat) (l : chars) : option (N * chars) :=
  let ds := firstn w l in
  if (length ds =? w)%nat && forallb is_digit ds
  then Some (int_of_digits ds, skipn w l) else None.

Definition expect (c : ascii) (l : chars) : option chars :=
  match l with
  | x :: r => if Ascii.eqb x c then Some r else None
  | [] => None
  end.

(** The fraction of a second: three or six digits, up to the end. *)
Definition parse_fraction (l : chars) : option N :=
  if (length l =? 3)%nat then
    match take_fixed 3 l with Some (f, _) => Some (f * 1000)%N | None => None end
  else if (length l =? 6)%nat then
    match take_fixed 6 l with Some (f, _) => Some f | None => None end
  else None.

(** [HH[:MM[:SS[.fff[fff]]]]], without offset. *)
Definition parse_time (l : chars) : option (N * N * N * N) :=
  '(h, r) ← take_fixed 2 l;
  match r with
  | [] => Some (h, 0, 0, 0)%N
  | _ =>
    r ← expect ":" r;
    '(m, r) ← take_fixed 2 r;
    match r with
    | [] => Some (h, m, 0, 0)%N
    | _ =>
      r ← expect ":" r;
      '(s, r) ← take_fixed 2 r;
      match r with
      | [] => Some (h, m, s, 0)%N
      | _ => r ← expect "." r; f ← parse_fraction r; Some (h, m, s, f)
      end
    end
  end.

Definition fromisoformat_chars (l : chars) : option datetime :=
  '(y, r) ← take_fixed 4 l;
  r ← expect "-" r;
  '(m, r) ← take_fixed 2 r;
  r ← expect "-" r;
  '(d, r) ← take_fixed 2 r;
  '(h, mi, s, us) ← match r with
                     | [] => Some (0, 0, 0, 0)%N
                     | _ :: t => parse_time t
                     end;
  let t := mkDatetime y m d h mi s us in
  if valid_datetime t then Some t else None.

(** [datetime.fromisoformat(s)], the inverse of [isoformat] on naive
    timestamps: [YYYY-MM-DD[*HH[:MM[:SS[.fff[fff]]]]]], [*] any one
    character.  A text carrying a UTC offset is outside the model and is
    rejected.  [None] stands for [ValueError]. *)
Definition fromisoformat (s : string) : option datetime :=
  fromisoformat_chars (list_ascii_of_string s).

(** [s.replace(c, r)] for a one-character [c]. *)
Definition replace_char (c : ascii) (r : string) (s : string) : string :=
  string_of_list_ascii
    (flat_map (fun x => if Ascii.eqb x c then list_ascii_of_string r else [x])
              (list_ascii_of_string s)).

(** ** Python values *)

#[warnings="-register-all"]
Inductive pyval :=
| PNone
| PBool (b : bool)
| PInt (z : Z)
| PStr (s : string)
| PDec (d : Decimal)
| PDate (t : datetime)
| PList (l : list pyval)
| PDict (kv : list (string * pyval)).

Definition opt_dec (o : option Decimal) : pyval :=
  match o with Some d => PDec d | None => PNone end.

Definition opt_str (o : option string) : pyval :=
  match o with Some s => PStr s | None => PNone end.

(** [d.get(k)] on a dict kept as an association list. *)
Fixpoint dict_get (k : string) (kv : list (string * pyval)) : option pyval :=
  match kv with
  | [] => None
  | (k', v) :: r => if String.eqb k' k then Some v else dict_get k r
  end.

(** [d[k] = v]: an existing key keeps its place, a new one goes last. *)
Fixpoint dict_set (k : string) (v : pyval) (kv : list (string * pyval))
  : list (string * pyval) :=
  match kv with
  | [] => [(k, v)]
  | (k', v') :: r =>
      if String.eqb k' k then (k', v) :: r else (k', v') :: dict_set k v r
  end.

Definition dict_keys (kv : list (string * pyval)) : list string := map fst kv.

Definition py_truthy (v : pyval) : bool :=
  match v with
  | PNone => false
  | PBool b => b
  | PInt z => negb (z =? 0)
  | PStr s => negb (String.eqb s "")
  | PDec d => dec_truthy d
  | PDate _ => true
  | PList l => match l with [] => false | _ => true end
  | PDict kv => match kv with [] => false | _ => true end
  end.

(** [str(z)] for an [int]. *)
Definition str_of_Z (z : Z) : string :=
  string_of_list_ascii
    ((if z <? 0 then ["-"%char] else []) ++ digits_of_N (Z.abs_N z)).

(** [_serialize_value]: decimals and timestamps become strings, lists and
    dicts are walked, anything else is kept. *)
Fixpoint _serialize_value (v : pyval) : pyval :=
  match v with
  | PDec d => PStr (str_of_Decimal d)
  | PDate t => PStr (isoformat t)
  | PList l => PList (map _serialize_value l)
  | PDict kv => PDict (map (fun p => (fst p, _serialize_value (snd p))) kv)
  | _ => v
  end.

(** [_deserialize_value]: every string is tried as a decimal, then as a
    timestamp, and kept as it is when it is neither. *)
Fixpoint _deserialize_value (v : pyval) : pyval :=
  match v with
  | PStr s =>
      match Decimal_of_str s with
      | Some d => PDec d
      | None =>
          match fromisoformat (replace_char "Z" "+00:00" s) with
          | Some t => PDate t
          | None => PStr s
          end
      end
  | PList l => PList (map _deserialize_value l)
  | PDict kv => PDict (map (fun p => (fst p, _deserialize_value (snd p))) kv)
  | _ => v
  end.

(** ** The trade history file *)

(** The content of a json file is the tree [json.dump] was given:
    [json.load (json.dump v) = v] for trees of None, booleans, integers,
    strings, lists and string-keyed dicts.  [None] is a missing file. *)

Definition _save_trade_history_to_disk
  (trade_history : list pyval) (file : option (list pyval)) : option (list pyval) :=
  match trade_history with
  | [] => file
  | _ => Some (map _serialize_value trade_history)
  end.

Definition _load_trade_history_from_disk (file : option (list pyval)) : list pyval :=
  match file with
  | None => []
  | Some loaded_history => map _deserialize_value loaded_history
  end.

Definition upper_char (c : ascii) : ascii :=
  let n := N_of_ascii c in
  if ((97 <=? n) && (n <=? 122))%N then ascii_of_N (n - 32) else c.

Definition upper (s : string) : string :=
  string_of_list_ascii (map upper_char (list_ascii_of_string s)).

(** [str.capitalize] on ASCII text. *)
Definition capitalize (s : string) : string :=
  match list_ascii_of_string s with
  | [] => ""%string
  | c :: r => string_of_list_ascii (upper_char c :: map lower_char r)
  end.

Definition nonempty (o : option string) : option string :=
  match o with
  | Some s => if String.eqb s "" then None else Some s
  | None => None
  end.

(** The dict [_add_trade_to_history] builds; [now_thailand] is the local
    time in Bangkok read from the clock. *)
Definition trade_event (now_thailand : datetime)
    (symbol order_type side qty : string) (price order_id : option string)
    (status : string) (pnl notes : option string) : pyval :=
  PDict [ ("time", PStr (strftime_ymd_hms now_thailand));
          ("symbol", PStr symbol);
          ("type", PStr (capitalize side ++ " " ++ capitalize order_type));
          ("amount", PStr qty);
          ("price", PStr (default "Market" (nonempty price)));
          ("order_id", PStr (default "N/A" (nonempty order_id)));
          ("status", PStr status);
          ("pnl", opt_str pnl);
          ("notes", PStr (default "" (nonempty notes))) ]%string.

(** ** The tracked positions and their state file *)

Abbreviation pos_key := (string * Z)%type.

(** One entry of [active_positions_details], with the fields the engine
    documents and writes. *)
Record Position := mkPosition {
  symbol : string;
  position_idx : Z;
  side : string;
  entry_price : option Decimal;
  signal_entry_price : option Decimal;
  intended_sl : option Decimal;
  intended_tp1 : option Decimal;
  tp1_price : option Decimal;
  breakeven_applied : bool;
  main_order_id : option string;
  main_order_status : option string;
  tp_order_ids : list string;
  last_update_time : datetime;
  last_known_size : option Decimal
}.

(** The dict the engine keeps for a position. *)
Definition details_dict (p : Position) : pyval :=
  PDict [ ("symbol", PStr (symbol p));
          ("position_idx", PInt (position_idx p));
          ("side", PStr (side p));
          ("entry_price", opt_dec (entry_price p));
          ("signal_entry_price", opt_dec (signal_entry_price p));
          ("intended_sl", opt_dec (intended_sl p));
          ("intended_tp1", opt_dec (intended_tp1 p));
          ("tp1_price", opt_dec (tp1_price p));
          ("breakeven_applied", PBool (breakeven_applied p));
          ("main_order_id", opt_str (main_order_id p));
          ("main_order_status", opt_str (main_order_status p));
          ("tp_order_ids", PList (map PStr (tp_order_ids p)));
          ("last_update_time", PDate (last_update_time p));
          ("last_known_size", opt_dec (last_known_size p)) ]%string.

(** [f"{symbol}_{pos_idx}"]. *)
Definition key_str (k : pos_key) : string :=
  (fst k ++ "_" ++ str_of_Z (snd k))%string.

Abbreviation positions_file := (list (string * pyval)).

(** [_save_active_positions_to_disk]: the file after the call.  An empty
    store removes the file. *)
Definition _save_active_positions_to_disk
    (active_positions_details : gmap pos_key pyval) : option positions_file :=
  match map_to_list active_positions_details with
  | [] => None
  | items =>
      Some (fold_left
              (fun data_to_save kv =>
                 dict_set (key_str (fst kv)) (_serialize_value (snd kv)) data_to_save)
              items [])
  end.

Fixpoint split_first (sep : ascii) (l : chars) : option (chars * chars) :=
  match l with
  | [] => None
  | c :: r =>
      if Ascii.eqb c sep then Some ([], r)
      else match split_first sep r with
           | Some (a, b) => Some (c :: a, b)
           | None => None
           end
  end.

(** [s.rsplit(sep, 1)] when it has two parts. *)
Definition rsplit1 (sep : ascii) (s : string) : option (string * string) :=
  match split_first sep (rev (list_ascii_of_string s)) with
  | Some (a, b) => Some (string_of_list_ascii (rev b), string_of_list_ascii (rev a))
  | None => None
  end.

(** Digits with single underscores between them. *)
Fixpoint digits_us (l : chars) (after_digit : bool) : bool :=
  match l with
  | [] => after_digit
  | c :: r =>
      if is_digit c then digits_us r true
      else if Ascii.eqb c "_" then after_digit && digits_us r false
      else false
  end.

(** [int(s)] for a string; [None] stands for [ValueError]. *)
Definition py_int (s : string) : option Z :=
  let '(neg, r) := split_sign (strip (list_ascii_of_string s)) in
  if digits_us r false
  then let n := Z.of_N (int_of_digits (remove_char "_" r)) in
       Some (if neg then - n else n)
  else None.

(** [str(v)]; the text of a list or a dict (their [repr]) is not
    modelled. *)
Definition py_str (v : pyval) : option string :=
  match v with
  | PNone => Some "None"%string
  | PBool b => Some (if b then "True" else "False")%string
  | PInt z => Some (str_of_Z z)
  | PStr s => Some s
  | PDec d => Some (str_of_Decimal d)
  | PDate t =>
      Some (string_of_list_ascii
              (date_chars t ++ " "%char :: time_chars t
               ++ (if (dt_microsecond t =? 0)%N then []
                   else "."%char :: fixed_digits 6 (dt_microsecond t))))
  | PList _ | PDict _ => None
  end.

(** The outcome of a step of the loader: a value, an exception (caught and
    logged by the loader), or an input outside the model. *)
Inductive loaded (A : Type) :=
| Got (a : A)
| Raised
| Unmodelled.
Arguments Got {A} a.
Arguments Raised {A}.
Arguments Unmodelled {A}.

Definition decimal_fields : list string :=
  [ "entry_price"; "signal_entry_price"; "intended_sl"; "intended_tp1";
    "last_known_size"; "tp1_price" ]%string.

Definition str_mem (s : string) (l : list string) : bool :=
  existsb (String.eqb s) l.

Fixpoint str_items (l : list pyval) : option (list pyval) :=
  match l with
  | [] => Some []
  | v :: r =>
      match py_str v, str_items r with
      | Some s, Some r' => Some (PStr s :: r')
      | _, _ => None
      end
  end.

(** The conversion of one field in [_load_active_positions_from_disk].
    The text of a list or a dict starts with a bracket, so it is neither a
    number nor a timestamp. *)
Definition load_field (field_key : string) (field_value : pyval) : loaded pyval :=
  if str_mem field_key decimal_fields then
    match field_value with
    | PNone => Got PNone
    | PList _ | PDict _ => Raised
    | _ =>
        match py_str field_value with
        | Some s =>
            match Decimal_of_str s with Some d => Got (PDec d) | None => Raised end
        | None => Raised
        end
    end
  else if String.eqb field_key "last_update_time" && py_truthy field_value then
    match field_value with
    | PList _ | PDict _ => Raised
    | _ =>
        match py_str field_value with
        | Some s =>
            match fromisoformat s with Some t => Got (PDate t) | None => Raised end
        | None => Raised
        end
    end
  else
    match field_value with
    | PList items =>
        if String.eqb field_key "tp_order_ids" then
          match str_items items with
          | Some l => Got (PList l)
          | None => Unmodelled
          end
        else Got field_value
    | _ => Got field_value
    end.

Fixpoint load_fields (fields : list (string * pyval))
    (deserialized_details : list (string * pyval)) : loaded (list (string * pyval)) :=
  match fields with
  | [] => Got deserialized_details
  | (field_key, field_value) :: r =>
      match load_field field_key field_value with
      | Got v => load_fields r (dict_set field_key v deserialized_details)
      | Raised => Raised
      | Unmodelled => Unmodelled
      end
  end.

(** One key of the state file: its [(symbol, pos_idx)] and its details. *)
Definition load_entry (key_s : string) (details_json : pyval)
  : loaded (pos_key * pyval) :=
  match rsplit1 "_" key_s with
  | None => Raised
  | Some (sym, pos_idx_str) =>
      match py_int pos_idx_str with
      | None => Raised
      | Some pos_idx =>
          match details_json with
          | PDict fields =>
              match load_fields fields [] with
              | Got d => Got ((sym, pos_idx), PDict d)
              | Raised => Raised
              | Unmodelled => Unmodelled
              end
          | _ => Raised
          end
      end
  end.

Fixpoint load_entries (items : positions_file) (store : gmap pos_key pyval)
  : option (gmap pos_key pyval) :=
  match items with
  | [] => Some store
  | (key_s, details_json) :: r =>
      match load_entry key_s details_json with
      | Got (k, d) => load_entries r (<[k := d]> store)
      | Raised => load_entries r store
      | Unmodelled => None
      end
  end.

(** [_load_active_positions_from_disk]: the store after the call; [None]
    when the file holds a value outside the model. *)
Definition _load_active_positions_from_disk (file : option positions_file)
  : option (gmap pos_key pyval) :=
  match file with
  | None => Some ∅
  | Some loaded_data_str_keys => load_entries loaded_data_str_keys ∅
  end.

(** ** Rounding to the instrument steps *)

Definition pow10 (k : Z) : N := Z.to_N (10 ^ k).

(** The integer part of [|x / step|]: [(x / step).quantize(Decimal('1'),
    rounding=ROUND_DOWN)], the quotient taken exactly (the context of the
    decimal module keeps 28 significant digits, which is exact for every
    quotient shorter than that). *)
Definition trunc_div (x step : Decimal) : N :=
  let e := d_exp x - d_exp step in
  if 0 <=? e then ((d_int x * pow10 e) / d_int step)%N
  else (d_int x / (d_int step * pow10 (- e)))%N.

(** [((x / step).quantize(1, ROUND_DOWN) * step).quantize(step, ROUND_DOWN)]
    for a positive [step]: the multiple of [step] next to [x] towards
    zero, with the exponent of [step]. *)
Definition floor_to_step (x step : Decimal) : Decimal :=
  mkDecimal (d_sign x) (trunc_div x step * d_int step) (d_exp step).

(** [x.quantize(Decimal('1e-' + str(precision)), rounding=ROUND_DOWN)]. *)
Definition quantize_down (x : Decimal) (precision : N) : Decimal :=
  floor_to_step x (mkDecimal false 1 (- Z.of_N precision)).

Definition dec_positive (d : Decimal) : bool := negb (d_sign d) && dec_truthy d.

(** ** The arithmetic of the decimal module *)

(** The default context: 28 significant digits, ROUND_HALF_EVEN.  The
    bounds of the exponent (Emin and Emax, six digits long) are not
    modelled. *)
Definition context_prec : Z := 28.

Fixpoint count_digits (fuel : nat) (n : N) : Z :=
  match fuel with
  | O => 1
  | S f => if (n <? 10)%N then 1 else 1 + count_digits f (n / 10)
  end.

(** [len(self._int)]: the number of digits of a coefficient. *)
Definition ndigits (n : N) : Z := count_digits (N.to_nat (N.size n)) n.

(** The coefficient [c] without its last [k] digits, rounded half to even. *)
Definition round_half_even (c : N) (k : Z) : N :=
  let q := (c / pow10 k)%N in
  let r := (c mod pow10 k)%N in
  let half := (5 * pow10 (k - 1))%N in
  if (r =? half)%N && N.even q then q
  else if (half <=? r)%N then (q + 1)%N
  else q.

(** [Decimal._fix]: the result of an operation is rounded to the
    precision of the context. *)
Definition dec_fix (d : Decimal) : Decimal :=
  let n := ndigits (d_int d) in
  if (d_int d =? 0)%N then d
  else if n <=? context_prec then d
  else
    let k := n - context_prec in
    let c := round_half_even (d_int d) k in
    if context_prec <? ndigits c
    then mkDecimal (d_sign d) (c / 10) (d_exp d + k + 1)
    else mkDecimal (d_sign d) c (d_exp d + k).

Definition dec_neg (d : Decimal) : Decimal :=
  mkDecimal (negb (d_sign d)) (d_int d) (d_exp d).

(** [abs(d)]. *)
Definition dec_abs (d : Decimal) : Decimal :=
  dec_fix (mkDecimal false (d_int d) (d_exp d)).

(** [a * b]. *)
Definition dec_mul (a b : Decimal) : Decimal :=
  dec_fix (mkDecimal (xorb (d_sign a) (d_sign b)) (d_int a * d_int b)
             (d_exp a + d_exp b)).

(** [d] written with the exponent [e], not above its own. *)
Definition dec_rescale (d : Decimal) (e : Z) : Decimal :=
  mkDecimal (d_sign d) (d_int d * pow10 (d_exp d - e)) e.

(** [a + b]: the operands are aligned on the lower exponent and added
    exactly, and the sum is rounded.  (The module shortens an operand
    that lies wholly below the precision of the other to one sticky
    digit before it adds, which rounds to the same decimal.) *)
Definition dec_add (a b : Decimal) : Decimal :=
  let exp := Z.min (d_exp a) (d_exp b) in
  if negb (dec_truthy a) && negb (dec_truthy b) then
    dec_fix (mkDecimal (d_sign a && d_sign b) 0 exp)
  else if negb (dec_truthy a) then
    dec_fix (dec_rescale b (Z.max exp (d_exp b - context_prec - 1)))
  else if negb (dec_truthy b) then
    dec_fix (dec_rescale a (Z.max exp (d_exp a - context_prec - 1)))
  else
    let ia := (d_int a * pow10 (d_exp a - exp))%N in
    let ib := (d_int b * pow10 (d_exp b - exp))%N in
    if Bool.eqb (d_sign a) (d_sign b) then
      dec_fix (mkDecimal (d_sign a) (ia + ib) exp)
    else if (ia =? ib)%N then dec_fix (mkDecimal false 0 exp)
    else if (ia <? ib)%N then dec_fix (mkDecimal (d_sign b) (ib - ia) exp)
    else dec_fix (mkDecimal (d_sign a) (ia - ib) exp).

(** [a - b]. *)
Definition dec_sub (a b : Decimal) : Decimal := dec_add a (dec_neg b).

(** The exceptions of the decimal module the engine can meet. *)
Inductive exn :=
| DivisionByZero
| DivisionUndefined
| ConversionSyntax.

(** [str(e)]. *)
Definition str_of_exn (e : exn) : string :=
  match e with
  | DivisionByZero => "[<class 'decimal.DivisionByZero'>]"
  | DivisionUndefined => "[<class 'decimal.DivisionUndefined'>]"
  | ConversionSyntax => "[<class 'decimal.ConversionSyntax'>]"
  end.

Inductive attempt (A : Type) :=
| Returns (a : A)
| Raises (e : exn).
Arguments Returns {A} _.
Arguments Raises {A} _.

(** An exact quotient is brought as close to the ideal exponent as its
    trailing zeros allow. *)
Fixpoint to_ideal_exp (fuel : nat) (coeff : N) (exp : Z) : N * Z :=
  match fuel with
  | O => (coeff, exp)
  | S f =>
      if (coeff mod 10 =? 0)%N then to_ideal_exp f (coeff / 10) (exp + 1)
      else (coeff, exp)
  end.

(** [a / b]: one digit more than the precision is computed, a remainder
    is recorded in the last digit, and the quotient is rounded. *)
Definition dec_div (a b : Decimal) : attempt Decimal :=
  let sign := xorb (d_sign a) (d_sign b) in
  if (d_int b =? 0)%N then
    Raises (if (d_int a =? 0)%N then DivisionUndefined else DivisionByZero)
  else if (d_int a =? 0)%N then
    Returns (dec_fix (mkDecimal sign 0 (d_exp a - d_exp b)))
  else
    let shift := ndigits (d_int b) - ndigits (d_int a) + context_prec + 1 in
    let exp := d_exp a - d_exp b - shift in
    let '(coeff, remainder) :=
      if 0 <=? shift
      then N.div_eucl (d_int a * pow10 shift) (d_int b)
      else N.div_eucl (d_int a) (d_int b * pow10 (- shift)) in
    let '(coeff, exp) :=
      if negb (remainder =? 0)%N
      then (if (coeff mod 5 =? 0)%N then (coeff + 1)%N else coeff, exp)
      else to_ideal_exp (Z.to_nat (d_exp a - d_exp b - exp)) coeff exp in
    Returns (dec_fix (mkDecimal sign coeff exp)).

(** ** The rounding error of the arithmetic *)

(** The coefficient with its sign. *)
Definition signed (s : bool) (c : N) : Z := if s then - Z.of_N c else Z.of_N c.

(** [x'] is [x] up to a relative error of [eps]. *)
Definition approx (eps x' x : Q) : Prop :=
  exists delta : Q, (- eps <= delta)%Q /\ (delta <= eps)%Q /\ (x' == x * (1 + delta))%Q.

(** Half a unit of the 28th digit: the error of one rounding. *)
Definition unit_roundoff : Q := 1 # (2 * 10 ^ 27).

(** One unit of the 29th digit: the error of the digit that records a
    remainder. *)
Definition quotient_roundoff : Q := 1 # (10 ^ 28).

(** The error of a division. *)
Definition division_roundoff : Q :=
  unit_roundoff + quotient_roundoff + unit_roundoff * quotient_roundoff.

(** The error of [balance * (risk / 100)]. *)
Definition amount_roundoff : Q :=
  unit_roundoff + (0 + division_roundoff + 0 * division_roundoff)
  + unit_roundoff * (0 + division_roundoff + 0 * division_roundoff).

(** The error of [abs(entry - stop)]. *)
Definition distance_roundoff : Q :=
  unit_roundoff + unit_roundoff + unit_roundoff * unit_roundoff.

(** A bound of the error of the quantity sized by risk. *)
Definition sizing_roundoff : Q := 3 # (10 ^ 27).

(** ** What the exchange reports *)

(** One element of the list [get_open_positions] returns; [None] is a key
    the dict does not have. *)
Record ApiPosition := mkApiPosition {
  api_symbol : option string;
  api_positionIdx : option Z;
  api_side : option string;
  api_size : option string;
  api_avgPrice : option string;
  api_stopLoss : option string;
  api_takeProfit : option string
}.

Record ApiOrder := mkApiOrder {
  api_orderId : option string;
  api_orderStatus : option string
}.

(** [float(s)], through the decimal the text spells: the engine only
    compares the result with zero, and the sign of a float is the sign of
    its literal unless the literal underflows.  [None] stands for
    [ValueError]. *)
Definition float_of_str (s : string) : option Q :=
  option_map dec_val (Decimal_of_str s).

(** [p.get('symbol') == symbol and p.get('positionIdx') == position_idx]. *)
Definition api_is (sym : string) (idx : Z) (p : ApiPosition) : bool :=
  match api_symbol p, api_positionIdx p with
  | Some s, Some i => String.eqb s sym && (i =? idx)
  | _, _ => false
  end.

(** [Decimal(s) if s and s != "0" else None]; the outer [None] stands for
    [InvalidOperation]. *)
Definition live_price (s : option string) : option (option Decimal) :=
  match s with
  | None => Some None
  | Some str =>
      if String.eqb str "" || String.eqb str "0" then Some None
      else match Decimal_of_str str with
           | Some d => Some (Some d)
           | None => None
           end
  end.

Definition opt_dec_eqb (a b : option Decimal) : bool :=
  match a, b with
  | None, None => true
  | Some x, Some y => dec_eqb x y
  | _, _ => false
  end.

Definition opt_truthy (a : option Decimal) : bool :=
  match a with
  | Some d => dec_truthy d
  | None => false
  end.

(** [a or b] on optional decimals. *)
Definition opt_or (a b : option Decimal) : option Decimal :=
  if opt_truthy a then a else b.

(** The result of [safe_api_call] around a REST call of the session. *)
Record ApiError := mkApiError {
  err_code : option Z;
  err_msg : string
}.

Inductive call_result :=
| CallOk (retCode : option Z)      (* (response, None), the response a dict *)
| CallOther (truthy : bool)        (* (response, None), the response not a dict *)
| CallError (error : ApiError)     (* (None, error) *)
| CallRaise.                       (* the call raised *)

Record StopParams := mkStopParams {
  sp_symbol : string;
  sp_positionIdx : Z;
  sp_tpslMode : option string;
  sp_takeProfit : option string;
  sp_stopLoss : option string
}.

(** The exchange as the engine sees it: a state [X] and the calls of
    [BybitTrader] the reconciliation uses. *)
Record Gateway (X : Type) := mkGateway {
  get_open_positions : X -> string -> list ApiPosition * X;
  session_set_trading_stop : X -> StopParams -> call_result * X;
  get_tickers_lastPrice : X -> string -> option string * X
}.
Arguments get_open_positions {X} _ _ _.
Arguments session_set_trading_stop {X} _ _ _.
Arguments get_tickers_lastPrice {X} _ _ _.

(** The calls of [BybitTrader] an entry uses besides those. *)
Record Broker (X : Type) := mkBroker {
  close_position : X -> string -> option string -> Q -> Z -> X;
  set_leverage : X -> string -> string -> bool * X
}.
Arguments close_position {X} _ _ _ _ _ _.
Arguments set_leverage {X} _ _ _ _.

(** The arguments of [place_order] that vary; the prices are the texts
    [float] is given. *)
Record OrderRequest := mkOrderRequest {
  or_symbol : string;
  or_side : string;
  or_qty : string;
  or_order_type : string;
  or_price : option string;
  or_take_profit : option string;
  or_stop_loss : option string;
  or_position_idx : Z
}.

(** ** The engine *)

Definition TPSL_VERIFICATION_RETRIES : nat := 3.
Definition TPSL_RETRY_DELAY_SECONDS : Q := 10.
Definition DEFAULT_MIN_ORDER_QTY : string := "0.001".

(** What the engine reads and does not change during a step: the
    instrument table, the configuration and the clock. *)
Record Env := mkEnv {
  instrument_tickSize : string -> option Decimal;
  instrument_qtyStep : string -> option Decimal;
  instrument_minOrderQty : string -> option string;
  price_precision : string -> N;
  qty_precision : string -> N;
  enable_breakeven_on_tp1 : bool;
  enable_breakeven_on_partial_tp : bool;
  telegram_bot : bool;
  utcnow : datetime;
  now_thailand : datetime
}.

(** Awaits and flushes, in the order they happen. *)
Inductive Event :=
| EvSavePositions
| EvSaveHistory
| EvGetPositions (sym : string)
| EvSetTradingStop (params : StopParams)
| EvGetTickers (sym : string)
| EvNotify (text : string)
| EvSleep (seconds : Q)
| EvSetLeverage (sym leverage : string)
| EvClosePosition (sym : string) (side_of_position_to_close : option string)
    (qty_to_close : Q) (position_idx : Z)
| EvNotifyClosed (sym : string) (size : Q) (side_closed : option string)
| EvPlaceOrder (request : OrderRequest).

Record Bot := mkBot {
  active_positions_details : gmap pos_key Position;
  trade_history : list pyval;
  positions_disk : option positions_file;
  history_disk : option (list pyval);
  trace : list Event
}.

Definition add_event (ev : Event) (bot : Bot) : Bot :=
  mkBot (active_positions_details bot) (trade_history bot)
        (positions_disk bot) (history_disk bot) (trace bot ++ [ev]).

Definition set_store (store : gmap pos_key Position) (bot : Bot) : Bot :=
  mkBot store (trade_history bot) (positions_disk bot) (history_disk bot) (trace bot).

(** [self._save_active_positions_to_disk()]. *)
Definition save_positions (bot : Bot) : Bot :=
  mkBot (active_positions_details bot) (trade_history bot)
        (_save_active_positions_to_disk (details_dict <$> active_positions_details bot))
        (history_disk bot) (trace bot ++ [EvSavePositions]).

Definition set_entry_price (v : option Decimal) (p : Position) : Position :=
  mkPosition (symbol p) (position_idx p) (side p) v (signal_entry_price p)
    (intended_sl p) (intended_tp1 p) (tp1_price p) (breakeven_applied p)
    (main_order_id p) (main_order_status p) (tp_order_ids p)
    (last_update_time p) (last_known_size p).

Definition set_side (v : string) (p : Position) : Position :=
  mkPosition (symbol p) (position_idx p) v (entry_price p) (signal_entry_price p)
    (intended_sl p) (intended_tp1 p) (tp1_price p) (breakeven_applied p)
    (main_order_id p) (main_order_status p) (tp_order_ids p)
    (last_update_time p) (last_known_size p).

Definition set_intended_sl (v : option Decimal) (p : Position) : Position :=
  mkPosition (symbol p) (position_idx p) (side p) (entry_price p)
    (signal_entry_price p) v (intended_tp1 p) (tp1_price p)
    (breakeven_applied p) (main_order_id p) (main_order_status p)
    (tp_order_ids p) (last_update_time p) (last_known_size p).

Definition set_intended_tp1 (v : option Decimal) (p : Position) : Position :=
  mkPosition (symbol p) (position_idx p) (side p) (entry_price p)
    (signal_entry_price p) (intended_sl p) v (tp1_price p)
    (breakeven_applied p) (main_order_id p) (main_order_status p)
    (tp_order_ids p) (last_update_time p) (last_known_size p).

Definition set_breakeven_applied (v : bool) (p : Position) : Position :=
  mkPosition (symbol p) (position_idx p) (side p) (entry_price p)
    (signal_entry_price p) (intended_sl p) (intended_tp1 p) (tp1_price p) v
    (main_order_id p) (main_order_status p) (tp_order_ids p)
    (last_update_time p) (last_known_size p).

Definition set_main_order_status (v : option string) (p : Position) : Position :=
  mkPosition (symbol p) (position_idx p) (side p) (entry_price p)
    (signal_entry_price p) (intended_sl p) (intended_tp1 p) (tp1_price p)
    (breakeven_applied p) (main_order_id p) v (tp_order_ids p)
    (last_update_time p) (last_known_size p).

Definition set_last_update_time (v : datetime) (p : Position) : Position :=
  mkPosition (symbol p) (position_idx p) (side p) (entry_price p)
    (signal_entry_price p) (intended_sl p) (intended_tp1 p) (tp1_price p)
    (breakeven_applied p) (main_order_id p) (main_order_status p)
    (tp_order_ids p) v (last_known_size p).

Definition set_last_known_size (v : option Decimal) (p : Position) : Position :=
  mkPosition (symbol p) (position_idx p) (side p) (entry_price p)
    (signal_entry_price p) (intended_sl p) (intended_tp1 p) (tp1_price p)
    (breakeven_applied p) (main_order_id p) (main_order_status p)
    (tp_order_ids p) (last_update_time p) v.

(** [self.active_positions_details[pos_key][...] = ...] on a tracked key. *)
Definition update_position (k : pos_key) (f : Position -> Position) (bot : Bot) : Bot :=
  set_store (alter f k (active_positions_details bot)) bot.

(** The decimal [_format_price] prints; the tick size of the instrument
    table is taken as the decimal it spells (an entry that is not a
    number sends the code to a fallback on floats, outside the model). *)
Definition format_price_decimal (env : Env) (price : Decimal) (sym : string) : Decimal :=
  let by_precision := quantize_down price (price_precision env sym) in
  match instrument_tickSize env sym with
  | Some price_step =>
      if dec_positive price_step
      then floor_to_step price price_step
      else by_precision
  | None => by_precision
  end.

(** [_format_price]. *)
Definition _format_price (env : Env) (price : Decimal) (sym : string) : string :=
  str_of_Decimal (format_price_decimal env price sym).

(** [_add_trade_to_history]: the event is appended and the history is
    flushed to disk. *)
Definition _add_trade_to_history (env : Env)
    (sym order_type sd qty : string) (price order_id : option string)
    (status : string) (pnl notes : option string) (bot : Bot) : Bot :=
  let trade_event :=
    trade_event (now_thailand env) sym order_type sd qty price order_id
      status pnl notes in
  let history := trade_history bot ++ [trade_event] in
  mkBot (active_positions_details bot) history (positions_disk bot)
        (_save_trade_history_to_disk history (history_disk bot))
        (trace bot ++ [EvSaveHistory]).

Definition str_of_opt_Decimal (o : option Decimal) : string :=
  match o with
  | Some d => str_of_Decimal d
  | None => "None"
  end.

(** [_handle_closed_position].  [closed_position_data], when given, is the
    tracked dict of the position, which has no ['size'] key: the quantity
    recorded is the last known size either way. *)
Definition _handle_closed_position (env : Env) (k : pos_key)
    (closed_position_data : option Position) (reason_override : option string)
    (bot : Bot) : Bot :=
  let '(sym, position_idx) := k in
  match active_positions_details bot !! k with
  | None => save_positions bot
  | Some tracked_info =>
      let bot := set_store (delete k (active_positions_details bot)) bot in
      let bot := save_positions bot in
      let reason_note :=
        default "Position Closed (Reason Undetermined)"%string
                (nonempty reason_override) in
      let pos_side := side tracked_info in
      let qty_closed := str_of_opt_Decimal (last_known_size tracked_info) in
      let bot :=
        _add_trade_to_history env sym "System Close" pos_side qty_closed
          (Some "N/A"%string) None
          ("Position Closed (" ++ reason_note ++ ")")%string
          (Some "N/A"%string)
          (Some ("PosIdx " ++ str_of_Z position_idx)%string) bot in
      let bot :=
        if telegram_bot env
        then add_event
               (EvNotify ("Position Closed: " ++ sym ++ " (" ++ pos_side
                          ++ ", Idx: " ++ str_of_Z position_idx
                          ++ ") Reason: " ++ reason_note)%string) bot
        else bot in
      match active_positions_details bot !! k with
      | Some _ =>
          save_positions (set_store (delete k (active_positions_details bot)) bot)
      | None => bot
      end
  end.

(** *** [BybitTrader.set_trading_stop] *)

Definition opt_nonempty (o : option string) : bool :=
  match o with
  | Some s => negb (String.eqb s "")
  | None => false
  end.

Definition text_of_opt (o : option string) : string :=
  match o with
  | Some s => s
  | None => "None"
  end.

(** The error codes and messages that mean the stop was already set. *)
Definition not_modified (error : ApiError) : bool :=
  let err_msg_lower := lower (err_msg error) in
  match err_code error with
  | Some 110043 => true
  | _ => false
  end
  || str_in "tpsl identical modify" err_msg_lower
  || str_in "not modified" err_msg_lower.

(** What [set_trading_stop] returns for each result of the REST call. *)
Definition set_trading_stop_result (r : call_result) : bool :=
  match r with
  | CallError error => not_modified error
  | CallOk (Some 0) => true
  | CallOk (Some 110043) => true
  | CallOk _ => false
  | CallOther _ => false
  | CallRaise => false
  end.

Section Engine.

Context {X : Type} (G : Gateway X) (env : Env).

Definition set_trading_stop (sym : string) (take_profit stop_loss : option string)
    (position_idx : Z) (tpsl_mode : string) (bot : Bot) (x : X) : bool * Bot * X :=
  if negb (opt_nonempty take_profit) && negb (opt_nonempty stop_loss)
     && negb (String.eqb (text_of_opt take_profit) "0")
     && negb (String.eqb (text_of_opt stop_loss) "0")
  then (false, bot, x)
  else
    let params :=
      mkStopParams sym position_idx
        (match take_profit, stop_loss with
         | None, None => None
         | _, _ => Some tpsl_mode
         end)
        take_profit stop_loss in
    let '(r, x) := session_set_trading_stop G x params in
    (set_trading_stop_result r, add_event (EvSetTradingStop params) bot, x).

Definition poll_positions (sym : string) (bot : Bot) (x : X)
  : list ApiPosition * Bot * X :=
  let '(l, x) := get_open_positions G x sym in
  (l, add_event (EvGetPositions sym) bot, x).

(** The size the exchange reports is absent or zero; [None] stands for an
    exception of [float]. *)
Definition gone_or_flat (target : option ApiPosition) : option bool :=
  match target with
  | None => Some true
  | Some p =>
      match float_of_str (default "0"%string (api_size p)) with
      | Some q => Some (Qeq_bool q 0)
      | None => None
      end
  end.

(** [Decimal(self._format_price(v, symbol)) if v else None]. *)
Definition formatted_intended (sym : string) (v : option Decimal)
  : option (option Decimal) :=
  match v with
  | Some d =>
      if dec_truthy d
      then match Decimal_of_str (_format_price env d sym) with
           | Some f => Some (Some f)
           | None => None
           end
      else Some None
  | None => Some None
  end.

(** [(formatted == current) or (not formatted and not current)]. *)
Definition side_matches (formatted current : option Decimal) : bool :=
  opt_dec_eqb formatted current
  || (negb (opt_truthy formatted) && negb (opt_truthy current)).

(** [self._format_price(v, symbol) if v else "0"]. *)
Definition price_to_set (sym : string) (v : option Decimal) : string :=
  match v with
  | Some d => if dec_truthy d then _format_price env d sym else "0"%string
  | None => "0"%string
  end.

(** [tp_matches and sl_matches]: the stops the exchange reports against
    the intended ones, the intended ones rounded to the tick size.
    [None] stands for an exception of [Decimal]. *)
Definition tpsl_matches (sym : string)
    (effective_intended_tp effective_intended_sl : option Decimal)
    (current_tp_str current_sl_str : option string) : option bool :=
  match live_price current_tp_str, live_price current_sl_str with
  | Some current_tp_decimal, Some current_sl_decimal =>
      match formatted_intended sym effective_intended_tp,
            formatted_intended sym effective_intended_sl with
      | Some formatted_intended_tp, Some formatted_intended_sl =>
          let tp_matches := side_matches formatted_intended_tp current_tp_decimal in
          let sl_matches := side_matches formatted_intended_sl current_sl_decimal in
          Some (tp_matches && sl_matches)
      | _, _ => None
      end
  | _, _ => None
  end.

(** The parameters of the corrective call for a tracked position. *)
Definition drift_params (sym : string) (position_idx : Z)
    (tracked_details : Position) : StopParams :=
  mkStopParams sym position_idx (Some "Partial"%string)
    (Some (price_to_set sym (intended_tp1 tracked_details)))
    (Some (price_to_set sym (intended_sl tracked_details))).

(** The body of the [try] of one attempt. *)
Inductive attempt_result :=
| Returned (b : bool)
| SetFailed
| Raised_in_try.

Definition verify_try (sym : string) (position_idx : Z)
    (tracked_details : Position) (bot : Bot) (x : X)
  : attempt_result * Bot * X :=
  let k := (sym, position_idx) in
  let '(current_positions_on_exchange, bot, x) := poll_positions sym bot x in
  let target_position_data :=
    List.find (api_is sym position_idx) current_positions_on_exchange in
  match gone_or_flat target_position_data with
  | None => (Raised_in_try, bot, x)
  | Some true =>
      let status := main_order_status tracked_details in
      if str_mem (default ""%string status) ["New"; "Submitted"; "PartiallyFilled"]%string
         && negb (opt_truthy (entry_price tracked_details))
      then (Returned true, bot, x)
      else
        match active_positions_details bot !! k with
        | Some _ =>
            (Returned true,
             _handle_closed_position env k (Some tracked_details) None bot, x)
        | None => (Returned true, bot, x)
        end
  | Some false =>
      let current_tp_str := target_position_data ≫= api_takeProfit in
      let current_sl_str := target_position_data ≫= api_stopLoss in
      let effective_intended_tp := intended_tp1 tracked_details in
      let effective_intended_sl := intended_sl tracked_details in
      match tpsl_matches sym effective_intended_tp effective_intended_sl
              current_tp_str current_sl_str with
      | None => (Raised_in_try, bot, x)
      | Some true => (Returned true, bot, x)
      | Some false =>
          let tp_to_set_str := price_to_set sym effective_intended_tp in
          let sl_to_set_str := price_to_set sym effective_intended_sl in
          let '(success, bot, x) :=
            set_trading_stop sym (Some tp_to_set_str) (Some sl_to_set_str)
              position_idx "Partial" bot x in
          if success then
            let bot :=
              match active_positions_details bot !! k with
              | Some _ =>
                  save_positions
                    (update_position k
                       (fun p => set_last_update_time (utcnow env)
                                   (set_intended_sl effective_intended_sl
                                      (set_intended_tp1 effective_intended_tp p)))
                       bot)
              | None => bot
              end in
            (Returned true, add_event (EvSleep 1) bot, x)
          else (SetFailed, bot, x)
      end
  end.

(** One turn of the [for attempt in range(TPSL_VERIFICATION_RETRIES + 1)]
    loop: [Some b] when the function returns [b], [None] when the loop
    goes on. *)
Definition verify_attempt (sym : string) (position_idx : Z) (attempt : nat)
    (bot : Bot) (x : X) : option bool * Bot * X :=
  match active_positions_details bot !! (sym, position_idx) with
  | None => (Some true, bot, x)
  | Some tracked_details =>
      match verify_try sym position_idx tracked_details bot x with
      | (Returned b, bot, x) => (Some b, bot, x)
      | (SetFailed, bot, x) =>
          if (attempt <? TPSL_VERIFICATION_RETRIES)%nat
          then (None, add_event (EvSleep TPSL_RETRY_DELAY_SECONDS) bot, x)
          else
            (Some false,
             _add_trade_to_history env sym "System" "Alert" "N/A" None None
               "CRITICAL: TP/SL Set Fail" (Some "0.00"%string)
               (Some ("PosIdx " ++ str_of_Z position_idx)%string) bot,
             x)
      | (Raised_in_try, bot, x) =>
          if (attempt <? TPSL_VERIFICATION_RETRIES)%nat
          then (None, add_event (EvSleep TPSL_RETRY_DELAY_SECONDS) bot, x)
          else (Some false, bot, x)
      end
  end.

Fixpoint verify_loop (turns : nat) (sym : string) (position_idx : Z)
    (attempt : nat) (bot : Bot) (x : X) : bool * Bot * X :=
  match turns with
  | O => (false, bot, x)
  | S turns' =>
      match verify_attempt sym position_idx attempt bot x with
      | (Some b, bot, x) => (b, bot, x)
      | (None, bot, x) => verify_loop turns' sym position_idx (S attempt) bot x
      end
  end.

(** [_verify_and_set_tpsl_for_position]; the two intended prices it is
    given are only logged. *)
Definition _verify_and_set_tpsl_for_position (sym : string)
    (intended_tp intended_sl : option Decimal) (position_idx : Z)
    (bot : Bot) (x : X) : bool * Bot * X :=
  verify_loop (TPSL_VERIFICATION_RETRIES + 1) sym position_idx 0 bot x.

(** *** One key of [_periodic_verify_and_maintain_tpsl] *)

(** [pos_details[...] = ...]: the dict of the key is the one in the store. *)
Definition mutate (k : pos_key) (f : Position -> Position)
    (st : Position * Bot) : Position * Bot :=
  (f (fst st), update_position k f (snd st)).

(** The break-even on a partial take-profit.  [None] stands for an
    exception, raised before anything is changed. *)
Definition breakeven_on_partial (k : pos_key) (pos_data_from_api : ApiPosition)
    (actual_entry_price : option Decimal) (breakeven_already_applied : bool)
    (pos_side : string) (st : Position * Bot) : option (Position * Bot) :=
  let '(sym, position_idx) := k in
  if enable_breakeven_on_partial_tp env && negb breakeven_already_applied
     && opt_truthy actual_entry_price
  then
    match Decimal_of_str (default "0"%string (api_size pos_data_from_api)),
          last_known_size (fst st) with
    | Some live_size, Some last_known_size =>
        let st :=
          if dec_ltb live_size last_known_size then
            let st := mutate k (set_intended_sl actual_entry_price) st in
            let st := mutate k (set_breakeven_applied true) st in
            let bot := save_positions (snd st) in
            let bot :=
              _add_trade_to_history env sym "System" pos_side
                (str_of_Decimal live_size)
                (Some (str_of_opt_Decimal actual_entry_price)) None
                "SL to Break-Even (Partial TP)" (Some "0.00"%string)
                (Some ("PosIdx " ++ str_of_Z position_idx ++ ", Partial TP")%string)
                bot in
            let bot :=
              if telegram_bot env
              then add_event (EvNotify ("SL to BE (partial TP): " ++ sym)%string) bot
              else bot in
            (fst st, bot)
          else st in
        Some (mutate k (set_last_known_size (Some live_size)) st)
    | _, _ => None
    end
  else Some st.

(** The price has crossed TP1 in favour of the position; [None] stands
    for an exception. *)
Definition tp1_hit (pos_side : string) (market_price_str : option string)
    (tp1_target_price_for_be : Decimal) : option bool :=
  match nonempty market_price_str with
  | None => Some false
  | Some s =>
      match Decimal_of_str s with
      | None => None
      | Some current_market_price =>
          if dec_truthy current_market_price then
            Some ((String.eqb pos_side "BUY"
                   && dec_leb tp1_target_price_for_be current_market_price)
                  || (String.eqb pos_side "SELL"
                      && dec_leb current_market_price tp1_target_price_for_be))
          else Some false
      end
  end.

(** The break-even on a TP1 crossing; an exception inside its [try] is
    logged and leaves the position as it is. *)
Definition breakeven_on_tp1 (k : pos_key) (pos_data_from_api : ApiPosition)
    (actual_entry_price tp1_target_price_for_be : option Decimal)
    (breakeven_already_applied : bool) (pos_side : string)
    (st : Position * Bot) (x : X) : Position * Bot * X :=
  let '(sym, position_idx) := k in
  match actual_entry_price, tp1_target_price_for_be with
  | Some entry, Some tp1 =>
      if enable_breakeven_on_tp1 env && negb breakeven_already_applied
         && dec_truthy tp1 && dec_truthy entry && dec_ltb (dec_of_Z 0) entry
      then
        let '(market_price_str, x) := get_tickers_lastPrice G x sym in
        let st := (fst st, add_event (EvGetTickers sym) (snd st)) in
        match tp1_hit pos_side market_price_str tp1 with
        | Some true =>
            match Decimal_of_str (_format_price env entry sym),
                  formatted_intended sym (intended_sl (fst st)) with
            | Some formatted_new_sl, Some current_formatted_intended_sl =>
                if negb (opt_dec_eqb current_formatted_intended_sl (Some formatted_new_sl))
                then
                  let st := mutate k (set_intended_sl (Some entry)) st in
                  let st := mutate k (set_breakeven_applied true) st in
                  let bot := save_positions (snd st) in
                  let bot :=
                    _add_trade_to_history env sym "System" pos_side
                      (default "N/A"%string (api_size pos_data_from_api))
                      (Some (str_of_Decimal entry)) None "SL to Break-Even"
                      (Some "0.00"%string)
                      (Some ("PosIdx " ++ str_of_Z position_idx ++ ", TP1 hit")%string)
                      bot in
                  (fst st, bot, x)
                else
                  let st := mutate k (set_breakeven_applied true) st in
                  (fst st, save_positions (snd st), x)
            | _, _ => (st, x)
            end
        | _ => (st, x)
        end
      else (st, x)
  | _, _ => (st, x)
  end.

(** The body of [for pos_key in tracked_position_keys].  The boolean says
    whether an exception left the loop. *)
Definition maintain_position (k : pos_key) (bot : Bot) (x : X) : bool * Bot * X :=
  let '(sym, position_idx) := k in
  match active_positions_details bot !! k with
  | None => (false, bot, x)
  | Some pos_details =>
      if negb (str_mem (default ""%string (main_order_status pos_details))
                 ["Filled"; "N/A (External/Synced)"]%string)
      then (false, bot, x)
      else
        let '(current_positions_on_exchange, bot, x) := poll_positions sym bot x in
        let found := List.find (api_is sym position_idx) current_positions_on_exchange in
        match gone_or_flat found, found with
        | None, _ => (true, bot, x)
        | Some true, _ =>
            (false, _handle_closed_position env k (Some pos_details) None bot, x)
        | Some false, None => (false, bot, x)
        | Some false, Some pos_data_from_api =>
            match live_price (api_avgPrice pos_data_from_api) with
            | None => (true, bot, x)
            | Some live_avg_price =>
                let st :=
                  match live_avg_price with
                  | Some _ =>
                      if negb (opt_dec_eqb (entry_price pos_details) live_avg_price)
                      then
                        let st := mutate k (set_entry_price live_avg_price)
                                    (pos_details, bot) in
                        (fst st, save_positions (snd st))
                      else (pos_details, bot)
                  | None => (pos_details, bot)
                  end in
                let actual_entry_price :=
                  opt_or (entry_price (fst st)) (signal_entry_price (fst st)) in
                let tp1_target_price_for_be := tp1_price (fst st) in
                let breakeven_already_applied := breakeven_applied (fst st) in
                let pos_side := upper (side (fst st)) in
                match breakeven_on_partial k pos_data_from_api actual_entry_price
                        breakeven_already_applied pos_side st with
                | None => (true, snd st, x)
                | Some st =>
                    let '(pos, bot, x) :=
                      breakeven_on_tp1 k pos_data_from_api actual_entry_price
                        tp1_target_price_for_be breakeven_already_applied
                        pos_side st x in
                    let '(_, bot, x) :=
                      _verify_and_set_tpsl_for_position sym (intended_tp1 pos)
                        (intended_sl pos) position_idx bot x in
                    (false, add_event (EvSleep (1 # 5)) bot, x)
                end
            end
        end
  end.

(** One pass of the loop over the keys tracked when it starts; an
    exception ends the pass. *)
Fixpoint maintain_keys (keys : list pos_key) (bot : Bot) (x : X) : Bot * X :=
  match keys with
  | [] => (bot, x)
  | k :: r =>
      match maintain_position k bot x with
      | (true, bot, x) => (bot, x)
      | (false, bot, x) => maintain_keys r bot x
      end
  end.

Definition maintain_pass (bot : Bot) (x : X) : Bot * X :=
  maintain_keys (map fst (map_to_list (active_positions_details bot))) bot x.

(** The body of the loop, again and again on one key. *)
Fixpoint maintain_repeat (n : nat) (k : pos_key) (bot : Bot) (x : X) : Bot * X :=
  match n with
  | O => (bot, x)
  | S n' =>
      let '(_, bot, x) := maintain_position k bot x in
      maintain_repeat n' k bot x
  end.

End Engine.

(** ** Sizing and entry *)

Module TradingSignal.
Record t := mk {
  symbol : string;
  position : string;
  entry_price : option Decimal;
  take_profits : list Decimal;
  stop_loss : option Decimal;
  leverage : option Z
}.
End TradingSignal.

(** The attributes of the bot and the entries of its configuration that
    an entry reads.  A float is held as the decimal [Decimal(str(x))]
    makes of it, which has its sign. *)
Record Setup := mkSetup {
  running : bool;
  bybit_connected : bool;
  target_trading_symbol : string;
  position_size_mode : string;
  risk_per_trade_percentage : Decimal;
  current_available_balance : Decimal;
  max_position_size : string -> string;
  default_leverage : Z;
  stop_loss_percentage : Decimal;
  take_profit_percentage : Decimal
}.

Definition Decimal_0 : Decimal := dec_of_Z 0.

(** The decimal [_format_quantity] prints, read as [format_price_decimal]. *)
Definition format_quantity_decimal (env : Env) (quantity : Decimal) (sym : string)
  : Decimal :=
  let by_precision := quantize_down quantity (qty_precision env sym) in
  match instrument_qtyStep env sym with
  | Some qty_step =>
      if dec_positive qty_step
      then floor_to_step quantity qty_step
      else by_precision
  | None => by_precision
  end.

(** [_format_quantity]. *)
Definition _format_quantity (env : Env) (quantity : Decimal) (sym : string) : string :=
  str_of_Decimal (format_quantity_decimal env quantity sym).

(** [_calculate_position_size_fixed]. *)
Definition _calculate_position_size_fixed (setup : Setup) (signal : TradingSignal.t)
  : Decimal :=
  let order_qty_asset_str :=
    max_position_size setup (upper (TradingSignal.symbol signal)) in
  match Decimal_of_str order_qty_asset_str with
  | Some order_qty_asset => order_qty_asset
  | None => Decimal_0
  end.

(** [not v or v <= Decimal(0)]. *)
Definition missing_or_not_positive (v : option Decimal) : bool :=
  match v with
  | Some d => negb (dec_truthy d) || dec_leb d Decimal_0
  | None => true
  end.

(** [_calculate_position_size_risk_percentage]. *)
Definition _calculate_position_size_risk_percentage (setup : Setup)
    (signal : TradingSignal.t) : attempt Decimal :=
  if dec_leb (current_available_balance setup) Decimal_0 then Returns Decimal_0
  else if missing_or_not_positive (TradingSignal.entry_price signal)
  then Returns Decimal_0
  else if missing_or_not_positive (TradingSignal.stop_loss signal)
  then Returns Decimal_0
  else
    match TradingSignal.entry_price signal, TradingSignal.stop_loss signal with
    | Some entry_price, Some stop_loss_price =>
        if String.eqb (upper (TradingSignal.position signal)) "LONG"
           && dec_leb entry_price stop_loss_price
        then Returns Decimal_0
        else if String.eqb (upper (TradingSignal.position signal)) "SHORT"
                && dec_leb stop_loss_price entry_price
        then Returns Decimal_0
        else
          let price_diff_per_unit := dec_abs (dec_sub entry_price stop_loss_price) in
          if dec_leb price_diff_per_unit Decimal_0 then Returns Decimal_0
          else
            match dec_div (risk_per_trade_percentage setup) (dec_of_Z 100) with
            | Raises e => Raises e
            | Returns fraction =>
                let risk_amount_usdt :=
                  dec_mul (current_available_balance setup) fraction in
                dec_div risk_amount_usdt price_diff_per_unit
            end
    | _, _ => Returns Decimal_0
    end.

(** The quantity of the risk-percentage mode as the specification words
    it, over the rationals. *)
Definition spec_risk_quantity (balance risk entry stop : Q) : Q :=
  ((balance * (risk / 100)) / Qabs (entry - stop))%Q.

(** The quantity [_determine_total_entry_qty] computes before it checks it. *)
Definition calculated_qty_asset (setup : Setup) (signal : TradingSignal.t)
  : attempt Decimal :=
  if String.eqb (position_size_mode setup) "fixed"
  then Returns (_calculate_position_size_fixed setup signal)
  else if String.eqb (position_size_mode setup) "risk_percentage"
  then _calculate_position_size_risk_percentage setup signal
  else Returns (_calculate_position_size_fixed setup signal).

(** [Decimal(min_order_qty_str)], or the default when it does not read. *)
Definition min_order_qty (env : Env) (sym : string) : Decimal :=
  let min_order_qty_str :=
    default DEFAULT_MIN_ORDER_QTY (instrument_minOrderQty env sym) in
  match Decimal_of_str min_order_qty_str with
  | Some m => m
  | None => mkDecimal false 1 (-3)
  end.

(** [str(signal.entry_price) if signal.entry_price else "Market"]. *)
Definition price_or_market (entry_price : option Decimal) : string :=
  match entry_price with
  | Some d => if dec_truthy d then str_of_Decimal d else "Market"
  | None => "Market"
  end.

(** [_determine_total_entry_qty]. *)
Definition _determine_total_entry_qty (setup : Setup) (env : Env)
    (signal : TradingSignal.t) (bot : Bot) : attempt Decimal * Bot :=
  match calculated_qty_asset setup signal with
  | Raises e => (Raises e, bot)
  | Returns calculated_qty_asset =>
      if dec_leb calculated_qty_asset Decimal_0 then (Returns Decimal_0, bot)
      else if dec_ltb calculated_qty_asset
                (min_order_qty env (TradingSignal.symbol signal))
      then
        (Returns Decimal_0,
         _add_trade_to_history env (TradingSignal.symbol signal) "System"
           (TradingSignal.position signal) (str_of_Decimal calculated_qty_asset)
           (Some (price_or_market (TradingSignal.entry_price signal)))
           (Some "N/A"%string) "Fail: Qty < Min" (Some "0.00"%string) None bot)
      else (Returns calculated_qty_asset, bot)
  end.

(** How [execute_trade_from_signal] goes, up to its entry order: it
    returns [False], an exception leaves it, or it calls [place_order]. *)
Inductive TradeOutcome :=
| TradeRefused
| TradeRaised
| TradeOrdered (request : OrderRequest).

(** [entry * (1 + pct / 100)] or [entry * (1 - pct / 100)]. *)
Definition percent_away (entry pct : Decimal) (above : bool) : attempt Decimal :=
  match dec_div pct (dec_of_Z 100) with
  | Raises e => Raises e
  | Returns fraction =>
      Returns (dec_mul entry
                 (if above then dec_add (dec_of_Z 1) fraction
                  else dec_sub (dec_of_Z 1) fraction))
  end.

(** A stop or a target of the signal, or the one the configured
    percentage gives when the signal has none. *)
Definition intended_or_percent (intended entry_price_for_calc : option Decimal)
    (pct : Decimal) (above : bool) : attempt (option Decimal) :=
  if opt_truthy entry_price_for_calc
     && negb (missing_or_not_positive entry_price_for_calc)
     && negb (opt_truthy intended)
     && dec_ltb Decimal_0 pct
  then
    match entry_price_for_calc with
    | Some entry =>
        match percent_away entry pct above with
        | Raises e => Raises e
        | Returns v => Returns (Some v)
        end
    | None => Returns intended
    end
  else Returns intended.

Section Entry.

Context {X : Type} (G : Gateway X) (B : Broker X) (env : Env) (setup : Setup).

(** The positions open on the symbol are closed before the entry. *)
Fixpoint close_open_positions (sym : string) (open_positions : list ApiPosition)
    (bot : Bot) (x : X) : bool * Bot * X :=
  match open_positions with
  | [] => (false, bot, x)
  | pos :: r =>
      match float_of_str (default "0"%string (api_size pos)) with
      | None => (true, bot, x)
      | Some size =>
          if Qle_bool size 0 then close_open_positions sym r bot x
          else
            let side := api_side pos in
            let pos_idx := default 0 (api_positionIdx pos) in
            let x := close_position B x sym side size pos_idx in
            let bot := add_event (EvClosePosition sym side size pos_idx) bot in
            let bot :=
              if telegram_bot env
              then add_event (EvNotifyClosed sym size side) bot else bot in
            let bot := add_event (EvSleep 1) bot in
            close_open_positions sym r bot x
      end
  end.

(** The [try] block of [execute_trade_from_signal], up to the entry
    order. *)
Definition entry_try (signal : TradingSignal.t) (bot : Bot) (x : X)
  : attempt TradeOutcome * Bot * X :=
  let sym := TradingSignal.symbol signal in
  let position := TradingSignal.position signal in
  let failed qty status bot :=
    _add_trade_to_history env sym "System" position qty
      (Some (price_or_market (TradingSignal.entry_price signal)))
      (Some "N/A"%string) status (Some "0.00"%string) None bot in
  match _determine_total_entry_qty setup env signal bot with
  | (Raises e, bot) => (Raises e, bot, x)
  | (Returns total_entry_qty_decimal, bot) =>
      if dec_leb total_entry_qty_decimal Decimal_0
      then (Returns TradeRefused, bot, x)
      else
        let total_entry_qty_str := _format_quantity env total_entry_qty_decimal sym in
        match Decimal_of_str total_entry_qty_str with
        | None => (Raises ConversionSyntax, bot, x)
        | Some formatted =>
            if dec_leb formatted Decimal_0
            then (Returns TradeRefused,
                  failed total_entry_qty_str "Fail: Qty Format Error"%string bot, x)
            else
              let position_idx_for_trade := 0 in
              let leverage_to_set :=
                str_of_Z
                  (match TradingSignal.leverage signal with
                   | Some l => if l =? 0 then default_leverage setup else l
                   | None => default_leverage setup
                   end) in
              let '(leverage_set_successfully, x) :=
                set_leverage B x sym leverage_to_set in
              let bot := add_event (EvSetLeverage sym leverage_to_set) bot in
              if negb leverage_set_successfully
              then (Returns TradeRefused,
                    failed total_entry_qty_str "Fail: Leverage Set"%string bot, x)
              else
                let entry_order_side :=
                  if String.eqb (upper position) "LONG"
                  then "Buy"%string else "Sell"%string in
                let limit :=
                  negb (missing_or_not_positive (TradingSignal.entry_price signal)) in
                let entry_order_type :=
                  if limit then "Limit"%string else "Market"%string in
                let entry_price_for_order_str :=
                  match TradingSignal.entry_price signal with
                  | Some e => if limit then Some (_format_price env e sym) else None
                  | None => None
                  end in
                let intended_sl_price := TradingSignal.stop_loss signal in
                let intended_tp1_price :=
                  List.find (fun tp => dec_truthy tp && dec_ltb Decimal_0 tp)
                    (TradingSignal.take_profits signal) in
                let '(entry_price_for_calc, bot, x) :=
                  if limit then (Returns (TradingSignal.entry_price signal), bot, x)
                  else
                    let '(market_price_str, x) := get_tickers_lastPrice G x sym in
                    let bot := add_event (EvGetTickers sym) bot in
                    match nonempty market_price_str with
                    | Some s =>
                        match Decimal_of_str s with
                        | Some d => (Returns (Some d), bot, x)
                        | None => (Raises ConversionSyntax, bot, x)
                        end
                    | None => (Returns (TradingSignal.entry_price signal), bot, x)
                    end in
                match entry_price_for_calc with
                | Raises e => (Raises e, bot, x)
                | Returns entry_price_for_calc =>
                    let long := String.eqb (upper position) "LONG" in
                    match intended_or_percent intended_sl_price entry_price_for_calc
                            (stop_loss_percentage setup) (negb long) with
                    | Raises e => (Raises e, bot, x)
                    | Returns intended_sl_price =>
                        match intended_or_percent intended_tp1_price
                                entry_price_for_calc
                                (take_profit_percentage setup) long with
                        | Raises e => (Raises e, bot, x)
                        | Returns intended_tp1_price =>
                            let formatted_stop v :=
                              match v with
                              | Some d =>
                                  if negb (missing_or_not_positive v)
                                  then Some (_format_price env d sym) else None
                              | None => None
                              end in
                            let request :=
                              mkOrderRequest sym entry_order_side total_entry_qty_str
                                entry_order_type entry_price_for_order_str
                                (formatted_stop intended_tp1_price)
                                (formatted_stop intended_sl_price)
                                position_idx_for_trade in
                            (Returns (TradeOrdered request),
                             add_event (EvPlaceOrder request) bot, x)
                        end
                    end
                end
        end
  end.

(** [execute_trade_from_signal] from its log block on, which asks for the
    quantity a first time, outside the [try]. *)
Definition enter_trade (signal : TradingSignal.t) (bot : Bot) (x : X)
  : TradeOutcome * Bot * X :=
  match _determine_total_entry_qty setup env signal bot with
  | (Raises _, bot) => (TradeRaised, bot, x)
  | (Returns _, bot) =>
      match entry_try signal bot x with
      | (Returns outcome, bot, x) => (outcome, bot, x)
      | (Raises e, bot, x) =>
          (TradeRefused,
           _add_trade_to_history env (TradingSignal.symbol signal) "System"
             (TradingSignal.position signal) "N/A" (Some "N/A"%string)
             (Some "N/A"%string)
             ("ERROR: " ++ substring 0 30 (str_of_exn e))%string
             (Some "0.00"%string) None bot, x)
      end
  end.

(** [execute_trade_from_signal], up to its entry order. *)
Definition execute_trade_from_signal (signal : TradingSignal.t) (bot : Bot) (x : X)
  : TradeOutcome * Bot * X :=
  let sym := TradingSignal.symbol signal in
  if negb (running setup) || negb (bybit_connected setup)
  then (TradeRefused, bot, x)
  else if negb (String.eqb (upper sym) (target_trading_symbol setup))
  then (TradeRefused,
        _add_trade_to_history env sym "Signal" (TradingSignal.position signal) "0"
          (Some "N/A"%string) (Some "N/A"%string)
          ("Ignored (Not " ++ target_trading_symbol setup ++ ")")%string
          (Some "0.00"%string) None bot, x)
  else
    let '(open_positions, x) := get_open_positions G x sym in
    let bot := add_event (EvGetPositions sym) bot in
    match close_open_positions sym open_positions bot x with
    | (true, bot, x) => (TradeRaised, bot, x)
    | (false, bot, x) => enter_trade signal bot x
    end.

End Entry.

(** ** The reconciliation of [update_initial_trading_data] *)

(** [next((p for p in positions if p.get('symbol') == symbol and
    p.get('positionIdx') == idx and float(p.get('size','0')) > 0), None)];
    the outer [None] stands for an exception of [float]. *)
Fixpoint find_active (sym : string) (idx : Z) (l : list ApiPosition)
  : option (option ApiPosition) :=
  match l with
  | [] => Some None
  | p :: r =>
      if api_is sym idx p then
        match float_of_str (default "0"%string (api_size p)) with
        | None => None
        | Some q => if Qle_bool q 0 then find_active sym idx r else Some (Some p)
        end
      else find_active sym idx r
  end.

(** [Decimal(s) if s else Decimal(0)] for [s = p.get('size', '0')]. *)
Definition live_size_of (p : ApiPosition) : option Decimal :=
  let s := default "0"%string (api_size p) in
  if String.eqb s "" then Some (dec_of_Z 0) else Decimal_of_str s.

Definition is_none {A} (o : option A) : bool :=
  match o with
  | None => true
  | Some _ => false
  end.

Definition opt_str_eqb (a b : option string) : bool :=
  match a, b with
  | None, None => true
  | Some x, Some y => String.eqb x y
  | _, _ => false
  end.

Definition order_is (main_order_id : option string) (o : ApiOrder) : bool :=
  opt_str_eqb (api_orderId o) main_order_id.

(** A tracked position found active on the exchange: what is synced from
    the exchange. *)
Definition sync_from_exchange (env : Env) (details_tracked : Position)
    (live_avg_price : option Decimal) (live_side : string) (live_size : Decimal)
    (live_sl live_tp : option Decimal) (p : Position) : Position :=
  let p :=
    if negb (opt_dec_eqb (entry_price details_tracked) live_avg_price)
       && opt_truthy live_avg_price
    then set_entry_price live_avg_price p else p in
  let p :=
    if negb (String.eqb (side details_tracked) live_side)
       && negb (String.eqb live_side "")
    then set_side live_side p else p in
  let p :=
    if negb (opt_dec_eqb (last_known_size details_tracked) (Some live_size))
    then set_last_known_size (Some live_size) p else p in
  let p :=
    if (is_none (intended_sl details_tracked) || breakeven_applied details_tracked)
       && negb (opt_dec_eqb (intended_sl details_tracked) live_sl)
    then set_intended_sl live_sl p else p in
  let p :=
    if is_none (intended_tp1 details_tracked)
       && negb (opt_dec_eqb (intended_tp1 details_tracked) live_tp)
    then set_intended_tp1 live_tp p else p in
  let p :=
    if negb (opt_str_eqb (main_order_status details_tracked) (Some "Filled"%string))
    then set_main_order_status (Some "Filled"%string) p else p in
  set_last_update_time (utcnow env) p.

(** Step 1 for one tracked key.  The boolean says whether an exception
    was raised. *)
Definition sync_tracked (env : Env) (new_positions_list_from_api : list ApiPosition)
    (current_open_orders : list ApiOrder) (k : pos_key) (details_tracked : Position)
    (bot : Bot) : bool * Bot :=
  let '(sym, idx) := k in
  let main_order_id := main_order_id details_tracked in
  let current_tracked_status := main_order_status details_tracked in
  match find_active sym idx new_positions_list_from_api with
  | None => (true, bot)
  | Some (Some pos_on_api) =>
      match live_price (api_avgPrice pos_on_api), live_size_of pos_on_api,
            live_price (api_stopLoss pos_on_api),
            live_price (api_takeProfit pos_on_api) with
      | Some live_avg_price, Some live_size, Some live_sl, Some live_tp =>
          let live_side := upper (default ""%string (api_side pos_on_api)) in
          (false,
           update_position k
             (sync_from_exchange env details_tracked live_avg_price live_side
                live_size live_sl live_tp) bot)
      | _, _, _, _ => (true, bot)
      end
  | Some None =>
      if opt_nonempty main_order_id
         && negb (str_mem (default ""%string current_tracked_status)
                    ["Filled"; "Cancelled"; "Rejected"; "Deactivated"]%string)
      then
        match List.find (order_is main_order_id) current_open_orders with
        | Some order_on_exchange =>
            let new_status_from_api := api_orderStatus order_on_exchange in
            if negb (opt_str_eqb current_tracked_status new_status_from_api)
            then (false,
                  update_position k
                    (fun p => set_last_update_time (utcnow env)
                                (set_main_order_status new_status_from_api p)) bot)
            else (false, bot)
        | None =>
            (false,
             _handle_closed_position env k None
               (Some "Entry Order Failed/Cancelled"%string) bot)
        end
      else if opt_str_eqb current_tracked_status (Some "Filled"%string) then
        (false,
         _handle_closed_position env k None
           (Some "Closed on Exchange (was Filled)"%string) bot)
      else
        match active_positions_details bot !! k with
        | Some _ =>
            (false,
             _handle_closed_position env k None
               (Some ("Cleanup (Status: " ++ text_of_opt current_tracked_status
                      ++ ")")%string) bot)
        | None => (false, bot)
        end
  end.

Fixpoint sync_all (env : Env) (positions : list ApiPosition) (orders : list ApiOrder)
    (items : list (pos_key * Position)) (bot : Bot) : bool * Bot :=
  match items with
  | [] => (false, bot)
  | (k, details_tracked) :: r =>
      match sync_tracked env positions orders k details_tracked bot with
      | (true, bot) => (true, bot)
      | (false, bot) => sync_all env positions orders r bot
      end
  end.

(** The entry synthesized for a position found on the exchange and not
    tracked. *)
Definition adopted (env : Env) (symbol_api : string) (pos_idx_api : Z)
    (live_side : string) (live_avg_price : option Decimal) (live_size : Decimal)
    (live_sl live_tp : option Decimal) : Position :=
  mkPosition symbol_api pos_idx_api live_side live_avg_price None live_sl live_tp
    live_tp false None (Some "Filled (External/Synced)"%string) []
    (utcnow env) (Some live_size).

(** Step 2: the positions of the exchange that are not tracked. *)
Fixpoint adopt_untracked (env : Env) (positions : list ApiPosition) (bot : Bot)
  : bool * Bot :=
  match positions with
  | [] => (false, bot)
  | pos_data_api :: r =>
      match nonempty (api_symbol pos_data_api) with
      | None => adopt_untracked env r bot
      | Some symbol_api =>
          let pos_idx_api := default 0 (api_positionIdx pos_data_api) in
          match float_of_str (default "0"%string (api_size pos_data_api)) with
          | None => (true, bot)
          | Some q =>
              if Qle_bool q 0 then adopt_untracked env r bot
              else
                let api_pos_key := (symbol_api, pos_idx_api) in
                match active_positions_details bot !! api_pos_key with
                | Some _ => adopt_untracked env r bot
                | None =>
                    match live_price (api_avgPrice pos_data_api),
                          live_size_of pos_data_api,
                          live_price (api_stopLoss pos_data_api),
                          live_price (api_takeProfit pos_data_api) with
                    | Some live_avg_price, Some live_size, Some live_sl, Some live_tp =>
                        let live_side :=
                          upper (default ""%string (api_side pos_data_api)) in
                        adopt_untracked env r
                          (set_store
                             (<[api_pos_key :=
                                  adopted env symbol_api pos_idx_api live_side
                                    live_avg_price live_size live_sl live_tp]>
                                (active_positions_details bot)) bot)
                    | _, _, _, _ => (true, bot)
                    end
                end
          end
      end
  end.

(** [float(p.get('size','0'))] returns, as the count of the active
    positions needs of every reported position. *)
Definition size_reads (p : ApiPosition) : bool :=
  negb (is_none (float_of_str (default "0"%string (api_size p)))).

(** The reconciliation block of [update_initial_trading_data], given the
    positions and the open orders it has fetched: tracked keys first,
    then the positions that are not tracked, then a flush when the set of
    keys has changed.  The boolean says whether an exception left the
    block. *)
Definition reconcile_positions (env : Env)
    (new_positions_list_from_api : list ApiPosition)
    (current_open_orders : list ApiOrder) (bot : Bot) : bool * Bot :=
  let previous_tracked_pos_keys : gset pos_key := dom (active_positions_details bot) in
  match sync_all env new_positions_list_from_api current_open_orders
          (map_to_list (active_positions_details bot)) bot with
  | (true, bot) => (true, bot)
  | (false, bot) =>
      match adopt_untracked env new_positions_list_from_api bot with
      | (true, bot) => (true, bot)
      | (false, bot) =>
          if forallb size_reads new_positions_list_from_api
          then
            (false,
             if decide (previous_tracked_pos_keys = dom (active_positions_details bot))
             then bot else save_positions bot)
          else (true, bot)
      end
  end.

(** The numbers of a reported position all read. *)
Definition api_well_formed (p : ApiPosition) : bool :=
  size_reads p
  && negb (is_none (live_price (api_avgPrice p)))
  && negb (is_none (live_size_of p))
  && negb (is_none (live_price (api_stopLoss p)))
  && negb (is_none (live_price (api_takeProfit p))).

(** The key under which a reported position is tracked. *)
Definition api_key (p : ApiPosition) : pos_key :=
  (default ""%string (api_symbol p), default 0 (api_positionIdx p)).

(** ** An exchange that does what it is told *)

(** The position after a set-stops call that names it. *)
Definition apply_stop (params : StopParams) (p : ApiPosition) : ApiPosition :=
  if api_is (sp_symbol params) (sp_positionIdx params) p then
    mkApiPosition (api_symbol p) (api_positionIdx p) (api_side p) (api_size p)
      (api_avgPrice p)
      (match sp_stopLoss params with Some s => Some s | None => api_stopLoss p end)
      (match sp_takeProfit params with Some s => Some s | None => api_takeProfit p end)
  else p.

(** The exchange with nothing else happening on it: its state is the list
    of positions it reports, a set-stops call succeeds and sets the stops
    of the position it names, and nothing else changes. *)
Definition obedient_exchange : Gateway (list ApiPosition) :=
  mkGateway (list ApiPosition)
    (fun x _ => (x, x))
    (fun x params => (CallOk (Some 0), map (apply_stop params) x))
    (fun x _ => (None, x)).

(** The tracked position for which a pass would make a corrective call:
    it is reported open, with stops that differ from the intended ones. *)
Definition drift_state (env : Env) (sym : string) (position_idx : Z)
    (store : gmap pos_key Position) (x : list ApiPosition) : option Position :=
  match store !! (sym, position_idx) with
  | None => None
  | Some p =>
      match List.find (api_is sym position_idx) x with
      | None => None
      | Some target =>
          match gone_or_flat (Some target),
                tpsl_matches env sym (intended_tp1 p) (intended_sl p)
                  (api_takeProfit target) (api_stopLoss target) with
          | Some false, Some false => Some p
          | _, _ => None
          end
      end
  end.

(** Following the words of the specification: the stop the exchange
    reports and the intended one are equal once both are rounded to the
    tick size, a null intention matching an absent or ["0"] report. *)
Definition spec_side_in_sync (env : Env) (sym : string)
    (intended : option Decimal) (reported : option string) : bool :=
  match (if opt_truthy intended then intended else None), live_price reported with
  | None, Some None => true
  | Some i, Some (Some e) =>
      dec_eqb (format_price_decimal env i sym) (format_price_decimal env e sym)
  | _, _ => false
  end.

(** ** Reading the history and the store *)

(** The status of a trade history entry. *)
Definition event_status (e : pyval) : option string :=
  match e with
  | PDict kv =>
      match dict_get "status" kv with
      | Some (PStr s) => Some s
      | _ => None
      end
  | _ => None
  end.

(** The same position but for the time of its last update. *)
Definition same_but_time (p q : Position) : Prop :=
  exists t, q = set_last_update_time t p.

(** The price a break-even promotion uses:
    [entry_price or signal_entry_price]. *)
Definition promotion_price (p : Position) : option Decimal :=
  opt_or (entry_price p) (signal_entry_price p).

(** The key is gone, or holds the position it held but for the time of
    its last update. *)
Definition kept (k : pos_key) (p0 : Position) (store : gmap pos_key Position) : Prop :=
  store !! k = None \/ exists q, store !! k = Some q /\ same_but_time p0 q.

(** Two prices that are equal once rounded down to the tick size. *)
Definition rounds_alike (env : Env) (sym : string) (a b : option Decimal) : Prop :=
  exists s e, a = Some s /\ b = Some e
              /\ dec_eqb (format_price_decimal env s sym)
                         (format_price_decimal env e sym) = true.

(** What a break-even trigger may do to a position [q], given the flag
    read before the triggers and the promotion price: nothing; or, when
    the flag was not set, set it and either move the stop to the
    promotion price or leave a stop that already rounds to it. *)
Definition promoted (env : Env) (sym : string) (breakeven_already_applied : bool)
    (actual_entry_price : option Decimal) (q q' : Position) : Prop :=
  entry_price q' = entry_price q
  /\ signal_entry_price q' = signal_entry_price q
  /\ ((breakeven_applied q' = breakeven_applied q /\ intended_sl q' = intended_sl q)
      \/ (breakeven_already_applied = false
          /\ breakeven_applied q' = true
          /\ opt_truthy actual_entry_price = true
          /\ (intended_sl q' = actual_entry_price
              \/ (intended_sl q' = intended_sl q
                  /\ rounds_alike env sym (intended_sl q) actual_entry_price)))).

(** ** Reading a trace *)

Definition is_set_stop (ev : Event) : bool :=
  match ev with
  | EvSetTradingStop _ => true
  | _ => false
  end.

(** The number of set-stops calls in a trace. *)
Definition count_set_stops (tr : list Event) : nat :=
  length (List.filter is_set_stop tr).

Definition is_retry_delay (ev : Event) : bool :=
  match ev with
  | EvSleep s => Qeq_bool s TPSL_RETRY_DELAY_SECONDS
  | _ => false
  end.

(** The number of retry delays in a trace. *)
Definition count_retry_delays (tr : list Event) : nat :=
  length (List.filter is_retry_delay tr).

(** ** Sample data *)

Definition sample_time : datetime := mkDatetime 2025 1 5 12 0 7 0.

Definition sample_event : pyval :=
  trade_event sample_time "BTCUSDT" "Market" "Buy" "0.001" None
    (Some "a1b2c3") "Entry Placed" (Some "0.00") None.

Definition sample_env : Env :=
  mkEnv (fun _ => Some (mkDecimal false 1 (-1)))
        (fun _ => Some (mkDecimal false 1 (-3)))
        (fun _ => Some "0.001"%string)
        (fun _ => 1%N) (fun _ => 3%N)
        true true true sample_time sample_time.

(** A long position of 0.010 BTC entered at 100.0, stop 95.0, target 110.0. *)
Definition sample_position : Position :=
  mkPosition "BTCUSDT" 0 "BUY"
    (Some (mkDecimal false 1000 (-1))) None
    (Some (mkDecimal false 950 (-1))) (Some (mkDecimal false 1100 (-1)))
    (Some (mkDecimal false 1100 (-1))) false
    (Some "a1b2c3"%string) (Some "Filled"%string) []
    (mkDatetime 2025 1 5 11 30 0 250) (Some (mkDecimal false 10 (-3))).

Definition sample_key : pos_key := ("BTCUSDT"%string, 0).

Definition sample_bot : Bot :=
  mkBot {[ sample_key := sample_position ]} [] None None [].

(** The position as the exchange reports it, without stops. *)
Definition sample_api_position : ApiPosition :=
  mkApiPosition (Some "BTCUSDT"%string) (Some 0) (Some "Buy"%string)
    (Some "0.010"%string) (Some "100.0"%string) (Some "0"%string) (Some ""%string).

(** An exchange that refuses every set-stops call. *)
Definition refusing_gateway : Gateway unit :=
  mkGateway unit
    (fun x _ => ([sample_api_position], x))
    (fun x _ => (CallError (mkApiError (Some 10001) "params error"), x))
    (fun x _ => (None, x)).

(** An exchange that answers every set-stops call with "not modified". *)
Definition unmodified_gateway : Gateway unit :=
  mkGateway unit
    (fun x _ => ([sample_api_position], x))
    (fun x _ => (CallError (mkApiError (Some 110043) "Set TP/SL Not modified"), x))
    (fun x _ => (None, x)).

(** The sample position as an exchange reports it with a stop that is off
    the tick grid by less than a tick. *)
Definition off_tick_api_position : ApiPosition :=
  mkApiPosition (Some "BTCUSDT"%string) (Some 0) (Some "Buy"%string)
    (Some "0.010"%string) (Some "100.0"%string) (Some "95.04"%string)
    (Some "110.0"%string).

(** A long position whose average fill price, 100.04, is off the tick
    grid, with a stop at 100.01 that rounds to the same tick. *)
Definition off_grid_position : Position :=
  mkPosition "BTCUSDT" 0 "BUY"
    (Some (mkDecimal false 10004 (-2))) None
    (Some (mkDecimal false 10001 (-2))) (Some (mkDecimal false 1100 (-1)))
    (Some (mkDecimal false 1100 (-1))) false
    (Some "a1b2c3"%string) (Some "Filled"%string) []
    (mkDatetime 2025 1 5 11 30 0 250) (Some (mkDecimal false 10 (-3))).

(** That position with the break-even flag set and nothing else changed. *)
Definition off_grid_promoted : Position :=
  set_breakeven_applied true off_grid_position.

Definition off_grid_bot : Bot :=
  mkBot {[ sample_key := off_grid_position ]} [] None None [].

(** The exchange reports that position with its stops in place, and a
    last price above the first target. *)
Definition target_crossed_gateway : Gateway unit :=
  mkGateway unit
    (fun x _ =>
       ([mkApiPosition (Some "BTCUSDT"%string) (Some 0) (Some "Buy"%string)
           (Some "0.010"%string) (Some "100.04"%string) (Some "100.0"%string)
           (Some "110.0"%string)], x))
    (fun x _ => (CallOk (Some 0), x))
    (fun x _ => (Some "111.0"%string, x)).

(** The exchange no longer reports the sample position. *)
Definition flat_gateway : Gateway unit :=
  mkGateway unit
    (fun x _ => ([], x))
    (fun x _ => (CallOk (Some 0), x))
    (fun x _ => (None, x)).

(** A short position on ETHUSDT opened by hand, with a stop and no target. *)
Definition external_api_position : ApiPosition :=
  mkApiPosition (Some "ETHUSDT"%string) (Some 0) (Some "Sell"%string)
    (Some "1.5"%string) (Some "2000.5"%string) (Some "2100"%string)
    (Some "0"%string).

(** An instrument traded in steps of 0.002 from 0.005 on. *)
Definition coarse_env : Env :=
  mkEnv (fun _ => Some (mkDecimal false 1 (-1)))
        (fun _ => Some (mkDecimal false 2 (-3)))
        (fun _ => Some "0.005"%string)
        (fun _ => 1%N) (fun _ => 3%N)
        true true true sample_time sample_time.

(** A bot that sizes by risk: 1% of an available balance of 1000. *)
Definition risk_setup : Setup :=
  mkSetup true true "BTCUSDT" "risk_percentage"
    (mkDecimal false 10 (-1)) (mkDecimal false 10000 (-1))
    (fun _ => "0.001"%string) 10 (dec_of_Z 0) (dec_of_Z 0).

(** A bot that enters with the fixed quantity 0.0055. *)
Definition fixed_setup : Setup :=
  mkSetup true true "BTCUSDT" "fixed"
    (mkDecimal false 10 (-1)) (mkDecimal false 10000 (-1))
    (fun _ => "0.0055"%string) 10 (dec_of_Z 0) (dec_of_Z 0).

(** Long BTCUSDT at 100, stop 95, target 110. *)
Definition long_signal : TradingSignal.t :=
  TradingSignal.mk "BTCUSDT" "LONG" (Some (dec_of_Z 100)) [dec_of_Z 110]
    (Some (dec_of_Z 95)) None.

(** A long signal whose stop is above its entry. *)
Definition crossed_signal : TradingSignal.t :=
  TradingSignal.mk "BTCUSDT" "LONG" (Some (dec_of_Z 100)) [dec_of_Z 110]
    (Some (dec_of_Z 105)) None.

(** An exchange without positions that sets every leverage. *)
Definition willing_broker : Broker unit :=
  mkBroker unit (fun x _ _ _ _ => x) (fun x _ _ => (true, x)).

Definition empty_bot : Bot := mkBot ∅ [] None None [].

(** A bot that enters with the fixed quantity 0.0004. *)
Definition tiny_setup : Setup :=
  mkSetup true true "BTCUSDT" "fixed"
    (mkDecimal false 10 (-1)) (mkDecimal false 10000 (-1))
    (fun _ => "0.0004"%string) 10 (dec_of_Z 0) (dec_of_Z 0).

(** No decimal and no timestamp is left in the value: [json.dump] takes it. *)
Fixpoint json_safe (v : pyval) : bool :=
  match v with
  | PDec _ | PDate _ => false
  | PList l => forallb json_safe l
  | PDict kv => forallb (fun p => json_safe (snd p)) kv
  | _ => true
  end.

(** The strings of the value read neither as a number nor as a timestamp,
    and its timestamps are dates of the calendar. *)
Fixpoint reloads (v : pyval) : bool :=
  match v with
  | PStr s =>
      is_none (Decimal_of_str s)
      && is_none (fromisoformat (replace_char "Z" "+00:00" s))
  | PDate t => valid_datetime t
  | PList l => forallb reloads l
  | PDict kv => forallb (fun p => reloads (snd p)) kv
  | _ => true
  end.

(** A position the exchange reports with a symbol and a positive size,
    and the key it is tracked under. *)
Definition reported_open (p : ApiPosition) (k : pos_key) : Prop :=
  nonempty (api_symbol p) = Some (fst k)
  /\ default 0 (api_positionIdx p) = snd k
  /\ exists size, float_of_str (default "0"%string (api_size p)) = Some size
                  /\ Qle_bool size 0 = false.

(** From [bot] to [bot'] the trace has grown by at most [c] set-stops
    calls and [r] retry delays. *)
Definition within_budget (c r : nat) (bot bot' : Bot) : Prop :=
  exists evs,
    trace bot' = trace bot ++ evs
    /\ (count_set_stops evs <= c)%nat
    /\ (count_retry_delays evs <= r)%nat.

(** What closing one reported position leaves in the trace. *)
Definition closing_events (env : Env) (sym : string) (pos : ApiPosition) (size : Q)
  : list Event :=
  EvClosePosition sym (api_side pos) size (default 0 (api_positionIdx pos))
  :: (if telegram_bot env then [EvNotifyClosed sym size (api_side pos)] else [])
  ++ [EvSleep 1].

(** The trace of the closing loop over the positions whose sizes read. *)
Fixpoint closing_trace (env : Env) (sym : string) (l : list ApiPosition)
  : list Event :=
  match l with
  | [] => []
  | pos :: r =>
      match float_of_str (default "0"%string (api_size pos)) with
      | Some size =>
          (if Qle_bool size 0 then [] else closing_events env sym pos size)
          ++ closing_trace env sym r
      | None => []
      end
  end.

(** ** [SignalParser.validate_signal] *)

(** The two loops over the take-profits leave with [False] at the first
    target that fails, which is [existsb]. *)
Definition validate_signal (signal : option TradingSignal.t) : bool :=
  match signal with
  | None => false
  | Some signal =>
      let position := TradingSignal.position signal in
      let entry_price := TradingSignal.entry_price signal in
      let stop_loss := TradingSignal.stop_loss signal in
      let take_profits := TradingSignal.take_profits signal in
      if String.eqb (TradingSignal.symbol signal) "" || String.eqb position ""
      then false
      else if match entry_price with
              | Some e => dec_leb e Decimal_0
              | None => false
              end
      then false
      else if match stop_loss with
              | Some sl => dec_leb sl Decimal_0
              | None => false
              end
      then false
      else if existsb (fun tp => dec_leb tp Decimal_0) take_profits then false
      else
        match entry_price with
        | Some e =>
            if dec_truthy e && dec_ltb Decimal_0 e then
              if match stop_loss with
                 | Some sl =>
                     dec_truthy sl
                     && ((String.eqb position "LONG" && dec_leb e sl)
                         || (String.eqb position "SHORT" && dec_leb sl e))
                 | None => false
                 end
              then false
              else if existsb
                        (fun tp =>
                           (String.eqb position "LONG" && dec_leb tp e)
                           || (String.eqb position "SHORT" && dec_leb e tp))
                        take_profits
              then false
              else true
            else true
        | None => true
        end
  end.

(** A short with its stop above its entry and its target below. *)
Definition short_signal : TradingSignal.t :=
  TradingSignal.mk "BTCUSDT" "SHORT" (Some (dec_of_Z 100))
    [dec_of_Z 90] (Some (dec_of_Z 105)) None.

(** ** The entry order *)

Definition is_place_order (ev : Event) : bool :=
  match ev with
  | EvPlaceOrder _ => true
  | _ => false
  end.

(** The number of entry orders in a trace. *)
Definition count_place_orders (tr : list Event) : nat :=
  length (List.filter is_place_order tr).

(** [self._format_price(v, symbol) if v and v > Decimal(0) else None]. *)
Definition price_for_main_order (env : Env) (sym : string) (v : option Decimal)
  : option string :=
  match v with
  | Some d =>
      if negb (missing_or_not_positive v) then Some (_format_price env d sym) else None
  | None => None
  end.

(** [next((tp for tp in signal.take_profits if tp and tp > Decimal(0)), None)]. *)
Definition first_take_profit (signal : TradingSignal.t) : option Decimal :=
  List.find (fun tp => dec_truthy tp && dec_ltb Decimal_0 tp)
    (TradingSignal.take_profits signal).

(** [float(text) if text else None], as the text [float] is given. *)
Definition float_if_text (text : option string) : option string :=
  match text with
  | Some s => if String.eqb s "" then None else Some s
  | None => None
  end.

(** The checks of [BybitTrader.place_order] before its REST call: the
    message of the [ValueError] they raise, which the method turns into
    a reply with [retCode] -1. *)
Definition place_order_refusal (side order_type : string) (price : option string)
  : option string :=
  if String.eqb (lower order_type) "limit" && is_none price
  then Some "Price is required for Limit orders."%string
  else if negb (str_mem side ["Buy"; "Sell"]%string)
  then Some "Side must be either 'Buy' or 'Sell'."%string
  else None.

(** ** Formatting in the arithmetic of the context *)

(** [d.quantize(q, rounding=ROUND_DOWN)] for a [q] of exponent [e]: the
    digits below [e] are dropped.  [None] stands for [InvalidOperation],
    raised when the result would have more digits than the context
    keeps. *)
Definition dec_quantize_down (d : Decimal) (e : Z) : option Decimal :=
  if (d_int d =? 0)%N then Some (mkDecimal (d_sign d) 0 e)
  else if context_prec <? ndigits (d_int d) + d_exp d - e then None
  else
    let coeff :=
      if e <=? d_exp d then (d_int d * pow10 (d_exp d - e))%N
      else (d_int d / pow10 (e - d_exp d))%N in
    if context_prec <? ndigits coeff then None
    else Some (mkDecimal (d_sign d) coeff e).

(** [((x / step).quantize(Decimal('1'), rounding=ROUND_DOWN)
      * step).quantize(step, rounding=ROUND_DOWN)], each operation as the
    context computes it. *)
Definition floor_to_step_context (x step : Decimal) : option Decimal :=
  match dec_div x step with
  | Raises _ => None
  | Returns quotient =>
      match dec_quantize_down quotient 0 with
      | None => None
      | Some whole => dec_quantize_down (dec_mul whole step) (d_exp step)
      end
  end.

(** The coefficient of [x] written with the exponent of [step], when
    that exponent is the lower one, is below [10 ^ 27]: the quotient
    [x / step] then keeps a digit after its integer part in the
    context. *)
Definition short_for (x step : Decimal) : Prop :=
  Z.of_N (d_int x) * 10 ^ Z.max 0 (d_exp x - d_exp step) < 10 ^ 27.

(** [Decimal('1e-' + str(precision))]. *)
Definition unit_of_precision (precision : N) : Decimal :=
  mkDecimal false 1 (- Z.of_N precision).

(** [_format_price] before [str], each decimal operation as the context
    computes it.  [None] stands for an [InvalidOperation], which sends
    the method to its fallback on floats. *)
Definition format_price_context (env : Env) (price : Decimal) (sym : string)
  : option Decimal :=
  let by_precision :=
    dec_quantize_down price (d_exp (unit_of_precision (price_precision env sym))) in
  match instrument_tickSize env sym with
  | Some price_step =>
      if dec_positive price_step
      then floor_to_step_context price price_step
      else by_precision
  | None => by_precision
  end.

(** [_format_quantity] before [str], in the same way. *)
Definition format_quantity_context (env : Env) (quantity : Decimal) (sym : string)
  : option Decimal :=
  let by_precision :=
    dec_quantize_down quantity (d_exp (unit_of_precision (qty_precision env sym))) in
  match instrument_qtyStep env sym with
  | Some qty_step =>
      if dec_positive qty_step
      then floor_to_step_context quantity qty_step
      else by_precision
  | None => by_precision
  end.

(** The step a price is rounded down to: the tick of the instrument when
    it has a positive one, the unit of the configured precision
    otherwise. *)
Definition price_step (env : Env) (sym : string) : Decimal :=
  match instrument_tickSize env sym with
  | Some step =>
      if dec_positive step then step
      else unit_of_precision (price_precision env sym)
  | None => unit_of_precision (price_precision env sym)
  end.

(** The step a quantity is rounded down to. *)
Definition qty_step (env : Env) (sym : string) : Decimal :=
  match instrument_qtyStep env sym with
  | Some step =>
      if dec_positive step then step
      else unit_of_precision (qty_precision env sym)
  | None => unit_of_precision (qty_precision env sym)
  end.

(* ===================================================================== *)
(** * Part II. Properties                                                 *)
(* ===================================================================== *)

(** ** Text and decimals *)

Lemma int_of_digits_app (l1 l2 : chars) :
  int_of_digits (l1 ++ l2) =
  fold_left (fun a c => (10 * a + digit_val c)%N) l2 (int_of_digits l1).
Proof. unfold int_of_digits. apply fold_left_app. Qed.

Lemma is_digit_chars_of_uint (d : Init.Decimal.uint) :
  forallb is_digit (chars_of_uint d) = true.
Proof. induction d; simpl; auto. Qed.

Lemma fold_digits_acc (d : Init.Decimal.uint) (p : positive) :
  fold_left (fun a c => (10 * a + digit_val c)%N) (chars_of_uint d) (Npos p)
  = Npos (Pos.of_uint_acc d p).
Proof.
  revert p. induction d; intros p; simpl; try reflexivity;
    rewrite <- IHd; f_equal; unfold digit_val; simpl; lia.
Qed.

Lemma int_of_digits_uint (d : Init.Decimal.uint) :
  int_of_digits (chars_of_uint d) = N.of_uint d.
Proof.
  unfold int_of_digits, N.of_uint.
  induction d; simpl; try reflexivity; try apply fold_digits_acc.
  exact IHd.
Qed.

Lemma int_of_digits_of_N (n : N) : int_of_digits (digits_of_N n) = n.
Proof.
  unfold digits_of_N. rewrite int_of_digits_uint.
  apply DecimalN.Unsigned.of_to.
Qed.

Lemma is_digit_digits_of_N (n : N) : forallb is_digit (digits_of_N n) = true.
Proof. apply is_digit_chars_of_uint. Qed.

Lemma digits_of_N_nonempty (n : N) : digits_of_N n <> [].
Proof.
  unfold digits_of_N. destruct n as [|p]; simpl; [discriminate|].
  pose proof (DecimalPos.Unsigned.to_uint_nonnil p) as Hn.
  destruct (Pos.to_uint p); simpl; congruence.
Qed.

Lemma int_of_digits_zeros (k : nat) (l : chars) :
  int_of_digits (repeat "0"%char k ++ l) = int_of_digits l.
Proof.
  rewrite int_of_digits_app.
  assert (Hz : int_of_digits (repeat "0"%char k) = 0%N).
  { unfold int_of_digits. induction k; simpl; auto. }
  rewrite Hz. reflexivity.
Qed.

Lemma span_digits_app (ds rest : chars) :
  forallb is_digit ds = true -> stops rest = true ->
  span_digits (ds ++ rest) = (ds, rest).
Proof.
  intros Hd Hs. induction ds as [|c ds IH]; simpl in *.
  - destruct rest as [|c r]; simpl in *; [reflexivity|].
    destruct (is_digit c); [discriminate | reflexivity].
  - apply andb_prop in Hd as [Hc Hd]. rewrite Hc, (IH Hd). reflexivity.
Qed.

Lemma is_digit_not_sign (c : ascii) :
  is_digit c = true -> Ascii.eqb c "-" = false /\ Ascii.eqb c "+" = false.
Proof.
  destruct c as [[] [] [] [] [] [] [] []]; vm_compute; intros H;
    (discriminate H || (split; reflexivity)).
Qed.

Lemma split_sign_digits (l : chars) :
  stops l = false -> split_sign l = (false, l).
Proof.
  destruct l as [|c r]; simpl; [discriminate|].
  intros H. apply negb_false_iff in H.
  destruct (is_digit_not_sign c H) as [-> ->]. reflexivity.
Qed.

Lemma parse_exponent_signed (z : Z) :
  parse_exponent ("E"%char :: signed_chars z) = Some z.
Proof.
  unfold parse_exponent, signed_chars.
  change (Ascii.eqb "E" "E" || Ascii.eqb "E" "e") with true. cbv iota.
  pose proof (digits_of_N_nonempty (Z.abs_N z)) as Hne.
  pose proof (span_digits_app (digits_of_N (Z.abs_N z)) []
                (is_digit_digits_of_N _) eq_refl) as Hsp.
  rewrite app_nil_r in Hsp.
  destruct (Z.ltb_spec z 0) as [Hneg|Hpos]; simpl split_sign; cbv iota beta;
    rewrite Hsp; destruct (digits_of_N (Z.abs_N z)) eqn:E; try congruence;
    rewrite <- E, int_of_digits_of_N, N2Z.inj_abs_N; f_equal; lia.
Qed.

(** The text of a number in the shape the printer produces is read back
    as the number it spells. *)
Lemma parse_decimal_shape (sgn : bool) (ip fd : chars) (hasfrac hasexp : bool) (e : Z) :
  forallb is_digit ip = true -> ip <> [] -> forallb is_digit fd = true ->
  parse_decimal ((if sgn then ["-"%char] else []) ++ ip
                 ++ (if hasfrac then "."%char :: fd else [])
                 ++ (if hasexp then "E"%char :: signed_chars e else []))
  = Some (mkDecimal sgn
            (int_of_digits (ip ++ (if hasfrac then fd else [])))
            ((if hasexp then e else 0)
             - Z.of_nat (length (if hasfrac then fd else [])))).
Proof.
  intros Hip Hne Hfd. unfold parse_decimal.
  set (ex := if hasexp then "E"%char :: signed_chars e else []).
  assert (Hex : stops ex = true) by (subst ex; destruct hasexp; reflexivity).
  assert (Hpe : parse_exponent ex = Some (if hasexp then e else 0)).
  { subst ex; destruct hasexp; [apply parse_exponent_signed | reflexivity]. }
  set (body := ip ++ (if hasfrac then "."%char :: fd else []) ++ ex).
  assert (Hsign : split_sign ((if sgn then ["-"%char] else []) ++ body) = (sgn, body)).
  { destruct sgn; [reflexivity|]. simpl. apply split_sign_digits.
    subst body. destruct ip as [|c ip']; [congruence|]. simpl in *.
    apply andb_prop in Hip as [-> _]. reflexivity. }
  rewrite Hsign. subst body.
  destruct hasfrac.
  - rewrite (span_digits_app ip (("."%char :: fd) ++ ex) Hip eq_refl).
    simpl app at 1. cbv beta iota.
    change (Ascii.eqb "." ".") with true. cbv beta iota.
    rewrite (span_digits_app fd ex Hfd Hex). cbv beta iota.
    rewrite Hpe.
    destruct (ip ++ fd) eqn:E; [|reflexivity].
    apply app_eq_nil in E as [? _]. congruence.
  - simpl app at 2.
    rewrite (span_digits_app ip ex Hip Hex).
    assert (Hdot : match ex with
                   | c :: r => if Ascii.eqb c "." then span_digits r else ([], ex)
                   | [] => ([], ex)
                   end = ([], ex)).
    { subst ex; destruct hasexp; reflexivity. }
    rewrite Hdot. cbv beta iota. rewrite Hpe.
    destruct (ip ++ []) eqn:E; [|reflexivity].
    apply app_eq_nil in E as [? _]. congruence.
Qed.

Lemma forallb_firstn {A} (p : A -> bool) (n : nat) (l : list A) :
  forallb p l = true -> forallb p (firstn n l) = true.
Proof.
  revert n; induction l as [|a l IH]; intros [|n] H; simpl in *; auto.
  apply andb_prop in H as [-> H]. simpl. auto.
Qed.

Lemma forallb_skipn {A} (p : A -> bool) (n : nat) (l : list A) :
  forallb p l = true -> forallb p (skipn n l) = true.
Proof.
  revert n; induction l as [|a l IH]; intros [|n] H; simpl in *; auto.
  apply andb_prop in H as [_ H]. auto.
Qed.

Lemma forallb_repeat {A} (p : A -> bool) (a : A) (n : nat) :
  p a = true -> forallb p (repeat a n) = true.
Proof. intros H. induction n; simpl; [reflexivity | rewrite H; auto]. Qed.

(** Reading back what [Decimal.__str__] prints gives the same sign,
    coefficient and exponent. *)
Lemma parse_decimal_dec_chars (d : Decimal) : parse_decimal (dec_chars d) = Some d.
Proof.
  destruct d as [sgn n ex]. unfold dec_chars. cbn [d_sign d_int d_exp].
  pose proof (digits_of_N_nonempty n) as Hne.
  pose proof (is_digit_digits_of_N n) as Hdig.
  pose proof (int_of_digits_of_N n) as Hint.
  set (digits := digits_of_N n) in *.
  assert (Hlen : (0 < length digits)%nat) by (destruct digits; simpl; [congruence | lia]).
  set (len := Z.of_nat (length digits)).
  set (leftdigits := ex + len).
  set (dotplace := if (ex <=? 0) && (-6 <? leftdigits) then leftdigits else 1).
  assert (Hdp : (dotplace = leftdigits /\ ex <= 0) \/ dotplace = 1).
  { subst dotplace. destruct (Z.leb_spec ex 0); simpl; [|auto].
    destruct (-6 <? leftdigits); auto. }
  set (hasexp := negb (leftdigits =? dotplace)).
  assert (Hexp : (if leftdigits =? dotplace then []
                  else "E"%char :: signed_chars (leftdigits - dotplace))
                 = (if hasexp then "E"%char :: signed_chars (leftdigits - dotplace) else []))
    by (subst hasexp; destruct (leftdigits =? dotplace); reflexivity).
  rewrite Hexp.
  assert (He : (if hasexp then leftdigits - dotplace else 0) = leftdigits - dotplace).
  { subst hasexp. destruct (Z.eqb_spec leftdigits dotplace); simpl; lia. }
  destruct (Z.leb_spec dotplace 0) as [Hle|Hgt].
  - (* 0.000ddd *)
    etransitivity.
    { apply (parse_decimal_shape sgn ["0"%char]
               (repeat "0"%char (Z.to_nat (- dotplace)) ++ digits) true hasexp
               (leftdigits - dotplace)); try reflexivity; try discriminate.
      rewrite forallb_app, Hdig, forallb_repeat; reflexivity. }
    f_equal. f_equal.
    + change (["0"%char] ++ repeat "0"%char (Z.to_nat (- dotplace)) ++ digits)
        with (repeat "0"%char (S (Z.to_nat (- dotplace))) ++ digits).
      rewrite int_of_digits_zeros. exact Hint.
    + rewrite He, length_app, repeat_length. subst leftdigits len. lia.
  - destruct (Z.leb_spec len dotplace) as [Hge|Hlt].
    + (* ddd, no fraction *)
      assert (Hk : dotplace - len = 0) by (subst leftdigits len; lia).
      rewrite Hk. change (repeat "0"%char (Z.to_nat 0)) with (@nil ascii).
      rewrite app_nil_r.
      etransitivity.
      { apply (parse_decimal_shape sgn digits [] false hasexp
                 (leftdigits - dotplace)); auto. }
      f_equal. f_equal.
      * rewrite app_nil_r. exact Hint.
      * rewrite He. simpl. subst leftdigits. lia.
    + (* d.ddd *)
      etransitivity.
      { apply (parse_decimal_shape sgn (firstn (Z.to_nat dotplace) digits)
                 (skipn (Z.to_nat dotplace) digits) true hasexp
                 (leftdigits - dotplace)).
        - apply forallb_firstn, Hdig.
        - destruct digits; simpl in *; [congruence|].
          destruct (Z.to_nat dotplace) eqn:E; [lia | discriminate].
        - apply forallb_skipn, Hdig. }
      f_equal. f_equal.
      * rewrite firstn_skipn. exact Hint.
      * rewrite He, length_skipn. subst leftdigits len. lia.
Qed.

Lemma lstrip_id (l : chars) :
  forallb (fun c => negb (is_space c)) l = true -> lstrip l = l.
Proof.
  destruct l as [|c r]; simpl; [reflexivity|].
  intros H. apply andb_prop in H as [H _].
  destruct (is_space c); [discriminate | reflexivity].
Qed.

Lemma forallb_rev {A} (p : A -> bool) (l : list A) :
  forallb p l = true -> forallb p (rev l) = true.
Proof.
  rewrite !forallb_forall. intros H x Hx. apply H, in_rev, Hx.
Qed.

Lemma strip_id (l : chars) :
  forallb (fun c => negb (is_space c)) l = true -> strip l = l.
Proof.
  intros H. unfold strip.
  rewrite (lstrip_id l H), (lstrip_id (rev l) (forallb_rev _ _ H)).
  apply rev_involutive.
Qed.

Lemma remove_char_id (x : ascii) (l : chars) :
  forallb (fun c => negb (Ascii.eqb c x)) l = true -> remove_char x l = l.
Proof.
  unfold remove_char. induction l as [|c r IH]; cbn [List.filter forallb]; [reflexivity|].
  intros H. apply andb_prop in H as [-> H]. f_equal. auto.
Qed.

Lemma numeric_char_plain (l : chars) :
  forallb numeric_char l = true ->
  forallb (fun c => negb (is_space c)) l = true /\
  forallb (fun c => negb (Ascii.eqb c "_")) l = true.
Proof.
  assert (Hc : forall c, numeric_char c = true ->
                         negb (is_space c) = true /\ negb (Ascii.eqb c "_") = true).
  { intros c. destruct c as [[] [] [] [] [] [] [] []]; vm_compute; intros H;
      (discriminate H || (split; reflexivity)). }
  induction l as [|c r IH]; simpl; [auto|].
  intros H. apply andb_prop in H as [H1 H2].
  destruct (Hc c H1) as [-> ->], (IH H2) as [-> ->]. auto.
Qed.

Lemma is_digit_numeric (l : chars) :
  forallb is_digit l = true -> forallb numeric_char l = true.
Proof.
  induction l as [|c r IH]; simpl; [auto|].
  intros H. apply andb_prop in H as [H1 H2].
  unfold numeric_char at 1. rewrite H1. simpl. auto.
Qed.

Lemma numeric_dec_chars (d : Decimal) : forallb numeric_char (dec_chars d) = true.
Proof.
  unfold dec_chars.
  pose proof (is_digit_numeric _ (is_digit_digits_of_N (d_int d))) as Hd.
  assert (Hz : forall k, forallb numeric_char (repeat "0"%char k) = true)
    by (intros k; apply forallb_repeat; reflexivity).
  assert (Hs : forall z, forallb numeric_char (signed_chars z) = true).
  { intros z. unfold signed_chars. simpl.
    rewrite (is_digit_numeric _ (is_digit_digits_of_N _)).
    destruct (z <? 0); reflexivity. }
  repeat match goal with |- context [if ?b then _ else _] => destruct b end;
    rewrite ?app_nil_r; repeat (rewrite forallb_app || (progress cbn [app forallb]));
    rewrite ?Hd, ?Hz, ?Hs, ?forallb_firstn, ?forallb_skipn by exact Hd;
    change (numeric_char "-") with true; change (numeric_char ".") with true;
    change (numeric_char "0") with true; change (numeric_char "E") with true;
    reflexivity.
Qed.

(** [Decimal(str(d)) == d], with the same representation: printing a
    decimal and reading it back loses nothing. *)
Lemma Decimal_of_str_of_Decimal (d : Decimal) :
  Decimal_of_str (str_of_Decimal d) = Some d.
Proof.
  unfold Decimal_of_str, str_of_Decimal.
  rewrite list_ascii_of_string_of_list_ascii.
  destruct (numeric_char_plain _ (numeric_dec_chars d)) as [Hs Hu].
  rewrite (strip_id _ Hs), (remove_char_id _ _ Hu).
  apply parse_decimal_dec_chars.
Qed.

(** ** Timestamps *)

Lemma digit_char_spec (k : N) :
  (k < 10)%N -> is_digit (digit_char k) = true /\ digit_val (digit_char k) = k.
Proof.
  intros Hk. unfold is_digit, digit_val, digit_char.
  rewrite N_ascii_embedding by lia. split; [|lia].
  apply andb_true_intro; split; apply N.leb_le; lia.
Qed.

Lemma int_of_digits_snoc (l : chars) (c : ascii) :
  int_of_digits (l ++ [c]) = (10 * int_of_digits l + digit_val c)%N.
Proof. rewrite int_of_digits_app. reflexivity. Qed.

Lemma fixed_digits_length (w : nat) (n : N) : length (fixed_digits w n) = w.
Proof.
  revert n; induction w as [|w IH]; intros n; simpl; [reflexivity|].
  rewrite length_app, IH. simpl. lia.
Qed.

Lemma fixed_digits_is_digit (w : nat) (n : N) :
  forallb is_digit (fixed_digits w n) = true.
Proof.
  revert n; induction w as [|w IH]; intros n; simpl; [reflexivity|].
  rewrite forallb_app, IH. simpl.
  destruct (digit_char_spec (n mod 10)) as [-> _]; [|reflexivity].
  apply N.mod_lt. lia.
Qed.

Lemma fixed_digits_value (w : nat) (n : N) :
  int_of_digits (fixed_digits w n) = (n mod 10 ^ N.of_nat w)%N.
Proof.
  revert n; induction w as [|w IH]; intros n.
  - simpl. rewrite N.mod_1_r. reflexivity.
  - cbn [fixed_digits]. rewrite int_of_digits_snoc, IH.
    destruct (digit_char_spec (n mod 10)) as [_ ->]; [apply N.mod_lt; lia|].
    rewrite Nat2N.inj_succ, N.pow_succ_r'.
    rewrite N.Div0.mod_mul_r. lia.
Qed.

Lemma take_fixed_app (w : nat) (n : N) (rest : chars) :
  (n < 10 ^ N.of_nat w)%N ->
  take_fixed w (fixed_digits w n ++ rest) = Some (n, rest).
Proof.
  intros Hn. unfold take_fixed.
  pose proof (fixed_digits_length w n) as Hlen.
  rewrite firstn_app, skipn_app, Hlen, Nat.sub_diag.
  rewrite firstn_all2, skipn_all2 by lia.
  simpl. rewrite app_nil_r, Hlen, Nat.eqb_refl, fixed_digits_is_digit.
  simpl. rewrite fixed_digits_value, N.mod_small by exact Hn. reflexivity.
Qed.

Lemma expect_cons (c : ascii) (r : chars) : expect c (c :: r) = Some r.
Proof. unfold expect. rewrite Ascii.eqb_refl. reflexivity. Qed.

Local Ltac read_fixed :=
  rewrite take_fixed_app; [| simpl; lia];
  cbn [mbind option_bind]; rewrite ?expect_cons; cbn [mbind option_bind].

Lemma parse_fraction_fixed (us : N) :
  (us < 1000000)%N -> parse_fraction (fixed_digits 6 us) = Some us.
Proof.
  intros H. unfold parse_fraction. rewrite fixed_digits_length.
  change (6 =? 3)%nat with false. change (6 =? 6)%nat with true. cbv iota.
  rewrite <- (app_nil_r (fixed_digits 6 us)).
  rewrite take_fixed_app; [reflexivity | exact H].
Qed.

Lemma parse_time_chars (t : datetime) :
  valid_datetime t = true ->
  parse_time (time_chars t
              ++ (if (dt_microsecond t =? 0)%N then []
                  else "."%char :: fixed_digits 6 (dt_microsecond t)))
  = Some (dt_hour t, dt_minute t, dt_second t, dt_microsecond t).
Proof.
  unfold valid_datetime. rewrite !andb_true_iff, !N.ltb_lt.
  intros [[[[_ Hh] Hm] Hs] Hus].
  unfold parse_time, time_chars.
  repeat (rewrite <- app_assoc; cbn [app]).
  do 3 read_fixed.
  destruct (N.eqb_spec (dt_microsecond t) 0) as [->|Hne]; [reflexivity|].
  rewrite expect_cons. cbn [mbind option_bind].
  rewrite parse_fraction_fixed by exact Hus. reflexivity.
Qed.

(** [datetime.fromisoformat(t.isoformat()) == t] for every naive
    timestamp. *)
Lemma fromisoformat_isoformat (t : datetime) :
  valid_datetime t = true -> fromisoformat (isoformat t) = Some t.
Proof.
  intros Hv. pose proof Hv as Hv'.
  unfold valid_datetime in Hv'.
  rewrite !andb_true_iff, !N.ltb_lt, !N.leb_le in Hv'.
  destruct Hv' as [[[[[[[[[Hy1 Hy2] Hm1] Hm2] Hd1] Hd2] _] _] _] _].
  assert (Hd3 : (dt_day t <= 31)%N).
  { etransitivity; [exact Hd2|]. unfold days_in_month.
    repeat match goal with |- context [if ?b then _ else _] => destruct b end; lia. }
  unfold fromisoformat, isoformat, fromisoformat_chars.
  rewrite list_ascii_of_string_of_list_ascii. unfold date_chars.
  repeat (rewrite <- app_assoc; cbn [app]).
  do 3 read_fixed.
  rewrite (parse_time_chars t Hv). cbn [mbind option_bind].
  destruct t; cbn in *. rewrite Hv. reflexivity.
Qed.

(** ** The state file of the tracked positions *)

Lemma chars_append (a b : string) :
  list_ascii_of_string (a ++ b)%string
  = list_ascii_of_string a ++ list_ascii_of_string b.
Proof. induction a as [|c a IH]; simpl; [reflexivity | rewrite IH; reflexivity]. Qed.

Lemma split_first_app (sep : ascii) (l1 l2 : chars) :
  forallb (fun c => negb (Ascii.eqb c sep)) l1 = true ->
  split_first sep (l1 ++ sep :: l2) = Some (l1, l2).
Proof.
  induction l1 as [|c l1 IH]; simpl; intros H.
  - rewrite Ascii.eqb_refl. reflexivity.
  - apply andb_prop in H as [Hc H]. apply negb_true_iff in Hc.
    rewrite Hc, (IH H). reflexivity.
Qed.

Lemma rsplit1_append (a b : string) :
  forallb (fun c => negb (Ascii.eqb c "_")) (list_ascii_of_string b) = true ->
  rsplit1 "_" (a ++ "_" ++ b)%string = Some (a, b).
Proof.
  intros Hb. unfold rsplit1. rewrite chars_append. simpl list_ascii_of_string.
  rewrite rev_app_distr. simpl rev. rewrite <- app_assoc. simpl app.
  rewrite split_first_app by (apply forallb_rev, Hb).
  rewrite !rev_involutive, !string_of_list_ascii_of_string. reflexivity.
Qed.

Lemma digits_us_digits (l : chars) :
  forallb is_digit l = true -> digits_us l true = true.
Proof.
  induction l as [|c r IH]; simpl; [reflexivity|].
  intros H. apply andb_prop in H as [-> H]. auto.
Qed.

Lemma numeric_str_of_Z (z : Z) :
  forallb numeric_char (list_ascii_of_string (str_of_Z z)) = true.
Proof.
  unfold str_of_Z. rewrite list_ascii_of_string_of_list_ascii, forallb_app.
  rewrite (is_digit_numeric _ (is_digit_digits_of_N _)).
  destruct (z <? 0); reflexivity.
Qed.

(** [int(str(z)) == z]. *)
Lemma py_int_str_of_Z (z : Z) : py_int (str_of_Z z) = Some z.
Proof.
  unfold py_int.
  destruct (numeric_char_plain _ (numeric_str_of_Z z)) as [Hs _].
  rewrite (strip_id _ Hs). unfold str_of_Z.
  rewrite list_ascii_of_string_of_list_ascii.
  pose proof (digits_of_N_nonempty (Z.abs_N z)) as Hne.
  pose proof (is_digit_digits_of_N (Z.abs_N z)) as Hd.
  destruct (numeric_char_plain _ (is_digit_numeric _ Hd)) as [_ Hu].
  assert (Hus : digits_us (digits_of_N (Z.abs_N z)) false = true).
  { destruct (digits_of_N (Z.abs_N z)) as [|c r]; [congruence|].
    simpl in *. apply andb_prop in Hd as [-> Hd]. apply digits_us_digits, Hd. }
  destruct (Z.ltb_spec z 0) as [Hneg|Hpos].
  - simpl. rewrite Hus, (remove_char_id _ _ Hu), int_of_digits_of_N, N2Z.inj_abs_N.
    f_equal. lia.
  - simpl app. rewrite split_sign_digits.
    + rewrite Hus, (remove_char_id _ _ Hu), int_of_digits_of_N, N2Z.inj_abs_N.
      f_equal. lia.
    + destruct (digits_of_N (Z.abs_N z)) as [|c r]; [congruence|].
      simpl in *. apply andb_prop in Hd as [-> _]. reflexivity.
Qed.

(** The two parts of a key are read back from its ["SYMBOL_SLOT"] form. *)
Lemma rsplit1_key_str (k : pos_key) :
  rsplit1 "_" (key_str k) = Some (fst k, str_of_Z (snd k)).
Proof.
  unfold key_str. apply rsplit1_append.
  apply (numeric_char_plain _ (numeric_str_of_Z (snd k))).
Qed.

Lemma key_str_inj (k1 k2 : pos_key) : key_str k1 = key_str k2 -> k1 = k2.
Proof.
  intros H. pose proof (rsplit1_key_str k1) as H1.
  rewrite H, rsplit1_key_str in H1. injection H1 as Hs Hz.
  pose proof (py_int_str_of_Z (snd k1)) as H2.
  rewrite <- Hz, py_int_str_of_Z in H2. injection H2 as H2.
  destruct k1, k2; simpl in *; congruence.
Qed.

Lemma str_items_strings (l : list string) :
  str_items (map PStr l) = Some (map PStr l).
Proof. induction l as [|s l IH]; simpl; [reflexivity | rewrite IH; reflexivity]. Qed.

Lemma load_field_decimal (k : string) (o : option Decimal) :
  str_mem k decimal_fields = true ->
  load_field k (_serialize_value (opt_dec o)) = Got (opt_dec o).
Proof.
  intros Hk. unfold load_field. rewrite Hk.
  destruct o as [d|]; simpl; [|reflexivity].
  rewrite Decimal_of_str_of_Decimal. reflexivity.
Qed.

Lemma string_of_list_ascii_nonempty (l : chars) :
  l <> [] -> String.eqb (string_of_list_ascii l) "" = false.
Proof. destruct l; [congruence | reflexivity]. Qed.

Lemma load_field_time (t : datetime) :
  valid_datetime t = true ->
  load_field "last_update_time" (_serialize_value (PDate t)) = Got (PDate t).
Proof.
  intros Hv. unfold load_field.
  change (str_mem "last_update_time" decimal_fields) with false. cbv iota.
  change (String.eqb "last_update_time" "last_update_time") with true.
  cbn [_serialize_value py_truthy andb py_str].
  assert (Hne : String.eqb (isoformat t) "" = false).
  { apply string_of_list_ascii_nonempty. unfold date_chars.
    destruct (fixed_digits 4 (dt_year t)); discriminate. }
  rewrite Hne. cbn [negb]. cbv iota.
  rewrite (fromisoformat_isoformat t Hv). reflexivity.
Qed.

Lemma load_field_ids (l : list string) :
  load_field "tp_order_ids" (_serialize_value (PList (map PStr l)))
  = Got (PList (map PStr l)).
Proof.
  unfold load_field.
  change (str_mem "tp_order_ids" decimal_fields) with false.
  change (String.eqb "tp_order_ids" "last_update_time") with false.
  cbn [andb _serialize_value]. cbv iota.
  change (String.eqb "tp_order_ids" "tp_order_ids") with true. cbv iota.
  rewrite map_map. cbn [_serialize_value].
  rewrite str_items_strings. reflexivity.
Qed.

(** The details of a position are read back field for field. *)
Lemma load_fields_details (p : Position) :
  valid_datetime (last_update_time p) = true ->
  forall fields, _serialize_value (details_dict p) = PDict fields ->
  load_fields fields [] = Got (match details_dict p with PDict d => d | _ => [] end).
Proof.
  intros Hv fields Hf. unfold details_dict in *.
  cbn [_serialize_value map fst snd] in Hf. injection Hf as <-.
  cbn [load_fields].
  pose proof (load_field_time _ Hv) as Ht.
  pose proof (load_field_ids (tp_order_ids p)) as Hi.
  cbn [_serialize_value] in Ht, Hi.
  rewrite !load_field_decimal, Ht, Hi by reflexivity.
  destruct (main_order_id p), (main_order_status p); reflexivity.
Qed.

Lemma load_entry_saved (k : pos_key) (p : Position) :
  valid_datetime (last_update_time p) = true ->
  load_entry (key_str k) (_serialize_value (details_dict p)) = Got (k, details_dict p).
Proof.
  intros Hv. unfold load_entry.
  rewrite rsplit1_key_str, py_int_str_of_Z.
  pose proof (load_fields_details p Hv) as Hl.
  destruct (_serialize_value (details_dict p)) as [| | | | | | |fields] eqn:E;
    try discriminate E.
  rewrite (Hl fields eq_refl). destruct k. reflexivity.
Qed.

Lemma dict_set_fresh (k : string) (v : pyval) (kv : list (string * pyval)) :
  ~ In k (dict_keys kv) -> dict_set k v kv = kv ++ [(k, v)].
Proof.
  induction kv as [|[k' v'] r IH]; simpl; intros H; [reflexivity|].
  destruct (String.eqb_spec k' k) as [->|Hne]; [tauto|].
  rewrite IH by tauto. reflexivity.
Qed.

(** With distinct keys, the dict built by the save loop lists the items in
    the order they were written. *)
Lemma fold_dict_set {A} (f : A -> string) (g : A -> pyval) (items : list A)
    (acc : list (string * pyval)) :
  List.NoDup (dict_keys acc ++ map f items) ->
  fold_left (fun data x => dict_set (f x) (g x) data) items acc
  = acc ++ map (fun x => (f x, g x)) items.
Proof.
  revert acc. induction items as [|x items IH]; intros acc Hnd; simpl.
  - rewrite app_nil_r. reflexivity.
  - simpl in Hnd. pose proof (NoDup_remove_2 _ _ _ Hnd) as Hx.
    rewrite dict_set_fresh by (intros Hin; apply Hx, in_or_app; auto).
    rewrite IH.
    + rewrite <- app_assoc. reflexivity.
    + unfold dict_keys in *. rewrite map_app, <- app_assoc. exact Hnd.
Qed.

Lemma load_entries_saved (items : list (pos_key * Position))
    (store : gmap pos_key pyval) :
  (forall k p, In (k, p) items -> valid_datetime (last_update_time p) = true) ->
  load_entries
    (map (fun kp => (key_str (fst kp), _serialize_value (details_dict (snd kp)))) items)
    store
  = Some (fold_left (fun s kp => <[fst kp := details_dict (snd kp)]> s) items store).
Proof.
  revert store. induction items as [|[k p] items IH]; intros store Hv;
    cbn [map load_entries fst snd fold_left].
  - reflexivity.
  - rewrite (load_entry_saved k p) by (apply (Hv k p); left; reflexivity).
    apply IH. intros k' p' Hin. apply (Hv k' p'). right. exact Hin.
Qed.

Lemma fold_insert_list_to_map {V} (items : list (pos_key * V)) (s : gmap pos_key V) :
  fold_left (fun s kv => <[fst kv := snd kv]> s) items s
  = list_to_map (rev items) ∪ s.
Proof.
  revert s. induction items as [|[k v] items IH]; intros s; simpl.
  - rewrite (left_id_L ∅ (∪)). reflexivity.
  - rewrite IH, list_to_map_app. cbn [list_to_map foldr fst snd uncurry].
    rewrite !insert_union_singleton_l, (right_id_L ∅ (∪)), (assoc_L (∪)).
    reflexivity.
Qed.

Lemma fold_insert_map_to_list {V} (m : gmap pos_key V) :
  fold_left (fun s kv => <[fst kv := snd kv]> s) (map_to_list m) ∅ = m.
Proof.
  rewrite fold_insert_list_to_map, (right_id_L ∅ (∪)).
  rewrite <- (list_to_map_to_list m) at 2.
  assert (Hp : rev (map_to_list m) ≡ₚ map_to_list m)
    by (symmetry; apply Permutation_rev).
  apply list_to_map_proper; [|exact Hp].
  rewrite Hp. apply NoDup_fst_map_to_list.
Qed.

Lemma list_fmap_map {A B} (f : A -> B) (l : list A) : f <$> l = map f l.
Proof. induction l as [|x l IH]; simpl; [reflexivity | rewrite <- IH; reflexivity]. Qed.

Lemma fold_left_over_map {A B C} (f : A -> C -> A) (g : B -> C) (l : list B) (a : A) :
  fold_left f (map g l) a = fold_left (fun a x => f a (g x)) l a.
Proof. revert a; induction l as [|x l IH]; intros a; simpl; auto. Qed.



(** ** The trade history file *)

Lemma lstrip_head (l : chars) : head_not_space l = true -> lstrip l = l.
Proof.
  destruct l as [|c r]; simpl; [reflexivity|].
  destruct (is_space c); [discriminate | reflexivity].
Qed.

Lemma strip_ends (l : chars) :
  head_not_space l = true -> head_not_space (rev l) = true -> strip l = l.
Proof.
  intros H1 H2. unfold strip.
  rewrite (lstrip_head l H1), (lstrip_head (rev l) H2). apply rev_involutive.
Qed.

Lemma head_not_space_digits (l rest : chars) :
  l <> [] -> forallb is_digit l = true -> head_not_space (l ++ rest) = true.
Proof.
  destruct l as [|c r]; [congruence|]. simpl. intros _ H.
  apply andb_prop in H as [H _].
  destruct (numeric_char_plain [c]) as [Hs _].
  - simpl. unfold numeric_char. rewrite H. reflexivity.
  - simpl in Hs. apply andb_prop in Hs as [Hs _]. exact Hs.
Qed.

Lemma fixed_digits_nonempty (w : nat) (n : N) : fixed_digits (S w) n <> [].
Proof. simpl. destruct (fixed_digits w (n / 10)); discriminate. Qed.

Lemma replace_char_absent (c : ascii) (r s : string) :
  forallb (fun x => negb (Ascii.eqb x c)) (list_ascii_of_string s) = true ->
  replace_char c r s = s.
Proof.
  intros H. unfold replace_char.
  rewrite <- (string_of_list_ascii_of_string s) at 2. f_equal.
  induction (list_ascii_of_string s) as [|x l IH]; simpl in *; [reflexivity|].
  apply andb_prop in H as [Hx H]. apply negb_true_iff in Hx.
  rewrite Hx, (IH H). reflexivity.
Qed.

Lemma stamp_char_plain (l : chars) :
  forallb stamp_char l = true ->
  forallb (fun c => negb (Ascii.eqb c "_")) l = true /\
  forallb (fun c => negb (Ascii.eqb c "Z")) l = true.
Proof.
  assert (Hc : forall c, stamp_char c = true ->
                         negb (Ascii.eqb c "_") = true /\ negb (Ascii.eqb c "Z") = true).
  { intros c. destruct c as [[] [] [] [] [] [] [] []]; vm_compute; intros H;
      (discriminate H || (split; reflexivity)). }
  induction l as [|c r IH]; simpl; [auto|].
  intros H. apply andb_prop in H as [H1 H2].
  destruct (Hc c H1) as [-> ->], (IH H2) as [-> ->]. auto.
Qed.

Lemma is_digit_stamp (l : chars) :
  forallb is_digit l = true -> forallb stamp_char l = true.
Proof.
  induction l as [|c r IH]; simpl; [auto|].
  intros H. apply andb_prop in H as [H1 H2].
  unfold stamp_char at 1. rewrite H1. simpl. auto.
Qed.

Lemma stamp_chars (t : datetime) :
  forallb stamp_char (date_chars t ++ " "%char :: time_chars t) = true.
Proof.
  unfold date_chars, time_chars.
  repeat (rewrite forallb_app || (progress cbn [forallb app])).
  rewrite !(is_digit_stamp _ (fixed_digits_is_digit _ _)). reflexivity.
Qed.

(** A ["%Y-%m-%d %H:%M:%S"] text is not a number. *)
Lemma Decimal_of_str_stamp (t : datetime) :
  Decimal_of_str (strftime_ymd_hms t) = None.
Proof.
  unfold Decimal_of_str, strftime_ymd_hms.
  rewrite list_ascii_of_string_of_list_ascii.
  destruct (stamp_char_plain _ (stamp_chars t)) as [Hu _].
  rewrite strip_ends.
  - rewrite (remove_char_id _ _ Hu). unfold date_chars, parse_decimal.
    repeat (rewrite <- app_assoc; cbn [app]).
    rewrite split_sign_digits.
    + rewrite span_digits_app; [| apply fixed_digits_is_digit | reflexivity].
      cbv beta iota. change (Ascii.eqb "-" ".") with false. cbv beta iota.
      assert (Hpe : forall r, parse_exponent ("-"%char :: r) = None) by reflexivity.
      rewrite Hpe.
      destruct (fixed_digits 4 (dt_year t) ++ []); reflexivity.
    + pose proof (fixed_digits_is_digit 4 (dt_year t)) as Hd.
      destruct (fixed_digits 4 (dt_year t)) eqn:E;
        [exact (False_ind _ (fixed_digits_nonempty 3 _ E))|].
      simpl in *. apply andb_prop in Hd as [-> _]. reflexivity.
  - unfold date_chars. rewrite <- app_assoc.
    apply head_not_space_digits;
      [apply fixed_digits_nonempty | apply fixed_digits_is_digit].
  - unfold time_chars.
    replace (date_chars t ++ " "%char :: fixed_digits 2 (dt_hour t)
             ++ ":"%char :: fixed_digits 2 (dt_minute t)
             ++ ":"%char :: fixed_digits 2 (dt_second t))
      with ((date_chars t ++ " "%char :: fixed_digits 2 (dt_hour t)
             ++ ":"%char :: fixed_digits 2 (dt_minute t) ++ [":"%char])
            ++ fixed_digits 2 (dt_second t))
      by (repeat (rewrite <- app_assoc; cbn [app]); reflexivity).
    rewrite rev_app_distr.
    apply head_not_space_digits.
    + intros H. apply (f_equal (@rev ascii)) in H.
      rewrite rev_involutive in H. exact (fixed_digits_nonempty 1 _ H).
    + apply forallb_rev, fixed_digits_is_digit.
Qed.

(** A ["%Y-%m-%d %H:%M:%S"] text is an ISO timestamp. *)
Lemma fromisoformat_stamp (t : datetime) :
  valid_datetime t = true ->
  fromisoformat (replace_char "Z" "+00:00" (strftime_ymd_hms t))
  = Some (mkDatetime (dt_year t) (dt_month t) (dt_day t)
            (dt_hour t) (dt_minute t) (dt_second t) 0).
Proof.
  intros Hv. pose proof Hv as Hv'.
  unfold valid_datetime in Hv'.
  rewrite !andb_true_iff, !N.ltb_lt, !N.leb_le in Hv'.
  destruct Hv' as [[[[[[[[[Hy1 Hy2] Hm1] Hm2] Hd1] Hd2] Hh] Hmi] Hs] Hus].
  assert (Hd3 : (dt_day t <= 31)%N).
  { etransitivity; [exact Hd2|]. unfold days_in_month.
    repeat match goal with |- context [if ?b then _ else _] => destruct b end; lia. }
  rewrite replace_char_absent.
  2:{ unfold strftime_ymd_hms. rewrite list_ascii_of_string_of_list_ascii.
      apply (stamp_char_plain _ (stamp_chars t)). }
  unfold fromisoformat, strftime_ymd_hms, fromisoformat_chars.
  rewrite list_ascii_of_string_of_list_ascii. unfold date_chars, time_chars.
  repeat (rewrite <- app_assoc; cbn [app]).
  do 3 read_fixed.
  unfold parse_time.
  do 2 read_fixed.
  rewrite <- (app_nil_r (fixed_digits 2 (dt_second t))).
  read_fixed.
  assert (Hv2 : valid_datetime (mkDatetime (dt_year t) (dt_month t) (dt_day t)
                  (dt_hour t) (dt_minute t) (dt_second t) 0) = true).
  { unfold valid_datetime in *.
    cbn [dt_year dt_month dt_day dt_hour dt_minute dt_second dt_microsecond].
    apply andb_prop in Hv as [-> _]. reflexivity. }
  rewrite Hv2. reflexivity.
Qed.



(** ** [set_trading_stop] and the corrective call *)

Lemma is_prefix_map (f : ascii -> ascii) (p l : chars) :
  is_prefix p l = true -> is_prefix (map f p) (map f l) = true.
Proof.
  revert l. induction p as [|a p IH]; intros [|b l]; simpl; try easy.
  intros H. apply andb_prop in H as [Hab H].
  apply Ascii.eqb_eq in Hab. subst b.
  rewrite Ascii.eqb_refl. simpl. auto.
Qed.

Lemma contains_chars_map (f : ascii -> ascii) (p l : chars) :
  contains_chars p l = true -> contains_chars (map f p) (map f l) = true.
Proof.
  induction l as [|b l IH]; cbn [contains_chars]; intros H.
  - rewrite orb_false_r in H.
    change (contains_chars (map f p) (map f []))
      with (is_prefix (map f p) (map f []) || false).
    rewrite (is_prefix_map f p [] H). reflexivity.
  - change (contains_chars (map f p) (map f (b :: l)))
      with (is_prefix (map f p) (map f (b :: l)) || contains_chars (map f p) (map f l)).
    apply orb_prop in H as [H|H].
    + rewrite (is_prefix_map f p (b :: l) H). reflexivity.
    + rewrite (IH H). apply orb_true_r.
Qed.

(** A lower-case needle found in a text is found in the lowered text. *)
Lemma str_in_lower (needle s : string) :
  lower needle = needle -> str_in needle s = true -> str_in needle (lower s) = true.
Proof.
  intros Hn H. unfold str_in in *. rewrite <- Hn at 1. unfold lower.
  rewrite !list_ascii_of_string_of_list_ascii.
  apply contains_chars_map, H.
Qed.

Lemma str_of_Decimal_nonempty (d : Decimal) : String.eqb (str_of_Decimal d) "" = false.
Proof.
  destruct (String.eqb_spec (str_of_Decimal d) "") as [E|]; [|reflexivity].
  pose proof (Decimal_of_str_of_Decimal d) as H. rewrite E in H. discriminate H.
Qed.

Section EngineFacts.

Context {X : Type} (G : Gateway X) (env : Env).

Lemma price_to_set_nonempty (sym : string) (v : option Decimal) :
  String.eqb (price_to_set env sym v) "" = false.
Proof.
  unfold price_to_set. destruct v as [d|]; [|reflexivity].
  destruct (dec_truthy d); [apply str_of_Decimal_nonempty | reflexivity].
Qed.

(** The rounded intended price always reads back. *)
Lemma formatted_intended_value (sym : string) (v : option Decimal) :
  formatted_intended env sym v
  = Some (match v with
          | Some d => if dec_truthy d then Some (format_price_decimal env d sym) else None
          | None => None
          end).
Proof.
  unfold formatted_intended, _format_price. destruct v as [d|]; [|reflexivity].
  destruct (dec_truthy d); [|reflexivity].
  rewrite Decimal_of_str_of_Decimal. reflexivity.
Qed.

(** The corrective call goes through to the exchange: the text of a price
    is never empty. *)
Lemma set_trading_stop_drift (sym : string) (position_idx : Z) (p : Position)
    (bot : Bot) (x : X) :
  set_trading_stop G sym (Some (price_to_set env sym (intended_tp1 p)))
    (Some (price_to_set env sym (intended_sl p))) position_idx "Partial" bot x
  = (set_trading_stop_result
       (fst (session_set_trading_stop G x (drift_params env sym position_idx p))),
     add_event (EvSetTradingStop (drift_params env sym position_idx p)) bot,
     snd (session_set_trading_stop G x (drift_params env sym position_idx p))).
Proof.
  unfold set_trading_stop. cbn [opt_nonempty].
  rewrite price_to_set_nonempty. cbn [negb andb].
  fold (drift_params env sym position_idx p).
  destruct (session_set_trading_stop G x (drift_params env sym position_idx p)).
  reflexivity.
Qed.

(** One attempt whose poll shows the position with stops that differ from
    the intended ones: the corrective call is made, and its result
    decides. *)
Lemma verify_try_mismatch (sym : string) (position_idx : Z) (p : Position)
    (bot : Bot) (x : X) (target : ApiPosition) :
  let polled := get_open_positions G x sym in
  let bot1 := add_event (EvGetPositions sym) bot in
  let called := session_set_trading_stop G (snd polled)
                  (drift_params env sym position_idx p) in
  let bot2 := add_event (EvSetTradingStop (drift_params env sym position_idx p)) bot1 in
  List.find (api_is sym position_idx) (fst polled) = Some target ->
  gone_or_flat (Some target) = Some false ->
  tpsl_matches env sym (intended_tp1 p) (intended_sl p)
    (api_takeProfit target) (api_stopLoss target) = Some false ->
  verify_try G env sym position_idx p bot x
  = if set_trading_stop_result (fst called)
    then (Returned true,
          add_event (EvSleep 1)
            (match active_positions_details bot2 !! (sym, position_idx) with
             | Some _ =>
                 save_positions
                   (update_position (sym, position_idx)
                      (fun q => set_last_update_time (utcnow env)
                                  (set_intended_sl (intended_sl p)
                                     (set_intended_tp1 (intended_tp1 p) q)))
                      bot2)
             | None => bot2
             end),
          snd called)
    else (SetFailed, bot2, snd called).
Proof.
  intros polled bot1 called bot2 Hfind Hsize Hm.
  unfold verify_try, poll_positions. fold polled.
  destruct polled as [l x1] eqn:Ep. cbn [fst snd] in *.
  rewrite Hfind, Hsize. cbn [mbind option_bind].
  rewrite Hm, set_trading_stop_drift. fold called bot1 bot2.
  destruct (set_trading_stop_result (fst called)); reflexivity.
Qed.

End EngineFacts.

Section RetryBudget.

Context {X : Type} (G : Gateway X) (env : Env).
Variables (sym : string) (position_idx : Z) (p : Position) (target : ApiPosition)
          (polled : list ApiPosition).

Hypothesis Hpoll : forall x, fst (get_open_positions G x sym) = polled.
Hypothesis Hfind : List.find (api_is sym position_idx) polled = Some target.
Hypothesis Hsize : gone_or_flat (Some target) = Some false.
Hypothesis Hdrift :
  tpsl_matches env sym (intended_tp1 p) (intended_sl p)
    (api_takeProfit target) (api_stopLoss target) = Some false.
Hypothesis Hfail :
  forall x params,
    set_trading_stop_result (fst (session_set_trading_stop G x params)) = false.

Let attempt_events : list Event :=
  [EvGetPositions sym; EvSetTradingStop (drift_params env sym position_idx p)].

Let alert (bot : Bot) : Bot :=
  _add_trade_to_history env sym "System" "Alert" "N/A" None None
    "CRITICAL: TP/SL Set Fail" (Some "0.00"%string)
    (Some ("PosIdx " ++ str_of_Z position_idx)%string) bot.

(** A failed attempt changes nothing but the trace, and ends the loop
    only when the retries are used up. *)
Lemma verify_attempt_refused (attempt : nat) (bot : Bot) (x : X) :
  active_positions_details bot !! (sym, position_idx) = Some p ->
  exists x',
    verify_attempt G env sym position_idx attempt bot x
    = (if (attempt <? TPSL_VERIFICATION_RETRIES)%nat then None else Some false,
       (if (attempt <? TPSL_VERIFICATION_RETRIES)%nat
        then add_event (EvSleep TPSL_RETRY_DELAY_SECONDS)
        else alert)
         (mkBot (active_positions_details bot) (trade_history bot)
            (positions_disk bot) (history_disk bot)
            (trace bot ++ attempt_events)),
       x').
Proof.
  intros Hp. unfold verify_attempt. rewrite Hp.
  rewrite (verify_try_mismatch G env sym position_idx p bot x target);
    [| rewrite Hpoll; exact Hfind | exact Hsize | exact Hdrift].
  rewrite Hfail. cbv iota.
  eexists.
  replace (add_event (EvSetTradingStop (drift_params env sym position_idx p))
             (add_event (EvGetPositions sym) bot))
    with (mkBot (active_positions_details bot) (trade_history bot)
            (positions_disk bot) (history_disk bot)
            (trace bot ++ attempt_events))
    by (unfold add_event, attempt_events; cbn; rewrite <- app_assoc; reflexivity).
  destruct (attempt <? TPSL_VERIFICATION_RETRIES)%nat; reflexivity.
Qed.

(** C3. When every set-stops call of a reconciliation pass fails with an
    error that is not benign, the engine makes the call once and retries
    it [TPSL_VERIFICATION_RETRIES] = 3 times, waiting
    [TPSL_RETRY_DELAY_SECONDS] = 10 seconds before each retry; when the
    retries are used up it appends the critical alert to the trade
    history, returns [False], and leaves the tracked positions as they
    are: the position stays in the store for the next loop interval. *)
Theorem tpsl_retry_budget (bot : Bot) (x : X) :
  active_positions_details bot !! (sym, position_idx) = Some p ->
  let r := _verify_and_set_tpsl_for_position G env sym (intended_tp1 p)
             (intended_sl p) position_idx bot x in
  let bot' := snd (fst r) in
  let call := [EvGetPositions sym;
               EvSetTradingStop (drift_params env sym position_idx p)] in
  fst (fst r) = false
  /\ trace bot' = trace bot ++ call ++ [EvSleep 10] ++ call ++ [EvSleep 10]
                  ++ call ++ [EvSleep 10] ++ call ++ [EvSaveHistory]
  /\ count_set_stops (trace bot')
     = (count_set_stops (trace bot) + (1 + TPSL_VERIFICATION_RETRIES))%nat
  /\ count_retry_delays (trace bot')
     = (count_retry_delays (trace bot) + TPSL_VERIFICATION_RETRIES)%nat
  /\ TPSL_VERIFICATION_RETRIES = 3%nat
  /\ TPSL_RETRY_DELAY_SECONDS = 10%Q
  /\ trade_history bot'
     = trade_history bot
       ++ [trade_event (now_thailand env) sym "System" "Alert" "N/A" None None
             "CRITICAL: TP/SL Set Fail" (Some "0.00"%string)
             (Some ("PosIdx " ++ str_of_Z position_idx)%string)]
  /\ active_positions_details bot' = active_positions_details bot
  /\ active_positions_details bot' !! (sym, position_idx) = Some p.
Proof.
  intros Hp r bot' call.
  assert (Hr : exists x',
             r = (false,
                  alert (mkBot (active_positions_details bot) (trade_history bot)
                           (positions_disk bot) (history_disk bot)
                           (trace bot ++ call ++ [EvSleep 10] ++ call
                            ++ [EvSleep 10] ++ call ++ [EvSleep 10] ++ call)),
                  x')).
  { subst r. unfold _verify_and_set_tpsl_for_position.
    change (TPSL_VERIFICATION_RETRIES + 1)%nat with 4%nat. cbn [verify_loop].
    destruct (verify_attempt_refused 0 bot x Hp) as [x1 ->].
    change (0 <? TPSL_VERIFICATION_RETRIES)%nat with true. cbv iota.
    set (b1 := add_event _ _).
    destruct (verify_attempt_refused 1 b1 x1 Hp) as [x2 ->].
    change (1 <? TPSL_VERIFICATION_RETRIES)%nat with true. cbv iota.
    set (b2 := add_event _ _).
    destruct (verify_attempt_refused 2 b2 x2 Hp) as [x3 ->].
    change (2 <? TPSL_VERIFICATION_RETRIES)%nat with true. cbv iota.
    set (b3 := add_event _ _).
    destruct (verify_attempt_refused 3 b3 x3 Hp) as [x4 ->].
    change (3 <? TPSL_VERIFICATION_RETRIES)%nat with false. cbv iota.
    exists x4. f_equal. f_equal. f_equal.
    subst b3 b2 b1. unfold add_event, attempt_events, call.
    cbn [active_positions_details trade_history positions_disk history_disk trace].
    repeat (rewrite <- app_assoc; cbn [app]). reflexivity. }
  destruct Hr as [x' Hr]. subst bot'. rewrite Hr. cbn [fst snd].
  unfold alert, _add_trade_to_history.
  cbn [active_positions_details trade_history positions_disk history_disk trace].
  repeat split; try reflexivity; try exact Hp.
  - repeat (rewrite <- app_assoc; cbn [app]). reflexivity.
  - unfold count_set_stops. rewrite !List.filter_app, !List.length_app. cbn.
    unfold TPSL_VERIFICATION_RETRIES. lia.
  - unfold count_retry_delays. rewrite !List.filter_app, !List.length_app. cbn.
    change (Qeq_bool 10 TPSL_RETRY_DELAY_SECONDS) with true. cbn.
    unfold TPSL_VERIFICATION_RETRIES. lia.
Qed.

End RetryBudget.

Lemma tpsl_retry_budget_witness :
  fst (fst (_verify_and_set_tpsl_for_position refusing_gateway sample_env "BTCUSDT"
              (intended_tp1 sample_position) (intended_sl sample_position) 0
              sample_bot tt)) = false.
Proof.
  refine (proj1 (tpsl_retry_budget refusing_gateway sample_env "BTCUSDT" 0
                   sample_position sample_api_position [sample_api_position]
                   _ _ _ _ _ sample_bot tt _)).
  - intros x. reflexivity.
  - reflexivity.
  - vm_compute. reflexivity.
  - vm_compute. reflexivity.
  - intros x params. reflexivity.
  - reflexivity.
Defined.



(** ** Closing a tracked position *)

(** What [_handle_closed_position] does to a tracked key: the key leaves
    the store, the store is flushed, one event is appended to the history
    and flushed, and only then the notification is awaited. *)
Lemma handle_closed_tracked (env : Env) (k : pos_key) (data : option Position)
    (reason : option string) (bot : Bot) (p : Position) :
  active_positions_details bot !! k = Some p ->
  _handle_closed_position env k data reason bot
  = let reason_note := default "Position Closed (Reason Undetermined)"%string
                               (nonempty reason) in
    let event :=
      trade_event (now_thailand env) (fst k) "System Close" (side p)
        (str_of_opt_Decimal (last_known_size p)) (Some "N/A"%string) None
        ("Position Closed (" ++ reason_note ++ ")")%string (Some "N/A"%string)
        (Some ("PosIdx " ++ str_of_Z (snd k))%string) in
    let store := delete k (active_positions_details bot) in
    mkBot store (trade_history bot ++ [event])
      (_save_active_positions_to_disk (details_dict <$> store))
      (_save_trade_history_to_disk (trade_history bot ++ [event]) (history_disk bot))
      (trace bot ++ [EvSavePositions; EvSaveHistory]
       ++ (if telegram_bot env
           then [EvNotify ("Position Closed: " ++ fst k ++ " (" ++ side p
                           ++ ", Idx: " ++ str_of_Z (snd k)
                           ++ ") Reason: " ++ reason_note)%string]
           else [])).
Proof.
  intros Hp. destruct k as [sym idx]. unfold _handle_closed_position. rewrite Hp.
  unfold _add_trade_to_history, save_positions, set_store, add_event.
  cbn [active_positions_details trade_history positions_disk history_disk trace fst snd].
  destruct (telegram_bot env);
    cbn [active_positions_details trade_history positions_disk history_disk trace];
    rewrite lookup_delete_eq; cbv zeta;
    repeat (rewrite <- app_assoc; cbn [app]); reflexivity.
Qed.

(** ** Drift correction *)

Lemma count_set_stops_app (tr1 tr2 : list Event) :
  count_set_stops (tr1 ++ tr2) = (count_set_stops tr1 + count_set_stops tr2)%nat.
Proof. unfold count_set_stops. rewrite List.filter_app, List.length_app. reflexivity. Qed.

Lemma dec_eqb_refl (d : Decimal) : dec_eqb d d = true.
Proof. apply Qeq_bool_refl. Qed.

Lemma find_map_preserved {A} (f : A -> bool) (g : A -> A) (l : list A) :
  (forall a, f (g a) = f a) ->
  List.find f (map g l) = option_map g (List.find f l).
Proof.
  intros H. induction l as [|a l IH]; simpl; [reflexivity|].
  rewrite H. destruct (f a); [reflexivity | exact IH].
Qed.

Section Idempotence.

Context (env : Env) (sym : string) (position_idx : Z).

Let k : pos_key := (sym, position_idx).

(** The stop just sent, as the exchange reports it back, matches the
    intention it was computed from. *)
Lemma side_matches_after_set (v : option Decimal) :
  exists c, live_price (Some (price_to_set env sym v)) = Some c
            /\ exists f, formatted_intended env sym v = Some f
                         /\ side_matches f c = true.
Proof.
  rewrite formatted_intended_value. unfold price_to_set, live_price.
  destruct v as [d|]; [|exists None; split; [reflexivity | eexists; split; reflexivity]].
  destruct (dec_truthy d) eqn:Ht;
    [|exists None; split; [reflexivity | eexists; split; reflexivity]].
  unfold _format_price. generalize (format_price_decimal env d sym). intros f.
  rewrite str_of_Decimal_nonempty. cbn [orb].
  destruct (String.eqb_spec (str_of_Decimal f) "0") as [E|_].
  - exists None. split; [reflexivity|]. eexists. split; [reflexivity|].
    pose proof (Decimal_of_str_of_Decimal f) as Hf. rewrite E in Hf.
    vm_compute in Hf. injection Hf as <-. reflexivity.
  - rewrite Decimal_of_str_of_Decimal. exists (Some f). split; [reflexivity|].
    eexists. split; [reflexivity|].
    unfold side_matches. cbn [opt_dec_eqb]. rewrite dec_eqb_refl. reflexivity.
Qed.

Lemma tpsl_matches_after_set (tp sl : option Decimal) :
  tpsl_matches env sym tp sl (Some (price_to_set env sym tp))
    (Some (price_to_set env sym sl)) = Some true.
Proof.
  unfold tpsl_matches.
  destruct (side_matches_after_set tp) as (c1 & -> & f1 & -> & ->).
  destruct (side_matches_after_set sl) as (c2 & -> & f2 & -> & ->).
  reflexivity.
Qed.

Lemma apply_stop_keeps_name (params : StopParams) (s : string) (i : Z) (p : ApiPosition) :
  api_is s i (apply_stop params p) = api_is s i p.
Proof. unfold apply_stop. destruct (api_is _ _ p); reflexivity. Qed.

(** An attempt that finds nothing to correct makes no call, leaves the
    exchange alone, and leaves nothing to correct. *)
Lemma quiet_attempt (attempt : nat) (bot : Bot) (x : list ApiPosition) :
  drift_state env sym position_idx (active_positions_details bot) x = None ->
  let r := verify_attempt obedient_exchange env sym position_idx attempt bot x in
  snd r = x
  /\ count_set_stops (trace (snd (fst r))) = count_set_stops (trace bot)
  /\ drift_state env sym position_idx (active_positions_details (snd (fst r))) x = None.
Proof.
  intros Hq r. subst r. unfold verify_attempt.
  destruct (active_positions_details bot !! (sym, position_idx)) as [p|] eqn:Hp;
    [|cbn; auto].
  unfold verify_try, poll_positions. cbn [obedient_exchange get_open_positions].
  assert (Hev : forall ev, is_set_stop ev = false ->
            count_set_stops (trace (add_event ev bot)) = count_set_stops (trace bot)).
  { intros ev Hev. unfold add_event. cbn [trace].
    rewrite count_set_stops_app. unfold count_set_stops at 2. cbn. rewrite Hev. cbn. lia. }
  set (bot1 := add_event (EvGetPositions sym) bot).
  assert (Hc1 : count_set_stops (trace bot1) = count_set_stops (trace bot))
    by (apply Hev; reflexivity).
  assert (Hclosed :
    let b := _handle_closed_position env (sym, position_idx) (Some p) None bot1 in
    count_set_stops (trace b) = count_set_stops (trace bot)
    /\ drift_state env sym position_idx (active_positions_details b) x = None).
  { rewrite (handle_closed_tracked env _ _ _ bot1 p) by exact Hp.
    cbn [trace active_positions_details]. split.
    - rewrite count_set_stops_app, Hc1.
      destruct (telegram_bot env); cbn; lia.
    - unfold drift_state. rewrite lookup_delete_eq. reflexivity. }
  assert (Hretry : forall b0 : Bot,
    active_positions_details b0 = active_positions_details bot ->
    count_set_stops (trace b0) = count_set_stops (trace bot) ->
    let r := (if (attempt <? TPSL_VERIFICATION_RETRIES)%nat
              then (@None bool, add_event (EvSleep TPSL_RETRY_DELAY_SECONDS) b0, x)
              else (Some false, b0, x)) in
    snd r = x
    /\ count_set_stops (trace (snd (fst r))) = count_set_stops (trace bot)
    /\ drift_state env sym position_idx (active_positions_details (snd (fst r))) x = None).
  { intros b0 Hs Hc. destruct (attempt <? TPSL_VERIFICATION_RETRIES)%nat;
      cbn [fst snd]; repeat split; try (rewrite Hs; exact Hq); try exact Hc.
    - unfold add_event. cbn [trace]. rewrite count_set_stops_app, Hc. cbn. lia.
    - unfold add_event. cbn [active_positions_details]. rewrite Hs. exact Hq. }
  unfold drift_state in Hq. rewrite Hp in Hq.
  destruct (List.find (api_is sym position_idx) x) as [target|] eqn:Hf.
  - destruct (gone_or_flat (Some target)) as [[|]|] eqn:Hg.
    + (* reported flat *)
      destruct (str_mem _ _ && _).
      * cbn [fst snd]. repeat split; auto.
        change (active_positions_details bot1) with (active_positions_details bot).
        unfold drift_state. rewrite Hp, Hf, Hg. reflexivity.
      * change (active_positions_details bot1) with (active_positions_details bot).
        rewrite Hp. cbn [fst snd]. destruct Hclosed as [H1 H2]. auto.
    + cbn [mbind option_bind].
      destruct (tpsl_matches env sym (intended_tp1 p) (intended_sl p)
                  (api_takeProfit target) (api_stopLoss target)) as [[|]|] eqn:Hm;
        try discriminate Hq.
      * cbn [fst snd]. repeat split; auto.
        change (active_positions_details bot1) with (active_positions_details bot).
        unfold drift_state. rewrite Hp, Hf, Hg, Hm. reflexivity.
      * apply (Hretry bot1); [reflexivity | exact Hc1].
    + apply (Hretry bot1); [reflexivity | exact Hc1].
  - cbn [gone_or_flat].
    destruct (str_mem _ _ && _).
    * cbn [fst snd]. repeat split; auto.
      change (active_positions_details bot1) with (active_positions_details bot).
      unfold drift_state. rewrite Hp, Hf. reflexivity.
    * change (active_positions_details bot1) with (active_positions_details bot).
        rewrite Hp. cbn [fst snd]. destruct Hclosed as [H1 H2]. auto.
Qed.

(** An attempt that finds a drift makes one call, which the exchange
    obeys, and leaves nothing to correct. *)
Lemma call_attempt (attempt : nat) (bot : Bot) (x : list ApiPosition) (p : Position) :
  drift_state env sym position_idx (active_positions_details bot) x = Some p ->
  let r := verify_attempt obedient_exchange env sym position_idx attempt bot x in
  fst (fst r) = Some true
  /\ count_set_stops (trace (snd (fst r))) = S (count_set_stops (trace bot))
  /\ drift_state env sym position_idx (active_positions_details (snd (fst r))) (snd r)
     = None.
Proof.
  intros Hd r. subst r. unfold drift_state in Hd.
  destruct (active_positions_details bot !! (sym, position_idx)) as [q|] eqn:Hp;
    [|discriminate].
  destruct (List.find (api_is sym position_idx) x) as [target|] eqn:Hf; [|discriminate].
  destruct (gone_or_flat (Some target)) as [[|]|] eqn:Hg; try discriminate.
  destruct (tpsl_matches env sym (intended_tp1 q) (intended_sl q)
              (api_takeProfit target) (api_stopLoss target)) as [[|]|] eqn:Hm;
    try discriminate.
  injection Hd as ->.
  unfold verify_attempt. rewrite Hp.
  rewrite (verify_try_mismatch obedient_exchange env sym position_idx p bot x target
             Hf Hg Hm).
  cbn [obedient_exchange session_set_trading_stop get_open_positions fst snd
       set_trading_stop_result].
  unfold save_positions, update_position, set_store, add_event.
  cbn [active_positions_details trade_history positions_disk history_disk trace fst snd].
  rewrite Hp.
  cbn [active_positions_details trade_history positions_disk history_disk trace fst snd].
  repeat split.
  - rewrite !count_set_stops_app. cbn. lia.
  - unfold drift_state. rewrite lookup_alter_eq, Hp. cbn [fmap option_fmap option_map].
    rewrite (find_map_preserved _ _ _ (apply_stop_keeps_name _ sym position_idx)), Hf.
    cbn [option_map].
    pose proof (find_some _ _ Hf) as [_ Hname].
    assert (Ha : apply_stop (drift_params env sym position_idx p) target
                 = mkApiPosition (api_symbol target) (api_positionIdx target)
                     (api_side target) (api_size target) (api_avgPrice target)
                     (Some (price_to_set env sym (intended_sl p)))
                     (Some (price_to_set env sym (intended_tp1 p)))).
    { unfold apply_stop, drift_params. cbn [sp_symbol sp_positionIdx sp_stopLoss
        sp_takeProfit]. rewrite Hname. reflexivity. }
    rewrite Ha.
    assert (Hg' : gone_or_flat
                    (Some (mkApiPosition (api_symbol target) (api_positionIdx target)
                             (api_side target) (api_size target) (api_avgPrice target)
                             (Some (price_to_set env sym (intended_sl p)))
                             (Some (price_to_set env sym (intended_tp1 p)))))
                  = Some false) by exact Hg.
    rewrite Hg'. cbn [api_takeProfit api_stopLoss].
    destruct p; cbn [intended_tp1 intended_sl set_last_update_time set_intended_sl
                     set_intended_tp1].
    rewrite tpsl_matches_after_set. reflexivity.
Qed.

Lemma quiet_loop (turns attempt : nat) (bot : Bot) (x : list ApiPosition) :
  drift_state env sym position_idx (active_positions_details bot) x = None ->
  let r := verify_loop obedient_exchange env turns sym position_idx attempt bot x in
  snd r = x
  /\ count_set_stops (trace (snd (fst r))) = count_set_stops (trace bot)
  /\ drift_state env sym position_idx (active_positions_details (snd (fst r))) x = None.
Proof.
  revert attempt bot. induction turns as [|turns IH]; intros attempt bot Hq.
  - cbn. auto.
  - cbn [verify_loop].
    pose proof (quiet_attempt attempt bot x Hq) as Ha. cbv zeta in Ha.
    destruct (verify_attempt obedient_exchange env sym position_idx attempt bot x)
      as [[[b|] bot1] x1]; cbn [fst snd] in *.
    + exact Ha.
    + destruct Ha as (-> & Hc & Hq1).
      specialize (IH (S attempt) bot1 Hq1). cbv zeta in IH.
      destruct IH as (H1 & H2 & H3). repeat split; [exact H1 | congruence | exact H3].
Qed.

(** A whole pass over one position makes at most one call and leaves
    nothing to correct. *)
Lemma settled_after_pass (tp sl : option Decimal) (bot : Bot) (x : list ApiPosition) :
  let r := _verify_and_set_tpsl_for_position obedient_exchange env sym tp sl
             position_idx bot x in
  (count_set_stops (trace (snd (fst r))) <= S (count_set_stops (trace bot)))%nat
  /\ drift_state env sym position_idx (active_positions_details (snd (fst r))) (snd r)
     = None.
Proof.
  unfold _verify_and_set_tpsl_for_position.
  change (TPSL_VERIFICATION_RETRIES + 1)%nat with 4%nat.
  destruct (drift_state env sym position_idx (active_positions_details bot) x)
    as [p|] eqn:Hd.
  - cbn [verify_loop].
    pose proof (call_attempt 0 bot x p Hd) as Ha. cbv zeta in Ha.
    destruct (verify_attempt obedient_exchange env sym position_idx 0 bot x)
      as [[[b|] bot1] x1]; cbn [fst snd] in *.
    + destruct Ha as (_ & Hc & Hq). split; [lia | exact Hq].
    + destruct Ha as (Hn & _). discriminate Hn.
  - pose proof (quiet_loop 4 0 bot x Hd) as Hl. cbv zeta in Hl |- *.
    destruct Hl as (Hx & Hc & Hq). rewrite Hx. split; [lia | exact Hq].
Qed.

End Idempotence.




(** ** The periodic maintenance of one position *)

Lemma handle_closed_untracked (env : Env) (k : pos_key) (data : option Position)
    (reason : option string) (bot : Bot) :
  active_positions_details bot !! k = None ->
  _handle_closed_position env k data reason bot = save_positions bot.
Proof.
  intros Hp. destruct k as [sym idx]. unfold _handle_closed_position.
  rewrite Hp. reflexivity.
Qed.

(** C2. A tracked position whose main order is Filled and that a
    reconciliation poll reports absent, or with size zero, leaves the
    store in that pass, and exactly one trade history entry is appended,
    whose status contains "Position Closed".  The removal, its flush, the
    history entry and its flush come together, before the first await
    that follows (the notification): there is no removal without the
    entry, and a second closure of the same key finds nothing to remove
    and appends nothing. *)
Theorem closure_detected {X : Type} (G : Gateway X) (env : Env) (k : pos_key)
    (bot : Bot) (x : X) (p : Position) :
  active_positions_details bot !! k = Some p ->
  main_order_status p = Some "Filled"%string ->
  gone_or_flat (List.find (api_is (fst k) (snd k))
                  (fst (get_open_positions G x (fst k)))) = Some true ->
  let r := maintain_position G env k bot x in
  let bot' := snd (fst r) in
  let event :=
    trade_event (now_thailand env) (fst k) "System Close" (side p)
      (str_of_opt_Decimal (last_known_size p)) (Some "N/A"%string) None
      "Position Closed (Position Closed (Reason Undetermined))"
      (Some "N/A"%string) (Some ("PosIdx " ++ str_of_Z (snd k))%string) in
  fst (fst r) = false
  /\ active_positions_details bot' = delete k (active_positions_details bot)
  /\ active_positions_details bot' !! k = None
  /\ trade_history bot' = trade_history bot ++ [event]
  /\ (exists status, event_status event = Some status
                     /\ str_in "Position Closed" status = true)
  /\ (exists notified,
        trace bot' = trace bot ++ [EvGetPositions (fst k); EvSavePositions;
                                   EvSaveHistory] ++ notified
        /\ forall ev, In ev notified -> exists text, ev = EvNotify text)
  /\ positions_disk bot'
     = _save_active_positions_to_disk
         (details_dict <$> delete k (active_positions_details bot))
  /\ history_disk bot'
     = Some (map _serialize_value (trade_history bot ++ [event]))
  /\ (forall data reason,
        trade_history (_handle_closed_position env k data reason bot')
        = trade_history bot'
        /\ active_positions_details (_handle_closed_position env k data reason bot')
           = active_positions_details bot').
Proof.
  intros Hp Hst Hgone r bot' event.
  assert (Hr : r = (false,
                    _handle_closed_position env k (Some p) None
                      (add_event (EvGetPositions (fst k)) bot),
                    snd (get_open_positions G x (fst k)))).
  { subst r. destruct k as [sym idx]. unfold maintain_position. rewrite Hp, Hst.
    change (negb (str_mem (default ""%string (Some "Filled"%string))
                    ["Filled"; "N/A (External/Synced)"]%string)) with false.
    cbv iota. unfold poll_positions. cbn [fst snd] in *.
    destruct (get_open_positions G x sym) as [l x1]. cbn [fst snd] in *.
    rewrite Hgone. reflexivity. }
  subst bot'. rewrite Hr. cbn [fst snd].
  rewrite (handle_closed_tracked env k (Some p) None _ p) by exact Hp.
  cbv zeta. cbn [active_positions_details trade_history positions_disk
                 history_disk trace add_event nonempty].
  change (String.append "Position Closed ("
            (String.append
               (default "Position Closed (Reason Undetermined)"%string None) ")"))
    with "Position Closed (Position Closed (Reason Undetermined))"%string.
  fold event.
  split; [reflexivity|]. split; [reflexivity|].
  split; [apply lookup_delete_eq|]. split; [reflexivity|].
  split; [exists "Position Closed (Position Closed (Reason Undetermined))"%string;
          split; reflexivity|].
  split.
  { eexists. split.
    - repeat (rewrite <- app_assoc; cbn [app]). reflexivity.
    - intros ev Hin. destruct (telegram_bot env); cbn in Hin; [|contradiction].
      destruct Hin as [<-|[]]. eexists. reflexivity. }
  split; [reflexivity|].
  split.
  { unfold _save_trade_history_to_disk.
    destruct (trade_history bot ++ [event]) eqn:E; [|reflexivity].
    apply app_eq_nil in E as [_ E]. discriminate E. }
  intros data reason.
  rewrite handle_closed_untracked
    by (cbn [active_positions_details]; apply lookup_delete_eq).
  split; reflexivity.
Qed.

Lemma closure_detected_witness :
  active_positions_details
    (snd (fst (maintain_position flat_gateway sample_env sample_key sample_bot tt)))
  !! sample_key = None.
Proof.
  refine (proj1 (proj2 (proj2
    (closure_detected flat_gateway sample_env sample_key sample_bot tt
       sample_position _ _ _)))).
  - reflexivity.
  - reflexivity.
  - reflexivity.
Defined.

Section Maintenance.

Context {X : Type} (G : Gateway X) (env : Env).

Lemma set_trading_stop_store (sym : string) (tp sl : option string) (idx : Z)
    (mode : string) (bot : Bot) (x : X) :
  active_positions_details (snd (fst (set_trading_stop G sym tp sl idx mode bot x)))
  = active_positions_details bot.
Proof.
  unfold set_trading_stop.
  destruct (_ && _); [reflexivity|].
  destruct (session_set_trading_stop G x _). reflexivity.
Qed.

(** What an attempt can do to the store: nothing, remove the key, or
    refresh the time of the key. *)
Lemma verify_try_store (sym : string) (idx : Z) (q : Position) (bot : Bot) (x : X) :
  active_positions_details bot !! (sym, idx) = Some q ->
  let st := active_positions_details
              (snd (fst (verify_try G env sym idx q bot x))) in
  st = active_positions_details bot
  \/ st = delete (sym, idx) (active_positions_details bot)
  \/ st = <[(sym, idx) := set_last_update_time (utcnow env) q]>
            (active_positions_details bot).
Proof.
  intros Hq. unfold verify_try, poll_positions.
  destruct (get_open_positions G x sym) as [l x1].
  set (bot1 := add_event (EvGetPositions sym) bot).
  assert (Hq1 : active_positions_details bot1 !! (sym, idx) = Some q) by exact Hq.
  destruct (gone_or_flat (List.find (api_is sym idx) l)) as [[|]|]; cbn [fst snd].
  - destruct (_ && _); cbn [fst snd]; [left; reflexivity|].
    rewrite Hq1. cbn [fst snd].
    rewrite (handle_closed_tracked env _ _ _ bot1 q Hq1). right. left. reflexivity.
  - destruct (tpsl_matches _ _ _ _ _ _) as [[|]|]; cbn [fst snd]; try (left; reflexivity).
    pose proof (set_trading_stop_store sym
                  (Some (price_to_set env sym (intended_tp1 q)))
                  (Some (price_to_set env sym (intended_sl q))) idx "Partial" bot1 x1)
      as Hs.
    destruct (set_trading_stop G sym _ _ idx "Partial" bot1 x1) as [[success b2] x2].
    cbn [fst snd] in Hs.
    destruct success; cbn [fst snd]; [|left; exact Hs].
    rewrite Hs, Hq1. right. right.
    unfold add_event, save_positions, update_position, set_store.
    cbn [active_positions_details]. rewrite Hs.
    apply map_eq. intros k'. rewrite lookup_alter, lookup_insert.
    destruct (decide ((sym, idx) = k')) as [<-|Hne]; [|reflexivity].
    change (active_positions_details bot !! (sym, idx)) with
      (active_positions_details bot1 !! (sym, idx)).
    rewrite Hq1. destruct q. reflexivity.
  - left. reflexivity.
Qed.

Lemma same_but_time_refl (p : Position) : same_but_time p p.
Proof. exists (last_update_time p). destruct p. reflexivity. Qed.

Lemma same_but_time_again (p q : Position) (t : datetime) :
  same_but_time p q -> same_but_time p (set_last_update_time t q).
Proof. intros [t' ->]. exists t. reflexivity. Qed.

Lemma verify_attempt_kept (sym : string) (idx : Z) (attempt : nat) (p0 : Position)
    (bot : Bot) (x : X) :
  kept (sym, idx) p0 (active_positions_details bot) ->
  kept (sym, idx) p0
    (active_positions_details (snd (fst (verify_attempt G env sym idx attempt bot x)))).
Proof.
  intros Hk. unfold verify_attempt.
  destruct (active_positions_details bot !! (sym, idx)) as [q|] eqn:Hq;
    [|exact Hk].
  assert (Hsame : same_but_time p0 q).
  { destruct Hk as [Hk|(q' & Hk & Hs)]; congruence. }
  pose proof (verify_try_store sym idx q bot x Hq) as Hst. cbv zeta in Hst.
  destruct (verify_try G env sym idx q bot x) as [[res b1] x1]. cbn [fst snd] in Hst.
  assert (Hk1 : kept (sym, idx) p0 (active_positions_details b1)).
  { destruct Hst as [ -> | [ -> | -> ] ].
    - exact Hk.
    - left. apply lookup_delete_eq.
    - right. eexists. split; [apply lookup_insert_eq|].
      apply same_but_time_again, Hsame. }
  destruct res as [b| |]; cbn [fst snd]; try exact Hk1;
    destruct (attempt <? TPSL_VERIFICATION_RETRIES)%nat; exact Hk1.
Qed.

Lemma verify_loop_kept (turns : nat) (sym : string) (idx : Z) (attempt : nat)
    (p0 : Position) (bot : Bot) (x : X) :
  kept (sym, idx) p0 (active_positions_details bot) ->
  kept (sym, idx) p0
    (active_positions_details (snd (fst (verify_loop G env turns sym idx attempt bot x)))).
Proof.
  revert attempt bot x. induction turns as [|turns IH]; intros attempt bot x Hk.
  - exact Hk.
  - cbn [verify_loop].
    pose proof (verify_attempt_kept sym idx attempt p0 bot x Hk) as Ha.
    destruct (verify_attempt G env sym idx attempt bot x) as [[[b|] b1] x1];
      cbn [fst snd] in *; [exact Ha | apply IH, Ha].
Qed.

Lemma mutate_tracked (k : pos_key) (f : Position -> Position) (st : Position * Bot) :
  active_positions_details (snd st) !! k = Some (fst st) ->
  active_positions_details (snd (mutate k f st)) !! k = Some (fst (mutate k f st)).
Proof.
  intros H. unfold mutate, update_position, set_store.
  cbn [fst snd active_positions_details]. rewrite lookup_alter_eq, H. reflexivity.
Qed.

Lemma update_position_tracked (k : pos_key) (f : Position -> Position) (bot : Bot)
    (q : Position) :
  active_positions_details bot !! k = Some q ->
  active_positions_details (update_position k f bot) !! k = Some (f q).
Proof.
  intros H. unfold update_position, set_store. cbn [active_positions_details].
  rewrite lookup_alter_eq, H. reflexivity.
Qed.

Lemma promoted_refl (sym : string) (b : bool) (a : option Decimal) (q : Position) :
  promoted env sym b a q q.
Proof. repeat split. left. split; reflexivity. Qed.

Lemma promoted_trans (sym : string) (b : bool) (a : option Decimal) (q0 q1 q2 : Position) :
  promoted env sym b a q0 q1 -> promoted env sym b a q1 q2 ->
  promoted env sym b a q0 q2.
Proof.
  intros (He1 & Hs1 & H1) (He2 & Hs2 & H2).
  split; [congruence|]. split; [congruence|].
  destruct H2 as [[Hb2 Hl2]|(Hb & Hb2 & Ht & H2)].
  - destruct H1 as [[Hb1 Hl1]|(Hb & Hb1 & Ht & H1)].
    + left. split; congruence.
    + right. split; [exact Hb|]. split; [congruence|]. split; [exact Ht|].
      destruct H1 as [H1|[H1 Hr]].
      * left. congruence.
      * right. split; [congruence | exact Hr].
  - right. split; [exact Hb|]. split; [exact Hb2|]. split; [exact Ht|].
    destruct H2 as [H2|[H2 Hr]]; [left; exact H2|].
    destruct H1 as [[Hb1 Hl1]|(_ & Hb1 & _ & H1)].
    + right. split; [congruence|]. rewrite <- Hl1. exact Hr.
    + destruct H1 as [H1|[H1 Hr1]].
      * left. congruence.
      * right. split; [congruence | exact Hr1].
Qed.

(** The partial take-profit trigger keeps the dict of the key in the store
    and promotes at most once. *)
Lemma breakeven_on_partial_promoted (k : pos_key) (api : ApiPosition)
    (actual : option Decimal) (already : bool) (pos_side : string)
    (st st' : Position * Bot) :
  active_positions_details (snd st) !! k = Some (fst st) ->
  breakeven_on_partial env k api actual already pos_side st = Some st' ->
  active_positions_details (snd st') !! k = Some (fst st')
  /\ promoted env (fst k) already actual (fst st) (fst st').
Proof.
  intros Hst. destruct k as [sym idx]. unfold breakeven_on_partial.
  destruct (enable_breakeven_on_partial_tp env && negb already && opt_truthy actual)
    eqn:Hc.
  2:{ intros [= <-]. split; [exact Hst | apply promoted_refl]. }
  apply andb_prop in Hc as [Hc Htruthy]. apply andb_prop in Hc as [_ Hal].
  apply negb_true_iff in Hal.
  destruct (Decimal_of_str _) as [live_size|]; [|discriminate].
  destruct (last_known_size (fst st)) as [lks|]; [|discriminate].
  intros [= <-].
  destruct (dec_ltb live_size lks).
  - split.
    + unfold mutate, _add_trade_to_history, save_positions, add_event.
      destruct (telegram_bot env);
        cbn [fst snd active_positions_details];
        repeat apply update_position_tracked; exact Hst.
    + destruct st as [q b]. destruct q.
      unfold promoted, mutate.
      destruct (telegram_bot env); cbn; repeat split; right; repeat split; auto.
  - split; [apply mutate_tracked, Hst|].
    destruct st as [q b]. destruct q. unfold promoted, mutate. cbn.
    repeat split. left. split; reflexivity.
Qed.

(** The TP1 trigger does the same, and may leave a stop that already
    rounds to the promotion price. *)
Lemma breakeven_on_tp1_promoted (k : pos_key) (api : ApiPosition)
    (actual tp1 : option Decimal) (already : bool) (pos_side : string)
    (st : Position * Bot) (x : X) :
  active_positions_details (snd st) !! k = Some (fst st) ->
  let r := breakeven_on_tp1 G env k api actual tp1 already pos_side st x in
  active_positions_details (snd (fst r)) !! k = Some (fst (fst r))
  /\ promoted env (fst k) already actual (fst st) (fst (fst r)).
Proof.
  intros Hst r. subst r. destruct k as [sym idx]. unfold breakeven_on_tp1.
  assert (Hsame : active_positions_details (snd st) !! (sym, idx) = Some (fst st)
                  /\ promoted env sym already actual (fst st) (fst st))
    by (split; [exact Hst | apply promoted_refl]).
  destruct actual as [entry|]; [|exact Hsame].
  destruct tp1 as [tp1|]; [|exact Hsame].
  destruct (enable_breakeven_on_tp1 env && negb already && dec_truthy tp1
            && dec_truthy entry && dec_ltb (dec_of_Z 0) entry) eqn:Hc;
    [|exact Hsame].
  apply andb_prop in Hc as [Hc _]. apply andb_prop in Hc as [Hc Htruthy].
  apply andb_prop in Hc as [Hc _]. apply andb_prop in Hc as [_ Hal].
  apply negb_true_iff in Hal.
  destruct (get_tickers_lastPrice G x sym) as [market x1].
  destruct (tp1_hit pos_side market tp1) as [[|]|]; try exact Hsame.
  rewrite formatted_intended_value. unfold _format_price.
  rewrite Decimal_of_str_of_Decimal. cbn [fst snd].
  set (current := match intended_sl (fst st) with
                  | Some d => if dec_truthy d
                              then Some (format_price_decimal env d sym) else None
                  | None => None
                  end).
  destruct (opt_dec_eqb current (Some (format_price_decimal env entry sym))) eqn:Heq;
    cbn [negb fst snd].
  - (* the stop already rounds to the entry price *)
    split.
    + unfold mutate, save_positions. cbn [fst snd active_positions_details].
      apply update_position_tracked. exact Hst.
    + subst current. destruct st as [q b]. destruct q as [? ? ? ? ? sl0 ? ? ? ? ? ? ? ?].
      unfold promoted, mutate. cbn in *.
      repeat split. right. repeat split; auto. right. split; [reflexivity|].
      destruct sl0 as [s|]; [|discriminate Heq].
      destruct (dec_truthy s); [|discriminate Heq].
      exists s, entry. repeat split. exact Heq.
  - split.
    + unfold mutate, _add_trade_to_history, save_positions.
      cbn [fst snd active_positions_details].
      repeat apply update_position_tracked. exact Hst.
    + destruct st as [q b]. destruct q. unfold promoted, mutate. cbn.
      repeat split. right. repeat split; auto.
Qed.

(** What the body of the loop does to the dict of its key: the key is
    removed, or the triggers ran on the position (its entry price
    possibly refreshed first) and the result is in the store. *)
Lemma maintain_position_outcome (k : pos_key) (bot : Bot) (x : X) (p : Position) :
  active_positions_details bot !! k = Some p ->
  let bot' := snd (fst (maintain_position G env k bot x)) in
  active_positions_details bot' !! k = None
  \/ exists q0 q2 p',
       active_positions_details bot' !! k = Some p'
       /\ breakeven_applied q0 = breakeven_applied p
       /\ intended_sl q0 = intended_sl p
       /\ promoted env (fst k) (breakeven_applied p) (promotion_price q0) q0 q2
       /\ same_but_time q2 p'.
Proof.
  intros Hp bot'. subst bot'. destruct k as [sym idx].
  assert (Hsame : forall b : Bot,
            active_positions_details b !! (sym, idx) = Some p ->
            active_positions_details b !! (sym, idx) = None
            \/ exists q0 q2 p',
                 active_positions_details b !! (sym, idx) = Some p'
                 /\ breakeven_applied q0 = breakeven_applied p
                 /\ intended_sl q0 = intended_sl p
                 /\ promoted env sym (breakeven_applied p) (promotion_price q0) q0 q2
                 /\ same_but_time q2 p').
  { intros b Hb. right. exists p, p, p.
    repeat split; auto using same_but_time_refl. }
  unfold maintain_position. rewrite Hp.
  destruct (negb (str_mem _ _)); [apply Hsame, Hp|].
  unfold poll_positions. destruct (get_open_positions G x sym) as [l x1].
  set (bot1 := add_event (EvGetPositions sym) bot).
  assert (Hp1 : active_positions_details bot1 !! (sym, idx) = Some p) by exact Hp.
  destruct (List.find (api_is sym idx) l) as [api|];
    destruct (gone_or_flat _) as [[|]|]; cbn [fst snd];
    try (apply Hsame; assumption);
    try (left; rewrite (handle_closed_tracked env _ _ _ bot1 p Hp1);
         apply lookup_delete_eq).
  destruct (live_price (api_avgPrice api)) as [live_avg|]; cbn [fst snd];
    [|apply Hsame; assumption].
  set (st := match live_avg with
             | Some _ => _
             | None => _
             end).
  assert (Hst : active_positions_details (snd st) !! (sym, idx) = Some (fst st)
                /\ breakeven_applied (fst st) = breakeven_applied p
                /\ intended_sl (fst st) = intended_sl p).
  { subst st. destruct live_avg as [a|]; [|auto].
    destruct (negb (opt_dec_eqb (entry_price p) (Some a))); [|auto].
    unfold mutate, save_positions. cbn [fst snd active_positions_details].
    split; [apply update_position_tracked, Hp1|]. destruct p. split; reflexivity. }
  destruct Hst as (Hst & Hbe & Hsl).
  fold (promotion_price (fst st)).
  destruct (breakeven_on_partial env (sym, idx) api (promotion_price (fst st))
              (breakeven_applied (fst st)) (upper (side (fst st))) st)
    as [st1|] eqn:Hpartial; cbn [fst snd].
  2:{ right. exists (fst st), (fst st), (fst st).
      repeat split; auto using same_but_time_refl. }
  destruct (breakeven_on_partial_promoted (sym, idx) api _ _ _ st st1 Hst Hpartial)
    as [Hst1 Hpr1].
  pose proof (breakeven_on_tp1_promoted (sym, idx) api (promotion_price (fst st))
                (tp1_price (fst st)) (breakeven_applied (fst st))
                (upper (side (fst st))) st1 x1 Hst1) as Htp1.
  cbv zeta in Htp1.
  destruct (breakeven_on_tp1 G env (sym, idx) api _ _ _ _ st1 x1) as [[pos2 bot2] x2].
  cbn [fst snd] in Htp1. destruct Htp1 as [Hst2 Hpr2].
  pose proof (verify_loop_kept (TPSL_VERIFICATION_RETRIES + 1) sym idx 0 pos2 bot2 x2)
    as Hkept.
  unfold _verify_and_set_tpsl_for_position.
  destruct (verify_loop G env (TPSL_VERIFICATION_RETRIES + 1) sym idx 0 bot2 x2)
    as [[ok bot3] x3].
  cbn [fst snd] in *.
  destruct Hkept as [Hnone|(p' & Hp' & Hsame')].
  - right. exists pos2. split; [exact Hst2 | apply same_but_time_refl].
  - left. exact Hnone.
  - right. exists (fst st), pos2, p'. split; [exact Hp'|].
    split; [exact Hbe|]. split; [exact Hsl|]. split; [|exact Hsame'].
    rewrite <- Hbe. cbn [fst] in *.
    exact (promoted_trans sym _ _ _ _ _ Hpr1 Hpr2).
Qed.

Lemma maintain_position_untracked (k : pos_key) (bot : Bot) (x : X) :
  active_positions_details bot !! k = None ->
  maintain_position G env k bot x = (false, bot, x).
Proof. intros H. destruct k. unfold maintain_position. rewrite H. reflexivity. Qed.

(** One pass: a set flag stays set with its stop, and a flag that gets
    set comes with a stop at the promotion price, or one that already
    rounds to it. *)
Lemma maintain_position_breakeven (k : pos_key) (bot : Bot) (x : X) (p p' : Position) :
  active_positions_details bot !! k = Some p ->
  active_positions_details (snd (fst (maintain_position G env k bot x))) !! k
  = Some p' ->
  (breakeven_applied p = true ->
     breakeven_applied p' = true /\ intended_sl p' = intended_sl p)
  /\ (breakeven_applied p = false -> breakeven_applied p' = true ->
        exists entry,
          promotion_price p' = Some entry /\ dec_truthy entry = true
          /\ (intended_sl p' = Some entry
              \/ (intended_sl p' = intended_sl p
                  /\ rounds_alike env (fst k) (intended_sl p) (Some entry)))).
Proof.
  intros Hp Hp'.
  destruct (maintain_position_outcome k bot x p Hp)
    as [Hnone|(q0 & q2 & p1 & Hp1 & Hbe & Hsl & Hpr & [t ->])]; [congruence|].
  rewrite Hp1 in Hp'. injection Hp' as <-.
  destruct Hpr as (He & Hs & Hpr).
  assert (Hprice : promotion_price (set_last_update_time t q2) = promotion_price q0).
  { unfold promotion_price. destruct q2; cbn in *. congruence. }
  assert (Hb2 : breakeven_applied (set_last_update_time t q2) = breakeven_applied q2)
    by (destruct q2; reflexivity).
  assert (Hl2 : intended_sl (set_last_update_time t q2) = intended_sl q2)
    by (destruct q2; reflexivity).
  rewrite Hprice, Hb2, Hl2. split.
  - intros Htrue. destruct Hpr as [[Hb Hl]|(Hfalse & _)]; [|congruence].
    split; congruence.
  - intros Hfalse Hset.
    destruct Hpr as [[Hb Hl]|(_ & _ & Htruthy & Hsl')]; [congruence|].
    destruct (promotion_price q0) as [entry|]; [|discriminate Htruthy].
    exists entry. split; [reflexivity|]. split; [exact Htruthy|].
    rewrite <- Hsl. exact Hsl'.
Qed.

End Maintenance.




(** ** Adoption of positions found on the exchange *)

Section Adoption.
Context (env : Env).

Lemma api_well_formed_reads p :
  api_well_formed p = true ->
  (exists q, float_of_str (default "0"%string (api_size p)) = Some q)
  /\ (exists a, live_price (api_avgPrice p) = Some a)
  /\ (exists z, live_size_of p = Some z)
  /\ (exists s, live_price (api_stopLoss p) = Some s)
  /\ (exists t, live_price (api_takeProfit p) = Some t).
Proof.
  unfold api_well_formed, size_reads. intros H.
  repeat (apply andb_prop in H; destruct H as [H ?]).
  repeat split;
    match goal with
    | |- exists _, ?e = _ => destruct e; [eauto | discriminate]
    end.
Qed.

Lemma find_active_reads sym idx l :
  Forall (fun q => api_well_formed q = true) l ->
  exists r, find_active sym idx l = Some r
            /\ forall p, r = Some p -> api_well_formed p = true.
Proof.
  induction 1 as [|q l Hq Hl IH]; cbn [find_active].
  - exists None. split; [reflexivity | discriminate].
  - destruct (api_is sym idx q); [| exact IH].
    destruct (api_well_formed_reads q Hq) as [[f ->] _].
    destruct (Qle_bool f 0); [exact IH |].
    exists (Some q). split; [reflexivity |]. intros p [= <-]. exact Hq.
Qed.

Lemma handle_closed_absent k k' data reason bot :
  active_positions_details bot !! k = None ->
  active_positions_details (_handle_closed_position env k' data reason bot) !! k
  = None.
Proof.
  intros Hk.
  destruct (active_positions_details bot !! k') as [t|] eqn:E.
  - rewrite (handle_closed_tracked env k' data reason bot t E).
    cbn [active_positions_details].
    destruct (decide (k' = k)) as [<- | Hne].
    + apply lookup_delete_eq.
    + rewrite lookup_delete_ne by exact Hne. exact Hk.
  - rewrite (handle_closed_untracked env k' data reason bot E). exact Hk.
Qed.

Lemma update_position_absent k k' f bot :
  active_positions_details bot !! k = None ->
  active_positions_details (update_position k' f bot) !! k = None.
Proof.
  intros Hk. unfold update_position. cbn.
  destruct (decide (k' = k)) as [<- | Hne].
  - rewrite lookup_alter_eq, Hk. reflexivity.
  - rewrite lookup_alter_ne by exact Hne. exact Hk.
Qed.

Lemma sync_tracked_absent positions orders k k' d bot :
  active_positions_details bot !! k = None ->
  active_positions_details (snd (sync_tracked env positions orders k' d bot)) !! k
  = None.
Proof.
  intros Hk. unfold sync_tracked. destruct k' as [sym' idx'].
  repeat match goal with
         | |- context [match ?e with _ => _ end] => destruct e eqn:?
         | |- context [if ?e then _ else _] => destruct e eqn:?
         end;
    cbn [snd]; auto using handle_closed_absent, update_position_absent.
Qed.

Lemma sync_tracked_returns positions orders k d bot :
  Forall (fun q => api_well_formed q = true) positions ->
  fst (sync_tracked env positions orders k d bot) = false.
Proof.
  intros Hwf. unfold sync_tracked. destruct k as [sym idx].
  destruct (find_active_reads sym idx positions Hwf) as [r [-> Hr]].
  destruct r as [p|].
  - destruct (api_well_formed_reads p (Hr p eq_refl))
      as [_ [[a ->] [[z ->] [[s ->] [t ->]]]]].
    reflexivity.
  - repeat match goal with
           | |- context [match ?e with _ => _ end] => destruct e eqn:?
           | |- context [if ?e then _ else _] => destruct e eqn:?
           end; reflexivity.
Qed.

Lemma sync_all_absent positions orders k items :
  Forall (fun q => api_well_formed q = true) positions ->
  forall bot,
    active_positions_details bot !! k = None ->
    fst (sync_all env positions orders items bot) = false
    /\ active_positions_details (snd (sync_all env positions orders items bot)) !! k
       = None.
Proof.
  intros Hwf. induction items as [|[k' d] r IH]; intros bot Hk; cbn [sync_all].
  - auto.
  - pose proof (sync_tracked_returns positions orders k' d bot Hwf) as Hf.
    pose proof (sync_tracked_absent positions orders k k' d bot Hk) as Ha.
    destruct (sync_tracked env positions orders k' d bot) as [raised bot1].
    cbn in Hf, Ha. subst raised. apply IH. exact Ha.
Qed.

Lemma nonempty_some o s : nonempty o = Some s -> o = Some s /\ s <> ""%string.
Proof.
  destruct o as [t|]; cbn; [| discriminate].
  destruct (String.eqb_spec t ""); [discriminate |].
  intros [= <-]. auto.
Qed.

Lemma adopt_untracked_returns l :
  Forall (fun q => api_well_formed q = true) l ->
  forall bot, fst (adopt_untracked env l bot) = false.
Proof.
  induction 1 as [|q l Hq Hl IH]; intros bot; cbn [adopt_untracked].
  - reflexivity.
  - destruct (api_well_formed_reads q Hq)
      as [[f ->] [[a ->] [[z ->] [[s ->] [t ->]]]]].
    destruct (nonempty (api_symbol q)); [| apply IH].
    destruct (Qle_bool f 0); [apply IH |].
    destruct (active_positions_details bot !! _); apply IH.
Qed.

Lemma adopt_untracked_keeps k v l :
  forall bot,
    active_positions_details bot !! k = Some v ->
    active_positions_details (snd (adopt_untracked env l bot)) !! k = Some v.
Proof.
  induction l as [|q l IH]; intros bot Hk; cbn [adopt_untracked].
  - exact Hk.
  - destruct (nonempty (api_symbol q)) as [sym|]; [| apply IH; exact Hk].
    destruct (float_of_str _) as [f|]; [| exact Hk].
    destruct (Qle_bool f 0); [apply IH; exact Hk |].
    destruct (active_positions_details bot !! (sym, default 0 (api_positionIdx q)))
      eqn:E; [apply IH; exact Hk |].
    destruct (live_price (api_avgPrice q)); [| exact Hk].
    destruct (live_size_of q); [| exact Hk].
    destruct (live_price (api_stopLoss q)); [| exact Hk].
    destruct (live_price (api_takeProfit q)); [| exact Hk].
    apply IH. cbn. rewrite lookup_insert_ne; [exact Hk |].
    intros <-. congruence.
Qed.

Lemma adopt_untracked_absent k l :
  Forall (fun q => api_key q <> k) l ->
  forall bot,
    active_positions_details bot !! k = None ->
    active_positions_details (snd (adopt_untracked env l bot)) !! k = None.
Proof.
  induction 1 as [|q l Hq Hl IH]; intros bot Hk; cbn [adopt_untracked].
  - exact Hk.
  - destruct (nonempty (api_symbol q)) as [sym|] eqn:En; [| apply IH; exact Hk].
    apply nonempty_some in En. destruct En as [Es _].
    destruct (float_of_str _) as [f|]; [| exact Hk].
    destruct (Qle_bool f 0); [apply IH; exact Hk |].
    destruct (active_positions_details bot !! (sym, default 0 (api_positionIdx q)))
      eqn:E; [apply IH; exact Hk |].
    destruct (live_price (api_avgPrice q)); [| exact Hk].
    destruct (live_size_of q); [| exact Hk].
    destruct (live_price (api_stopLoss q)); [| exact Hk].
    destruct (live_price (api_takeProfit q)); [| exact Hk].
    apply IH. cbn. rewrite lookup_insert_ne; [exact Hk |].
    intros <-. apply Hq. unfold api_key. rewrite Es. reflexivity.
Qed.

Lemma adopt_untracked_snoc l1 l2 :
  Forall (fun q => api_well_formed q = true) l1 ->
  forall bot,
    adopt_untracked env (l1 ++ l2) bot
    = adopt_untracked env l2 (snd (adopt_untracked env l1 bot)).
Proof.
  induction 1 as [|q l Hq Hl IH]; intros bot; cbn [adopt_untracked app].
  - reflexivity.
  - destruct (api_well_formed_reads q Hq)
      as [[f ->] [[a ->] [[z ->] [[s ->] [t ->]]]]].
    destruct (nonempty (api_symbol q)); [| apply IH].
    destruct (Qle_bool f 0); [apply IH |].
    destruct (active_positions_details bot !! _); apply IH.
Qed.

Lemma forallb_size_reads l :
  Forall (fun q => api_well_formed q = true) l -> forallb size_reads l = true.
Proof.
  induction 1 as [|q l Hq Hl IH]; cbn [forallb]; [reflexivity |].
  rewrite IH. unfold api_well_formed in Hq.
  repeat (apply andb_prop in Hq; destruct Hq as [Hq ?]). rewrite Hq. reflexivity.
Qed.
End Adoption.

(** C4 (as amended).  One reconciliation pass over well-formed data of the
    exchange adopts the first reported position of positive size whose key
    is not in the store: the store gets, under that key, an entry whose
    [main_order_status] is ["Filled (External/Synced)"], whose
    [intended_sl] and [intended_tp1] are the stop and the target the
    exchange reports (none when it reports ["0"], the empty text or
    nothing), whose [breakeven_applied] is false; and the store is
    flushed to disk. *)
Theorem external_position_adopted
    (env : Env) (before after : list ApiPosition) (p : ApiPosition)
    (orders : list ApiOrder) (bot : Bot) (sym : string) (idx : Z) (size : Q) :
  Forall (fun q => api_well_formed q = true) (before ++ p :: after) ->
  Forall (fun q => api_key q <> (sym, idx)) before ->
  api_symbol p = Some sym -> sym <> ""%string ->
  default 0 (api_positionIdx p) = idx ->
  float_of_str (default "0"%string (api_size p)) = Some size ->
  Qle_bool size 0 = false ->
  active_positions_details bot !! (sym, idx) = None ->
  exists bot' e,
    reconcile_positions env (before ++ p :: after) orders bot = (false, bot')
    /\ active_positions_details bot' !! (sym, idx) = Some e
    /\ main_order_status e = Some "Filled (External/Synced)"%string
    /\ live_price (api_stopLoss p) = Some (intended_sl e)
    /\ live_price (api_takeProfit p) = Some (intended_tp1 e)
    /\ (api_stopLoss p = None \/ api_stopLoss p = Some "0"%string
        \/ api_stopLoss p = Some ""%string -> intended_sl e = None)
    /\ (api_takeProfit p = None \/ api_takeProfit p = Some "0"%string
        \/ api_takeProfit p = Some ""%string -> intended_tp1 e = None)
    /\ breakeven_applied e = false
    /\ positions_disk bot'
       = _save_active_positions_to_disk (details_dict <$> active_positions_details bot').
Proof.
  intros Hwf Hbefore Hsym Hne Hidx Hsize Hpos Hk.
  pose proof Hwf as Hwf'. apply Forall_app in Hwf'. destruct Hwf' as [Hwb Hwpa].
  pose proof Hwpa as Hwp. apply Forall_cons_1 in Hwp. destruct Hwp as [Hwp Hwa].
  unfold reconcile_positions.
  destruct (sync_all_absent env (before ++ p :: after) orders (sym, idx)
              (map_to_list (active_positions_details bot)) Hwf bot Hk) as [Hf1 Ha1].
  destruct (sync_all env (before ++ p :: after) orders
              (map_to_list (active_positions_details bot)) bot) as [r1 bot1].
  cbn in Hf1, Ha1. subst r1.
  rewrite (adopt_untracked_snoc env before (p :: after) Hwb bot1).
  pose proof (adopt_untracked_absent env (sym, idx) before Hbefore bot1 Ha1) as Ha2.
  set (bot2 := snd (adopt_untracked env before bot1)) in *.
  destruct (api_well_formed_reads p Hwp) as [_ [[a Ea] [[z Ez] [[s Es] [t Et]]]]].
  set (e := adopted env sym idx (upper (default ""%string (api_side p))) a z s t).
  set (bot3 := set_store (<[(sym, idx) := e]> (active_positions_details bot2)) bot2).
  assert (E3 : adopt_untracked env (p :: after) bot2 = adopt_untracked env after bot3).
  { cbn [adopt_untracked]. rewrite Hsym. cbn [nonempty].
    destruct (String.eqb_spec sym ""); [contradiction |].
    rewrite Hsize, Hpos, Hidx, Ha2, Ea, Ez, Es, Et. reflexivity. }
  rewrite E3.
  pose proof (adopt_untracked_returns env after Hwa bot3) as Hf4.
  assert (H3 : active_positions_details bot3 !! (sym, idx) = Some e).
  { unfold bot3. cbn. apply lookup_insert_eq. }
  pose proof (adopt_untracked_keeps env (sym, idx) e after bot3 H3) as H4.
  destruct (adopt_untracked env after bot3) as [r4 bot4]. cbn in Hf4, H4. subst r4.
  rewrite (forallb_size_reads _ Hwf).
  assert (Hdom : dom (active_positions_details bot) <> dom (active_positions_details bot4)).
  { intros Heq. apply not_elem_of_dom in Hk. apply Hk. rewrite Heq.
    apply elem_of_dom. eexists; exact H4. }
  destruct (decide (dom (active_positions_details bot)
                    = dom (active_positions_details bot4))) as [Heq | _];
    [contradiction |].
  exists (save_positions bot4), e.
  split; [reflexivity |].
  split; [exact H4 |].
  split; [reflexivity |].
  split; [exact Es |].
  split; [exact Et |].
  split.
  { intros [H | [H | H]]; rewrite H in Es; cbn in Es; injection Es as <-; reflexivity. }
  split.
  { intros [H | [H | H]]; rewrite H in Et; cbn in Et; injection Et as <-; reflexivity. }
  split; reflexivity.
Qed.

(** A short position on ETHUSDT opened by hand is adopted next to the
    tracked BTCUSDT one. *)
Lemma external_position_adopted_witness :
  exists bot' e,
    reconcile_positions sample_env ([sample_api_position] ++ external_api_position :: [])
      [] sample_bot = (false, bot')
    /\ active_positions_details bot' !! ("ETHUSDT"%string, 0) = Some e
    /\ main_order_status e = Some "Filled (External/Synced)"%string
    /\ live_price (api_stopLoss external_api_position) = Some (intended_sl e)
    /\ live_price (api_takeProfit external_api_position) = Some (intended_tp1 e)
    /\ (api_stopLoss external_api_position = None
        \/ api_stopLoss external_api_position = Some "0"%string
        \/ api_stopLoss external_api_position = Some ""%string -> intended_sl e = None)
    /\ (api_takeProfit external_api_position = None
        \/ api_takeProfit external_api_position = Some "0"%string
        \/ api_takeProfit external_api_position = Some ""%string
        -> intended_tp1 e = None)
    /\ breakeven_applied e = false
    /\ positions_disk bot'
       = _save_active_positions_to_disk (details_dict <$> active_positions_details bot').
Proof.
  apply (external_position_adopted sample_env [sample_api_position] []
           external_api_position [] sample_bot "ETHUSDT"%string 0 (15 # 10)).
  - repeat constructor.
  - repeat constructor. vm_compute. discriminate.
  - reflexivity.
  - discriminate.
  - reflexivity.
  - vm_compute. reflexivity.
  - reflexivity.
  - vm_compute. reflexivity.
Defined.

(** The adopted entry does not carry the status ["Filled (External)"]. *)
Lemma external_position_status_counterexample :
  exists bot' e,
    reconcile_positions sample_env [sample_api_position; external_api_position]
      [] sample_bot = (false, bot')
    /\ api_symbol external_api_position = Some "ETHUSDT"%string
    /\ float_of_str (default "0"%string (api_size external_api_position))
       = Some (15 # 10)
    /\ active_positions_details sample_bot !! ("ETHUSDT"%string, 0) = None
    /\ active_positions_details bot' !! ("ETHUSDT"%string, 0) = Some e
    /\ main_order_status e = Some "Filled (External/Synced)"%string
    /\ main_order_status e <> Some "Filled (External)"%string.
Proof.
  eexists. eexists.
  split; [vm_compute; reflexivity |].
  split; [reflexivity |].
  split; [vm_compute; reflexivity |].
  split; [vm_compute; reflexivity |].
  split; [vm_compute; reflexivity |].
  split; [reflexivity | discriminate].
Qed.

(** ** The values of decimals *)

Lemma q10_pos (z : Z) : (0 < 10 ^ z)%Q.
Proof. apply Qpower_0_lt. reflexivity. Qed.

Lemma q10_add (a b : Z) : (10 ^ (a + b) == 10 ^ a * 10 ^ b)%Q.
Proof. apply Qpower_plus. discriminate. Qed.

Lemma q10_inject (k : Z) : 0 <= k -> (10 ^ k == inject_Z (10 ^ k))%Q.
Proof. intros Hk. symmetry. apply (Zpower_Qpower 10 k Hk). Qed.

Lemma pow10_Z (k : Z) : 0 <= k -> Z.of_N (pow10 k) = 10 ^ k.
Proof. intros Hk. unfold pow10. rewrite Z2N.id by (apply Z.pow_nonneg; lia). reflexivity. Qed.

Lemma pow10_pos (k : Z) : 0 <= k -> (0 < pow10 k)%N.
Proof.
  intros Hk. apply N2Z.inj_lt. rewrite pow10_Z by exact Hk. cbn.
  apply Z.pow_pos_nonneg; lia.
Qed.

Lemma dec_val_signed (s : bool) (c : N) (e : Z) :
  dec_val (mkDecimal s c e) = (inject_Z (signed s c) * 10 ^ e)%Q.
Proof. reflexivity. Qed.

(** A coefficient scaled by a power of ten is the same number with a
    lower exponent. *)
Lemma dec_val_scaled (s : bool) (c : N) (e k : Z) :
  0 <= k ->
  (dec_val (mkDecimal s (c * pow10 k) e) == dec_val (mkDecimal s c (e + k)))%Q.
Proof.
  intros Hk. rewrite !dec_val_signed, q10_add, (q10_inject k Hk).
  assert (E : signed s (c * pow10 k) = signed s c * 10 ^ k).
  { unfold signed. rewrite N2Z.inj_mul, pow10_Z by exact Hk. destruct s; lia. }
  rewrite E, inject_Z_mult. ring.
Qed.

(** Comparing two decimals is comparing their coefficients once they are
    aligned. *)
Lemma q10_scale_le (a b : Z) (ea eb : Z) :
  eb <= ea ->
  (inject_Z a * 10 ^ ea <= inject_Z b * 10 ^ eb)%Q <-> a * 10 ^ (ea - eb) <= b.
Proof.
  intros He.
  replace ea with (eb + (ea - eb)) at 1 by lia.
  rewrite q10_add, (q10_inject (ea - eb)) by lia.
  rewrite Zle_Qle, inject_Z_mult.
  pose proof (q10_pos eb) as Hp.
  split; intros H.
  - apply (Qmult_le_r _ _ (10 ^ eb)%Q Hp). lra.
  - apply (Qmult_le_r _ _ (10 ^ eb)%Q Hp) in H. lra.
Qed.

Lemma q10_scale_ge (a b : Z) (ea eb : Z) :
  ea <= eb ->
  (inject_Z a * 10 ^ ea <= inject_Z b * 10 ^ eb)%Q <-> a <= b * 10 ^ (eb - ea).
Proof.
  intros He.
  replace eb with (ea + (eb - ea)) at 1 by lia.
  rewrite q10_add, (q10_inject (eb - ea)) by lia.
  rewrite Zle_Qle, inject_Z_mult.
  pose proof (q10_pos ea) as Hp.
  split; intros H.
  - apply (Qmult_le_r _ _ (10 ^ ea)%Q Hp). lra.
  - apply (Qmult_le_r _ _ (10 ^ ea)%Q Hp) in H. lra.
Qed.

Lemma dec_val_sign (d : Decimal) :
  (0 < dec_val d)%Q <-> d_sign d = false /\ d_int d <> 0%N.
Proof.
  destruct d as [s c e]. rewrite dec_val_signed. cbn [d_sign d_int].
  pose proof (q10_pos e) as Hp.
  split.
  - intros H.
    assert (Hz : (0 < inject_Z (signed s c))%Q).
    { apply Qnot_le_lt. intros Hle.
      assert (inject_Z (signed s c) * 10 ^ e <= 0 * 10 ^ e)%Q
        by (apply Qmult_le_compat_r; [exact Hle | apply Qlt_le_weak, Hp]).
      lra. }
    change 0%Q with (inject_Z 0) in Hz. rewrite <- Zlt_Qlt in Hz.
    unfold signed in Hz. destruct s; [lia |]. split; [reflexivity | lia].
  - intros [-> Hc]. cbn [signed].
    apply Qmult_lt_0_compat; [| exact Hp].
    change 0%Q with (inject_Z 0). rewrite <- Zlt_Qlt. lia.
Qed.

Lemma dec_ltb_lt (a b : Decimal) : dec_ltb a b = true <-> (dec_val a < dec_val b)%Q.
Proof.
  unfold dec_ltb. rewrite negb_true_iff.
  split; intros H.
  - apply Qnot_le_lt. intros Hle. apply Qle_bool_iff in Hle. congruence.
  - destruct (Qle_bool (dec_val b) (dec_val a)) eqn:E; [| reflexivity].
    apply Qle_bool_iff in E. lra.
Qed.

Lemma dec_ltb_ge (a b : Decimal) : dec_ltb a b = false <-> (dec_val b <= dec_val a)%Q.
Proof.
  unfold dec_ltb. rewrite negb_false_iff. apply Qle_bool_iff.
Qed.

Lemma dec_leb_le (a b : Decimal) : dec_leb a b = true <-> (dec_val a <= dec_val b)%Q.
Proof. apply Qle_bool_iff. Qed.

Lemma dec_leb_gt (a b : Decimal) : dec_leb a b = false <-> (dec_val b < dec_val a)%Q.
Proof.
  unfold dec_leb. split; intros H.
  - apply Qnot_le_lt. intros Hle. apply Qle_bool_iff in Hle. congruence.
  - destruct (Qle_bool (dec_val a) (dec_val b)) eqn:E; [| reflexivity].
    apply Qle_bool_iff in E. lra.
Qed.

Lemma dec_val_0 : (dec_val Decimal_0 == 0)%Q.
Proof. reflexivity. Qed.

(** ** Flooring to a step *)

Lemma floor_to_step_val (x step : Decimal) :
  d_sign x = false -> d_sign step = false ->
  (dec_val (floor_to_step x step)
   == inject_Z (Z.of_N (trunc_div x step)) * dec_val step)%Q.
Proof.
  intros Hx Hs. destruct step as [ss cs es]. cbn in Hs. subst ss.
  unfold floor_to_step. rewrite Hx, !dec_val_signed. cbn [d_int d_exp signed].
  rewrite N2Z.inj_mul, inject_Z_mult. ring.
Qed.

(** Every whole multiple of the step that is not above [x] is not above
    the floor. *)
Lemma trunc_div_ge (x step : Decimal) (m : N) :
  d_sign x = false -> d_sign step = false -> d_int step <> 0%N ->
  (inject_Z (Z.of_N m) * dec_val step <= dec_val x)%Q ->
  (m <= trunc_div x step)%N.
Proof.
  intros Hx Hs Hc H. destruct x as [sx cx ex], step as [ss cs es].
  cbn in Hx, Hs, Hc. subst sx ss.
  rewrite !dec_val_signed in H. cbn [signed] in H.
  rewrite Qmult_assoc, <- inject_Z_mult in H.
  unfold trunc_div. cbn [d_int d_exp].
  destruct (Z.leb_spec 0 (ex - es)) as [He | He].
  - apply q10_scale_ge in H; [| lia].
    apply N.div_le_lower_bound; [exact Hc |].
    apply N2Z.inj_le. rewrite !N2Z.inj_mul, pow10_Z by lia. lia.
  - apply q10_scale_le in H; [| lia].
    assert (Hp : (0 < pow10 (- (ex - es)))%N) by (apply pow10_pos; lia).
    apply N.div_le_lower_bound; [lia |].
    apply N2Z.inj_le. rewrite !N2Z.inj_mul, pow10_Z by lia.
    replace (- (ex - es)) with (es - ex) by lia. lia.
Qed.

Lemma floor_to_step_multiple (x step least : Decimal) (m : N) :
  d_sign x = false -> dec_positive step = true ->
  (dec_val least == inject_Z (Z.of_N m) * dec_val step)%Q ->
  (dec_val least <= dec_val x)%Q ->
  (dec_val least <= dec_val (floor_to_step x step))%Q.
Proof.
  intros Hx Hs Hm Hle. unfold dec_positive, dec_truthy in Hs.
  apply andb_prop in Hs. destruct Hs as [Hs Hc].
  apply negb_true_iff in Hs. apply negb_true_iff, N.eqb_neq in Hc.
  rewrite (floor_to_step_val x step Hx Hs), Hm.
  rewrite Hm in Hle.
  pose proof (trunc_div_ge x step m Hx Hs Hc Hle) as Ht.
  assert (Hv : (0 < dec_val step)%Q) by (apply dec_val_sign; auto).
  apply Qmult_le_compat_r; [| lra].
  rewrite <- Zle_Qle. lia.
Qed.

Lemma approx_refl (eps x' x : Q) : (0 <= eps)%Q -> (x' == x)%Q -> approx eps x' x.
Proof. intros He Hx. exists 0%Q. split; [lra | split; [lra |]]. rewrite Hx. ring. Qed.

Lemma approx_weaken (eps eps' x' x : Q) :
  (eps <= eps')%Q -> approx eps x' x -> approx eps' x' x.
Proof. intros He [dl [H1 [H2 H3]]]. exists dl. split; [lra | split; [lra | exact H3]]. Qed.

Lemma approx_eq (eps x' y' x y : Q) :
  (x' == y')%Q -> (x == y)%Q -> approx eps x' x -> approx eps y' y.
Proof.
  intros E1 E2 [dl [H1 [H2 H3]]]. exists dl. split; [exact H1 | split; [exact H2 |]].
  rewrite <- E1, <- E2. exact H3.
Qed.

Lemma approx_trans (e1 e2 x'' x' x : Q) :
  (0 <= e1)%Q -> (0 <= e2)%Q ->
  approx e1 x'' x' -> approx e2 x' x -> approx (e1 + e2 + e1 * e2) x'' x.
Proof.
  intros P1 P2 [d1 [A1 [A2 A3]]] [d2 [B1 [B2 B3]]].
  exists (d1 + d2 + d1 * d2)%Q. split; [nra | split; [nra |]].
  rewrite A3, B3. ring.
Qed.

Lemma approx_mul (e1 e2 x' x y' y : Q) :
  (0 <= e1)%Q -> (0 <= e2)%Q ->
  approx e1 x' x -> approx e2 y' y -> approx (e1 + e2 + e1 * e2) (x' * y') (x * y).
Proof.
  intros P1 P2 [d1 [A1 [A2 A3]]] [d2 [B1 [B2 B3]]].
  exists (d1 + d2 + d1 * d2)%Q. split; [nra | split; [nra |]].
  rewrite A3, B3. ring.
Qed.

Lemma approx_div (e1 e2 x' x y' y : Q) :
  (0 <= e1)%Q -> (0 <= e2)%Q -> (e2 < 1)%Q -> ~ (y == 0)%Q ->
  approx e1 x' x -> approx e2 y' y ->
  approx ((e1 + e2) / (1 - e2)) (x' / y') (x / y).
Proof.
  intros P1 P2 P3 Hy [d1 [A1 [A2 A3]]] [d2 [B1 [B2 B3]]].
  assert (Hd : (0 < 1 + d2)%Q) by lra.
  assert (He : (0 < 1 - e2)%Q) by lra.
  exists ((d1 - d2) / (1 + d2))%Q.
  assert (Hb : ((e1 + e2) / (1 - e2) * (1 - e2) == e1 + e2)%Q) by (field; lra).
  set (E := ((e1 + e2) / (1 - e2))%Q) in *.
  assert (HE : (0 <= E)%Q).
  { unfold E. apply Qle_shift_div_l; [exact He | lra]. }
  split; [| split].
  - apply Qle_shift_div_l; [exact Hd |]. nra.
  - apply Qle_shift_div_r; [exact Hd |]. nra.
  - rewrite A3, B3. field. split; [lra | exact Hy].
Qed.

Lemma approx_abs (eps x' x : Q) :
  (0 <= eps)%Q -> (eps < 1)%Q -> approx eps x' x -> approx eps (Qabs x') (Qabs x).
Proof.
  intros P1 P2 [d [A1 [A2 A3]]]. exists d. split; [exact A1 | split; [exact A2 |]].
  rewrite A3, Qabs_Qmult. rewrite (Qabs_pos (1 + d)) by lra. reflexivity.
Qed.

Lemma approx_positive (eps x' x : Q) :
  (eps < 1)%Q -> (0 < x)%Q -> approx eps x' x -> (0 < x')%Q.
Proof.
  intros P Hx [d [A1 [A2 A3]]]. rewrite A3. apply Qmult_lt_0_compat; lra.
Qed.

Lemma approx_error (eps x' x : Q) :
  (0 <= eps)%Q -> approx eps x' x -> (Qabs (x' - x) <= eps * Qabs x)%Q.
Proof.
  intros P [d [A1 [A2 A3]]].
  assert (E : (x' - x == x * d)%Q) by (rewrite A3; ring).
  rewrite E, Qabs_Qmult, Qmult_comm.
  apply Qmult_le_compat_r; [| apply Qabs_nonneg].
  apply Qabs_Qle_condition. split; lra.
Qed.

(** ** Digits *)

Lemma count_digits_bounds (fuel : nat) (n : N) :
  (n < 2 ^ N.of_nat fuel)%N -> (0 < n)%N ->
  1 <= count_digits fuel n
  /\ 10 ^ (count_digits fuel n - 1) <= Z.of_N n < 10 ^ count_digits fuel n.
Proof.
  revert n. induction fuel as [|f IH]; intros n Hn Hp.
  - cbn in Hn. lia.
  - cbn [count_digits]. destruct (N.ltb_spec n 10) as [Hs | Hs].
    + cbn. lia.
    + assert (Hq : (0 < n / 10)%N) by (apply N.div_str_pos; lia).
      assert (Hf : (n / 10 < 2 ^ N.of_nat f)%N).
      { apply N.Div0.div_lt_upper_bound.
        rewrite Nat2N.inj_succ, N.pow_succ_r' in Hn. lia. }
      destruct (IH (n / 10)%N Hf Hq) as [H1 [H2 H3]].
      split; [lia |].
      replace (1 + count_digits f (n / 10) - 1) with
        (Z.succ (count_digits f (n / 10) - 1)) by lia.
      replace (1 + count_digits f (n / 10)) with
        (Z.succ (count_digits f (n / 10))) by lia.
      rewrite !Z.pow_succ_r by lia.
      rewrite N2Z.inj_div in H2, H3. change (Z.of_N 10) with 10 in *.
      pose proof (Z.div_mod (Z.of_N n) 10 ltac:(lia)) as Hdm.
      pose proof (Z.mod_pos_bound (Z.of_N n) 10 ltac:(lia)) as Hmb.
      lia.
Qed.

Lemma ndigits_bounds (n : N) :
  (0 < n)%N ->
  1 <= ndigits n /\ 10 ^ (ndigits n - 1) <= Z.of_N n < 10 ^ ndigits n.
Proof.
  intros Hp. apply count_digits_bounds; [| exact Hp].
  rewrite N2Nat.id. apply N.size_gt.
Qed.

Lemma ndigits_pos (n : N) : 1 <= ndigits n.
Proof.
  destruct (N.eq_dec n 0%N) as [-> | Hn]; [reflexivity |].
  apply ndigits_bounds. lia.
Qed.

(** A number below [10 ^ k] has at most [k] digits. *)
Lemma ndigits_le (n : N) (k : Z) : 0 <= k -> Z.of_N n < 10 ^ k -> (0 < n)%N -> ndigits n <= k.
Proof.
  intros Hk Hn Hp. destruct (ndigits_bounds n Hp) as [H1 [H2 _]].
  destruct (Z.le_gt_cases (ndigits n) k) as [H | H]; [exact H | exfalso].
  assert (10 ^ k <= 10 ^ (ndigits n - 1)) by (apply Z.pow_le_mono_r; lia).
  lia.
Qed.

(** ** Rounding to the precision of the context *)

Lemma round_half_even_error (c : N) (k : Z) :
  1 <= k ->
  2 * Z.abs (Z.of_N (round_half_even c k) * 10 ^ k - Z.of_N c) <= 10 ^ k
  /\ Z.of_N (round_half_even c k) <= Z.of_N c / 10 ^ k + 1.
Proof.
  intros Hk. unfold round_half_even.
  assert (HP : Z.of_N (pow10 k) = 10 ^ k) by (apply pow10_Z; lia).
  assert (HH : Z.of_N (pow10 (k - 1)) = 10 ^ (k - 1)) by (apply pow10_Z; lia).
  assert (Hpos : 0 < 10 ^ (k - 1)) by (apply Z.pow_pos_nonneg; lia).
  assert (E10 : 10 ^ k = 10 * 10 ^ (k - 1)).
  { replace k with (Z.succ (k - 1)) at 1 by lia. apply Z.pow_succ_r. lia. }
  pose proof (Z.div_mod (Z.of_N c) (10 ^ k) ltac:(lia)) as Hdm.
  pose proof (Z.mod_pos_bound (Z.of_N c) (10 ^ k) ltac:(lia)) as Hmb.
  assert (Hq : Z.of_N (c / pow10 k) = Z.of_N c / 10 ^ k)
    by (rewrite N2Z.inj_div, HP; reflexivity).
  assert (Hr : Z.of_N (c mod pow10 k) = Z.of_N c mod 10 ^ k)
    by (rewrite N2Z.inj_mod, HP; reflexivity).
  set (q := (c / pow10 k)%N) in *. set (r := (c mod pow10 k)%N) in *.
  destruct ((r =? 5 * pow10 (k - 1))%N && N.even q) eqn:E1.
  - apply andb_prop in E1. destruct E1 as [E1 _]. apply N.eqb_eq in E1.
    assert (Z.of_N r = 5 * 10 ^ (k - 1)) by (rewrite E1, N2Z.inj_mul, HH; reflexivity).
    split; lia.
  - destruct (N.leb_spec (5 * pow10 (k - 1)) r) as [E2 | E2].
    + assert (5 * 10 ^ (k - 1) <= Z.of_N r)
        by (rewrite <- HH; change 5 with (Z.of_N 5); rewrite <- N2Z.inj_mul; lia).
      rewrite N2Z.inj_add. change (Z.of_N 1) with 1. split; lia.
    + assert (Z.of_N r < 5 * 10 ^ (k - 1))
        by (rewrite <- HH; change 5 with (Z.of_N 5); rewrite <- N2Z.inj_mul; lia).
      split; lia.
Qed.

Lemma dec_fix_shape (d : Decimal) :
  exists (c' : N) (k : Z),
    0 <= k
    /\ dec_fix d = mkDecimal (d_sign d) c' (d_exp d + k)
    /\ 2 * 10 ^ 27 * Z.abs (Z.of_N c' * 10 ^ k - Z.of_N (d_int d)) <= Z.of_N (d_int d).
Proof.
  destruct d as [s c e]. unfold dec_fix. cbn [d_sign d_int d_exp].
  destruct (N.eqb_spec c 0) as [Hc | Hc].
  { exists c, 0. rewrite Z.add_0_r. split; [lia | split; [reflexivity | lia]]. }
  destruct (Z.leb_spec (ndigits c) context_prec) as [Hn | Hn].
  { exists c, 0. rewrite Z.add_0_r. split; [lia | split; [reflexivity | lia]]. }
  unfold context_prec in *.
  destruct (ndigits_bounds c ltac:(lia)) as [_ [Hlo Hhi]].
  set (n := ndigits c) in *. set (k := n - 28).
  destruct (round_half_even_error c k ltac:(lia)) as [Herr Hup].
  set (c' := round_half_even c k) in *.
  assert (Hpk : 0 < 10 ^ k) by (apply Z.pow_pos_nonneg; lia).
  assert (Esplit : 10 ^ (n - 1) = 10 ^ 27 * 10 ^ k).
  { replace (n - 1) with (27 + k) by lia. apply Z.pow_add_r; lia. }
  assert (Esplit' : 10 ^ n = 10 ^ k * 10 ^ 28).
  { replace n with (k + 28) at 1 by lia. apply Z.pow_add_r; lia. }
  assert (Hbound : 2 * 10 ^ 27 * Z.abs (Z.of_N c' * 10 ^ k - Z.of_N c) <= Z.of_N c) by nia.
  destruct (Z.ltb_spec 28 (ndigits c')) as [Hcarry | Hcarry].
  - assert (Hq : Z.of_N c / 10 ^ k < 10 ^ 28)
      by (apply Z.div_lt_upper_bound; lia).
    assert (Hc' : Z.of_N c' = 10 ^ 28).
    { destruct (Z.lt_ge_cases (Z.of_N c') (10 ^ 28)) as [Hlt | Hge]; [| lia].
      destruct (N.eq_dec c' 0%N) as [Hz | Hz].
      - rewrite Hz in Hcarry. cbn in Hcarry. lia.
      - pose proof (ndigits_le c' 28 ltac:(lia) Hlt ltac:(lia)). lia. }
    exists (c' / 10)%N, (k + 1).
    split; [lia |]. split; [f_equal; lia |].
    rewrite N2Z.inj_div, Hc'. change (Z.of_N 10) with 10.
    replace (10 ^ 28 / 10 * 10 ^ (k + 1)) with (Z.of_N c' * 10 ^ k); [exact Hbound |].
    rewrite Hc', Z.pow_add_r by lia. change (10 ^ 28 / 10) with (10 ^ 27).
    change (10 ^ 28) with (10 ^ 27 * 10). change (10 ^ 1) with 10. ring.
  - exists c', k. split; [lia | split; [reflexivity | exact Hbound]].
Qed.

Lemma inject_signed (s : bool) (c : N) :
  (inject_Z (signed s c) == (if s then - (1) else 1) * inject_Z (Z.of_N c))%Q.
Proof. destruct s; cbn [signed]; [rewrite inject_Z_opp |]; ring. Qed.

Lemma roundoff_bound (T u qc qC : Q) :
  (0 < T)%Q -> (u * T == 1)%Q -> (0 < qc)%Q ->
  (T * (qC - qc) <= qc)%Q -> (T * (qc - qC) <= qc)%Q ->
  (- u <= (qC - qc) / qc)%Q /\ ((qC - qc) / qc <= u)%Q.
Proof.
  intros HT Hu Hc H1 H2.
  assert (Hu0 : (0 < u)%Q).
  { apply Qnot_le_lt. intros Hle.
    assert (u * T <= 0 * T)%Q by (apply Qmult_le_compat_r; lra). lra. }
  split.
  - apply Qle_shift_div_l; [exact Hc |].
    assert (u * (T * (qc - qC)) <= u * qc)%Q by (apply Qmult_le_l; assumption).
    assert (u * (T * (qc - qC)) == qc - qC)%Q by (rewrite Qmult_assoc, Hu; ring).
    lra.
  - apply Qle_shift_div_r; [exact Hc |].
    assert (u * (T * (qC - qc)) <= u * qc)%Q by (apply Qmult_le_l; assumption).
    assert (u * (T * (qC - qc)) == qC - qc)%Q by (rewrite Qmult_assoc, Hu; ring).
    lra.
Qed.

Lemma approx_coefficient (s : bool) (c c' : N) (e k : Z) :
  0 <= k ->
  2 * 10 ^ 27 * Z.abs (Z.of_N c' * 10 ^ k - Z.of_N c) <= Z.of_N c ->
  approx unit_roundoff (dec_val (mkDecimal s c' (e + k))) (dec_val (mkDecimal s c e)).
Proof.
  intros Hk Hb.
  destruct (N.eq_dec c 0%N) as [Hc | Hc].
  - subst c. assert (Hpk : 0 < 10 ^ k) by (apply Z.pow_pos_nonneg; lia).
    assert (c' = 0%N) by nia. subst c'.
    apply approx_refl; [discriminate |].
    rewrite !dec_val_signed, !inject_signed. cbn. ring.
  - apply (approx_eq unit_roundoff (dec_val (mkDecimal s (c' * pow10 k) e)) _
             (dec_val (mkDecimal s c e)) _ (dec_val_scaled s c' e k Hk) (Qeq_refl _)).
    rewrite !dec_val_signed.
    set (C := (c' * pow10 k)%N).
    assert (HC : Z.of_N C = Z.of_N c' * 10 ^ k)
      by (unfold C; rewrite N2Z.inj_mul, pow10_Z by lia; reflexivity).
    rewrite <- HC in Hb.
    assert (Hcq : (0 < inject_Z (Z.of_N c))%Q).
    { change 0%Q with (inject_Z 0). rewrite <- Zlt_Qlt. lia. }
    assert (Hb1 : (inject_Z (2 * 10 ^ 27) * (inject_Z (Z.of_N C) - inject_Z (Z.of_N c))
                   <= inject_Z (Z.of_N c))%Q).
    { unfold Qminus. rewrite <- inject_Z_opp, <- inject_Z_plus, <- inject_Z_mult, <- Zle_Qle.
      lia. }
    assert (Hb2 : (inject_Z (2 * 10 ^ 27) * (inject_Z (Z.of_N c) - inject_Z (Z.of_N C))
                   <= inject_Z (Z.of_N c))%Q).
    { unfold Qminus. rewrite <- inject_Z_opp, <- inject_Z_plus, <- inject_Z_mult, <- Zle_Qle.
      lia. }
    assert (HT : (0 < inject_Z (2 * 10 ^ 27))%Q) by (vm_compute; reflexivity).
    assert (Hu : (unit_roundoff * inject_Z (2 * 10 ^ 27) == 1)%Q)
      by (vm_compute; reflexivity).
    destruct (roundoff_bound (inject_Z (2 * 10 ^ 27)) unit_roundoff
                (inject_Z (Z.of_N c)) (inject_Z (Z.of_N C))
                HT Hu Hcq Hb1 Hb2) as [L1 L2].
    exists ((inject_Z (Z.of_N C) - inject_Z (Z.of_N c)) / inject_Z (Z.of_N c))%Q.
    split; [exact L1 | split; [exact L2 |]].
    rewrite !inject_signed. field. lra.
Qed.

Lemma dec_fix_approx (d : Decimal) :
  approx unit_roundoff (dec_val (dec_fix d)) (dec_val d).
Proof.
  destruct (dec_fix_shape d) as [c' [k [Hk [-> Hb]]]].
  destruct d as [s c e]. cbn [d_sign d_int d_exp] in *.
  apply approx_coefficient; assumption.
Qed.

(** ** The operations *)

Lemma dec_val_zero (s : bool) (e : Z) : (dec_val (mkDecimal s 0 e) == 0)%Q.
Proof. rewrite dec_val_signed, inject_signed. cbn. ring. Qed.

Lemma dec_val_falsy (d : Decimal) : dec_truthy d = false -> (dec_val d == 0)%Q.
Proof.
  destruct d as [s c e]. unfold dec_truthy. cbn [d_int].
  rewrite negb_false_iff. intros H. apply N.eqb_eq in H. subst c. apply dec_val_zero.
Qed.

Lemma dec_val_neg (d : Decimal) : (dec_val (dec_neg d) == - dec_val d)%Q.
Proof.
  destruct d as [s c e]. unfold dec_neg. cbn [d_sign d_int d_exp].
  rewrite !dec_val_signed, !inject_signed. destruct s; cbn [negb]; ring.
Qed.

Lemma dec_val_abs (d : Decimal) :
  (dec_val (mkDecimal false (d_int d) (d_exp d)) == Qabs (dec_val d))%Q.
Proof.
  destruct d as [s c e]. cbn [d_int d_exp].
  rewrite !dec_val_signed, !inject_signed, !Qabs_Qmult.
  pose proof (q10_pos e).
  rewrite (Qabs_pos (10 ^ e)) by lra.
  assert (0 <= inject_Z (Z.of_N c))%Q
    by (change 0%Q with (inject_Z 0); rewrite <- Zle_Qle; lia).
  rewrite (Qabs_pos (inject_Z (Z.of_N c))) by assumption.
  destruct s; [change (Qabs (- (1))) with 1%Q | change (Qabs 1) with 1%Q]; ring.
Qed.

Lemma dec_abs_approx (d : Decimal) :
  approx unit_roundoff (dec_val (dec_abs d)) (Qabs (dec_val d)).
Proof.
  unfold dec_abs.
  apply (approx_eq _ _ _ _ _ (Qeq_refl _) (dec_val_abs d)). apply dec_fix_approx.
Qed.

Lemma dec_mul_approx (a b : Decimal) :
  approx unit_roundoff (dec_val (dec_mul a b)) (dec_val a * dec_val b).
Proof.
  unfold dec_mul.
  refine (approx_eq _ _ _ _ _ (Qeq_refl _) _ (dec_fix_approx _)).
  destruct a as [sa ca ea], b as [sb cb eb]. cbn [d_sign d_int d_exp].
  rewrite !dec_val_signed, !inject_signed, q10_add, N2Z.inj_mul, inject_Z_mult.
  destruct sa, sb; cbn [xorb]; ring.
Qed.

Lemma dec_val_rescale (d : Decimal) (e : Z) :
  e <= d_exp d -> (dec_val (dec_rescale d e) == dec_val d)%Q.
Proof.
  intros He. destruct d as [s c ex]. unfold dec_rescale. cbn [d_sign d_int d_exp] in *.
  rewrite (dec_val_scaled s c e (ex - e)) by lia.
  replace (e + (ex - e)) with ex by lia. reflexivity.
Qed.

Lemma dec_add_approx (a b : Decimal) :
  approx unit_roundoff (dec_val (dec_add a b)) (dec_val a + dec_val b).
Proof.
  unfold dec_add.
  destruct (dec_truthy a) eqn:Ta; destruct (dec_truthy b) eqn:Tb; cbn [negb andb].
  - (* both are numbers *)
    set (exp := Z.min (d_exp a) (d_exp b)).
    assert (Ea : (dec_val a
                  == dec_val (mkDecimal (d_sign a) (d_int a * pow10 (d_exp a - exp)) exp))%Q).
    { rewrite (dec_val_scaled _ _ exp (d_exp a - exp)) by lia.
      replace (exp + (d_exp a - exp)) with (d_exp a) by lia. destruct a; reflexivity. }
    assert (Eb : (dec_val b
                  == dec_val (mkDecimal (d_sign b) (d_int b * pow10 (d_exp b - exp)) exp))%Q).
    { rewrite (dec_val_scaled _ _ exp (d_exp b - exp)) by lia.
      replace (exp + (d_exp b - exp)) with (d_exp b) by lia. destruct b; reflexivity. }
    set (ia := (d_int a * pow10 (d_exp a - exp))%N) in *.
    set (ib := (d_int b * pow10 (d_exp b - exp))%N) in *.
    rewrite !dec_val_signed, !inject_signed in Ea, Eb.
    destruct (Bool.eqb (d_sign a) (d_sign b)) eqn:Es.
    + apply Bool.eqb_prop in Es.
      refine (approx_eq _ _ _ _ _ (Qeq_refl _) _ (dec_fix_approx _)).
      rewrite Ea, Eb, <- Es, dec_val_signed, inject_signed, N2Z.inj_add, inject_Z_plus.
      ring.
    + apply Bool.eqb_false_iff in Es.
      destruct (N.eqb_spec ia ib) as [E | E];
        [| destruct (N.ltb_spec ia ib) as [L | L]];
        refine (approx_eq _ _ _ _ _ (Qeq_refl _) _ (dec_fix_approx _));
        rewrite Ea, Eb, dec_val_signed, inject_signed.
      * rewrite E. destruct (d_sign a), (d_sign b); try congruence; cbn; ring.
      * rewrite N2Z.inj_sub by lia. unfold Z.sub.
        rewrite inject_Z_plus, inject_Z_opp.
        destruct (d_sign a), (d_sign b); try congruence; ring.
      * rewrite N2Z.inj_sub by lia. unfold Z.sub.
        rewrite inject_Z_plus, inject_Z_opp.
        destruct (d_sign a), (d_sign b); try congruence; ring.
  - refine (approx_eq _ _ _ _ _ (Qeq_refl _) _ (dec_fix_approx _)).
    rewrite (dec_val_falsy b Tb).
    etransitivity; [apply dec_val_rescale; unfold context_prec; lia | ring].
  - refine (approx_eq _ _ _ _ _ (Qeq_refl _) _ (dec_fix_approx _)).
    rewrite (dec_val_falsy a Ta).
    etransitivity; [apply dec_val_rescale; unfold context_prec; lia | ring].
  - refine (approx_eq _ _ _ _ _ (Qeq_refl _) _ (dec_fix_approx _)).
    rewrite (dec_val_falsy a Ta), (dec_val_falsy b Tb), dec_val_zero. ring.
Qed.

Lemma dec_sub_approx (a b : Decimal) :
  approx unit_roundoff (dec_val (dec_sub a b)) (dec_val a - dec_val b).
Proof.
  unfold dec_sub.
  refine (approx_eq _ _ _ _ _ (Qeq_refl _) _ (dec_add_approx a (dec_neg b))).
  rewrite dec_val_neg. ring.
Qed.

(** ** Division *)

Lemma to_ideal_exp_val (fuel : nat) (c : N) (e : Z) :
  exists k, 0 <= k
    /\ snd (to_ideal_exp fuel c e) = e + k
    /\ c = (fst (to_ideal_exp fuel c e) * pow10 k)%N.
Proof.
  revert c e. induction fuel as [|f IH]; intros c e; cbn [to_ideal_exp].
  - exists 0. cbn. split; [lia | split; [lia |]]. change (pow10 0) with 1%N. lia.
  - destruct (N.eqb_spec (c mod 10) 0) as [E | E].
    + destruct (IH (c / 10)%N (e + 1)) as [k [Hk [He Hc]]].
      exists (k + 1). split; [lia | split; [lia |]].
      assert (Hp : pow10 (k + 1) = (pow10 k * 10)%N).
      { apply N2Z.inj. rewrite N2Z.inj_mul, !pow10_Z by lia.
        rewrite Z.pow_add_r by lia. reflexivity. }
      rewrite Hp, N.mul_assoc, <- Hc.
      pose proof (N.div_mod c 10 ltac:(discriminate)). lia.
    + exists 0. cbn. split; [lia | split; [lia |]]. change (pow10 0) with 1%N. lia.
Qed.

Lemma approx_quotient (s : bool) (A Bd C : N) (e : Z) :
  (0 < A)%N -> (0 < Bd)%N ->
  10 ^ 28 * Z.abs (Z.of_N C * Z.of_N Bd - Z.of_N A) <= Z.of_N A ->
  approx quotient_roundoff (dec_val (mkDecimal s C e))
    ((if s then - (1) else 1)
     * (inject_Z (Z.of_N A) / inject_Z (Z.of_N Bd)) * 10 ^ e).
Proof.
  intros HA HB Hb.
  assert (HAq : (0 < inject_Z (Z.of_N A))%Q).
  { change 0%Q with (inject_Z 0). rewrite <- Zlt_Qlt. lia. }
  assert (HBq : (0 < inject_Z (Z.of_N Bd))%Q).
  { change 0%Q with (inject_Z 0). rewrite <- Zlt_Qlt. lia. }
  assert (Hb1 : (inject_Z (10 ^ 28)
                 * (inject_Z (Z.of_N C) * inject_Z (Z.of_N Bd) - inject_Z (Z.of_N A))
                 <= inject_Z (Z.of_N A))%Q).
  { unfold Qminus.
    rewrite <- inject_Z_opp, <- inject_Z_mult, <- inject_Z_plus, <- inject_Z_mult, <- Zle_Qle.
    lia. }
  assert (Hb2 : (inject_Z (10 ^ 28)
                 * (inject_Z (Z.of_N A) - inject_Z (Z.of_N C) * inject_Z (Z.of_N Bd))
                 <= inject_Z (Z.of_N A))%Q).
  { unfold Qminus.
    rewrite <- inject_Z_mult, <- inject_Z_opp, <- inject_Z_plus, <- inject_Z_mult, <- Zle_Qle.
    lia. }
  assert (HT : (0 < inject_Z (10 ^ 28))%Q) by (vm_compute; reflexivity).
  assert (Hu : (quotient_roundoff * inject_Z (10 ^ 28) == 1)%Q)
    by (vm_compute; reflexivity).
  destruct (roundoff_bound (inject_Z (10 ^ 28)) quotient_roundoff
              (inject_Z (Z.of_N A)) (inject_Z (Z.of_N C) * inject_Z (Z.of_N Bd))
              HT Hu HAq Hb1 Hb2) as [L1 L2].
  exists ((inject_Z (Z.of_N C) * inject_Z (Z.of_N Bd) - inject_Z (Z.of_N A))
          / inject_Z (Z.of_N A))%Q.
  split; [exact L1 | split; [exact L2 |]].
  rewrite dec_val_signed, inject_signed. field. split; lra.
Qed.

Lemma unit_roundoff_nonneg : (0 <= unit_roundoff)%Q.
Proof. vm_compute. discriminate. Qed.

Lemma quotient_roundoff_nonneg : (0 <= quotient_roundoff)%Q.
Proof. vm_compute. discriminate. Qed.

(** What [dec_div] does with the numerator and the denominator it has
    scaled. *)
Lemma divide_scaled_approx (s : bool) (A Bd : N) (exp : Z) (fuel : nat) :
  (0 < Bd)%N -> 10 ^ 28 * Z.of_N Bd <= Z.of_N A ->
  exists r,
    (let '(coeff, remainder) := N.div_eucl A Bd in
     let '(coeff, exp) :=
       if negb (remainder =? 0)%N
       then (if (coeff mod 5 =? 0)%N then (coeff + 1)%N else coeff, exp)
       else to_ideal_exp fuel coeff exp in
     Returns (dec_fix (mkDecimal s coeff exp))) = Returns r
    /\ approx division_roundoff (dec_val r)
         ((if s then - (1) else 1)
          * (inject_Z (Z.of_N A) / inject_Z (Z.of_N Bd)) * 10 ^ exp).
Proof.
  intros HB Hbig.
  assert (HA : (0 < A)%N) by lia.
  pose proof (N.div_eucl_spec A Bd) as Hspec.
  pose proof (N.mod_lt A Bd ltac:(lia)) as Hlt. unfold N.modulo in Hlt.
  destruct (N.div_eucl A Bd) as [coeff rem]. cbn [snd] in Hlt.
  assert (HZ : Z.of_N A = Z.of_N Bd * Z.of_N coeff + Z.of_N rem) by lia.
  destruct (N.eqb_spec rem 0) as [Hr | Hr]; cbn [negb].
  - pose proof (to_ideal_exp_val fuel coeff exp) as [k [Hk [He Hc]]].
    destruct (to_ideal_exp fuel coeff exp) as [c' e']. cbn [fst snd] in He, Hc.
    subst e'. eexists. split; [reflexivity |]. unfold division_roundoff.
    eapply (approx_trans unit_roundoff quotient_roundoff) with
      (x' := dec_val (mkDecimal s c' (exp + k)));
      [exact unit_roundoff_nonneg | exact quotient_roundoff_nonneg | |].
    + apply dec_fix_approx.
    + eapply (approx_eq quotient_roundoff (dec_val (mkDecimal s coeff exp))).
      * rewrite Hc. apply dec_val_scaled. exact Hk.
      * reflexivity.
      * apply approx_quotient; [exact HA | exact HB |].
        replace (Z.of_N coeff * Z.of_N Bd - Z.of_N A) with 0 by lia.
        cbn [Z.abs]. lia.
  - eexists. split; [reflexivity |]. unfold division_roundoff.
    eapply (approx_trans unit_roundoff quotient_roundoff);
      [exact unit_roundoff_nonneg | exact quotient_roundoff_nonneg
      | apply dec_fix_approx |].
    apply approx_quotient; [exact HA | exact HB |].
    destruct (coeff mod 5 =? 0)%N.
    + rewrite N2Z.inj_add. change (Z.of_N 1) with 1.
      replace ((Z.of_N coeff + 1) * Z.of_N Bd - Z.of_N A)
        with (Z.of_N Bd - Z.of_N rem) by lia.
      lia.
    + replace (Z.of_N coeff * Z.of_N Bd - Z.of_N A) with (- Z.of_N rem) by lia.
      lia.
Qed.

Lemma dec_div_approx (a b : Decimal) :
  d_int b <> 0%N ->
  exists r, dec_div a b = Returns r
            /\ approx division_roundoff (dec_val r) (dec_val a / dec_val b).
Proof.
  intros Hb. unfold dec_div.
  destruct (N.eqb_spec (d_int b) 0) as [E | _]; [contradiction |].
  destruct a as [sa ca ea], b as [sb cb eb]. cbn [d_sign d_int d_exp] in *.
  assert (Hcb : (0 < inject_Z (Z.of_N cb))%Q).
  { change 0%Q with (inject_Z 0). rewrite <- Zlt_Qlt. lia. }
  pose proof (q10_pos ea) as Pa. pose proof (q10_pos eb) as Pb.
  destruct (N.eqb_spec ca 0) as [Ha | Ha].
  - eexists. split; [reflexivity |].
    apply (approx_weaken unit_roundoff); [vm_compute; discriminate |].
    refine (approx_eq _ _ _ _ _ (Qeq_refl _) _ (dec_fix_approx _)).
    subst ca. rewrite !dec_val_signed, !inject_signed. cbn [Z.of_N inject_Z].
    change (0 # 1) with 0%Q. field.
    split; [| destruct sb; lra]. lra.
  - destruct (ndigits_bounds ca ltac:(lia)) as [La1 [La2 La3]].
    destruct (ndigits_bounds cb ltac:(lia)) as [Lb1 [Lb2 Lb3]].
    unfold context_prec.
    set (la := ndigits ca) in *. set (lb := ndigits cb) in *.
    set (shift := lb - la + 28 + 1).
    destruct (Z.leb_spec 0 shift) as [Hs | Hs].
    + assert (Hbig : 10 ^ 28 * Z.of_N cb <= Z.of_N (ca * pow10 shift)).
      { rewrite N2Z.inj_mul, pow10_Z by lia.
        assert (10 ^ (lb + 28) = 10 ^ (la - 1) * 10 ^ shift).
        { rewrite <- Z.pow_add_r by lia. f_equal. lia. }
        assert (10 ^ (lb + 28) = 10 ^ 28 * 10 ^ lb).
        { rewrite <- Z.pow_add_r by lia. f_equal. lia. }
        assert (0 < 10 ^ shift) by (apply Z.pow_pos_nonneg; lia).
        nia. }
      destruct (divide_scaled_approx (xorb sa sb) (ca * pow10 shift) cb
                  (ea - eb - shift)
                  (Z.to_nat (ea - eb - (ea - eb - shift))) ltac:(lia) Hbig)
        as [r [Hr Happ]].
      exists r. split; [exact Hr |].
      refine (approx_eq _ _ _ _ _ (Qeq_refl _) _ Happ).
      rewrite !dec_val_signed, !inject_signed, N2Z.inj_mul, pow10_Z by lia.
      rewrite inject_Z_mult, <- (q10_inject shift Hs).
      replace (ea - eb - shift) with (ea + (- eb + - shift)) by lia.
      rewrite !q10_add, !Qpower_opp.
      pose proof (q10_pos shift).
      destruct sa, sb; cbn [xorb]; field; repeat split; lra.
    + assert (Hp : (0 < pow10 (- shift))%N) by (apply pow10_pos; lia).
      assert (Hbig : 10 ^ 28 * Z.of_N (cb * pow10 (- shift)) <= Z.of_N ca).
      { rewrite N2Z.inj_mul, pow10_Z by lia.
        assert (10 ^ (la - 1) = 10 ^ 28 * 10 ^ lb * 10 ^ (- shift)).
        { rewrite <- !Z.pow_add_r by lia. f_equal. lia. }
        assert (0 < 10 ^ (- shift)) by (apply Z.pow_pos_nonneg; lia).
        nia. }
      destruct (divide_scaled_approx (xorb sa sb) ca (cb * pow10 (- shift))
                  (ea - eb - shift)
                  (Z.to_nat (ea - eb - (ea - eb - shift))) ltac:(lia) Hbig)
        as [r [Hr Happ]].
      exists r. split; [exact Hr |].
      refine (approx_eq _ _ _ _ _ (Qeq_refl _) _ Happ).
      rewrite !dec_val_signed, !inject_signed, N2Z.inj_mul, pow10_Z by lia.
      rewrite inject_Z_mult, <- (q10_inject (- shift)) by lia.
      replace (ea - eb - shift) with (ea + (- eb + - shift)) by lia.
      rewrite !q10_add, !Qpower_opp.
      pose proof (q10_pos shift).
      destruct sa, sb; cbn [xorb]; field; repeat split; lra.
Qed.


(** ** Sizing by risk *)

Lemma risk_amount_approx (balance risk : Decimal) :
  exists fraction,
    dec_div risk (dec_of_Z 100) = Returns fraction
    /\ approx amount_roundoff (dec_val (dec_mul balance fraction))
         (dec_val balance * (dec_val risk / 100)).
Proof.
  destruct (dec_div_approx risk (dec_of_Z 100)) as [f [Hf Ha]]; [discriminate |].
  exists f. split; [exact Hf |].
  unfold amount_roundoff.
  eapply approx_trans; [exact unit_roundoff_nonneg | vm_compute; discriminate
                       | apply dec_mul_approx |].
  apply approx_mul; [apply Qle_refl | vm_compute; discriminate
                    | apply approx_refl; [apply Qle_refl | reflexivity] |].
  refine (approx_eq _ _ _ _ _ (Qeq_refl _) _ Ha).
  apply Qdiv_comp; [reflexivity |]. reflexivity.
Qed.

Lemma price_distance_approx (entry stop : Decimal) :
  approx distance_roundoff (dec_val (dec_abs (dec_sub entry stop)))
    (Qabs (dec_val entry - dec_val stop)).
Proof.
  unfold distance_roundoff.
  eapply approx_trans; [exact unit_roundoff_nonneg | exact unit_roundoff_nonneg
                       | apply dec_abs_approx |].
  apply approx_abs; [exact unit_roundoff_nonneg | vm_compute; reflexivity |].
  apply dec_sub_approx.
Qed.

Lemma risk_quantity_approx (balance risk entry stop : Decimal) :
  ~ (dec_val entry == dec_val stop)%Q ->
  exists q,
    (match dec_div risk (dec_of_Z 100) with
     | Raises e => Raises e
     | Returns fraction =>
         dec_div (dec_mul balance fraction) (dec_abs (dec_sub entry stop))
     end) = Returns q
    /\ dec_leb (dec_abs (dec_sub entry stop)) Decimal_0 = false
    /\ approx sizing_roundoff (dec_val q)
         (spec_risk_quantity (dec_val balance) (dec_val risk)
            (dec_val entry) (dec_val stop)).
Proof.
  intros Hne.
  destruct (risk_amount_approx balance risk) as [f [Hf Hm]]. rewrite Hf.
  pose proof (price_distance_approx entry stop) as Hd.
  assert (Hpos : (0 < Qabs (dec_val entry - dec_val stop))%Q).
  { destruct (Qlt_le_dec 0 (Qabs (dec_val entry - dec_val stop))) as [H | H];
      [exact H | exfalso].
    pose proof (Qabs_nonneg (dec_val entry - dec_val stop)) as H0.
    assert (E : (Qabs (dec_val entry - dec_val stop) == 0)%Q) by lra.
    apply Hne.
    destruct (Qabs_Qle_condition (dec_val entry - dec_val stop) 0) as [Hc _].
    destruct (Hc ltac:(lra)). lra. }
  assert (Hdpos : (0 < dec_val (dec_abs (dec_sub entry stop)))%Q).
  { apply (approx_positive distance_roundoff _ _ ltac:(vm_compute; reflexivity) Hpos Hd). }
  assert (Hdint : d_int (dec_abs (dec_sub entry stop)) <> 0%N)
    by (apply dec_val_sign in Hdpos; tauto).
  destruct (dec_div_approx (dec_mul balance f) (dec_abs (dec_sub entry stop)) Hdint)
    as [q [Hq Ha]].
  exists q. split; [exact Hq |]. split.
  { apply dec_leb_gt. rewrite dec_val_0. exact Hdpos. }
  apply (approx_weaken
           (division_roundoff
            + (amount_roundoff + distance_roundoff) / (1 - distance_roundoff)
            + division_roundoff
              * ((amount_roundoff + distance_roundoff) / (1 - distance_roundoff))));
    [vm_compute; discriminate |].
  eapply approx_trans; [vm_compute; discriminate | vm_compute; discriminate
                       | exact Ha |].
  unfold spec_risk_quantity.
  apply approx_div; [vm_compute; discriminate | vm_compute; discriminate
                    | vm_compute; reflexivity | lra | exact Hm | exact Hd].
Qed.

Lemma positive_not_missing (d : Decimal) :
  (0 < dec_val d)%Q -> missing_or_not_positive (Some d) = false.
Proof.
  intros H. cbn [missing_or_not_positive].
  assert (Hl : dec_leb d Decimal_0 = false) by (apply dec_leb_gt; rewrite dec_val_0; exact H).
  apply dec_val_sign in H. destruct H as [_ Hc].
  unfold dec_truthy. apply N.eqb_neq in Hc. rewrite Hc, Hl. reflexivity.
Qed.

(** C5.  In risk-percentage mode the sizing returns zero, and the entry
    is refused, whenever the entry price or the stop is missing or not
    positive, or a LONG has its entry at or below its stop, or a SHORT at
    or above it.  Otherwise it returns the quantity
    (balance x risk / 100) / |entry - stop| computed in the decimal
    arithmetic of the context, which is that quantity up to the rounding
    of 28 significant digits (a relative error of at most 3e-27).
    Balance 1000, risk 1.0, entry 100, stop 95 give 2.000. *)
Theorem risk_percentage_sizing (setup : Setup) (signal : TradingSignal.t) :
  let sized := _calculate_position_size_risk_percentage setup signal in
  let position := upper (TradingSignal.position signal) in
  (missing_or_not_positive (TradingSignal.entry_price signal) = true ->
   sized = Returns Decimal_0)
  /\ (missing_or_not_positive (TradingSignal.stop_loss signal) = true ->
      sized = Returns Decimal_0)
  /\ (forall entry stop,
        TradingSignal.entry_price signal = Some entry ->
        TradingSignal.stop_loss signal = Some stop ->
        (position = "LONG"%string /\ (dec_val entry <= dec_val stop)%Q)
        \/ (position = "SHORT"%string /\ (dec_val stop <= dec_val entry)%Q) ->
        sized = Returns Decimal_0)
  /\ (forall entry stop,
        TradingSignal.entry_price signal = Some entry ->
        TradingSignal.stop_loss signal = Some stop ->
        (0 < dec_val (current_available_balance setup))%Q ->
        (0 < dec_val entry)%Q -> (0 < dec_val stop)%Q ->
        (position = "LONG"%string -> (dec_val stop < dec_val entry)%Q) ->
        (position = "SHORT"%string -> (dec_val entry < dec_val stop)%Q) ->
        ~ (dec_val entry == dec_val stop)%Q ->
        exists q,
          sized = Returns q
          /\ (Qabs (dec_val q
                    - spec_risk_quantity (dec_val (current_available_balance setup))
                        (dec_val (risk_per_trade_percentage setup))
                        (dec_val entry) (dec_val stop))
              <= sizing_roundoff
                 * Qabs (spec_risk_quantity (dec_val (current_available_balance setup))
                           (dec_val (risk_per_trade_percentage setup))
                           (dec_val entry) (dec_val stop)))%Q)
  /\ (forall (X : Type) (G : Gateway X) (B : Broker X) (env : Env) (bot : Bot) (x : X),
        position_size_mode setup = "risk_percentage"%string ->
        sized = Returns Decimal_0 ->
        enter_trade G B env setup signal bot x = (TradeRefused, bot, x))
  /\ _calculate_position_size_risk_percentage risk_setup long_signal
     = Returns (mkDecimal false 2000 (-3)).
Proof.
  intros sized position. subst sized position.
  unfold _calculate_position_size_risk_percentage.
  split; [| split; [| split; [| split; [| split]]]].
  - intros H. destruct (dec_leb _ Decimal_0); [reflexivity |]. rewrite H. reflexivity.
  - intros H. destruct (dec_leb _ Decimal_0); [reflexivity |].
    destruct (missing_or_not_positive (TradingSignal.entry_price signal));
      [reflexivity |].
    rewrite H. reflexivity.
  - intros entry stop He Hs Hdir.
    destruct (dec_leb _ Decimal_0); [reflexivity |].
    destruct (missing_or_not_positive (TradingSignal.entry_price signal));
      [reflexivity |].
    destruct (missing_or_not_positive (TradingSignal.stop_loss signal));
      [reflexivity |].
    rewrite He, Hs.
    destruct Hdir as [[Hp Hle] | [Hp Hle]]; rewrite Hp; apply dec_leb_le in Hle;
      rewrite Hle; cbn [String.eqb Ascii.eqb Bool.eqb andb]; reflexivity.
  - intros entry stop He Hs Hbal Hep Hsp Hlong Hshort Hne.
    assert (Hb : dec_leb (current_available_balance setup) Decimal_0 = false)
      by (apply dec_leb_gt; rewrite dec_val_0; exact Hbal).
    rewrite Hb, He, Hs, (positive_not_missing entry Hep),
      (positive_not_missing stop Hsp).
    assert (G1 : String.eqb (upper (TradingSignal.position signal)) "LONG"
                 && dec_leb entry stop = false).
    { destruct (String.eqb_spec (upper (TradingSignal.position signal)) "LONG")
        as [E | E]; [| reflexivity].
      cbn [andb]. apply dec_leb_gt. exact (Hlong E). }
    assert (G2 : String.eqb (upper (TradingSignal.position signal)) "SHORT"
                 && dec_leb stop entry = false).
    { destruct (String.eqb_spec (upper (TradingSignal.position signal)) "SHORT")
        as [E | E]; [| reflexivity].
      cbn [andb]. apply dec_leb_gt. exact (Hshort E). }
    rewrite G1, G2.
    destruct (risk_quantity_approx (current_available_balance setup)
                (risk_per_trade_percentage setup) entry stop Hne)
      as [q [Hq [Hd Ha]]].
    rewrite Hd. exists q. split; [exact Hq |].
    apply approx_error; [vm_compute; discriminate | exact Ha].
  - intros X G B env bot x Hmode Hz.
    unfold enter_trade, entry_try, _determine_total_entry_qty, calculated_qty_asset,
      _calculate_position_size_risk_percentage.
    rewrite Hmode. cbn [String.eqb Ascii.eqb Bool.eqb].
    rewrite Hz. change (dec_leb Decimal_0 Decimal_0) with true. reflexivity.
  - vm_compute. reflexivity.
Qed.

Lemma risk_percentage_sizing_witness :
  exists q,
    _calculate_position_size_risk_percentage risk_setup long_signal = Returns q
    /\ (Qabs (dec_val q - spec_risk_quantity (10000 # 10) (10 # 10) 100 95)
        <= sizing_roundoff * Qabs (spec_risk_quantity (10000 # 10) (10 # 10) 100 95))%Q.
Proof.
  refine (proj1 (proj2 (proj2 (proj2
            (risk_percentage_sizing risk_setup long_signal))))
            (dec_of_Z 100) (dec_of_Z 95) eq_refl eq_refl _ _ _ _ _ _).
  - vm_compute. reflexivity.
  - vm_compute. reflexivity.
  - vm_compute. reflexivity.
  - intros _. vm_compute. reflexivity.
  - intros H. vm_compute in H. discriminate.
  - vm_compute. discriminate.
Defined.

(** ** The quantity of an entry *)

Lemma dec_div_returns (a b : Decimal) :
  d_int b <> 0%N -> exists r, dec_div a b = Returns r.
Proof.
  intros Hb. unfold dec_div.
  destruct (N.eqb_spec (d_int b) 0) as [E | _]; [contradiction |].
  destruct (d_int a =? 0)%N; [eauto |].
  destruct (if 0 <=? _ then _ else _) as [coeff remainder].
  destruct (if negb _ then _ else _) as [c e]. eauto.
Qed.

Lemma intended_or_percent_returns (intended entry : option Decimal) (pct : Decimal)
    (above : bool) :
  exists r, intended_or_percent intended entry pct above = Returns r.
Proof.
  unfold intended_or_percent, percent_away.
  destruct (_ && _ && _ && _); [| eauto].
  destruct entry as [e|]; [| eauto].
  destruct (dec_div_returns pct (dec_of_Z 100)) as [r ->]; [discriminate | eauto].
Qed.

Lemma format_quantity_reads (env : Env) (q : Decimal) (sym : string) :
  Decimal_of_str (_format_quantity env q sym)
  = Some (format_quantity_decimal env q sym).
Proof. apply Decimal_of_str_of_Decimal. Qed.

Section EntryFacts.
Context {X : Type} (G : Gateway X) (B : Broker X) (env : Env) (setup : Setup).

Lemma determine_below_minimum (signal : TradingSignal.t) (bot : Bot) (q : Decimal) :
  calculated_qty_asset setup signal = Returns q ->
  dec_ltb Decimal_0 q = true ->
  dec_ltb q (min_order_qty env (TradingSignal.symbol signal)) = true ->
  _determine_total_entry_qty setup env signal bot
  = (Returns Decimal_0,
     _add_trade_to_history env (TradingSignal.symbol signal) "System"
       (TradingSignal.position signal) (str_of_Decimal q)
       (Some (price_or_market (TradingSignal.entry_price signal)))
       (Some "N/A"%string) "Fail: Qty < Min" (Some "0.00"%string) None bot).
Proof.
  intros Hq Hpos Hmin. unfold _determine_total_entry_qty. rewrite Hq.
  apply dec_ltb_lt in Hpos. apply dec_leb_gt in Hpos. rewrite Hpos, Hmin.
  reflexivity.
Qed.

Lemma determine_passes (signal : TradingSignal.t) (bot : Bot) (q : Decimal) :
  calculated_qty_asset setup signal = Returns q ->
  dec_ltb Decimal_0 q = true ->
  dec_ltb q (min_order_qty env (TradingSignal.symbol signal)) = false ->
  _determine_total_entry_qty setup env signal bot = (Returns q, bot).
Proof.
  intros Hq Hpos Hmin. unfold _determine_total_entry_qty. rewrite Hq.
  apply dec_ltb_lt in Hpos. apply dec_leb_gt in Hpos. rewrite Hpos, Hmin.
  reflexivity.
Qed.
End EntryFacts.




(** ** Prices and quantities on the grid of the instrument *)

Lemma q10_scale_lt (a b : Z) (ea eb : Z) :
  ea <= eb ->
  (inject_Z a * 10 ^ ea < inject_Z b * 10 ^ eb)%Q <-> a < b * 10 ^ (eb - ea).
Proof.
  intros He. split; intros H.
  - apply Z.nle_gt. intros Hle. apply (q10_scale_le b a eb ea He) in Hle.
    apply Qle_not_lt in Hle. contradiction.
  - apply Qnot_le_lt. intros Hle. apply (q10_scale_le b a eb ea He) in Hle. lia.
Qed.

Lemma q10_scale_gt (a b : Z) (ea eb : Z) :
  eb <= ea ->
  (inject_Z a * 10 ^ ea < inject_Z b * 10 ^ eb)%Q <-> a * 10 ^ (ea - eb) < b.
Proof.
  intros He. split; intros H.
  - apply Z.nle_gt. intros Hle. apply (q10_scale_ge b a eb ea He) in Hle.
    apply Qle_not_lt in Hle. contradiction.
  - apply Qnot_le_lt. intros Hle. apply (q10_scale_ge b a eb ea He) in Hle. lia.
Qed.

(** The multiple of the step that [floor_to_step] keeps is the last one
    that is not above the number. *)
Lemma trunc_div_bounds (x step : Decimal) :
  d_sign x = false -> d_sign step = false -> d_int step <> 0%N ->
  (inject_Z (Z.of_N (trunc_div x step)) * dec_val step <= dec_val x)%Q
  /\ (dec_val x < inject_Z (Z.of_N (trunc_div x step) + 1) * dec_val step)%Q.
Proof.
  intros Hx Hs Hc. destruct x as [sx cx ex], step as [ss cs es].
  cbn in Hx, Hs, Hc. subst sx ss.
  rewrite !dec_val_signed. cbn [signed].
  rewrite !Qmult_assoc, <- !inject_Z_mult.
  unfold trunc_div. cbn [d_int d_exp].
  destruct (Z.leb_spec 0 (ex - es)) as [He | He].
  - assert (HP : Z.of_N (pow10 (ex - es)) = 10 ^ (ex - es)) by (apply pow10_Z; lia).
    set (A := (cx * pow10 (ex - es))%N).
    assert (HA : Z.of_N A = Z.of_N cx * 10 ^ (ex - es))
      by (unfold A; rewrite N2Z.inj_mul, HP; reflexivity).
    pose proof (N.div_mod A cs Hc) as Hdm.
    pose proof (N.mod_lt A cs Hc) as Hlt.
    revert Hdm Hlt. generalize (A / cs)%N, (A mod cs)%N. intros t r Hdm Hlt.
    assert (HZ : Z.of_N A = Z.of_N cs * Z.of_N t + Z.of_N r) by lia.
    split.
    + apply q10_scale_ge; [lia |]. rewrite <- HA. nia.
    + apply q10_scale_gt; [lia |]. rewrite <- HA. nia.
  - assert (HP : Z.of_N (pow10 (- (ex - es))) = 10 ^ (es - ex)).
    { rewrite pow10_Z by lia. f_equal. lia. }
    assert (Hp : 0 < 10 ^ (es - ex)) by (apply Z.pow_pos_nonneg; lia).
    set (Bd := (cs * pow10 (- (ex - es)))%N).
    assert (HB : Z.of_N Bd = Z.of_N cs * 10 ^ (es - ex))
      by (unfold Bd; rewrite N2Z.inj_mul, HP; reflexivity).
    assert (HBn : Bd <> 0%N) by nia.
    pose proof (N.div_mod cx Bd HBn) as Hdm.
    pose proof (N.mod_lt cx Bd HBn) as Hlt.
    revert Hdm Hlt. generalize (cx / Bd)%N, (cx mod Bd)%N. intros t r Hdm Hlt.
    assert (HZ : Z.of_N cx = Z.of_N Bd * Z.of_N t + Z.of_N r) by lia.
    rewrite HB in HZ.
    assert (Hr : Z.of_N r < Z.of_N cs * 10 ^ (es - ex)) by lia.
    split.
    + apply q10_scale_le; [lia |]. nia.
    + apply q10_scale_lt; [lia |]. nia.
Qed.

Lemma floor_to_step_again (x step : Decimal) :
  d_int step <> 0%N ->
  floor_to_step (floor_to_step x step) step = floor_to_step x step.
Proof.
  intros Hc. unfold floor_to_step at 1 3. cbn [d_sign d_int d_exp].
  f_equal. f_equal.
  unfold trunc_div at 1. unfold floor_to_step. cbn [d_int d_exp].
  rewrite Z.sub_diag. cbn [Z.leb]. change (pow10 0) with 1%N.
  rewrite N.mul_1_r. apply N.div_mul. exact Hc.
Qed.

Lemma dec_positive_shape (d : Decimal) :
  dec_positive d = true -> d_sign d = false /\ d_int d <> 0%N.
Proof.
  unfold dec_positive, dec_truthy. intros H. apply andb_prop in H. destruct H as [Hs Hc].
  apply negb_true_iff in Hs. apply negb_true_iff, N.eqb_neq in Hc. auto.
Qed.

(** ** Values written to json and read back *)

Lemma pyval_nested_ind (P : pyval -> Prop) :
  P PNone -> (forall b, P (PBool b)) -> (forall z, P (PInt z)) ->
  (forall s, P (PStr s)) -> (forall d, P (PDec d)) -> (forall t, P (PDate t)) ->
  (forall l, Forall P l -> P (PList l)) ->
  (forall kv, Forall (fun p => P (snd p)) kv -> P (PDict kv)) ->
  forall v, P v.
Proof.
  intros HN HB HI HS HD HT HL HK. fix IH 1. intros v.
  destruct v as [| b | z | s | d | t | l | kv].
  - exact HN.
  - apply HB.
  - apply HI.
  - apply HS.
  - apply HD.
  - apply HT.
  - apply HL. induction l as [|a l IHl]; constructor; [apply IH | exact IHl].
  - apply HK. induction kv as [|[k a] kv IHkv]; constructor; [apply IH | exact IHkv].
Qed.

Lemma isoformat_chars_plain (t : datetime) :
  forallb (fun c => negb (Ascii.eqb c "_")) (list_ascii_of_string (isoformat t)) = true
  /\ forallb (fun c => negb (Ascii.eqb c "Z")) (list_ascii_of_string (isoformat t)) = true.
Proof.
  unfold isoformat. rewrite list_ascii_of_string_of_list_ascii.
  assert (Hd : forall l, forallb is_digit l = true ->
                         forallb (fun c => negb (Ascii.eqb c "_")) l = true
                         /\ forallb (fun c => negb (Ascii.eqb c "Z")) l = true).
  { intros l Hl. apply stamp_char_plain, is_digit_stamp, Hl. }
  unfold date_chars, time_chars.
  destruct (Hd _ (fixed_digits_is_digit 4 (dt_year t))) as [A1 A2].
  destruct (Hd _ (fixed_digits_is_digit 2 (dt_month t))) as [B1 B2].
  destruct (Hd _ (fixed_digits_is_digit 2 (dt_day t))) as [C1 C2].
  destruct (Hd _ (fixed_digits_is_digit 2 (dt_hour t))) as [D1 D2].
  destruct (Hd _ (fixed_digits_is_digit 2 (dt_minute t))) as [E1 E2].
  destruct (Hd _ (fixed_digits_is_digit 2 (dt_second t))) as [F1 F2].
  destruct (Hd _ (fixed_digits_is_digit 6 (dt_microsecond t))) as [G1 G2].
  split; destruct (dt_microsecond t =? 0)%N;
    repeat (rewrite forallb_app || (progress cbn [forallb app]));
    rewrite ?A1, ?A2, ?B1, ?B2, ?C1, ?C2, ?D1, ?D2, ?E1, ?E2, ?F1, ?F2, ?G1, ?G2;
    reflexivity.
Qed.

(** A text that starts with a date is not a number. *)
Lemma Decimal_of_str_dated (t : datetime) (rest : chars) :
  forallb (fun c => negb (Ascii.eqb c "_")) (date_chars t ++ rest) = true ->
  head_not_space (rev (date_chars t ++ rest)) = true ->
  Decimal_of_str (string_of_list_ascii (date_chars t ++ rest)) = None.
Proof.
  intros Hu Hlast. unfold Decimal_of_str.
  rewrite list_ascii_of_string_of_list_ascii.
  rewrite strip_ends; [| | exact Hlast].
  - rewrite (remove_char_id _ _ Hu). unfold date_chars, parse_decimal.
    repeat (rewrite <- app_assoc; cbn [app]).
    rewrite split_sign_digits.
    + rewrite span_digits_app; [| apply fixed_digits_is_digit | reflexivity].
      cbv beta iota. change (Ascii.eqb "-" ".") with false. cbv beta iota.
      assert (Hpe : forall r, parse_exponent ("-"%char :: r) = None) by reflexivity.
      rewrite Hpe.
      destruct (fixed_digits 4 (dt_year t) ++ []); reflexivity.
    + pose proof (fixed_digits_is_digit 4 (dt_year t)) as Hd.
      destruct (fixed_digits 4 (dt_year t)) eqn:E;
        [exact (False_ind _ (fixed_digits_nonempty 3 _ E))|].
      simpl in *. apply andb_prop in Hd as [-> _]. reflexivity.
  - unfold date_chars. rewrite <- app_assoc.
    apply head_not_space_digits;
      [apply fixed_digits_nonempty | apply fixed_digits_is_digit].
Qed.

Lemma head_not_space_ends_digits (l ds : chars) :
  ds <> [] -> forallb is_digit ds = true -> head_not_space (rev (l ++ ds)) = true.
Proof.
  intros Hne Hd. rewrite rev_app_distr. apply head_not_space_digits.
  - intros H. apply (f_equal (@rev ascii)) in H. rewrite rev_involutive in H.
    exact (Hne H).
  - apply forallb_rev, Hd.
Qed.

(** An ISO timestamp is not a number. *)
Lemma Decimal_of_str_isoformat (t : datetime) :
  Decimal_of_str (isoformat t) = None.
Proof.
  destruct (isoformat_chars_plain t) as [Hu _].
  unfold isoformat in *. rewrite list_ascii_of_string_of_list_ascii in Hu.
  apply Decimal_of_str_dated; [exact Hu |].
  unfold time_chars. destruct (dt_microsecond t =? 0)%N.
  - rewrite app_nil_r.
    replace (date_chars t ++ "T"%char :: fixed_digits 2 (dt_hour t)
             ++ ":"%char :: fixed_digits 2 (dt_minute t)
             ++ ":"%char :: fixed_digits 2 (dt_second t))
      with ((date_chars t ++ "T"%char :: fixed_digits 2 (dt_hour t)
             ++ ":"%char :: fixed_digits 2 (dt_minute t) ++ [":"%char])
            ++ fixed_digits 2 (dt_second t))
      by (repeat (rewrite <- app_assoc; cbn [app]); reflexivity).
    apply head_not_space_ends_digits;
      [apply fixed_digits_nonempty | apply fixed_digits_is_digit].
  - replace (date_chars t ++ "T"%char :: (fixed_digits 2 (dt_hour t)
             ++ ":"%char :: fixed_digits 2 (dt_minute t)
             ++ ":"%char :: fixed_digits 2 (dt_second t))
             ++ "."%char :: fixed_digits 6 (dt_microsecond t))
      with ((date_chars t ++ "T"%char :: fixed_digits 2 (dt_hour t)
             ++ ":"%char :: fixed_digits 2 (dt_minute t)
             ++ ":"%char :: fixed_digits 2 (dt_second t) ++ ["."%char])
            ++ fixed_digits 6 (dt_microsecond t))
      by (repeat (rewrite <- app_assoc; cbn [app]); reflexivity).
    apply head_not_space_ends_digits;
      [apply fixed_digits_nonempty | apply fixed_digits_is_digit].
Qed.

(** What [_serialize_value] returns holds no decimal and no timestamp at
    any depth, and serializing it again changes nothing. *)
Theorem serialize_value_json_safe (v : pyval) :
  json_safe (_serialize_value v) = true
  /\ _serialize_value (_serialize_value v) = _serialize_value v.
Proof.
  induction v as [| b | z | s | d | t | l IH | kv IH] using pyval_nested_ind;
    try (split; reflexivity).
  - cbn [_serialize_value json_safe]. split.
    + induction IH as [|a l [Ha _] _ IHl]; cbn [map forallb]; [reflexivity |].
      rewrite Ha, IHl. reflexivity.
    + f_equal. induction IH as [|a l [_ Ha] _ IHl]; cbn [map]; [reflexivity |].
      rewrite Ha, IHl. reflexivity.
  - cbn [_serialize_value json_safe]. split.
    + induction IH as [|[k a] kv [Ha _] _ IHkv]; cbn [map forallb fst snd];
        [reflexivity |].
      cbn [snd] in Ha. rewrite Ha, IHkv. reflexivity.
    + f_equal. induction IH as [|[k a] kv [_ Ha] _ IHkv]; cbn [map fst snd];
        [reflexivity |].
      cbn [snd] in Ha. rewrite Ha, IHkv. reflexivity.
Qed.



(** ** What a reconciliation pass tracks *)

Section Reconciliation.
Context (env : Env).

Lemma sync_all_returns positions orders items :
  Forall (fun q => api_well_formed q = true) positions ->
  forall bot, fst (sync_all env positions orders items bot) = false.
Proof.
  intros Hwf. induction items as [|[k d] r IH]; intros bot; cbn [sync_all].
  - reflexivity.
  - pose proof (sync_tracked_returns env positions orders k d bot Hwf) as Hf.
    destruct (sync_tracked env positions orders k d bot) as [raised bot1].
    cbn in Hf. subst raised. apply IH.
Qed.

Lemma sync_all_absent_store positions orders k items :
  forall bot,
    active_positions_details bot !! k = None ->
    active_positions_details (snd (sync_all env positions orders items bot)) !! k
    = None.
Proof.
  induction items as [|[k' d] r IH]; intros bot Hk; cbn [sync_all].
  - exact Hk.
  - pose proof (sync_tracked_absent env positions orders k k' d bot Hk) as Ha.
    destruct (sync_tracked env positions orders k' d bot) as [[|] bot1];
      cbn [snd] in *; [exact Ha | apply IH, Ha].
Qed.

Lemma adopt_untracked_covers l :
  Forall (fun q => api_well_formed q = true) l ->
  forall bot p k,
    In p l -> reported_open p k ->
    is_Some (active_positions_details (snd (adopt_untracked env l bot)) !! k).
Proof.
  induction 1 as [|q l Hq Hl IH]; intros bot p k Hin Hp; [destruct Hin |].
  cbn [adopt_untracked].
  destruct (api_well_formed_reads q Hq) as [[f Ef] [[a Ea] [[z Ez] [[s Es] [t Et]]]]].
  destruct Hin as [<- | Hin].
  - destruct Hp as [Hsym [Hidx [size [Hsize Hpos]]]]. destruct k as [sym idx].
    cbn [fst snd] in *. rewrite Hsym, Hsize, Hpos, Hidx.
    destruct (active_positions_details bot !! (sym, idx)) as [v|] eqn:E.
    + rewrite (adopt_untracked_keeps env (sym, idx) v l bot E). eauto.
    + rewrite Ea, Ez, Es, Et.
      erewrite (adopt_untracked_keeps env (sym, idx)); [eauto |].
      cbn. apply lookup_insert_eq.
  - rewrite Ef. destruct (nonempty (api_symbol q)) as [sym'|]; [| eauto].
    destruct (Qle_bool f 0); [eauto |].
    destruct (active_positions_details bot !! _); [eauto |].
    rewrite Ea, Ez, Es, Et. eauto.
Qed.

Lemma adopt_untracked_only l :
  forall bot k,
    is_Some (active_positions_details (snd (adopt_untracked env l bot)) !! k) ->
    is_Some (active_positions_details bot !! k)
    \/ exists p, In p l /\ reported_open p k.
Proof.
  induction l as [|q l IH]; intros bot k Hk; cbn [adopt_untracked] in Hk.
  - left. exact Hk.
  - assert (Hrec : forall bot',
               is_Some (active_positions_details (snd (adopt_untracked env l bot')) !! k) ->
               active_positions_details bot' = active_positions_details bot ->
               is_Some (active_positions_details bot !! k)
               \/ exists p, In p (q :: l) /\ reported_open p k).
    { intros bot' H E. destruct (IH bot' k H) as [H1 | [p [Hin Hp]]].
      - left. rewrite <- E. exact H1.
      - right. exists p. split; [right; exact Hin | exact Hp]. }
    destruct (nonempty (api_symbol q)) as [sym|] eqn:Hsym; [| eapply Hrec; eauto].
    destruct (float_of_str (default "0"%string (api_size q))) as [f|] eqn:Ef;
      [| left; exact Hk].
    destruct (Qle_bool f 0) eqn:Hpos; [eapply Hrec; eauto |].
    destruct (active_positions_details bot !! (sym, default 0 (api_positionIdx q)))
      eqn:E; [eapply Hrec; eauto |].
    destruct (live_price (api_avgPrice q)); [| left; exact Hk].
    destruct (live_size_of q); [| left; exact Hk].
    destruct (live_price (api_stopLoss q)); [| left; exact Hk].
    destruct (live_price (api_takeProfit q)); [| left; exact Hk].
    destruct (IH _ k Hk) as [H1 | [p [Hin Hp]]].
    + cbn in H1. destruct (decide ((sym, default 0 (api_positionIdx q)) = k)) as [<- | Hne].
      * right. exists q. split; [left; reflexivity |].
        split; [exact Hsym | split; [reflexivity | eauto]].
      * rewrite lookup_insert_ne in H1 by exact Hne. left. exact H1.
    + right. exists p. split; [right; exact Hin | exact Hp].
Qed.

End Reconciliation.

(** After a reconciliation pass over well-formed data every position the
    exchange reports with a symbol and a positive size is tracked. *)
Theorem reconcile_tracks_reported (env : Env) (positions : list ApiPosition)
    (orders : list ApiOrder) (bot : Bot) :
  Forall (fun q => api_well_formed q = true) positions ->
  fst (reconcile_positions env positions orders bot) = false
  /\ forall p k,
       In p positions -> reported_open p k ->
       is_Some (active_positions_details
                  (snd (reconcile_positions env positions orders bot)) !! k).
Proof.
  intros Hwf. unfold reconcile_positions.
  pose proof (sync_all_returns env positions orders
                (map_to_list (active_positions_details bot)) Hwf bot) as H1.
  destruct (sync_all env positions orders
              (map_to_list (active_positions_details bot)) bot) as [r1 bot1].
  cbn in H1. subst r1.
  pose proof (adopt_untracked_returns env positions Hwf bot1) as H2.
  pose proof (adopt_untracked_covers env positions Hwf bot1) as H3.
  destruct (adopt_untracked env positions bot1) as [r2 bot2].
  cbn in H2, H3. subst r2.
  rewrite (forallb_size_reads positions Hwf).
  split; [reflexivity |].
  intros p k Hin Hp. cbn [snd].
  destruct (decide _); [| cbn]; exact (H3 p k Hin Hp).
Qed.

Lemma reconcile_tracks_reported_witness :
  is_Some (active_positions_details
             (snd (reconcile_positions sample_env
                     [sample_api_position; external_api_position] [] sample_bot))
           !! ("ETHUSDT"%string, 0)).
Proof.
  refine (proj2 (reconcile_tracks_reported sample_env
                   [sample_api_position; external_api_position] [] sample_bot _)
            external_api_position ("ETHUSDT"%string, 0) _ _).
  - repeat constructor.
  - right. left. reflexivity.
  - split; [reflexivity | split; [reflexivity |]].
    exists (15 # 10)%Q. split; vm_compute; reflexivity.
Defined.

(** A reconciliation pass tracks nothing of its own: a key tracked after
    the pass was tracked before it, or is the key of a position the
    exchange reports with a symbol and a positive size. *)
Theorem reconcile_tracks_only_reported (env : Env) (positions : list ApiPosition)
    (orders : list ApiOrder) (bot : Bot) (k : pos_key) :
  is_Some (active_positions_details
             (snd (reconcile_positions env positions orders bot)) !! k) ->
  is_Some (active_positions_details bot !! k)
  \/ exists p, In p positions /\ reported_open p k.
Proof.
  unfold reconcile_positions.
  pose proof (sync_all_absent_store env positions orders k
                (map_to_list (active_positions_details bot)) bot) as H1.
  destruct (sync_all env positions orders
              (map_to_list (active_positions_details bot)) bot) as [r1 bot1].
  cbn [snd] in H1.
  assert (Hback : is_Some (active_positions_details bot1 !! k) ->
                  is_Some (active_positions_details bot !! k)).
  { intros [v Hv]. destruct (active_positions_details bot !! k) eqn:E; [eauto |].
    rewrite (H1 eq_refl) in Hv. discriminate. }
  destruct r1; [cbn [snd]; intros H; left; auto |].
  pose proof (adopt_untracked_only env positions bot1 k) as H2.
  destruct (adopt_untracked env positions bot1) as [r2 bot2]. cbn [snd] in H2.
  assert (Hfin : is_Some (active_positions_details bot2 !! k) ->
                 is_Some (active_positions_details bot !! k)
                 \/ exists p, In p positions /\ reported_open p k).
  { intros H. destruct (H2 H) as [H3 | H3]; [left; auto | right; exact H3]. }
  destruct r2; [cbn [snd]; exact Hfin |].
  destruct (forallb size_reads positions); cbn [snd]; [| exact Hfin].
  destruct (decide _); [| cbn]; exact Hfin.
Qed.

(** ** What a reconciliation pass does to a tracked position *)

Section Tracked.
Context (env : Env).

Lemma handle_closed_other k k' data reason bot :
  k' <> k ->
  active_positions_details (_handle_closed_position env k' data reason bot) !! k
  = active_positions_details bot !! k.
Proof.
  intros Hne.
  destruct (active_positions_details bot !! k') as [t|] eqn:E.
  - rewrite (handle_closed_tracked env k' data reason bot t E).
    cbn [active_positions_details]. apply lookup_delete_ne. exact Hne.
  - rewrite (handle_closed_untracked env k' data reason bot E). reflexivity.
Qed.

Lemma handle_closed_history k data reason bot :
  trade_history bot `prefix_of`
    trade_history (_handle_closed_position env k data reason bot).
Proof.
  destruct (active_positions_details bot !! k) as [t|] eqn:E.
  - rewrite (handle_closed_tracked env k data reason bot t E).
    cbn [trade_history]. apply prefix_app_r. reflexivity.
  - rewrite (handle_closed_untracked env k data reason bot E). reflexivity.
Qed.

Lemma update_position_other k k' f bot :
  k' <> k ->
  active_positions_details (update_position k' f bot) !! k
  = active_positions_details bot !! k.
Proof. intros Hne. unfold update_position. cbn. apply lookup_alter_ne. exact Hne. Qed.

Lemma sync_tracked_other positions orders k k' d bot :
  k' <> k ->
  active_positions_details (snd (sync_tracked env positions orders k' d bot)) !! k
  = active_positions_details bot !! k.
Proof.
  intros Hne. unfold sync_tracked. destruct k' as [sym' idx'].
  repeat match goal with
         | |- context [match ?e with _ => _ end] => destruct e eqn:?
         | |- context [if ?e then _ else _] => destruct e eqn:?
         end;
    cbn [snd]; auto using handle_closed_other, update_position_other.
Qed.

Lemma sync_tracked_history positions orders k d bot :
  trade_history bot `prefix_of`
    trade_history (snd (sync_tracked env positions orders k d bot)).
Proof.
  unfold sync_tracked. destruct k as [sym idx].
  repeat match goal with
         | |- context [match ?e with _ => _ end] => destruct e eqn:?
         | |- context [if ?e then _ else _] => destruct e eqn:?
         end;
    cbn [snd]; auto using handle_closed_history; reflexivity.
Qed.

Lemma sync_all_history positions orders items :
  forall bot,
    trade_history bot `prefix_of`
      trade_history (snd (sync_all env positions orders items bot)).
Proof.
  induction items as [|[k d] r IH]; intros bot; cbn [sync_all]; [reflexivity |].
  pose proof (sync_tracked_history positions orders k d bot) as H.
  destruct (sync_tracked env positions orders k d bot) as [[|] bot1]; cbn [snd] in *;
    [exact H | etransitivity; [exact H | apply IH]].
Qed.

Lemma sync_all_untouched positions orders k items :
  ~ In k (map fst items) ->
  forall bot,
    active_positions_details (snd (sync_all env positions orders items bot)) !! k
    = active_positions_details bot !! k.
Proof.
  induction items as [|[k' d] r IH]; intros Hk bot; cbn [sync_all]; [reflexivity |].
  cbn [map fst In] in Hk.
  pose proof (sync_tracked_other positions orders k k' d bot ltac:(tauto)) as H.
  destruct (sync_tracked env positions orders k' d bot) as [[|] bot1]; cbn [snd] in *;
    [exact H | rewrite IH by tauto; exact H].
Qed.

(** The pass over the tracked keys reaches each of them once: what it
    leaves under a key is what the step for that key has left there, and
    the history of that step is kept. *)
Lemma sync_all_at positions orders k d items :
  Forall (fun q => api_well_formed q = true) positions ->
  List.NoDup (map fst items) -> In (k, d) items ->
  forall bot,
    active_positions_details bot !! k = Some d ->
    exists bot0,
      active_positions_details bot0 !! k = Some d
      /\ active_positions_details (snd (sync_all env positions orders items bot)) !! k
         = active_positions_details
             (snd (sync_tracked env positions orders k d bot0)) !! k
      /\ trade_history (snd (sync_tracked env positions orders k d bot0))
           `prefix_of`
         trade_history (snd (sync_all env positions orders items bot)).
Proof.
  intros Hwf. induction items as [|[k' d'] r IH]; intros Hnd Hin bot Hk;
    [destruct Hin |].
  cbn [map fst] in Hnd. apply List.NoDup_cons_iff in Hnd. destruct Hnd as [Hfresh Hnd].
  cbn [sync_all].
  destruct Hin as [E | Hin].
  - injection E as -> ->. exists bot. split; [exact Hk |].
    pose proof (sync_tracked_returns env positions orders k d bot Hwf) as Hf.
    destruct (sync_tracked env positions orders k d bot) as [raised bot1].
    cbn in Hf. subst raised. cbn [snd]. split.
    + apply sync_all_untouched. exact Hfresh.
    + apply sync_all_history.
  - assert (Hne : k' <> k).
    { intros ->. apply Hfresh. apply (in_map fst) in Hin. exact Hin. }
    pose proof (sync_tracked_returns env positions orders k' d' bot Hwf) as Hf.
    pose proof (sync_tracked_other positions orders k k' d' bot Hne) as Ho.
    destruct (sync_tracked env positions orders k' d' bot) as [raised bot1].
    cbn in Hf, Ho. subst raised.
    apply (IH Hnd Hin bot1). rewrite Ho. exact Hk.
Qed.

Lemma adopt_untracked_history l :
  forall bot, trade_history (snd (adopt_untracked env l bot)) = trade_history bot.
Proof.
  induction l as [|q l IH]; intros bot; cbn [adopt_untracked]; [reflexivity |].
  repeat match goal with
         | |- context [match ?e with _ => _ end] => destruct e eqn:?
         | |- context [if ?e then _ else _] => destruct e eqn:?
         end; cbn [snd]; try reflexivity; rewrite ?IH; reflexivity.
Qed.

(** The fate of a tracked key in a whole pass. *)
Lemma reconcile_at positions orders bot k d :
  Forall (fun q => api_well_formed q = true) positions ->
  active_positions_details bot !! k = Some d ->
  exists bot0 bot1,
    active_positions_details bot0 !! k = Some d
    /\ bot1 = snd (sync_tracked env positions orders k d bot0)
    /\ trade_history bot1
         `prefix_of` trade_history (snd (reconcile_positions env positions orders bot))
    /\ (forall v, active_positions_details bot1 !! k = Some v ->
                  active_positions_details
                    (snd (reconcile_positions env positions orders bot)) !! k = Some v)
    /\ (active_positions_details bot1 !! k = None ->
        (forall p, In p positions -> ~ reported_open p k) ->
        active_positions_details
          (snd (reconcile_positions env positions orders bot)) !! k = None).
Proof.
  intros Hwf Hk.
  assert (Hnd : List.NoDup (map fst (map_to_list (active_positions_details bot)))).
  { rewrite <- list_fmap_map. apply NoDup_ListNoDup, NoDup_fst_map_to_list. }
  assert (Hin : In (k, d) (map_to_list (active_positions_details bot))).
  { apply list_elem_of_In, elem_of_map_to_list. exact Hk. }
  destruct (sync_all_at positions orders k d
              (map_to_list (active_positions_details bot)) Hwf Hnd Hin bot Hk)
    as [bot0 [H0 [Hs Hh]]].
  exists bot0, (snd (sync_tracked env positions orders k d bot0)).
  split; [exact H0 |]. split; [reflexivity |].
  unfold reconcile_positions.
  pose proof (sync_all_returns env positions orders
                (map_to_list (active_positions_details bot)) Hwf bot) as H1.
  destruct (sync_all env positions orders
              (map_to_list (active_positions_details bot)) bot) as [r1 botA].
  cbn [fst snd] in *. subst r1.
  pose proof (adopt_untracked_returns env positions Hwf botA) as H2.
  pose proof (adopt_untracked_history positions botA) as H3.
  pose proof (fun v => adopt_untracked_keeps env k v positions botA) as H4.
  pose proof (adopt_untracked_only env positions botA k) as H5.
  destruct (adopt_untracked env positions botA) as [r2 botB].
  cbn [fst snd] in *. subst r2.
  rewrite (forallb_size_reads positions Hwf). cbn [snd].
  assert (Hst : active_positions_details
                  (if decide (dom (active_positions_details bot)
                              = dom (active_positions_details botB))
                   then botB else save_positions botB)
                = active_positions_details botB)
    by (destruct (decide _); reflexivity).
  assert (Hhi : trade_history
                  (if decide (dom (active_positions_details bot)
                              = dom (active_positions_details botB))
                   then botB else save_positions botB)
                = trade_history botB)
    by (destruct (decide _); reflexivity).
  rewrite Hst, Hhi, H3. split; [exact Hh |]. split.
  - intros v Hv. apply H4. rewrite Hs. exact Hv.
  - intros Hn Hno. rewrite <- Hs in Hn.
    destruct (active_positions_details botB !! k) eqn:E; [| reflexivity].
    destruct (H5 ltac:(eauto)) as [[v Hv] | [r [Hr Hp]]]; [congruence |].
    exfalso. exact (Hno r Hr Hp).
Qed.

End Tracked.

Lemma opt_dec_eqb_refl (o : option Decimal) : opt_dec_eqb o o = true.
Proof. destruct o as [d|]; [apply dec_eqb_refl | reflexivity]. Qed.

Lemma sync_from_exchange_fields (env : Env) (d : Position)
    (a : option Decimal) (sd : string) (z : Decimal) (s t : option Decimal) :
  let q := sync_from_exchange env d a sd z s t d in
  main_order_status q = Some "Filled"%string
  /\ opt_dec_eqb (last_known_size q) (Some z) = true
  /\ last_update_time q = utcnow env
  /\ breakeven_applied q = breakeven_applied d
  /\ (intended_sl d <> None -> breakeven_applied d = false ->
      intended_sl q = intended_sl d)
  /\ (intended_sl d = None \/ breakeven_applied d = true ->
      opt_dec_eqb (intended_sl q) s = true)
  /\ (opt_truthy a = true -> opt_dec_eqb (entry_price q) a = true).
Proof.
  intros q. subst q. unfold sync_from_exchange.
  destruct (negb (opt_dec_eqb (entry_price d) a) && opt_truthy a) eqn:E1;
  destruct (negb (String.eqb (side d) sd) && negb (String.eqb sd "")) eqn:E2;
  destruct (negb (opt_dec_eqb (last_known_size d) (Some z))) eqn:E3;
  destruct ((is_none (intended_sl d) || breakeven_applied d)
            && negb (opt_dec_eqb (intended_sl d) s)) eqn:E4;
  destruct (is_none (intended_tp1 d) && negb (opt_dec_eqb (intended_tp1 d) t)) eqn:E5;
  destruct (negb (opt_str_eqb (main_order_status d) (Some "Filled"%string))) eqn:E6;
  cbn;
  (split; [first [reflexivity
                 | apply negb_false_iff in E6;
                   destruct (main_order_status d) as [st|]; [| discriminate E6];
                   cbn in E6; apply String.eqb_eq in E6; congruence] |]);
  (split; [first [apply dec_eqb_refl | apply negb_false_iff in E3; exact E3] |]);
  (split; [reflexivity |]); (split; [reflexivity |]);
  (split; [intros Hn Hb; first [reflexivity
                               | exfalso; rewrite Hb in E4;
                                 destruct (intended_sl d); [discriminate E4 | congruence]] |]);
  (split; [intros Hc; first [apply opt_dec_eqb_refl
                            | apply andb_false_iff in E4; destruct E4 as [E4 | E4];
                              [exfalso; destruct Hc as [Hc | Hc]; rewrite Hc in E4;
                               [discriminate E4
                               | rewrite orb_true_r in E4; discriminate E4]
                              | apply negb_false_iff in E4; exact E4]] |]);
  intros Ha; first [apply opt_dec_eqb_refl
                   | rewrite Ha, andb_true_r in E1; apply negb_false_iff in E1; exact E1].
Qed.

(** A tracked position that the exchange reports as open is synced by a
    reconciliation pass: its status becomes Filled, its size and entry
    price are those of the exchange, and its intended stop is kept as
    the engine set it until break-even has been applied; a position
    without a stop, or past break-even, takes the stop of the exchange. *)
Theorem reconcile_syncs_active (env : Env) (positions : list ApiPosition)
    (orders : list ApiOrder) (bot : Bot) (sym : string) (idx : Z)
    (d : Position) (p : ApiPosition) :
  Forall (fun q => api_well_formed q = true) positions ->
  active_positions_details bot !! (sym, idx) = Some d ->
  find_active sym idx positions = Some (Some p) ->
  exists q size stop avg,
    active_positions_details
      (snd (reconcile_positions env positions orders bot)) !! (sym, idx) = Some q
    /\ live_size_of p = Some size
    /\ live_price (api_stopLoss p) = Some stop
    /\ live_price (api_avgPrice p) = Some avg
    /\ main_order_status q = Some "Filled"%string
    /\ opt_dec_eqb (last_known_size q) (Some size) = true
    /\ last_update_time q = utcnow env
    /\ breakeven_applied q = breakeven_applied d
    /\ (intended_sl d <> None -> breakeven_applied d = false ->
        intended_sl q = intended_sl d)
    /\ (intended_sl d = None \/ breakeven_applied d = true ->
        opt_dec_eqb (intended_sl q) stop = true)
    /\ (opt_truthy avg = true -> opt_dec_eqb (entry_price q) avg = true).
Proof.
  intros Hwf Hk Hfind.
  destruct (find_active_reads sym idx positions Hwf) as [r [Hr Hp]].
  rewrite Hfind in Hr. injection Hr as <-.
  destruct (api_well_formed_reads p (Hp p eq_refl))
    as [_ [[a Ea] [[z Ez] [[s Es] [t Et]]]]].
  destruct (reconcile_at env positions orders bot (sym, idx) d Hwf Hk)
    as [bot0 [bot1 [H0 [H1 [_ [Hkeep _]]]]]].
  assert (E1 : active_positions_details bot1 !! (sym, idx)
               = Some (sync_from_exchange env d a
                         (upper (default ""%string (api_side p))) z s t d)).
  { subst bot1. unfold sync_tracked. rewrite Hfind, Ea, Ez, Es, Et.
    cbn [snd]. unfold update_position. cbn [active_positions_details set_store].
    rewrite lookup_alter_eq, H0. reflexivity. }
  exists (sync_from_exchange env d a (upper (default ""%string (api_side p))) z s t d),
    z, s, a.
  split; [exact (Hkeep _ E1) |].
  split; [exact Ez |]. split; [exact Es |]. split; [exact Ea |].
  apply sync_from_exchange_fields.
Qed.

Lemma reconcile_syncs_active_witness :
  exists q,
    active_positions_details
      (snd (reconcile_positions sample_env [sample_api_position] [] sample_bot))
      !! sample_key = Some q
    /\ main_order_status q = Some "Filled"%string
    /\ intended_sl q = intended_sl sample_position.
Proof.
  destruct (reconcile_syncs_active sample_env [sample_api_position] [] sample_bot
              "BTCUSDT" 0 sample_position sample_api_position)
    as [q [size [stop [avg [H1 [_ [_ [_ [H2 [_ [_ [_ [H3 _]]]]]]]]]]]]].
  - repeat constructor.
  - reflexivity.
  - vm_compute. reflexivity.
  - exists q. split; [exact H1 |]. split; [exact H2 |].
    apply H3; [discriminate | reflexivity].
Defined.

(** A tracked position whose main order is Filled and that the exchange
    does not report as open is closed by a reconciliation pass: its key
    leaves the store and the history tells it was closed on the
    exchange. *)
Theorem reconcile_closes_absent (env : Env) (positions : list ApiPosition)
    (orders : list ApiOrder) (bot : Bot) (sym : string) (idx : Z) (d : Position) :
  Forall (fun q => api_well_formed q = true) positions ->
  active_positions_details bot !! (sym, idx) = Some d ->
  main_order_status d = Some "Filled"%string ->
  find_active sym idx positions = Some None ->
  (forall p, In p positions -> ~ reported_open p (sym, idx)) ->
  let bot' := snd (reconcile_positions env positions orders bot) in
  active_positions_details bot' !! (sym, idx) = None
  /\ In (trade_event (now_thailand env) sym "System Close" (side d)
           (str_of_opt_Decimal (last_known_size d)) (Some "N/A"%string) None
           "Position Closed (Closed on Exchange (was Filled))"
           (Some "N/A"%string) (Some ("PosIdx " ++ str_of_Z idx)%string))
        (trade_history bot').
Proof.
  intros Hwf Hk Hst Hfind Hno bot'. subst bot'.
  destruct (reconcile_at env positions orders bot (sym, idx) d Hwf Hk)
    as [bot0 [bot1 [H0 [H1 [Hh [_ Hgone]]]]]].
  assert (E1 : bot1 = _handle_closed_position env (sym, idx) None
                        (Some "Closed on Exchange (was Filled)"%string) bot0).
  { subst bot1. unfold sync_tracked. rewrite Hfind, Hst.
    cbn [default]. 
    change (str_mem "Filled" ["Filled"; "Cancelled"; "Rejected"; "Deactivated"]%string)
      with true.
    rewrite andb_false_r. reflexivity. }
  rewrite (handle_closed_tracked env (sym, idx) None _ bot0 d H0) in E1.
  cbn [fst snd] in E1.
  split.
  - apply Hgone; [| exact Hno]. rewrite E1. cbn [active_positions_details].
    apply lookup_delete_eq.
  - destruct Hh as [rest Hh]. rewrite Hh, E1. cbn [trade_history].
    apply in_or_app. left. apply in_or_app. right. left. reflexivity.
Qed.

Lemma reconcile_closes_absent_witness :
  active_positions_details
    (snd (reconcile_positions sample_env [] [] sample_bot)) !! sample_key = None
  /\ In (trade_event (now_thailand sample_env) "BTCUSDT" "System Close"
           (side sample_position)
           (str_of_opt_Decimal (last_known_size sample_position))
           (Some "N/A"%string) None
           "Position Closed (Closed on Exchange (was Filled))"
           (Some "N/A"%string) (Some ("PosIdx " ++ str_of_Z 0)%string))
        (trade_history (snd (reconcile_positions sample_env [] [] sample_bot))).
Proof.
  apply (reconcile_closes_absent sample_env [] [] sample_bot "BTCUSDT" 0
           sample_position).
  - constructor.
  - reflexivity.
  - reflexivity.
  - reflexivity.
  - intros p [].
Defined.

(** ** Adopted positions and the maintenance loop *)

Lemma adopt_untracked_new (env : Env) (k : pos_key) (l : list ApiPosition) :
  forall bot e,
    active_positions_details bot !! k = None ->
    active_positions_details (snd (adopt_untracked env l bot)) !! k = Some e ->
    main_order_status e = Some "Filled (External/Synced)"%string.
Proof.
  induction l as [|q l IH]; intros bot e Hk He; cbn [adopt_untracked] in He.
  - cbn [snd] in He. congruence.
  - destruct (nonempty (api_symbol q)) as [sym|]; [| eapply IH; eauto].
    destruct (float_of_str (default "0"%string (api_size q))) as [f|];
      [| cbn [snd] in He; congruence].
    destruct (Qle_bool f 0); [eapply IH; eauto |].
    destruct (active_positions_details bot !! (sym, default 0 (api_positionIdx q)))
      eqn:E; [eapply IH; eauto |].
    destruct (live_price (api_avgPrice q)); [| cbn [snd] in He; congruence].
    destruct (live_size_of q); [| cbn [snd] in He; congruence].
    destruct (live_price (api_stopLoss q)); [| cbn [snd] in He; congruence].
    destruct (live_price (api_takeProfit q)); [| cbn [snd] in He; congruence].
    destruct (decide ((sym, default 0 (api_positionIdx q)) = k)) as [Ek | Hne].
    + subst k.
      erewrite adopt_untracked_keeps in He;
        [| cbn [active_positions_details set_store]; apply lookup_insert_eq].
      injection He as <-. reflexivity.
    + eapply IH; [| exact He]. cbn. rewrite lookup_insert_ne by exact Hne. exact Hk.
Qed.

(** A position that a reconciliation pass has adopted carries the status
    "Filled (External/Synced)", which the maintenance loop does not
    accept: the loop skips the position, without a call to the exchange
    and without a change, however often it runs. *)
Theorem adopted_position_not_maintained {X : Type} (G : Gateway X) (env : Env)
    (positions : list ApiPosition) (orders : list ApiOrder) (bot : Bot)
    (k : pos_key) (e : Position) (x : X) (n : nat) :
  active_positions_details bot !! k = None ->
  active_positions_details (snd (reconcile_positions env positions orders bot)) !! k
  = Some e ->
  let bot' := snd (reconcile_positions env positions orders bot) in
  main_order_status e = Some "Filled (External/Synced)"%string
  /\ maintain_position G env k bot' x = (false, bot', x)
  /\ maintain_repeat G env n k bot' x = (bot', x).
Proof.
  intros Hk He bot'.
  assert (Hst : main_order_status e = Some "Filled (External/Synced)"%string).
  { revert He. unfold reconcile_positions.
    pose proof (sync_all_absent_store env positions orders k
                  (map_to_list (active_positions_details bot)) bot Hk) as H1.
    destruct (sync_all env positions orders
                (map_to_list (active_positions_details bot)) bot) as [[|] bot1];
      cbn [snd] in *; [congruence |].
    pose proof (adopt_untracked_new env k positions bot1 e H1) as H2.
    destruct (adopt_untracked env positions bot1) as [[|] bot2]; cbn [snd] in *;
      [exact H2 |].
    destruct (forallb size_reads positions); cbn [snd]; [| exact H2].
    destruct (decide _); [| cbn]; exact H2. }
  assert (Hm : maintain_position G env k bot' x = (false, bot', x)).
  { unfold maintain_position. destruct k as [sym idx]. fold bot' in He.
    rewrite He, Hst. reflexivity. }
  split; [exact Hst |]. split; [exact Hm |].
  induction n as [|n IH]; cbn [maintain_repeat]; [reflexivity |].
  rewrite Hm. exact IH.
Qed.

Lemma adopted_position_not_maintained_witness :
  maintain_position target_crossed_gateway sample_env ("ETHUSDT"%string, 0)
    (snd (reconcile_positions sample_env
            [sample_api_position; external_api_position] [] sample_bot)) tt
  = (false,
     snd (reconcile_positions sample_env
            [sample_api_position; external_api_position] [] sample_bot), tt).
Proof.
  refine (proj1 (proj2 (adopted_position_not_maintained target_crossed_gateway
                          sample_env [sample_api_position; external_api_position] []
                          sample_bot ("ETHUSDT"%string, 0) _ tt 0 _ _))).
  - reflexivity.
  - vm_compute. reflexivity.
Defined.

(** ** The calls of a verification *)

Lemma count_retry_delays_app (tr1 tr2 : list Event) :
  count_retry_delays (tr1 ++ tr2)
  = (count_retry_delays tr1 + count_retry_delays tr2)%nat.
Proof. unfold count_retry_delays. rewrite List.filter_app, List.length_app. reflexivity. Qed.

Lemma within_budget_refl (bot bot' : Bot) :
  trace bot' = trace bot -> within_budget 0 0 bot bot'.
Proof. intros H. exists []. rewrite app_nil_r. split; [exact H | split; constructor]. Qed.

Lemma within_budget_trans (c1 r1 c2 r2 : nat) (a b c : Bot) :
  within_budget c1 r1 a b -> within_budget c2 r2 b c ->
  within_budget (c1 + c2) (r1 + r2) a c.
Proof.
  intros [e1 [H1 [A1 B1]]] [e2 [H2 [A2 B2]]]. exists (e1 ++ e2).
  rewrite H2, H1, <- app_assoc, count_set_stops_app, count_retry_delays_app.
  split; [reflexivity | split; lia].
Qed.

Lemma within_budget_weaken (c r c' r' : nat) (a b : Bot) :
  (c <= c')%nat -> (r <= r')%nat -> within_budget c r a b -> within_budget c' r' a b.
Proof. intros Hc Hr [e [H [A B]]]. exists e. split; [exact H | split; lia]. Qed.

Lemma within_budget_event (ev : Event) (bot : Bot) :
  within_budget (if is_set_stop ev then 1 else 0) (if is_retry_delay ev then 1 else 0)
    bot (add_event ev bot).
Proof.
  exists [ev]. split; [reflexivity |].
  unfold count_set_stops, count_retry_delays. cbn [List.filter].
  destruct (is_set_stop ev), (is_retry_delay ev); cbn; split; lia.
Qed.

Lemma within_budget_quiet (evs : list Event) (bot bot' : Bot) :
  trace bot' = trace bot ++ evs ->
  forallb (fun ev => negb (is_set_stop ev) && negb (is_retry_delay ev)) evs = true ->
  within_budget 0 0 bot bot'.
Proof.
  intros H Hq. exists evs. split; [exact H |].
  unfold count_set_stops, count_retry_delays.
  induction evs as [|ev evs IH] in Hq |- *; cbn [List.filter forallb] in *;
    [split; constructor |].
  apply andb_prop in Hq. destruct Hq as [Hev Hq].
  apply andb_prop in Hev. destruct Hev as [H1 H2].
  apply negb_true_iff in H1. apply negb_true_iff in H2. rewrite H1, H2.
  apply IH. exact Hq.
Qed.

Section Budget.
Context {X : Type} (G : Gateway X) (env : Env).

Lemma handle_closed_budget k data reason bot :
  within_budget 0 0 bot (_handle_closed_position env k data reason bot).
Proof.
  destruct (active_positions_details bot !! k) as [t|] eqn:E.
  - rewrite (handle_closed_tracked env k data reason bot t E).
    eapply within_budget_quiet; [cbn [trace]; reflexivity |].
    destruct (telegram_bot env); reflexivity.
  - rewrite (handle_closed_untracked env k data reason bot E).
    eapply (within_budget_quiet [EvSavePositions]); reflexivity.
Qed.

Lemma set_trading_stop_budget sym tp sl idx mode bot x :
  within_budget 1 0 bot (snd (fst (set_trading_stop G sym tp sl idx mode bot x))).
Proof.
  unfold set_trading_stop. destruct (_ && _); cbn [fst snd].
  - apply (within_budget_weaken 0 0); [lia | lia |]. apply within_budget_refl. reflexivity.
  - destruct (session_set_trading_stop G x _) as [r x1]. cbn [fst snd].
    apply (within_budget_event (EvSetTradingStop _)).
Qed.

Lemma verify_try_budget sym idx q bot x :
  within_budget 1 0 bot (snd (fst (verify_try G env sym idx q bot x))).
Proof.
  unfold verify_try, poll_positions.
  destruct (get_open_positions G x sym) as [l x1].
  set (bot1 := add_event (EvGetPositions sym) bot).
  assert (H1 : within_budget 0 0 bot bot1) by apply (within_budget_event (EvGetPositions sym)).
  assert (Hdone : forall b, within_budget 1 0 bot1 b -> within_budget 1 0 bot b).
  { intros b Hb. exact (within_budget_trans 0 0 1 0 _ _ _ H1 Hb). }
  assert (Hsame : within_budget 1 0 bot bot1).
  { apply (within_budget_weaken 0 0); [lia | lia | exact H1]. }
  destruct (gone_or_flat (List.find (api_is sym idx) l)) as [[|]|]; cbn [fst snd].
  - destruct (_ && _); cbn [fst snd]; [exact Hsame |].
    destruct (active_positions_details bot1 !! (sym, idx)); cbn [fst snd];
      [| exact Hsame].
    apply Hdone. apply (within_budget_weaken 0 0); [lia | lia |].
    apply handle_closed_budget.
  - destruct (tpsl_matches _ _ _ _ _ _) as [[|]|]; cbn [fst snd]; try exact Hsame.
    pose proof (set_trading_stop_budget sym
                  (Some (price_to_set env sym (intended_tp1 q)))
                  (Some (price_to_set env sym (intended_sl q))) idx "Partial" bot1 x1)
      as Hs.
    destruct (set_trading_stop G sym _ _ idx "Partial" bot1 x1) as [[success b2] x2].
    cbn [fst snd] in Hs.
    destruct success; cbn [fst snd]; [| apply Hdone; exact Hs].
    apply Hdone.
    refine (within_budget_trans 1 0 0 0 _ _ _ Hs _).
    eapply within_budget_trans with (c1 := 0%nat) (r1 := 0%nat) (c2 := 0%nat) (r2 := 0%nat);
      [| apply (within_budget_event (EvSleep 1))].
    destruct (active_positions_details b2 !! (sym, idx)).
    + eapply (within_budget_quiet [EvSavePositions]); reflexivity.
    + apply within_budget_refl. reflexivity.
  - exact Hsame.
Qed.

Lemma verify_attempt_budget sym idx attempt bot x :
  let r := verify_attempt G env sym idx attempt bot x in
  match fst (fst r) with
  | Some _ => within_budget 1 0 bot (snd (fst r))
  | None => within_budget 1 1 bot (snd (fst r))
            /\ (attempt < TPSL_VERIFICATION_RETRIES)%nat
  end.
Proof.
  unfold verify_attempt.
  destruct (active_positions_details bot !! (sym, idx)) as [q|]; cbn [fst snd].
  2:{ apply (within_budget_weaken 0 0); [lia | lia |]. apply within_budget_refl. reflexivity. }
  pose proof (verify_try_budget sym idx q bot x) as Ht.
  destruct (verify_try G env sym idx q bot x) as [[res b1] x1]. cbn [fst snd] in Ht.
  destruct res as [b | |]; cbn [fst snd].
  - exact Ht.
  - destruct (Nat.ltb_spec attempt TPSL_VERIFICATION_RETRIES) as [Hlt | Hge];
      cbn [fst snd].
    + split; [| exact Hlt].
      exact (within_budget_trans 1 0 0 1 _ _ _ Ht
               (within_budget_event (EvSleep TPSL_RETRY_DELAY_SECONDS) b1)).
    + refine (within_budget_trans 1 0 0 0 _ _ _ Ht _).
      eapply (within_budget_quiet [EvSaveHistory]); reflexivity.
  - destruct (Nat.ltb_spec attempt TPSL_VERIFICATION_RETRIES) as [Hlt | Hge];
      cbn [fst snd].
    + split; [| exact Hlt].
      exact (within_budget_trans 1 0 0 1 _ _ _ Ht
               (within_budget_event (EvSleep TPSL_RETRY_DELAY_SECONDS) b1)).
    + exact Ht.
Qed.

Lemma verify_loop_budget turns sym idx :
  forall attempt bot x,
    within_budget turns (TPSL_VERIFICATION_RETRIES - attempt) bot
      (snd (fst (verify_loop G env turns sym idx attempt bot x))).
Proof.
  induction turns as [|turns IH]; intros attempt bot x; cbn [verify_loop].
  - cbn [fst snd]. apply (within_budget_weaken 0 0); [lia | lia |].
    apply within_budget_refl. reflexivity.
  - pose proof (verify_attempt_budget sym idx attempt bot x) as Ha. cbv zeta in Ha.
    destruct (verify_attempt G env sym idx attempt bot x) as [[[b|] b1] x1];
      cbn [fst snd] in Ha |- *.
    + apply (within_budget_weaken 1 0); [lia | lia | exact Ha].
    + destruct Ha as [Ha Hlt].
      apply (within_budget_weaken (1 + turns) (1 + (TPSL_VERIFICATION_RETRIES - S attempt)));
        [lia | lia |].
      exact (within_budget_trans _ _ _ _ _ _ _ Ha (IH (S attempt) b1 x1)).
Qed.

End Budget.

(** Whatever the exchange answers, one verification of a position calls
    [set_trading_stop] at most four times (once, and three retries) and
    waits the retry delay at most three times. *)
Theorem verify_call_budget {X : Type} (G : Gateway X) (env : Env) (sym : string)
    (intended_tp intended_sl : option Decimal) (position_idx : Z)
    (bot : Bot) (x : X) :
  exists evs,
    trace (snd (fst (_verify_and_set_tpsl_for_position G env sym intended_tp
                       intended_sl position_idx bot x)))
    = trace bot ++ evs
    /\ (count_set_stops evs <= 1 + TPSL_VERIFICATION_RETRIES)%nat
    /\ (count_retry_delays evs <= TPSL_VERIFICATION_RETRIES)%nat.
Proof.
  unfold _verify_and_set_tpsl_for_position.
  destruct (verify_loop_budget G env (TPSL_VERIFICATION_RETRIES + 1) sym position_idx
              0%nat bot x) as [evs [H [Hc Hr]]].
  exists evs. split; [exact H | split; lia].
Qed.

(** ** Entries *)

Section Orders.
Context {X : Type} (G : Gateway X) (B : Broker X) (env : Env) (setup : Setup).

Lemma close_open_positions_trace sym l :
  Forall (fun p => size_reads p = true) l ->
  forall bot x,
    exists x',
      close_open_positions B env sym l bot x
      = (false,
         mkBot (active_positions_details bot) (trade_history bot)
           (positions_disk bot) (history_disk bot)
           (trace bot ++ closing_trace env sym l), x').
Proof.
  induction 1 as [|p l Hp Hl IH]; intros bot x; cbn [close_open_positions closing_trace].
  - exists x. rewrite app_nil_r. destruct bot. reflexivity.
  - unfold size_reads in Hp.
    destruct (float_of_str (default "0"%string (api_size p))) as [size|];
      [| discriminate].
    destruct (Qle_bool size 0).
    + apply IH.
    + destruct (IH (add_event (EvSleep 1)
                      (if telegram_bot env
                       then add_event (EvNotifyClosed sym size (api_side p))
                              (add_event
                                 (EvClosePosition sym (api_side p) size
                                    (default 0 (api_positionIdx p))) bot)
                       else add_event
                              (EvClosePosition sym (api_side p) size
                                 (default 0 (api_positionIdx p))) bot))
                   (close_position B x sym (api_side p) size
                      (default 0 (api_positionIdx p)))) as [x' Hx].
      exists x'. rewrite Hx. f_equal. f_equal. unfold closing_events.
      destruct (telegram_bot env); cbn [add_event trace active_positions_details
        trade_history positions_disk history_disk];
        repeat (rewrite <- app_assoc; cbn [app]); reflexivity.
Qed.

End Orders.

(** Before an entry every position the exchange reports on the symbol
    with a positive size is asked to be closed, once and in the order of
    the report, whatever its side; the entry follows, with the store and
    the history as they were. *)
Theorem positions_closed_before_entry {X : Type} (G : Gateway X) (B : Broker X)
    (env : Env) (setup : Setup) (signal : TradingSignal.t) (bot : Bot) (x : X) :
  running setup = true -> bybit_connected setup = true ->
  upper (TradingSignal.symbol signal) = target_trading_symbol setup ->
  let sym := TradingSignal.symbol signal in
  let reported := fst (get_open_positions G x sym) in
  Forall (fun p => size_reads p = true) reported ->
  exists x',
    execute_trade_from_signal G B env setup signal bot x
    = enter_trade G B env setup signal
        (mkBot (active_positions_details bot) (trade_history bot)
           (positions_disk bot) (history_disk bot)
           (trace bot ++ EvGetPositions sym :: closing_trace env sym reported))
        x'.
Proof.
  intros Hrun Hcon Hsym sym reported Hreads.
  unfold execute_trade_from_signal. rewrite Hrun, Hcon, Hsym, String.eqb_refl.
  cbn [negb orb]. fold sym. subst reported.
  destruct (get_open_positions G x sym) as [l x1]. cbn [fst] in Hreads.
  destruct (close_open_positions_trace B env sym l Hreads
              (add_event (EvGetPositions sym) bot) x1) as [x' Hx].
  rewrite Hx. exists x'. cbn [add_event trace active_positions_details trade_history
    positions_disk history_disk].
  rewrite <- app_assoc. reflexivity.
Qed.

Lemma positions_closed_before_entry_witness :
  exists x',
    execute_trade_from_signal refusing_gateway willing_broker sample_env fixed_setup
      long_signal empty_bot tt
    = enter_trade refusing_gateway willing_broker sample_env fixed_setup long_signal
        (mkBot (active_positions_details empty_bot) (trade_history empty_bot)
           (positions_disk empty_bot) (history_disk empty_bot)
           (trace empty_bot
            ++ EvGetPositions "BTCUSDT"
               :: closing_trace sample_env "BTCUSDT" [sample_api_position]))
        x'.
Proof.
  apply (positions_closed_before_entry refusing_gateway willing_broker sample_env
           fixed_setup long_signal empty_bot tt); try reflexivity.
  repeat constructor.
Defined.

(** An order is placed only by a running, connected bot, for its target
    symbol, after the leverage was set; it buys for a LONG and sells
    otherwise, is a limit order at the formatted entry price when the
    signal has a positive one and a market order otherwise, and carries
    the computed quantity floored to the step, which is positive. *)
Theorem order_is_sound {X : Type} (G : Gateway X) (B : Broker X) (env : Env)
    (setup : Setup) (signal : TradingSignal.t) (bot : Bot) (x : X)
    (request : OrderRequest) :
  fst (fst (execute_trade_from_signal G B env setup signal bot x))
  = TradeOrdered request ->
  let sym := TradingSignal.symbol signal in
  let leverage :=
    str_of_Z (match TradingSignal.leverage signal with
              | Some l => if l =? 0 then default_leverage setup else l
              | None => default_leverage setup
              end) in
  running setup = true /\ bybit_connected setup = true
  /\ upper sym = target_trading_symbol setup
  /\ or_symbol request = sym
  /\ or_position_idx request = 0
  /\ or_side request
     = (if String.eqb (upper (TradingSignal.position signal)) "LONG"
        then "Buy" else "Sell")%string
  /\ (exists q,
        calculated_qty_asset setup signal = Returns q
        /\ dec_ltb q (min_order_qty env sym) = false
        /\ or_qty request = str_of_Decimal (format_quantity_decimal env q sym)
        /\ dec_leb (format_quantity_decimal env q sym) Decimal_0 = false)
  /\ match TradingSignal.entry_price signal with
     | Some e =>
         if missing_or_not_positive (Some e)
         then or_order_type request = "Market"%string /\ or_price request = None
         else or_order_type request = "Limit"%string
              /\ or_price request = Some (_format_price env e sym)
     | None => or_order_type request = "Market"%string /\ or_price request = None
     end
  /\ (exists tr,
        trace (snd (fst (execute_trade_from_signal G B env setup signal bot x)))
        = tr ++ [EvPlaceOrder request]
        /\ In (EvSetLeverage sym leverage) tr)
  /\ exists x', fst (set_leverage B x' sym leverage) = true.
Proof.
  intros H sym lev. revert H. unfold execute_trade_from_signal. fold sym.
  destruct (running setup); [| discriminate].
  destruct (bybit_connected setup); [| discriminate]. cbn [negb orb].
  destruct (String.eqb_spec (upper sym) (target_trading_symbol setup)) as [Et | Et];
    [| discriminate]. cbn [negb].
  destruct (get_open_positions G x sym) as [l x1]. cbn [fst snd].
  destruct (close_open_positions B env sym l (add_event (EvGetPositions sym) bot) x1)
    as [[raised bot1] x2].
  destruct raised; [discriminate |].
  unfold enter_trade, entry_try, _determine_total_entry_qty. fold sym.
  destruct (calculated_qty_asset setup signal) as [q | e]; [| discriminate].
  destruct (dec_leb q Decimal_0) eqn:Hq0.
  { change (dec_leb Decimal_0 Decimal_0) with true. discriminate. }
  destruct (dec_ltb q (min_order_qty env sym)) eqn:Hmin.
  { change (dec_leb Decimal_0 Decimal_0) with true. discriminate. }
  rewrite Hq0. rewrite format_quantity_reads.
  destruct (dec_leb (format_quantity_decimal env q sym) Decimal_0) eqn:Hfl;
    [discriminate |].
  fold lev.
  destruct (set_leverage B x2 sym lev) as [ok x3] eqn:Hlev.
  destruct ok; [| discriminate]. cbn [negb].
  assert (Hx : exists x', fst (set_leverage B x' sym lev) = true)
    by (exists x2; rewrite Hlev; reflexivity).
  destruct (TradingSignal.entry_price signal) as [entry|] eqn:He.
  - destruct (missing_or_not_positive (Some entry)) eqn:Hm; cbn [negb].
    + destruct (get_tickers_lastPrice G x3 sym) as [mp x4].
      destruct (nonempty mp) as [s|].
      * destruct (Decimal_of_str s) as [dm|]; [| discriminate].
        destruct (intended_or_percent _ _ _ _) as [sl | e1]; [| discriminate].
        destruct (intended_or_percent _ _ _ _) as [tp | e2]; [| discriminate].
        cbn [fst snd]. intros [= <-]. cbn [or_symbol or_position_idx or_side or_qty
          or_order_type or_price].
        do 6 (split; [first [reflexivity | exact Et] |]).
        split; [exists q; repeat split; assumption |].
        split; [split; reflexivity |]. split; [| exact Hx].
        eexists. cbn [add_event trace]. split; [reflexivity |].
        apply in_or_app. left. apply in_or_app. right. left. reflexivity.
      * destruct (intended_or_percent _ _ _ _) as [sl | e1]; [| discriminate].
        destruct (intended_or_percent _ _ _ _) as [tp | e2]; [| discriminate].
        cbn [fst snd]. intros [= <-]. cbn [or_symbol or_position_idx or_side or_qty
          or_order_type or_price].
        do 6 (split; [first [reflexivity | exact Et] |]).
        split; [exists q; repeat split; assumption |].
        split; [split; reflexivity |]. split; [| exact Hx].
        eexists. cbn [add_event trace]. split; [reflexivity |].
        apply in_or_app. left. apply in_or_app. right. left. reflexivity.
    + destruct (intended_or_percent _ _ _ _) as [sl | e1]; [| discriminate].
      destruct (intended_or_percent _ _ _ _) as [tp | e2]; [| discriminate].
      cbn [fst snd]. intros [= <-]. cbn [or_symbol or_position_idx or_side or_qty
        or_order_type or_price].
      do 6 (split; [first [reflexivity | exact Et] |]).
      split; [exists q; repeat split; assumption |].
      split; [split; reflexivity |]. split; [| exact Hx].
      eexists. cbn [add_event trace]. split; [reflexivity |].
      apply in_or_app. right. left. reflexivity.
  - cbn [missing_or_not_positive negb].
    destruct (get_tickers_lastPrice G x3 sym) as [mp x4].
    destruct (nonempty mp) as [s|].
    + destruct (Decimal_of_str s) as [dm|]; [| discriminate].
      destruct (intended_or_percent _ _ _ _) as [sl | e1]; [| discriminate].
      destruct (intended_or_percent _ _ _ _) as [tp | e2]; [| discriminate].
      cbn [fst snd]. intros [= <-]. cbn [or_symbol or_position_idx or_side or_qty
        or_order_type or_price].
      do 6 (split; [first [reflexivity | exact Et] |]).
      split; [exists q; repeat split; assumption |].
      split; [split; reflexivity |]. split; [| exact Hx].
      eexists. cbn [add_event trace]. split; [reflexivity |].
      apply in_or_app. left. apply in_or_app. right. left. reflexivity.
    + destruct (intended_or_percent _ _ _ _) as [sl | e1]; [| discriminate].
      destruct (intended_or_percent _ _ _ _) as [tp | e2]; [| discriminate].
      cbn [fst snd]. intros [= <-]. cbn [or_symbol or_position_idx or_side or_qty
        or_order_type or_price].
      do 6 (split; [first [reflexivity | exact Et] |]).
      split; [exists q; repeat split; assumption |].
      split; [split; reflexivity |]. split; [| exact Hx].
      eexists. cbn [add_event trace]. split; [reflexivity |].
      apply in_or_app. left. apply in_or_app. right. left. reflexivity.
Qed.

Lemma order_is_sound_witness :
  running fixed_setup = true /\ bybit_connected fixed_setup = true
  /\ upper "BTCUSDT" = target_trading_symbol fixed_setup
  /\ or_side (mkOrderRequest "BTCUSDT" "Buy" "0.004" "Limit" (Some "100.0"%string)
               (Some "110.0"%string) (Some "95.0"%string) 0) = "Buy"%string.
Proof.
  destruct (order_is_sound flat_gateway willing_broker coarse_env fixed_setup
              long_signal empty_bot tt
              (mkOrderRequest "BTCUSDT" "Buy" "0.004" "Limit" (Some "100.0"%string)
                 (Some "110.0"%string) (Some "95.0"%string) 0))
    as [H1 [H2 [H3 [_ [_ [H6 _]]]]]].
  - vm_compute. reflexivity.
  - split; [exact H1 |]. split; [exact H2 |]. split; [exact H3 | exact H6].
Defined.

Lemma reconcile_tracks_only_reported_witness :
  is_Some (active_positions_details
             (snd (reconcile_positions sample_env
                     [sample_api_position; external_api_position] [] sample_bot))
           !! ("ETHUSDT"%string, 0))
  /\ (is_Some (active_positions_details sample_bot !! ("ETHUSDT"%string, 0))
      \/ exists p, In p [sample_api_position; external_api_position]
                   /\ reported_open p ("ETHUSDT"%string, 0)).
Proof.
  assert (H : is_Some (active_positions_details
             (snd (reconcile_positions sample_env
                     [sample_api_position; external_api_position] [] sample_bot))
           !! ("ETHUSDT"%string, 0))).
  { vm_compute. eexists. reflexivity. }
  split; [exact H |].
  exact (reconcile_tracks_only_reported sample_env
           [sample_api_position; external_api_position] [] sample_bot
           ("ETHUSDT"%string, 0) H).
Defined.

Lemma existsb_false {A : Type} (f : A -> bool) (l : list A) :
  existsb f l = false <-> forall x, In x l -> f x = false.
Proof.
  induction l as [| a l IH]; cbn.
  - split; [intros _ x [] | reflexivity].
  - rewrite orb_false_iff, IH. split.
    + intros [Ha Hl] x [<- | Hx]; auto.
    + intros H. split; [apply H; left; reflexivity | intros x Hx; apply H; right; exact Hx].
Qed.

Lemma dec_positive_truthy (d : Decimal) : (0 < dec_val d)%Q -> dec_truthy d = true.
Proof.
  intros H. apply dec_val_sign in H. destruct H as [_ Hc].
  unfold dec_truthy. apply N.eqb_neq in Hc. rewrite Hc. reflexivity.
Qed.

(** [validate_signal] accepts exactly the signals that name a symbol and
    a position, whose prices are all positive and, when there is an
    entry price, whose stop and targets are on the right side of it for
    a position written LONG or SHORT. *)
Theorem validate_signal_sound (s : TradingSignal.t) :
  validate_signal (Some s) = true <->
  TradingSignal.symbol s <> ""%string
  /\ TradingSignal.position s <> ""%string
  /\ (forall e, TradingSignal.entry_price s = Some e -> (0 < dec_val e)%Q)
  /\ (forall sl, TradingSignal.stop_loss s = Some sl -> (0 < dec_val sl)%Q)
  /\ (forall tp, In tp (TradingSignal.take_profits s) -> (0 < dec_val tp)%Q)
  /\ (forall e, TradingSignal.entry_price s = Some e ->
        (TradingSignal.position s = "LONG"%string ->
           (forall sl, TradingSignal.stop_loss s = Some sl ->
                       (dec_val sl < dec_val e)%Q)
           /\ (forall tp, In tp (TradingSignal.take_profits s) ->
                          (dec_val e < dec_val tp)%Q))
        /\ (TradingSignal.position s = "SHORT"%string ->
              (forall sl, TradingSignal.stop_loss s = Some sl ->
                          (dec_val e < dec_val sl)%Q)
              /\ (forall tp, In tp (TradingSignal.take_profits s) ->
                             (dec_val tp < dec_val e)%Q))).
Proof.
  destruct s as [sym pos entry tps stop lev].
  cbn [validate_signal TradingSignal.symbol TradingSignal.position
       TradingSignal.entry_price TradingSignal.take_profits
       TradingSignal.stop_loss].
  split.
  - intros H.
    destruct (String.eqb sym "") eqn:Es; [discriminate |].
    destruct (String.eqb pos "") eqn:Ep; [discriminate |].
    cbn [orb] in H.
    apply String.eqb_neq in Es, Ep.
    split; [exact Es |]. split; [exact Ep |].
    assert (He : forall e, entry = Some e -> (0 < dec_val e)%Q).
    { intros e ->. destruct (dec_leb e Decimal_0) eqn:E; [discriminate |].
      apply dec_leb_gt in E. rewrite dec_val_0 in E. exact E. }
    assert (Hs : forall sl, stop = Some sl -> (0 < dec_val sl)%Q).
    { intros sl ->.
      destruct (match entry with Some e => dec_leb e Decimal_0 | None => false end);
        [discriminate |].
      destruct (dec_leb sl Decimal_0) eqn:E; [discriminate |].
      apply dec_leb_gt in E. rewrite dec_val_0 in E. exact E. }
    destruct (match entry with Some e => dec_leb e Decimal_0 | None => false end);
      [discriminate |].
    destruct (match stop with Some sl => dec_leb sl Decimal_0 | None => false end);
      [discriminate |].
    destruct (existsb (fun tp => dec_leb tp Decimal_0) tps) eqn:Et; [discriminate |].
    split; [exact He |]. split; [exact Hs |]. split.
    { intros tp Hin. pose proof (proj1 (existsb_false _ _) Et tp Hin) as E.
      cbn beta in E. apply dec_leb_gt in E. rewrite dec_val_0 in E. exact E. }
    intros e ->.
    pose proof (He e eq_refl) as Hpos.
    rewrite (dec_positive_truthy e Hpos) in H.
    assert (Hlt : dec_ltb Decimal_0 e = true)
      by (apply dec_ltb_lt; rewrite dec_val_0; exact Hpos).
    rewrite Hlt in H. cbn [andb] in H.
    destruct (match stop with
              | Some sl => dec_truthy sl && _
              | None => false
              end) eqn:Estop; [discriminate |].
    match type of H with
    | context [existsb ?f tps] => destruct (existsb f tps) eqn:Etp
    end; [discriminate |].
    pose proof (proj1 (existsb_false _ _) Etp) as Htp. cbn beta in Htp.
    split.
    + intros El.
      assert (E1 : String.eqb pos "LONG" = true) by (apply String.eqb_eq, El).
      assert (E2 : String.eqb pos "SHORT" = false)
        by (apply String.eqb_neq; rewrite El; discriminate).
      rewrite E1, E2 in Estop. split.
      * intros sl ->. rewrite (dec_positive_truthy sl (Hs sl eq_refl)) in Estop.
        cbn [andb] in Estop. rewrite orb_false_r in Estop.
        apply dec_leb_gt in Estop. exact Estop.
      * intros tp Hin. specialize (Htp tp Hin). cbn beta in Htp. rewrite E1, E2 in Htp.
        cbn [andb] in Htp. rewrite orb_false_r in Htp.
        apply dec_leb_gt in Htp. exact Htp.
    + intros El.
      assert (E1 : String.eqb pos "LONG" = false)
        by (apply String.eqb_neq; rewrite El; discriminate).
      assert (E2 : String.eqb pos "SHORT" = true) by (apply String.eqb_eq, El).
      rewrite E1, E2 in Estop. split.
      * intros sl ->. rewrite (dec_positive_truthy sl (Hs sl eq_refl)) in Estop.
        cbn [andb orb] in Estop.
        apply dec_leb_gt in Estop. exact Estop.
      * intros tp Hin. specialize (Htp tp Hin). cbn beta in Htp. rewrite E1, E2 in Htp.
        cbn [andb orb] in Htp.
        apply dec_leb_gt in Htp. exact Htp.
  - intros (Es & Ep & He & Hs & Ht & Hside).
    apply String.eqb_neq in Es, Ep. rewrite Es, Ep. cbn [orb].
    assert (E1 : match entry with Some e => dec_leb e Decimal_0 | None => false end
                 = false).
    { destruct entry as [e |]; [| reflexivity].
      apply dec_leb_gt. rewrite dec_val_0. apply He. reflexivity. }
    assert (E2 : match stop with Some sl => dec_leb sl Decimal_0 | None => false end
                 = false).
    { destruct stop as [sl |]; [| reflexivity].
      apply dec_leb_gt. rewrite dec_val_0. apply Hs. reflexivity. }
    rewrite E1, E2.
    assert (E3 : existsb (fun tp => dec_leb tp Decimal_0) tps = false).
    { apply existsb_false. intros tp Hin. apply dec_leb_gt. rewrite dec_val_0.
      apply Ht, Hin. }
    rewrite E3.
    destruct entry as [e |]; [| reflexivity].
    destruct (Hside e eq_refl) as [Hlong Hshort].
    destruct (dec_truthy e && dec_ltb Decimal_0 e); [| reflexivity].
    assert (E4 : match stop with
                 | Some sl =>
                     dec_truthy sl
                     && ((String.eqb pos "LONG" && dec_leb e sl)
                         || (String.eqb pos "SHORT" && dec_leb sl e))
                 | None => false
                 end = false).
    { destruct stop as [sl |]; [| reflexivity].
      apply andb_false_iff. right. apply orb_false_iff. split.
      - destruct (String.eqb pos "LONG") eqn:El; [| reflexivity].
        apply String.eqb_eq in El. cbn [andb].
        apply dec_leb_gt. apply (proj1 (Hlong El)). reflexivity.
      - destruct (String.eqb pos "SHORT") eqn:El; [| reflexivity].
        apply String.eqb_eq in El. cbn [andb].
        apply dec_leb_gt. apply (proj1 (Hshort El)). reflexivity. }
    rewrite E4.
    assert (E5 : existsb
                   (fun tp =>
                      (String.eqb pos "LONG" && dec_leb tp e)
                      || (String.eqb pos "SHORT" && dec_leb e tp)) tps = false).
    { apply existsb_false. intros tp Hin. apply orb_false_iff. split.
      - destruct (String.eqb pos "LONG") eqn:El; [| reflexivity].
        apply String.eqb_eq in El. cbn [andb].
        apply dec_leb_gt. apply (proj2 (Hlong El)), Hin.
      - destruct (String.eqb pos "SHORT") eqn:El; [| reflexivity].
        apply String.eqb_eq in El. cbn [andb].
        apply dec_leb_gt. apply (proj2 (Hshort El)), Hin. }
    rewrite E5. reflexivity.
Qed.

Lemma validate_signal_sound_witness :
  validate_signal (Some short_signal) = true
  /\ (forall sl, TradingSignal.stop_loss short_signal = Some sl ->
                 (dec_val (dec_of_Z 100) < dec_val sl)%Q).
Proof.
  split; [vm_compute; reflexivity |].
  refine (proj1 (proj2
            (proj2 (proj2 (proj2 (proj2 (proj2
               (proj1 (validate_signal_sound short_signal) _)))))
               (dec_of_Z 100) eq_refl)
            eq_refl)).
  vm_compute. reflexivity.
Defined.

(** A signal [validate_signal] accepts, with an entry price, a stop and a
    position written LONG or SHORT, is never sized to zero in
    risk-percentage mode: with a positive balance and a positive risk
    percentage the sizing returns a positive quantity, the one of the
    formula up to the rounding of the decimal context. *)
Theorem validated_signal_is_sized (setup : Setup) (s : TradingSignal.t)
    (entry stop : Decimal) :
  validate_signal (Some s) = true ->
  TradingSignal.position s = "LONG"%string
  \/ TradingSignal.position s = "SHORT"%string ->
  TradingSignal.entry_price s = Some entry ->
  TradingSignal.stop_loss s = Some stop ->
  (0 < dec_val (current_available_balance setup))%Q ->
  (0 < dec_val (risk_per_trade_percentage setup))%Q ->
  exists q,
    _calculate_position_size_risk_percentage setup s = Returns q
    /\ (0 < dec_val q)%Q
    /\ (Qabs (dec_val q
              - spec_risk_quantity (dec_val (current_available_balance setup))
                  (dec_val (risk_per_trade_percentage setup))
                  (dec_val entry) (dec_val stop))
        <= sizing_roundoff
           * spec_risk_quantity (dec_val (current_available_balance setup))
               (dec_val (risk_per_trade_percentage setup))
               (dec_val entry) (dec_val stop))%Q.
Proof.
  intros Hv Hpos He Hs Hb Hr.
  apply validate_signal_sound in Hv.
  destruct Hv as (_ & _ & Hep & Hsp & _ & Hside).
  pose proof (Hep entry He) as Hentry.
  pose proof (Hsp stop Hs) as Hstop.
  destruct (Hside entry He) as [Hlong Hshort].
  assert (Hne : ~ (dec_val entry == dec_val stop)%Q).
  { destruct Hpos as [Hp | Hp].
    - pose proof (proj1 (Hlong Hp) stop Hs). lra.
    - pose proof (proj1 (Hshort Hp) stop Hs). lra. }
  destruct (risk_quantity_approx (current_available_balance setup)
              (risk_per_trade_percentage setup) entry stop Hne)
    as [q [Hq [Hd Ha]]].
  assert (Hspec : (0 < spec_risk_quantity (dec_val (current_available_balance setup))
                         (dec_val (risk_per_trade_percentage setup))
                         (dec_val entry) (dec_val stop))%Q).
  { unfold spec_risk_quantity.
    assert (Hdist : (0 < Qabs (dec_val entry - dec_val stop))%Q).
    { destruct (Qlt_le_dec 0 (Qabs (dec_val entry - dec_val stop))) as [H | H];
        [exact H | exfalso].
      pose proof (Qabs_nonneg (dec_val entry - dec_val stop)) as H0.
      destruct (Qabs_Qle_condition (dec_val entry - dec_val stop) 0) as [Hc _].
      destruct (Hc ltac:(lra)). apply Hne. lra. }
    apply Qlt_shift_div_l; [exact Hdist |].
    rewrite Qmult_0_l. apply Qmult_lt_0_compat; [exact Hb |].
    apply Qlt_shift_div_l; [reflexivity | lra]. }
  exists q. split; [| split].
  - unfold _calculate_position_size_risk_percentage.
    assert (E0 : dec_leb (current_available_balance setup) Decimal_0 = false)
      by (apply dec_leb_gt; rewrite dec_val_0; exact Hb).
    rewrite E0, He, Hs.
    rewrite (positive_not_missing entry Hentry), (positive_not_missing stop Hstop).
    assert (E1 : String.eqb (upper (TradingSignal.position s)) "LONG"
                 && dec_leb entry stop = false).
    { destruct Hpos as [Hp | Hp]; rewrite Hp.
      - apply andb_false_iff. right. apply dec_leb_gt.
        exact (proj1 (Hlong Hp) stop Hs).
      - reflexivity. }
    assert (E2 : String.eqb (upper (TradingSignal.position s)) "SHORT"
                 && dec_leb stop entry = false).
    { destruct Hpos as [Hp | Hp]; rewrite Hp.
      - reflexivity.
      - apply andb_false_iff. right. apply dec_leb_gt.
        exact (proj1 (Hshort Hp) stop Hs). }
    rewrite E1, E2. cbv zeta. rewrite Hd. exact Hq.
  - apply (approx_positive sizing_roundoff _ _ ltac:(vm_compute; reflexivity)
             Hspec Ha).
  - pose proof (approx_error sizing_roundoff _ _ ltac:(vm_compute; discriminate) Ha)
      as Herr.
    rewrite (Qabs_pos (spec_risk_quantity _ _ _ _)) in Herr by lra.
    exact Herr.
Qed.

Lemma validated_signal_is_sized_witness :
  exists q,
    _calculate_position_size_risk_percentage risk_setup short_signal = Returns q
    /\ (0 < dec_val q)%Q
    /\ (Qabs (dec_val q
              - spec_risk_quantity (dec_val (current_available_balance risk_setup))
                  (dec_val (risk_per_trade_percentage risk_setup))
                  (dec_val (dec_of_Z 100)) (dec_val (dec_of_Z 105)))
        <= sizing_roundoff
           * spec_risk_quantity (dec_val (current_available_balance risk_setup))
               (dec_val (risk_per_trade_percentage risk_setup))
               (dec_val (dec_of_Z 100)) (dec_val (dec_of_Z 105)))%Q.
Proof.
  apply (validated_signal_is_sized risk_setup short_signal
           (dec_of_Z 100) (dec_of_Z 105)).
  - vm_compute. reflexivity.
  - right. reflexivity.
  - reflexivity.
  - reflexivity.
  - vm_compute. reflexivity.
  - vm_compute. reflexivity.
Defined.

Lemma count_place_orders_app (tr1 tr2 : list Event) :
  count_place_orders (tr1 ++ tr2)
  = (count_place_orders tr1 + count_place_orders tr2)%nat.
Proof. unfold count_place_orders. rewrite List.filter_app, List.length_app. reflexivity. Qed.

Lemma intended_or_percent_given (intended entry : option Decimal) (pct : Decimal)
    (above : bool) :
  opt_truthy intended = true ->
  intended_or_percent intended entry pct above = Returns intended.
Proof.
  intros H. unfold intended_or_percent. rewrite H. cbn [negb].
  rewrite andb_false_r. reflexivity.
Qed.

Lemma intended_or_percent_off (intended entry : option Decimal) (pct : Decimal)
    (above : bool) :
  dec_ltb Decimal_0 pct = false ->
  intended_or_percent intended entry pct above = Returns intended.
Proof.
  intros H. unfold intended_or_percent. rewrite H, andb_false_r. reflexivity.
Qed.

Section OrderFacts.
Context {X : Type} (G : Gateway X) (B : Broker X) (env : Env) (setup : Setup).

(** The trace of the closing loop has no entry order, and the loop leaves
    the store as it is. *)
Lemma close_open_positions_quiet (sym : string) (l : list ApiPosition) (bot : Bot)
    (x : X) :
  let bot' := snd (fst (close_open_positions B env sym l bot x)) in
  active_positions_details bot' = active_positions_details bot
  /\ count_place_orders (trace bot') = count_place_orders (trace bot).
Proof.
  revert bot x. induction l as [| p l IH]; intros bot x; cbn [close_open_positions].
  - split; reflexivity.
  - destruct (float_of_str (default "0"%string (api_size p))) as [size |];
      [| split; reflexivity].
    destruct (Qle_bool size 0); [apply IH |].
    cbv zeta.
    match goal with
    | |- context [close_open_positions B env sym l ?b ?y] =>
        destruct (IH b y) as [H1 H2]; rewrite H1, H2
    end.
    destruct (telegram_bot env); cbn [add_event trace active_positions_details];
      rewrite !count_place_orders_app; cbn; split; try reflexivity; lia.
Qed.

Lemma add_trade_quiet (sym order_type sd qty : string) (price order_id : option string)
    (status : string) (pnl notes : option string) (bot : Bot) :
  let bot' :=
    _add_trade_to_history env sym order_type sd qty price order_id status pnl
      notes bot in
  active_positions_details bot' = active_positions_details bot
  /\ count_place_orders (trace bot') = count_place_orders (trace bot).
Proof.
  cbv zeta. unfold _add_trade_to_history. cbn [trace active_positions_details].
  rewrite count_place_orders_app. split; [reflexivity | cbn; lia].
Qed.

Lemma determine_quiet (signal : TradingSignal.t) (bot : Bot) :
  let bot' := snd (_determine_total_entry_qty setup env signal bot) in
  active_positions_details bot' = active_positions_details bot
  /\ count_place_orders (trace bot') = count_place_orders (trace bot).
Proof.
  unfold _determine_total_entry_qty.
  destruct (calculated_qty_asset setup signal) as [q | e]; [| split; reflexivity].
  destruct (dec_leb q Decimal_0); [split; reflexivity |].
  destruct (dec_ltb q _); [apply add_trade_quiet | split; reflexivity].
Qed.

(** What [entry_try] adds to the trace: one entry order, last, when it
    comes to an order, and none otherwise. *)
Lemma entry_try_orders (signal : TradingSignal.t) (bot : Bot) (x : X) :
  let r := entry_try G B env setup signal bot x in
  let bot' := snd (fst r) in
  active_positions_details bot' = active_positions_details bot
  /\ count_place_orders (trace bot')
     = (count_place_orders (trace bot)
        + match fst (fst r) with
          | Returns (TradeOrdered _) => 1
          | _ => 0
          end)%nat.
Proof.
  unfold entry_try.
  pose proof (determine_quiet signal bot) as Hd. cbv zeta in Hd.
  destruct (_determine_total_entry_qty setup env signal bot) as [[q | e] bot1];
    cbn [fst snd] in Hd; destruct Hd as [Hs Hc];
    [| cbn [fst snd]; split; [exact Hs | lia]].
  destruct (dec_leb q Decimal_0); [cbn [fst snd]; split; [exact Hs | lia] |].
  destruct (Decimal_of_str _) as [formatted |];
    [| cbn [fst snd]; split; [exact Hs | lia]].
  destruct (dec_leb formatted Decimal_0).
  { cbn [fst snd].
    match goal with
    | |- context [_add_trade_to_history env ?a ?b ?c ?d ?e ?f ?g ?h ?i bot1] =>
        destruct (add_trade_quiet a b c d e f g h i bot1) as [H1 H2]
    end.
    rewrite H1, H2. split; [exact Hs | lia]. }
  cbv zeta.
  destruct (set_leverage B x _ _) as [ok x1].
  destruct ok; cbn [negb].
  2:{ cbn [fst snd].
      match goal with
      | |- context [_add_trade_to_history env ?a ?b ?c ?d ?e ?f ?g ?h ?i ?b0] =>
          destruct (add_trade_quiet a b c d e f g h i b0) as [H1 H2]
      end.
      rewrite H1, H2. cbn [add_event trace active_positions_details].
      rewrite count_place_orders_app. cbn. split; [exact Hs | lia]. }
  destruct (negb (missing_or_not_positive (TradingSignal.entry_price signal))).
  - destruct (intended_or_percent _ _ _ _) as [sl | e1];
      [| cbn [fst snd add_event trace active_positions_details];
         rewrite count_place_orders_app; cbn; split; [exact Hs | lia]].
    destruct (intended_or_percent _ _ _ _) as [tp | e2];
      cbn [fst snd add_event trace active_positions_details];
      rewrite !count_place_orders_app; cbn; split; try exact Hs; lia.
  - destruct (get_tickers_lastPrice G x1 _) as [mp x2].
    destruct (nonempty mp) as [s |].
    + destruct (Decimal_of_str s) as [dm |];
        [| cbn [fst snd add_event trace active_positions_details];
           rewrite !count_place_orders_app; cbn; split; [exact Hs | lia]].
      destruct (intended_or_percent _ _ _ _) as [sl | e1];
        [| cbn [fst snd add_event trace active_positions_details];
           rewrite !count_place_orders_app; cbn; split; [exact Hs | lia]].
      destruct (intended_or_percent _ _ _ _) as [tp | e2];
        cbn [fst snd add_event trace active_positions_details];
        rewrite !count_place_orders_app; cbn; split; try exact Hs; lia.
    + destruct (intended_or_percent _ _ _ _) as [sl | e1];
        [| cbn [fst snd add_event trace active_positions_details];
           rewrite !count_place_orders_app; cbn; split; [exact Hs | lia]].
      destruct (intended_or_percent _ _ _ _) as [tp | e2];
        cbn [fst snd add_event trace active_positions_details];
        rewrite !count_place_orders_app; cbn; split; try exact Hs; lia.
Qed.

End OrderFacts.

(** Whatever the exchange answers, handling a signal places at most one
    entry order, and none unless it comes to [place_order]; up to that
    call it leaves the tracked positions as they are. *)
Theorem single_entry_order {X : Type} (G : Gateway X) (B : Broker X) (env : Env)
    (setup : Setup) (signal : TradingSignal.t) (bot : Bot) (x : X) :
  let r := execute_trade_from_signal G B env setup signal bot x in
  let bot' := snd (fst r) in
  active_positions_details bot' = active_positions_details bot
  /\ count_place_orders (trace bot')
     = (count_place_orders (trace bot)
        + match fst (fst r) with
          | TradeOrdered _ => 1
          | _ => 0
          end)%nat.
Proof.
  unfold execute_trade_from_signal.
  destruct (negb (running setup) || negb (bybit_connected setup));
    [cbn [fst snd]; split; [reflexivity | lia] |].
  destruct (negb (String.eqb _ _)).
  { cbn [fst snd].
    match goal with
    | |- context [_add_trade_to_history env ?a ?b ?c ?d ?e ?f ?g ?h ?i bot] =>
        destruct (add_trade_quiet env a b c d e f g h i bot) as [H1 H2]
    end.
    rewrite H1, H2. split; [reflexivity | lia]. }
  destruct (get_open_positions G x _) as [l x1].
  pose proof (close_open_positions_quiet B env (TradingSignal.symbol signal) l
                (add_event (EvGetPositions (TradingSignal.symbol signal)) bot) x1)
    as Hq. cbv zeta in Hq.
  destruct (close_open_positions B env _ l _ x1) as [[raised bot1] x2].
  cbn [fst snd] in Hq. destruct Hq as [Hs Hc].
  cbn [add_event trace active_positions_details] in Hs, Hc.
  rewrite count_place_orders_app in Hc. cbn in Hc.
  destruct raised; [cbn [fst snd]; split; [exact Hs | lia] |].
  unfold enter_trade.
  pose proof (determine_quiet env setup signal bot1) as Hd. cbv zeta in Hd.
  destruct (_determine_total_entry_qty setup env signal bot1) as [[q | e] bot2];
    cbn [fst snd] in Hd; destruct Hd as [Hs2 Hc2];
    [| cbn [fst snd]; split; [congruence | lia]].
  pose proof (entry_try_orders G B env setup signal bot2 x2) as He. cbv zeta in He.
  destruct (entry_try G B env setup signal bot2 x2) as [[[outcome | e] bot3] x3];
    cbn [fst snd] in He |- *; destruct He as [Hs3 Hc3].
  - split; [congruence |]. destruct outcome; lia.
  - match goal with
    | |- context [_add_trade_to_history env ?a ?b ?c ?d ?e ?f ?g ?h ?i bot3] =>
        destruct (add_trade_quiet env a b c d e f g h i bot3) as [H1 H2]
    end.
    rewrite H1, H2. split; [congruence | lia].
Qed.

Section RequestFacts.
Context {X : Type} (G : Gateway X) (B : Broker X) (env : Env) (setup : Setup).

(** The order [execute_trade_from_signal] comes to: its side, its type
    and price, and the stop and the target it carries, which are the
    intended ones for some reference price. *)
Lemma ordered_request (signal : TradingSignal.t) (bot : Bot) (x : X)
    (request : OrderRequest) :
  fst (fst (execute_trade_from_signal G B env setup signal bot x))
  = TradeOrdered request ->
  let sym := TradingSignal.symbol signal in
  let long := String.eqb (upper (TradingSignal.position signal)) "LONG" in
  or_side request = (if long then "Buy" else "Sell")%string
  /\ ((or_order_type request = "Market"%string /\ or_price request = None)
      \/ (or_order_type request = "Limit"%string
          /\ exists e, or_price request = Some (_format_price env e sym)))
  /\ exists reference sl tp,
       intended_or_percent (TradingSignal.stop_loss signal) reference
         (stop_loss_percentage setup) (negb long) = Returns sl
       /\ intended_or_percent (first_take_profit signal) reference
            (take_profit_percentage setup) long = Returns tp
       /\ or_stop_loss request = price_for_main_order env sym sl
       /\ or_take_profit request = price_for_main_order env sym tp.
Proof.
  intros H sym long. revert H. unfold execute_trade_from_signal. fold sym.
  destruct (negb (running setup) || negb (bybit_connected setup)); [discriminate |].
  destruct (negb (String.eqb _ _)); [discriminate |].
  destruct (get_open_positions G x sym) as [l x1]. cbn [fst snd].
  destruct (close_open_positions B env sym l (add_event (EvGetPositions sym) bot) x1)
    as [[raised bot1] x2].
  destruct raised; [discriminate |].
  unfold enter_trade, entry_try, _determine_total_entry_qty. fold sym. fold long.
  fold (first_take_profit signal).
  destruct (calculated_qty_asset setup signal) as [q | e]; [| discriminate].
  destruct (dec_leb q Decimal_0) eqn:Hq0.
  { change (dec_leb Decimal_0 Decimal_0) with true. discriminate. }
  destruct (dec_ltb q (min_order_qty env sym)) eqn:Hmin.
  { change (dec_leb Decimal_0 Decimal_0) with true. discriminate. }
  rewrite Hq0. rewrite format_quantity_reads.
  destruct (dec_leb (format_quantity_decimal env q sym) Decimal_0) eqn:Hfl;
    [discriminate |].
  cbv zeta.
  destruct (set_leverage B x2 sym _) as [ok x3].
  destruct ok; [| discriminate]. cbn [negb].
  destruct (TradingSignal.entry_price signal) as [entry |] eqn:He.
  - destruct (missing_or_not_positive (Some entry)) eqn:Hm; cbn [negb].
    + destruct (get_tickers_lastPrice G x3 sym) as [mp x4].
      destruct (nonempty mp) as [s |].
      * destruct (Decimal_of_str s) as [dm |]; [| discriminate].
        destruct (intended_or_percent (TradingSignal.stop_loss signal) _ _ _)
          as [sl | e1] eqn:Esl;
          [| discriminate].
        destruct (intended_or_percent (first_take_profit signal) _ _ _)
          as [tp | e2] eqn:Etp;
          [| discriminate].
        cbn [fst snd]. intros [= <-].
        cbn [or_side or_order_type or_price or_stop_loss or_take_profit].
        split; [reflexivity |]. split; [left; split; reflexivity |].
        exists (Some dm), sl, tp. repeat split; assumption || reflexivity.
      * destruct (intended_or_percent (TradingSignal.stop_loss signal) _ _ _)
          as [sl | e1] eqn:Esl;
          [| discriminate].
        destruct (intended_or_percent (first_take_profit signal) _ _ _)
          as [tp | e2] eqn:Etp;
          [| discriminate].
        cbn [fst snd]. intros [= <-].
        cbn [or_side or_order_type or_price or_stop_loss or_take_profit].
        split; [reflexivity |]. split; [left; split; reflexivity |].
        exists (Some entry), sl, tp. repeat split; assumption || reflexivity.
    + destruct (intended_or_percent (TradingSignal.stop_loss signal) _ _ _)
          as [sl | e1] eqn:Esl;
        [| discriminate].
      destruct (intended_or_percent (first_take_profit signal) _ _ _)
          as [tp | e2] eqn:Etp;
        [| discriminate].
      cbn [fst snd]. intros [= <-].
      cbn [or_side or_order_type or_price or_stop_loss or_take_profit].
      split; [reflexivity |].
      split; [right; split; [reflexivity | exists entry; reflexivity] |].
      exists (Some entry), sl, tp. repeat split; assumption || reflexivity.
  - cbn [missing_or_not_positive negb].
    destruct (get_tickers_lastPrice G x3 sym) as [mp x4].
    destruct (nonempty mp) as [s |].
    + destruct (Decimal_of_str s) as [dm |]; [| discriminate].
      destruct (intended_or_percent (TradingSignal.stop_loss signal) _ _ _)
          as [sl | e1] eqn:Esl;
        [| discriminate].
      destruct (intended_or_percent (first_take_profit signal) _ _ _)
          as [tp | e2] eqn:Etp;
        [| discriminate].
      cbn [fst snd]. intros [= <-].
      cbn [or_side or_order_type or_price or_stop_loss or_take_profit].
      split; [reflexivity |]. split; [left; split; reflexivity |].
      exists (Some dm), sl, tp. repeat split; assumption || reflexivity.
    + destruct (intended_or_percent (TradingSignal.stop_loss signal) _ _ _)
          as [sl | e1] eqn:Esl;
        [| discriminate].
      destruct (intended_or_percent (first_take_profit signal) _ _ _)
          as [tp | e2] eqn:Etp;
        [| discriminate].
      cbn [fst snd]. intros [= <-].
      cbn [or_side or_order_type or_price or_stop_loss or_take_profit].
      split; [reflexivity |]. split; [left; split; reflexivity |].
      exists None, sl, tp. repeat split; assumption || reflexivity.
Qed.

End RequestFacts.

Lemma positive_truthy (d : Decimal) :
  (0 < dec_val d)%Q -> opt_truthy (Some d) = true.
Proof. intros H. cbn. apply dec_positive_truthy, H. Qed.

(** The stop and the first positive target of the signal go into the
    entry order as they are, rounded down to the tick: the configured
    percentages stand in only for a stop or a target the signal does not
    give, and an order whose signal gives no positive stop carries no
    stop when the stop-loss percentage is not positive. *)
Theorem signal_stop_takes_precedence {X : Type} (G : Gateway X) (B : Broker X)
    (env : Env) (setup : Setup) (signal : TradingSignal.t) (bot : Bot) (x : X)
    (request : OrderRequest) :
  fst (fst (execute_trade_from_signal G B env setup signal bot x))
  = TradeOrdered request ->
  let sym := TradingSignal.symbol signal in
  (forall sl, TradingSignal.stop_loss signal = Some sl -> (0 < dec_val sl)%Q ->
              or_stop_loss request = Some (_format_price env sl sym))
  /\ (forall tp, first_take_profit signal = Some tp ->
                 or_take_profit request = Some (_format_price env tp sym))
  /\ (missing_or_not_positive (TradingSignal.stop_loss signal) = true ->
      (dec_val (stop_loss_percentage setup) <= 0)%Q ->
      or_stop_loss request = None).
Proof.
  intros H sym.
  destruct (ordered_request G B env setup signal bot x request H)
    as (_ & _ & reference & sl' & tp' & Hsl & Htp & Esl & Etp).
  fold sym in Esl, Etp. split; [| split].
  - intros sl Hs Hpos. rewrite Hs in Hsl.
    rewrite (intended_or_percent_given _ _ _ _ (positive_truthy sl Hpos)) in Hsl.
    injection Hsl as <-. rewrite Esl. unfold price_for_main_order.
    rewrite (positive_not_missing sl Hpos). reflexivity.
  - intros tp Hf. rewrite Hf in Htp.
    unfold first_take_profit in Hf. apply List.find_some in Hf.
    destruct Hf as [_ Hf]. apply andb_true_iff in Hf. destruct Hf as [Ht Hp].
    rewrite (intended_or_percent_given (Some tp) _ _ _ Ht) in Htp.
    injection Htp as <-. rewrite Etp. unfold price_for_main_order.
    apply dec_ltb_lt in Hp. rewrite dec_val_0 in Hp.
    rewrite (positive_not_missing tp Hp). reflexivity.
  - intros Hm Hpct.
    assert (Hoff : dec_ltb Decimal_0 (stop_loss_percentage setup) = false)
      by (apply dec_ltb_ge; rewrite dec_val_0; exact Hpct).
    rewrite (intended_or_percent_off _ _ _ _ Hoff) in Hsl.
    injection Hsl as <-. rewrite Esl. unfold price_for_main_order.
    rewrite Hm. destruct (TradingSignal.stop_loss signal); reflexivity.
Qed.

Lemma signal_stop_takes_precedence_witness :
  or_stop_loss
    (mkOrderRequest "BTCUSDT" "Buy" "0.004" "Limit" (Some "100.0"%string)
       (Some "110.0"%string) (Some "95.0"%string) 0)
  = Some (_format_price coarse_env (dec_of_Z 95) "BTCUSDT").
Proof.
  refine (proj1 (signal_stop_takes_precedence flat_gateway willing_broker coarse_env
                   fixed_setup long_signal empty_bot tt
                   (mkOrderRequest "BTCUSDT" "Buy" "0.004" "Limit" (Some "100.0"%string)
       (Some "110.0"%string) (Some "95.0"%string) 0) _)
            (dec_of_Z 95) eq_refl _).
  - vm_compute. reflexivity.
  - vm_compute. reflexivity.
Defined.

(** The entry order passes the argument checks of [place_order], so that
    it is sent to the exchange: its side is Buy or Sell, and a limit
    order has its price. *)
Theorem entry_order_is_accepted {X : Type} (G : Gateway X) (B : Broker X)
    (env : Env) (setup : Setup) (signal : TradingSignal.t) (bot : Bot) (x : X)
    (request : OrderRequest) :
  fst (fst (execute_trade_from_signal G B env setup signal bot x))
  = TradeOrdered request ->
  place_order_refusal (or_side request) (or_order_type request)
    (float_if_text (or_price request)) = None.
Proof.
  intros H.
  destruct (ordered_request G B env setup signal bot x request H)
    as (Hside & Htype & _).
  cbv zeta in Hside. unfold place_order_refusal. rewrite Hside.
  assert (Hs : str_mem (if String.eqb (upper (TradingSignal.position signal)) "LONG"
                        then "Buy" else "Sell")%string ["Buy"; "Sell"]%string = true)
    by (destruct (String.eqb _ _); reflexivity).
  rewrite Hs. cbn [negb].
  destruct Htype as [[-> ->] | [-> [e ->]]].
  - reflexivity.
  - cbn [float_if_text]. unfold _format_price.
    rewrite str_of_Decimal_nonempty. cbn [is_none]. rewrite andb_false_r.
    reflexivity.
Qed.

Lemma entry_order_is_accepted_witness :
  place_order_refusal "Buy" "Limit" (float_if_text (Some "100.0"%string)) = None.
Proof.
  refine (entry_order_is_accepted flat_gateway willing_broker coarse_env fixed_setup
            long_signal empty_bot tt
            (mkOrderRequest "BTCUSDT" "Buy" "0.004" "Limit" (Some "100.0"%string)
       (Some "110.0"%string) (Some "95.0"%string) 0) _).
  vm_compute. reflexivity.
Defined.

(** ** The maintenance of one position leaves the others alone *)

Section Isolation.
Context {X : Type} (G : Gateway X) (env : Env).

Ltac store_other :=
  repeat first
    [ progress cbn [active_positions_details _add_trade_to_history save_positions
                    add_event set_store fst snd mutate]
    | rewrite update_position_other by assumption ].

Lemma verify_attempt_other (sym : string) (idx : Z) (attempt : nat) (bot : Bot)
    (x : X) (k' : pos_key) :
  (sym, idx) <> k' ->
  active_positions_details (snd (fst (verify_attempt G env sym idx attempt bot x)))
  !! k'
  = active_positions_details bot !! k'.
Proof.
  intros Hne. unfold verify_attempt.
  destruct (active_positions_details bot !! (sym, idx)) as [q |] eqn:Hq;
    [| reflexivity].
  pose proof (verify_try_store G env sym idx q bot x Hq) as Hst. cbv zeta in Hst.
  destruct (verify_try G env sym idx q bot x) as [[res b1] x1]. cbn [fst snd] in Hst.
  assert (H1 : active_positions_details b1 !! k' = active_positions_details bot !! k').
  { destruct Hst as [ -> | [ -> | -> ] ].
    - reflexivity.
    - apply lookup_delete_ne, Hne.
    - apply lookup_insert_ne, Hne. }
  destruct res as [b | |]; cbn [fst snd]; try exact H1;
    destruct (attempt <? TPSL_VERIFICATION_RETRIES)%nat; exact H1.
Qed.

Lemma verify_loop_other (turns : nat) (sym : string) (idx : Z) (attempt : nat)
    (bot : Bot) (x : X) (k' : pos_key) :
  (sym, idx) <> k' ->
  active_positions_details (snd (fst (verify_loop G env turns sym idx attempt bot x)))
  !! k'
  = active_positions_details bot !! k'.
Proof.
  intros Hne. revert attempt bot x.
  induction turns as [| turns IH]; intros attempt bot x; [reflexivity |].
  cbn [verify_loop].
  pose proof (verify_attempt_other sym idx attempt bot x k' Hne) as Ha.
  destruct (verify_attempt G env sym idx attempt bot x) as [[[b |] b1] x1];
    cbn [fst snd] in *; [exact Ha |].
  rewrite IH. exact Ha.
Qed.

Lemma breakeven_on_partial_other (k : pos_key) (api : ApiPosition)
    (entry : option Decimal) (applied : bool) (pos_side : string)
    (st st' : Position * Bot) (k' : pos_key) :
  k <> k' ->
  breakeven_on_partial env k api entry applied pos_side st = Some st' ->
  active_positions_details (snd st') !! k' = active_positions_details (snd st) !! k'.
Proof.
  intros Hne. unfold breakeven_on_partial. destruct k as [sym idx].
  destruct (_ && _ && _); [| intros [= <-]; reflexivity].
  destruct (Decimal_of_str _) as [live |]; [| discriminate].
  destruct (last_known_size (fst st)) as [known |]; [| discriminate].
  intros [= <-].
  destruct (dec_ltb live known); [| store_other; reflexivity].
  destruct (telegram_bot env); store_other; reflexivity.
Qed.

Lemma breakeven_on_tp1_other (k : pos_key) (api : ApiPosition)
    (entry tp1 : option Decimal) (applied : bool) (pos_side : string)
    (st : Position * Bot) (x : X) (k' : pos_key) :
  k <> k' ->
  active_positions_details
    (snd (fst (breakeven_on_tp1 G env k api entry tp1 applied pos_side st x))) !! k'
  = active_positions_details (snd st) !! k'.
Proof.
  intros Hne. unfold breakeven_on_tp1. destruct k as [sym idx].
  destruct entry as [e |]; [| reflexivity].
  destruct tp1 as [t |]; [| reflexivity].
  destruct (_ && _ && _ && _ && _); [| reflexivity].
  destruct (get_tickers_lastPrice G x sym) as [mp x1].
  destruct (tp1_hit pos_side mp t) as [[|] |]; try reflexivity.
  destruct (Decimal_of_str _) as [new_sl |]; [| reflexivity].
  cbn [fst snd].
  destruct (formatted_intended env sym (intended_sl (fst st))) as [cur |];
    [| reflexivity].
  destruct (negb _); store_other; reflexivity.
Qed.

Lemma maintain_position_other (k k' : pos_key) (bot : Bot) (x : X) :
  k <> k' ->
  active_positions_details (snd (fst (maintain_position G env k bot x))) !! k'
  = active_positions_details bot !! k'.
Proof.
  intros Hne. unfold maintain_position. destruct k as [sym idx].
  destruct (active_positions_details bot !! (sym, idx)) as [pd |]; [| reflexivity].
  destruct (negb _); [reflexivity |].
  unfold poll_positions.
  destruct (get_open_positions G x sym) as [l x1].
  set (bot1 := add_event (EvGetPositions sym) bot).
  destruct (gone_or_flat (List.find (api_is sym idx) l)) as [[|] |];
    [| | reflexivity].
  { cbn [fst snd]. rewrite (handle_closed_other env k' (sym, idx) _ _ bot1 Hne).
    reflexivity. }
  destruct (List.find (api_is sym idx) l) as [api |]; [| reflexivity].
  destruct (live_price (api_avgPrice api)) as [lap |]; [| reflexivity].
  set (st := match lap with
             | Some _ => _
             | None => _
             end).
  assert (Hst : active_positions_details (snd st) !! k'
                = active_positions_details bot !! k').
  { subst st. destruct lap as [v |]; [| reflexivity].
    destruct (negb _); [| reflexivity].
    store_other. reflexivity. }
  clearbody st.
  destruct (breakeven_on_partial env (sym, idx) api _ _ _ st) as [st1 |] eqn:Ep;
    [| cbn [fst snd]; exact Hst].
  pose proof (breakeven_on_partial_other _ _ _ _ _ _ _ k' Hne Ep) as H1.
  match goal with
  | |- context [breakeven_on_tp1 G env ?k ?a ?e ?t ?b ?s st1 x1] =>
      pose proof (breakeven_on_tp1_other k a e t b s st1 x1 k' Hne) as H2;
      destruct (breakeven_on_tp1 G env k a e t b s st1 x1) as [[pos b2] x2]
  end.
  cbn [fst snd] in H2.
  unfold _verify_and_set_tpsl_for_position.
  match goal with
  | |- context [verify_loop G env ?n sym idx ?a b2 x2] =>
      pose proof (verify_loop_other n sym idx a b2 x2 k' Hne) as H3;
      destruct (verify_loop G env n sym idx a b2 x2) as [[ok b3] x3]
  end.
  cbn [fst snd] in H3 |- *. cbn [add_event active_positions_details].
  congruence.
Qed.

Lemma maintain_position_adds_nothing (k k' : pos_key) (bot : Bot) (x : X) :
  is_Some (active_positions_details
             (snd (fst (maintain_position G env k bot x))) !! k') ->
  is_Some (active_positions_details bot !! k').
Proof.
  destruct (decide (k = k')) as [<- | Hne].
  - destruct (active_positions_details bot !! k) as [p |] eqn:Hp; [eauto |].
    rewrite (maintain_position_untracked G env k bot x Hp). cbn [fst snd].
    rewrite Hp. auto.
  - rewrite (maintain_position_other k k' bot x Hne). auto.
Qed.

Lemma maintain_keys_adds_nothing (keys : list pos_key) (k' : pos_key) (bot : Bot)
    (x : X) :
  is_Some (active_positions_details (fst (maintain_keys G env keys bot x)) !! k') ->
  is_Some (active_positions_details bot !! k').
Proof.
  revert bot x. induction keys as [| k keys IH]; intros bot x; cbn [maintain_keys].
  - auto.
  - pose proof (maintain_position_adds_nothing k k' bot x) as H1.
    destruct (maintain_position G env k bot x) as [[raised b1] x1].
    cbn [fst snd] in H1. destruct raised; cbn [fst]; [exact H1 |].
    intros H. apply H1, (IH b1 x1), H.
Qed.

End Isolation.

(** Handling one tracked position in the maintenance loop leaves the
    dict of every other key as it is, whatever the exchange answers. *)
Theorem maintenance_is_isolated {X : Type} (G : Gateway X) (env : Env)
    (k k' : pos_key) (bot : Bot) (x : X) :
  k' <> k ->
  active_positions_details (snd (fst (maintain_position G env k bot x))) !! k'
  = active_positions_details bot !! k'.
Proof. intros Hne. apply maintain_position_other. congruence. Qed.

Lemma maintenance_is_isolated_witness :
  active_positions_details
    (snd (fst (maintain_position flat_gateway sample_env sample_key sample_bot tt)))
  !! ("ETHUSDT"%string, 0)
  = active_positions_details sample_bot !! ("ETHUSDT"%string, 0).
Proof.
  apply (maintenance_is_isolated flat_gateway sample_env sample_key
           ("ETHUSDT"%string, 0) sample_bot tt).
  discriminate.
Defined.

(** A pass of the maintenance loop starts tracking nothing: a key in the
    store after the pass was in the store before it. *)
Theorem maintenance_tracks_nothing_new {X : Type} (G : Gateway X) (env : Env)
    (bot : Bot) (x : X) (k : pos_key) :
  is_Some (active_positions_details (fst (maintain_pass G env bot x)) !! k) ->
  is_Some (active_positions_details bot !! k).
Proof. unfold maintain_pass. apply maintain_keys_adds_nothing. Qed.

Lemma maintenance_tracks_nothing_new_witness :
  is_Some (active_positions_details off_grid_bot !! sample_key).
Proof.
  apply (maintenance_tracks_nothing_new target_crossed_gateway sample_env
           off_grid_bot tt sample_key).
  vm_compute. eexists. reflexivity.
Defined.

(** ** The trade history only grows *)

Section HistoryFacts.
Context {X : Type} (G : Gateway X) (B : Broker X) (env : Env) (setup : Setup).

Ltac history_leaf :=
  cbn [trade_history _add_trade_to_history save_positions add_event set_store
       update_position mutate fst snd];
  repeat apply prefix_app_r; reflexivity.

Lemma set_trading_stop_history (sym : string) (tp sl : option string) (idx : Z)
    (mode : string) (bot : Bot) (x : X) :
  trade_history (snd (fst (set_trading_stop G sym tp sl idx mode bot x)))
  = trade_history bot.
Proof.
  unfold set_trading_stop.
  destruct (_ && _); [reflexivity |].
  destruct (session_set_trading_stop G x _). reflexivity.
Qed.

Lemma verify_try_history (sym : string) (idx : Z) (q : Position) (bot : Bot) (x : X) :
  trade_history bot `prefix_of`
    trade_history (snd (fst (verify_try G env sym idx q bot x))).
Proof.
  unfold verify_try, poll_positions.
  destruct (get_open_positions G x sym) as [l x1].
  destruct (gone_or_flat _) as [[|] |]; [| | history_leaf].
  - destruct (_ && _); [history_leaf |].
    destruct (active_positions_details _ !! _); [| history_leaf].
    cbn [fst snd].
    etransitivity; [| apply (handle_closed_history env)]. history_leaf.
  - destruct (tpsl_matches _ _ _ _ _ _) as [[|] |]; try history_leaf.
    match goal with
    | |- context [set_trading_stop G sym ?a ?b idx ?m ?b0 x1] =>
        pose proof (set_trading_stop_history sym a b idx m b0 x1) as Hs;
        destruct (set_trading_stop G sym a b idx m b0 x1) as [[success b2] x2]
    end.
    cbn [fst snd] in Hs.
    destruct success; [| cbn [fst snd]; rewrite Hs; history_leaf].
    destruct (active_positions_details b2 !! _);
      cbn [trade_history save_positions add_event set_store update_position fst snd];
      rewrite Hs; history_leaf.
Qed.

Lemma verify_attempt_history (sym : string) (idx : Z) (attempt : nat) (bot : Bot)
    (x : X) :
  trade_history bot `prefix_of`
    trade_history (snd (fst (verify_attempt G env sym idx attempt bot x))).
Proof.
  unfold verify_attempt.
  destruct (active_positions_details bot !! (sym, idx)) as [q |]; [| reflexivity].
  pose proof (verify_try_history sym idx q bot x) as Ht.
  destruct (verify_try G env sym idx q bot x) as [[res b1] x1]. cbn [fst snd] in Ht.
  destruct res as [b | |]; cbn [fst snd]; try exact Ht;
    destruct (attempt <? TPSL_VERIFICATION_RETRIES)%nat;
    (etransitivity; [exact Ht | history_leaf]).
Qed.

Lemma verify_loop_history (turns : nat) (sym : string) (idx : Z) (attempt : nat)
    (bot : Bot) (x : X) :
  trade_history bot `prefix_of`
    trade_history (snd (fst (verify_loop G env turns sym idx attempt bot x))).
Proof.
  revert attempt bot x.
  induction turns as [| turns IH]; intros attempt bot x; [reflexivity |].
  cbn [verify_loop].
  pose proof (verify_attempt_history sym idx attempt bot x) as Ha.
  destruct (verify_attempt G env sym idx attempt bot x) as [[[b |] b1] x1];
    cbn [fst snd] in *; [exact Ha |].
  etransitivity; [exact Ha | apply IH].
Qed.

Lemma breakeven_on_partial_history (k : pos_key) (api : ApiPosition)
    (entry : option Decimal) (applied : bool) (pos_side : string)
    (st st' : Position * Bot) :
  breakeven_on_partial env k api entry applied pos_side st = Some st' ->
  trade_history (snd st) `prefix_of` trade_history (snd st').
Proof.
  unfold breakeven_on_partial. destruct k as [sym idx].
  destruct (_ && _ && _); [| intros [= <-]; reflexivity].
  destruct (Decimal_of_str _) as [live |]; [| discriminate].
  destruct (last_known_size (fst st)) as [known |]; [| discriminate].
  intros [= <-].
  destruct (dec_ltb live known); [| history_leaf].
  destruct (telegram_bot env); history_leaf.
Qed.

Lemma breakeven_on_tp1_history (k : pos_key) (api : ApiPosition)
    (entry tp1 : option Decimal) (applied : bool) (pos_side : string)
    (st : Position * Bot) (x : X) :
  trade_history (snd st) `prefix_of`
    trade_history
      (snd (fst (breakeven_on_tp1 G env k api entry tp1 applied pos_side st x))).
Proof.
  unfold breakeven_on_tp1. destruct k as [sym idx].
  destruct entry as [e |]; [| reflexivity].
  destruct tp1 as [t |]; [| reflexivity].
  destruct (_ && _ && _ && _ && _); [| reflexivity].
  destruct (get_tickers_lastPrice G x sym) as [mp x1].
  destruct (tp1_hit pos_side mp t) as [[|] |]; try reflexivity.
  destruct (Decimal_of_str _) as [new_sl |]; [| reflexivity].
  cbn [fst snd].
  destruct (formatted_intended env sym (intended_sl (fst st))) as [cur |];
    [| reflexivity].
  destruct (negb _); history_leaf.
Qed.

Lemma maintain_position_history (k : pos_key) (bot : Bot) (x : X) :
  trade_history bot `prefix_of`
    trade_history (snd (fst (maintain_position G env k bot x))).
Proof.
  unfold maintain_position. destruct k as [sym idx].
  destruct (active_positions_details bot !! (sym, idx)) as [pd |]; [| reflexivity].
  destruct (negb _); [reflexivity |].
  unfold poll_positions.
  destruct (get_open_positions G x sym) as [l x1].
  set (bot1 := add_event (EvGetPositions sym) bot).
  destruct (gone_or_flat (List.find (api_is sym idx) l)) as [[|] |];
    [| | reflexivity].
  { cbn [fst snd]. apply (handle_closed_history env (sym, idx) _ _ bot1). }
  destruct (List.find (api_is sym idx) l) as [api |]; [| reflexivity].
  destruct (live_price (api_avgPrice api)) as [lap |]; [| reflexivity].
  set (st := match lap with
             | Some _ => _
             | None => _
             end).
  assert (Hst : trade_history bot `prefix_of` trade_history (snd st)).
  { subst st. destruct lap as [v |]; [| reflexivity].
    destruct (negb _); [| reflexivity]. history_leaf. }
  clearbody st.
  destruct (breakeven_on_partial env (sym, idx) api _ _ _ st) as [st1 |] eqn:Ep;
    [| cbn [fst snd]; exact Hst].
  pose proof (breakeven_on_partial_history _ _ _ _ _ _ _ Ep) as H1.
  match goal with
  | |- context [breakeven_on_tp1 G env ?k ?a ?e ?t ?b ?s st1 x1] =>
      pose proof (breakeven_on_tp1_history k a e t b s st1 x1) as H2;
      destruct (breakeven_on_tp1 G env k a e t b s st1 x1) as [[pos b2] x2]
  end.
  cbn [fst snd] in H2.
  unfold _verify_and_set_tpsl_for_position.
  match goal with
  | |- context [verify_loop G env ?n sym idx ?a b2 x2] =>
      pose proof (verify_loop_history n sym idx a b2 x2) as H3;
      destruct (verify_loop G env n sym idx a b2 x2) as [[ok b3] x3]
  end.
  cbn [fst snd] in H3 |- *. cbn [add_event trade_history].
  etransitivity; [exact Hst |]. etransitivity; [exact H1 |].
  etransitivity; [exact H2 | exact H3].
Qed.

Lemma close_open_positions_history (sym : string) (l : list ApiPosition) (bot : Bot)
    (x : X) :
  trade_history (snd (fst (close_open_positions B env sym l bot x)))
  = trade_history bot.
Proof.
  revert bot x. induction l as [| p l IH]; intros bot x; cbn [close_open_positions].
  - reflexivity.
  - destruct (float_of_str _) as [size |]; [| reflexivity].
    destruct (Qle_bool size 0); [apply IH |].
    cbv zeta. rewrite IH. destruct (telegram_bot env); reflexivity.
Qed.

Lemma determine_history (signal : TradingSignal.t) (bot : Bot) :
  trade_history bot `prefix_of`
    trade_history (snd (_determine_total_entry_qty setup env signal bot)).
Proof.
  unfold _determine_total_entry_qty.
  destruct (calculated_qty_asset setup signal) as [q | e]; [| reflexivity].
  destruct (dec_leb q Decimal_0); [reflexivity |].
  destruct (dec_ltb q _); history_leaf.
Qed.

Lemma entry_try_history (signal : TradingSignal.t) (bot : Bot) (x : X) :
  trade_history bot `prefix_of`
    trade_history (snd (fst (entry_try G B env setup signal bot x))).
Proof.
  unfold entry_try.
  pose proof (determine_history signal bot) as Hd.
  destruct (_determine_total_entry_qty setup env signal bot) as [[q | e] bot1];
    cbn [fst snd] in Hd; [| exact Hd].
  destruct (dec_leb q Decimal_0); [exact Hd |].
  destruct (Decimal_of_str _) as [formatted |]; [| exact Hd].
  destruct (dec_leb formatted Decimal_0);
    [etransitivity; [exact Hd | history_leaf] |].
  cbv zeta.
  destruct (set_leverage B x _ _) as [ok x1].
  destruct ok; cbn [negb]; [| etransitivity; [exact Hd | history_leaf]].
  destruct (negb (missing_or_not_positive (TradingSignal.entry_price signal))).
  - destruct (intended_or_percent _ _ _ _) as [sl | e1];
      [| etransitivity; [exact Hd | history_leaf]].
    destruct (intended_or_percent _ _ _ _) as [tp | e2];
      (etransitivity; [exact Hd | history_leaf]).
  - destruct (get_tickers_lastPrice G x1 _) as [mp x2].
    destruct (nonempty mp) as [s |].
    + destruct (Decimal_of_str s) as [dm |];
        [| etransitivity; [exact Hd | history_leaf]].
      destruct (intended_or_percent _ _ _ _) as [sl | e1];
        [| etransitivity; [exact Hd | history_leaf]].
      destruct (intended_or_percent _ _ _ _) as [tp | e2];
        (etransitivity; [exact Hd | history_leaf]).
    + destruct (intended_or_percent _ _ _ _) as [sl | e1];
        [| etransitivity; [exact Hd | history_leaf]].
      destruct (intended_or_percent _ _ _ _) as [tp | e2];
        (etransitivity; [exact Hd | history_leaf]).
Qed.

Lemma execute_history (signal : TradingSignal.t) (bot : Bot) (x : X) :
  trade_history bot `prefix_of`
    trade_history (snd (fst (execute_trade_from_signal G B env setup signal bot x))).
Proof.
  unfold execute_trade_from_signal.
  destruct (negb (running setup) || negb (bybit_connected setup)); [reflexivity |].
  destruct (negb (String.eqb _ _)); [history_leaf |].
  destruct (get_open_positions G x _) as [l x1].
  pose proof (close_open_positions_history (TradingSignal.symbol signal) l
                (add_event (EvGetPositions (TradingSignal.symbol signal)) bot) x1)
    as Hc.
  destruct (close_open_positions B env _ l _ x1) as [[raised bot1] x2].
  cbn [fst snd add_event trade_history] in Hc.
  destruct raised; [cbn [fst snd]; rewrite Hc; reflexivity |].
  unfold enter_trade.
  pose proof (determine_history signal bot1) as Hd.
  destruct (_determine_total_entry_qty setup env signal bot1) as [[q | e] bot2];
    cbn [fst snd] in Hd; rewrite Hc in Hd; [| exact Hd].
  pose proof (entry_try_history signal bot2 x2) as He.
  destruct (entry_try G B env setup signal bot2 x2) as [[[outcome | e] bot3] x3];
    cbn [fst snd] in He |- *.
  - etransitivity; [exact Hd | exact He].
  - etransitivity; [exact Hd |]. etransitivity; [exact He | history_leaf].
Qed.

Lemma reconcile_history (positions : list ApiPosition) (orders : list ApiOrder)
    (bot : Bot) :
  trade_history bot `prefix_of`
    trade_history (snd (reconcile_positions env positions orders bot)).
Proof.
  unfold reconcile_positions.
  pose proof (sync_all_history env positions orders
                (map_to_list (active_positions_details bot)) bot) as H1.
  destruct (sync_all env positions orders _ bot) as [r1 bot1]. cbn [snd] in H1.
  destruct r1; [exact H1 |].
  pose proof (adopt_untracked_history env positions bot1) as H2.
  destruct (adopt_untracked env positions bot1) as [r2 bot2]. cbn [snd] in H2.
  rewrite <- H2 in H1.
  destruct r2; [exact H1 |].
  destruct (forallb size_reads positions); cbn [snd]; [| exact H1].
  destruct (decide _); [exact H1 | exact H1].
Qed.

End HistoryFacts.

(** The trade history is append-only: a reconciliation, the maintenance
    of a position and the handling of a signal keep every entry recorded
    before them, in its place, whatever the exchange answers and whether
    or not they end with an exception. *)
Theorem history_is_append_only {X : Type} (G : Gateway X) (B : Broker X) (env : Env)
    (setup : Setup) (bot : Bot) (x : X) :
  (forall positions orders,
     trade_history bot `prefix_of`
       trade_history (snd (reconcile_positions env positions orders bot)))
  /\ (forall k,
        trade_history bot `prefix_of`
          trade_history (snd (fst (maintain_position G env k bot x))))
  /\ (forall signal,
        trade_history bot `prefix_of`
          trade_history
            (snd (fst (execute_trade_from_signal G B env setup signal bot x)))).
Proof.
  split; [| split].
  - intros positions orders. apply reconcile_history.
  - intros k. apply maintain_position_history.
  - intros signal. apply execute_history.
Qed.

Lemma dec_fix_short (d : Decimal) :
  Z.of_N (d_int d) < 10 ^ 28 -> dec_fix d = d.
Proof.
  intros H. unfold dec_fix.
  destruct (N.eqb_spec (d_int d) 0) as [E | E]; [reflexivity |].
  pose proof (ndigits_le (d_int d) 28 ltac:(lia) H ltac:(lia)) as Hn.
  unfold context_prec.
  destruct (Z.leb_spec (ndigits (d_int d)) 28); [reflexivity | lia].
Qed.

Lemma pow10_add (a b : Z) : 0 <= a -> 0 <= b -> pow10 (a + b) = (pow10 a * pow10 b)%N.
Proof.
  intros Ha Hb. apply N2Z.inj. rewrite N2Z.inj_mul, !pow10_Z by lia.
  apply Z.pow_add_r; lia.
Qed.

Lemma pow10_0 : pow10 0 = 1%N.
Proof. reflexivity. Qed.

(** A coefficient that is a number of less than 28 digits followed by
    zeros is rounded without loss. *)
Lemma dec_fix_multiple (s : bool) (c m : N) (j e : Z) :
  0 <= j -> c = (m * pow10 j)%N -> Z.of_N m < 10 ^ 27 ->
  exists (c' : N) (k : Z),
    0 <= k /\ dec_fix (mkDecimal s c e) = mkDecimal s c' (e + k)
    /\ c = (c' * pow10 k)%N.
Proof.
  intros Hj Hc Hm. unfold dec_fix. cbn [d_sign d_int d_exp].
  destruct (N.eqb_spec c 0) as [E | E].
  { exists c, 0. rewrite Z.add_0_r, pow10_0. split; [lia | split; [reflexivity | lia]]. }
  unfold context_prec.
  destruct (Z.leb_spec (ndigits c) 28) as [Hn | Hn].
  { exists c, 0. rewrite Z.add_0_r, pow10_0. split; [lia | split; [reflexivity | lia]]. }
  destruct (ndigits_bounds c ltac:(lia)) as [_ [Hlo Hhi]].
  set (k := ndigits c - 28) in *.
  assert (Hk : 1 <= k) by lia.
  assert (Hpj : Z.of_N (pow10 j) = 10 ^ j) by (apply pow10_Z; lia).
  assert (Hkj : k < j).
  { assert (Hlt : Z.of_N c < 10 ^ (27 + j)).
    { rewrite Hc, N2Z.inj_mul, Hpj, Z.pow_add_r by lia.
      assert (0 < 10 ^ j) by (apply Z.pow_pos_nonneg; lia). nia. }
    pose proof (ndigits_le c (27 + j) ltac:(lia) Hlt ltac:(lia)). lia. }
  assert (Hsplit : c = ((m * pow10 (j - k)) * pow10 k)%N).
  { rewrite Hc, <- N.mul_assoc, <- pow10_add by lia. f_equal. f_equal. lia. }
  assert (Hpk : (0 < pow10 k)%N) by (apply pow10_pos; lia).
  assert (Hq : (c / pow10 k = m * pow10 (j - k))%N).
  { rewrite Hsplit at 1. apply N.div_mul. lia. }
  assert (Hr : (c mod pow10 k = 0)%N).
  { rewrite Hsplit at 1. apply N.Div0.mod_mul. }
  assert (Hhalf : (0 < 5 * pow10 (k - 1))%N).
  { pose proof (pow10_pos (k - 1) ltac:(lia)). lia. }
  assert (Hround : round_half_even c k = (c / pow10 k)%N).
  { unfold round_half_even. cbv zeta. rewrite Hr.
    destruct (N.eqb_spec 0 (5 * pow10 (k - 1))) as [E0 | E0]; [lia |].
    cbn [andb].
    destruct (N.leb_spec (5 * pow10 (k - 1)) 0) as [E1 | E1]; [lia | reflexivity]. }
  rewrite Hround.
  assert (Hqpos : (0 < c / pow10 k)%N).
  { rewrite Hq. destruct (N.eq_dec (m * pow10 (j - k))%N 0%N) as [Z0 | Z0]; [| lia].
    exfalso. apply E. rewrite Hsplit, Z0. reflexivity. }
  assert (Hq28 : Z.of_N (c / pow10 k) < 10 ^ 28).
  { assert (Hck : Z.of_N c = Z.of_N (c / pow10 k) * 10 ^ k).
    { rewrite Hq, Hsplit at 1. rewrite N2Z.inj_mul, pow10_Z by lia. reflexivity. }
    assert (Hpow : 10 ^ ndigits c = 10 ^ 28 * 10 ^ k).
    { rewrite <- Z.pow_add_r by lia. f_equal. lia. }
    assert (0 < 10 ^ k) by (apply Z.pow_pos_nonneg; lia). nia. }
  pose proof (ndigits_le (c / pow10 k) 28 ltac:(lia) Hq28 Hqpos) as Hnq.
  destruct (Z.ltb_spec 28 (ndigits (c / pow10 k))) as [Hx | Hx]; [lia |].
  exists (c / pow10 k)%N, k. split; [lia | split; [reflexivity |]].
  rewrite Hq. exact Hsplit.
Qed.

Lemma dec_fix_sign (d : Decimal) : d_sign (dec_fix d) = d_sign d.
Proof.
  destruct (dec_fix_shape d) as [c' [k [_ [-> _]]]]. reflexivity.
Qed.

Lemma dec_div_sign (a b r : Decimal) :
  dec_div a b = Returns r -> d_sign r = xorb (d_sign a) (d_sign b).
Proof.
  unfold dec_div.
  destruct (d_int b =? 0)%N; [discriminate |].
  destruct (d_int a =? 0)%N; [intros [= <-]; apply dec_fix_sign |].
  destruct (if 0 <=? _ then _ else _) as [coeff remainder].
  destruct (if negb _ then _ else _) as [c e].
  intros [= <-]. apply dec_fix_sign.
Qed.

(** Dropping the digits below the unit gives the integer part. *)
Lemma quantize_floor (q : Decimal) (n : N) :
  Z.of_N n < 10 ^ 27 ->
  (inject_Z (Z.of_N n) * 10 ^ 0 <= inject_Z (Z.of_N (d_int q)) * 10 ^ d_exp q)%Q ->
  (inject_Z (Z.of_N (d_int q)) * 10 ^ d_exp q < inject_Z (Z.of_N n + 1) * 10 ^ 0)%Q ->
  dec_quantize_down q 0 = Some (mkDecimal (d_sign q) n 0).
Proof.
  destruct q as [s c e]. cbn [d_sign d_int d_exp]. intros Hn Hlo Hhi.
  unfold dec_quantize_down. cbn [d_sign d_int d_exp].
  destruct (N.eqb_spec c 0) as [E | E].
  { subst c.
    assert (Hz : (inject_Z (Z.of_N 0) * 10 ^ e == 0)%Q) by (cbn; ring).
    rewrite Hz in Hlo. change (10 ^ 0)%Q with 1%Q in Hlo.
    rewrite Qmult_1_r in Hlo. change 0%Q with (inject_Z 0) in Hlo.
    rewrite <- Zle_Qle in Hlo.
    assert (n = 0%N) by lia. subst n. reflexivity. }
  unfold context_prec. rewrite Z.sub_0_r.
  destruct (Z.le_gt_cases 0 e) as [He | He].
  - (* the quotient is an integer *)
    apply (q10_scale_ge _ _ 0 e He) in Hlo. rewrite Z.sub_0_r in Hlo.
    apply (q10_scale_gt _ _ e 0 He) in Hhi. rewrite Z.sub_0_r in Hhi.
    assert (Hpe : 0 < 10 ^ e) by (apply Z.pow_pos_nonneg; lia).
    assert (Hval : Z.of_N c * 10 ^ e = Z.of_N n) by lia.
    assert (He27 : e < 27).
    { destruct (Z.lt_ge_cases e 27) as [H | H]; [exact H | exfalso].
      assert (10 ^ 27 <= 10 ^ e) by (apply Z.pow_le_mono_r; lia). nia. }
    assert (Hc : Z.of_N c < 10 ^ (27 - e)).
    { assert (10 ^ 27 = 10 ^ (27 - e) * 10 ^ e).
      { rewrite <- Z.pow_add_r by lia. f_equal. lia. }
      nia. }
    pose proof (ndigits_le c (27 - e) ltac:(lia) Hc ltac:(lia)) as Hd.
    destruct (Z.ltb_spec 28 (ndigits c + e)) as [Hx | _]; [lia |].
    destruct (Z.leb_spec 0 e) as [_ | Hx]; [| lia].
    rewrite Z.sub_0_r.
    assert (Hcoef : (c * pow10 e)%N = n).
    { apply N2Z.inj. rewrite N2Z.inj_mul, pow10_Z by lia. exact Hval. }
    rewrite Hcoef.
    assert (Hnpos : (0 < n)%N) by lia.
    pose proof (ndigits_le n 27 ltac:(lia) Hn Hnpos) as Hdn.
    destruct (Z.ltb_spec 28 (ndigits n)) as [Hx | _]; [lia | reflexivity].
  - (* the quotient has digits below the unit *)
    apply (q10_scale_le _ _ 0 e ltac:(lia)) in Hlo. rewrite Z.sub_0_l in Hlo.
    apply (q10_scale_lt _ _ e 0 ltac:(lia)) in Hhi. rewrite Z.sub_0_l in Hhi.
    assert (Hpe : 0 < 10 ^ (- e)) by (apply Z.pow_pos_nonneg; lia).
    assert (Hc : Z.of_N c < 10 ^ (27 - e)).
    { assert (10 ^ (27 - e) = 10 ^ 27 * 10 ^ (- e)).
      { rewrite <- Z.pow_add_r by lia. f_equal; lia. }
      nia. }
    pose proof (ndigits_le c (27 - e) ltac:(lia) Hc ltac:(lia)) as Hd.
    destruct (Z.ltb_spec 28 (ndigits c + e)) as [Hx | _]; [lia |].
    destruct (Z.leb_spec 0 e) as [Hx | _]; [lia |].
    rewrite Z.sub_0_l.
    assert (Hcoef : (c / pow10 (- e))%N = n).
    { apply N2Z.inj. rewrite N2Z.inj_div, pow10_Z by lia.
      symmetry. apply (Z.div_unique_pos _ _ _ (Z.of_N c - Z.of_N n * 10 ^ (- e))); lia. }
    rewrite Hcoef.
    destruct (N.eq_dec n 0%N) as [-> | Hn0]; [reflexivity |].
    pose proof (ndigits_le n 27 ltac:(lia) Hn ltac:(lia)) as Hdn.
    destruct (Z.ltb_spec 28 (ndigits n)) as [Hx | _]; [lia | reflexivity].
Qed.

(** A quotient that is a whole number of less than 28 digits is computed
    exactly. *)
Lemma divide_scaled_exact (s : bool) (A Bd n : N) (j exp : Z) (fuel : nat) :
  (0 < Bd)%N -> 0 <= j -> A = (Bd * (n * pow10 j))%N -> Z.of_N n < 10 ^ 27 ->
  exists (c' : N) (e' : Z),
    (let '(coeff, remainder) := N.div_eucl A Bd in
     let '(coeff, exp) :=
       if negb (remainder =? 0)%N
       then (if (coeff mod 5 =? 0)%N then (coeff + 1)%N else coeff, exp)
       else to_ideal_exp fuel coeff exp in
     Returns (dec_fix (mkDecimal s coeff exp))) = Returns (mkDecimal s c' e')
    /\ (inject_Z (Z.of_N c') * 10 ^ e' == inject_Z (Z.of_N n) * 10 ^ (exp + j))%Q.
Proof.
  intros HB Hj HA Hn.
  assert (Hdiv : (A / Bd = n * pow10 j)%N).
  { rewrite HA, N.mul_comm. apply N.div_mul. lia. }
  assert (Hmod : (A mod Bd = 0)%N).
  { rewrite HA, N.mul_comm. apply N.Div0.mod_mul. }
  unfold N.div, N.modulo in Hdiv, Hmod.
  destruct (N.div_eucl A Bd) as [coeff rem]. cbn [fst snd] in Hdiv, Hmod.
  subst coeff rem. cbn [N.eqb negb].
  pose proof (to_ideal_exp_val fuel (n * pow10 j) exp) as [k [Hk [He Hc]]].
  destruct (to_ideal_exp fuel (n * pow10 j) exp) as [c1 e1]. cbn [fst snd] in He, Hc.
  subst e1.
  assert (Hpk : (0 < pow10 k)%N) by (apply pow10_pos; lia).
  assert (Hmul : exists (m : N) (j' : Z),
             0 <= j' /\ c1 = (m * pow10 j')%N /\ Z.of_N m < 10 ^ 27).
  { destruct (Z.le_gt_cases k j) as [Hkj | Hkj].
    - exists n, (j - k). split; [lia |]. split; [| exact Hn].
      apply (N.mul_cancel_r _ _ (pow10 k)); [lia |].
      rewrite <- Hc, <- N.mul_assoc, <- pow10_add by lia. f_equal. f_equal. lia.
    - exists c1, 0. split; [lia |]. split; [rewrite pow10_0; lia |].
      assert (Hpj : (0 < pow10 j)%N) by (apply pow10_pos; lia).
      assert (E : (c1 * pow10 (k - j) = n)%N).
      { apply (N.mul_cancel_r _ _ (pow10 j)); [lia |].
        rewrite Hc, <- N.mul_assoc, <- pow10_add by lia. f_equal. f_equal. lia. }
      pose proof (pow10_pos (k - j) ltac:(lia)). nia. }
  destruct Hmul as [m [j' [Hj' [Hc1 Hm]]]].
  destruct (dec_fix_multiple s c1 m j' (exp + k) Hj' Hc1 Hm) as [c' [k' [Hk' [Hfix Hc']]]].
  exists c', (exp + k + k'). split; [rewrite Hfix; reflexivity |].
  assert (HZ : Z.of_N c' * 10 ^ k' * 10 ^ k = Z.of_N n * 10 ^ j).
  { rewrite <- (pow10_Z k'), <- (pow10_Z k), <- (pow10_Z j), <- !N2Z.inj_mul by lia.
    f_equal. rewrite <- Hc', <- Hc. reflexivity. }
  assert (HQ : (inject_Z (Z.of_N c') * inject_Z (10 ^ k') * inject_Z (10 ^ k)
                == inject_Z (Z.of_N n) * inject_Z (10 ^ j))%Q).
  { rewrite <- !inject_Z_mult, HZ. reflexivity. }
  rewrite !q10_add, (q10_inject k), (q10_inject k'), (q10_inject j) by lia.
  assert (G : (inject_Z (Z.of_N c') * (10 ^ exp * inject_Z (10 ^ k) * inject_Z (10 ^ k'))
               == 10 ^ exp
                  * (inject_Z (Z.of_N c') * inject_Z (10 ^ k') * inject_Z (10 ^ k)))%Q)
    by ring.
  rewrite G, HQ. ring.
Qed.

Lemma signed_value (s : bool) (c : N) (e : Z) :
  (dec_val (mkDecimal s c e)
   == (if s then - (1) else 1) * (inject_Z (Z.of_N c) * 10 ^ e))%Q.
Proof. rewrite dec_val_signed, inject_signed. ring. Qed.

Lemma division_roundoff_small : (inject_Z (10 ^ 27) * division_roundoff < 1)%Q.
Proof. vm_compute. reflexivity. Qed.

Lemma division_roundoff_nonneg : (0 <= division_roundoff)%Q.
Proof. vm_compute. discriminate. Qed.

(** The integer part of a quotient computed in the context is the
    integer part of the exact quotient, when the numerator [N'] of the
    quotient, written as a fraction of integers, is below [10 ^ 27]. *)
Lemma dec_div_floor_core (sx ss : bool) (P T : N) (ex es : Z) (N' D' : N) :
  P <> 0%N -> T <> 0%N -> D' <> 0%N ->
  Z.of_N N' < 10 ^ 27 -> (P <= N')%N ->
  (inject_Z (Z.of_N P) * 10 ^ ex / (inject_Z (Z.of_N T) * 10 ^ es)
   == inject_Z (Z.of_N N') / inject_Z (Z.of_N D'))%Q ->
  (forall n shift,
     N' = (D' * n)%N -> shift = ndigits T - ndigits P + 29 ->
     0 <= shift - (ex - es)
     /\ (P * pow10 shift)%N = (T * (n * pow10 (shift - (ex - es))))%N) ->
  exists q,
    dec_div (mkDecimal sx P ex) (mkDecimal ss T es) = Returns q
    /\ dec_quantize_down q 0 = Some (mkDecimal (xorb sx ss) (N' / D') 0).
Proof.
  intros HP HT HD HN HPN Hv Hexact.
  pose proof (N.div_mod' N' D') as Hdm.
  pose proof (N.mod_lt N' D' HD) as Hr.
  set (n := (N' / D')%N) in *. set (r := (N' mod D')%N) in *.
  assert (Hn : Z.of_N n < 10 ^ 27) by nia.
  destruct (N.eq_dec r 0%N) as [Hr0 | Hr0].
  - (* the quotient is a whole number *)
    assert (HND : N' = (D' * n)%N) by lia.
    unfold dec_div. cbn [d_sign d_int d_exp].
    destruct (N.eqb_spec T 0) as [E | _]; [contradiction |].
    destruct (N.eqb_spec P 0) as [E | _]; [contradiction |].
    destruct (ndigits_bounds P ltac:(lia)) as [La1 [La2 La3]].
    destruct (ndigits_bounds T ltac:(lia)) as [Lb1 [Lb2 Lb3]].
    assert (HP27 : ndigits P <= 27) by (apply ndigits_le; lia).
    unfold context_prec.
    set (shift := ndigits T - ndigits P + 28 + 1).
    destruct (Hexact n shift HND ltac:(subst shift; lia)) as [Hse HA].
    destruct (Z.leb_spec 0 shift) as [Hs | Hs]; [| lia].
    destruct (divide_scaled_exact (xorb sx ss) (P * pow10 shift) T n
                (shift - (ex - es)) (ex - es - shift)
                (Z.to_nat (ex - es - (ex - es - shift))) ltac:(lia) Hse HA Hn)
      as [c' [e' [Hret Hval]]].
    replace (ex - es - shift + (shift - (ex - es))) with 0 in Hval by lia.
    exists (mkDecimal (xorb sx ss) c' e'). split; [exact Hret |].
    apply (quantize_floor (mkDecimal (xorb sx ss) c' e') n Hn);
      cbn [d_int d_exp]; rewrite Hval.
    + apply Qle_refl.
    + change (10 ^ 0)%Q with 1%Q. rewrite !Qmult_1_r. rewrite <- Zlt_Qlt. lia.
  - (* the quotient has a fraction *)
    destruct (dec_div_approx (mkDecimal sx P ex) (mkDecimal ss T es) HT)
      as [q [Hq [delta [Hd1 [Hd2 Hd3]]]]].
    pose proof (dec_div_sign _ _ _ Hq) as Hsq. cbn [d_sign] in Hsq.
    exists q. split; [exact Hq |].
    destruct q as [sq c eq]. cbn [d_sign] in Hsq. subst sq.
    set (a := (inject_Z (Z.of_N c) * 10 ^ eq)%Q).
    set (Nq := inject_Z (Z.of_N N')). set (Dq := inject_Z (Z.of_N D')).
    set (nq := inject_Z (Z.of_N n)). set (rq := inject_Z (Z.of_N r)).
    assert (HDq : (0 < Dq)%Q).
    { subst Dq. change 0%Q with (inject_Z 0). rewrite <- Zlt_Qlt. lia. }
    assert (HNq : (Nq == nq * Dq + rq)%Q).
    { subst Nq nq Dq rq. rewrite <- inject_Z_mult, <- inject_Z_plus.
      apply inject_Z_injective. lia. }
    assert (Hrq1 : (1 <= rq)%Q).
    { subst rq. change 1%Q with (inject_Z 1). rewrite <- Zle_Qle. lia. }
    assert (Hrq2 : (rq <= Dq - 1)%Q).
    { subst rq Dq. change 1%Q with (inject_Z 1). unfold Qminus.
      rewrite <- inject_Z_opp, <- inject_Z_plus, <- Zle_Qle. lia. }
    assert (HN0 : (0 <= Nq)%Q).
    { subst Nq. change 0%Q with (inject_Z 0). rewrite <- Zle_Qle. lia. }
    assert (HN27 : (Nq <= inject_Z (10 ^ 27))%Q).
    { subst Nq. rewrite <- Zle_Qle. lia. }
    assert (Ha0 : (a == inject_Z (Z.of_N P) * 10 ^ ex
                         / (inject_Z (Z.of_N T) * 10 ^ es) * (1 + delta))%Q).
    { rewrite (signed_value (xorb sx ss) c eq), (signed_value sx P ex),
        (signed_value ss T es) in Hd3. fold a in Hd3.
      assert (Ht : (0 < inject_Z (Z.of_N T) * 10 ^ es)%Q).
      { apply Qmult_lt_0_compat; [| apply q10_pos].
        change 0%Q with (inject_Z 0). rewrite <- Zlt_Qlt. lia. }
      set (p := (inject_Z (Z.of_N P) * 10 ^ ex)%Q) in *.
      set (t := (inject_Z (Z.of_N T) * 10 ^ es)%Q) in *.
      destruct sx, ss; cbn [xorb] in Hd3.
      - assert (E : (- (1) * p / (- (1) * t) == p / t)%Q) by (field; lra).
        rewrite E in Hd3. lra.
      - assert (E : (- (1) * p / (1 * t) == - (p / t))%Q) by (field; lra).
        rewrite E in Hd3. lra.
      - assert (E : (1 * p / (- (1) * t) == - (p / t))%Q) by (field; lra).
        rewrite E in Hd3. lra.
      - assert (E : (1 * p / (1 * t) == p / t)%Q) by (field; lra).
        rewrite E in Hd3. lra. }
    assert (Ha : (a == Nq / Dq * (1 + delta))%Q).
    { rewrite Ha0, Hv. reflexivity. }
    assert (HaD : (a * Dq == nq * Dq + rq + Nq * delta)%Q).
    { rewrite Ha, <- HNq. field. lra. }
    assert (Hsmall : (Nq * division_roundoff < 1)%Q).
    { eapply Qle_lt_trans; [| exact division_roundoff_small].
      apply Qmult_le_compat_r; [exact HN27 | exact division_roundoff_nonneg]. }
    assert (Ht1 : (Nq * delta <= Nq * division_roundoff)%Q).
    { rewrite !(Qmult_comm Nq). apply Qmult_le_compat_r; assumption. }
    assert (Ht2 : (- (Nq * division_roundoff) <= Nq * delta)%Q).
    { assert (E : (- (Nq * division_roundoff) == (- division_roundoff) * Nq)%Q) by ring.
      rewrite E, (Qmult_comm Nq). apply Qmult_le_compat_r; assumption. }
    assert (Hlo : (nq * Dq <= a * Dq)%Q) by lra.
    assert (Hhi : (a * Dq < (nq + 1) * Dq)%Q) by lra.
    apply Qmult_le_r in Hlo; [| exact HDq].
    apply Qmult_lt_r in Hhi; [| exact HDq].
    apply (quantize_floor (mkDecimal (xorb sx ss) c eq) n Hn); cbn [d_int d_exp];
      fold a; change (10 ^ 0)%Q with 1%Q; rewrite Qmult_1_r.
    + exact Hlo.
    + rewrite inject_Z_plus. exact Hhi.
Qed.

Lemma dec_div_floor (x step : Decimal) :
  d_int step <> 0%N -> short_for x step ->
  exists q,
    dec_div x step = Returns q
    /\ dec_quantize_down q 0
       = Some (mkDecimal (xorb (d_sign x) (d_sign step)) (trunc_div x step) 0).
Proof.
  destruct x as [sx P ex], step as [ss T es]. unfold short_for, trunc_div.
  cbn [d_sign d_int d_exp]. intros HT Hshort.
  destruct (N.eq_dec P 0%N) as [-> | HP].
  - exists (mkDecimal (xorb sx ss) 0 (ex - es)). split.
    + unfold dec_div. cbn [d_sign d_int d_exp].
      destruct (N.eqb_spec T 0) as [E | _]; [contradiction |]. cbn [N.eqb].
      rewrite dec_fix_short; [reflexivity | cbn; lia].
    + unfold dec_quantize_down. cbn [d_sign d_int d_exp N.eqb].
      rewrite N.mul_0_l. destruct (0 <=? ex - es); rewrite N.Div0.div_0_l; reflexivity.
  - destruct (ndigits_bounds P ltac:(lia)) as [La1 [La2 La3]].
    pose proof (ndigits_pos T) as Lb1.
    destruct (Z.leb_spec 0 (ex - es)) as [He | He].
    + rewrite Z.max_r in Hshort by lia.
      assert (Hpe : Z.of_N (pow10 (ex - es)) = 10 ^ (ex - es)) by (apply pow10_Z; lia).
      assert (Hpp : 0 < 10 ^ (ex - es)) by (apply Z.pow_pos_nonneg; lia).
      apply (dec_div_floor_core sx ss P T ex es (P * pow10 (ex - es)) T HP HT HT).
      * rewrite N2Z.inj_mul, Hpe. exact Hshort.
      * pose proof (pow10_pos (ex - es) He). nia.
      * rewrite N2Z.inj_mul, Hpe, inject_Z_mult, <- (q10_inject (ex - es) He).
        replace ex with (es + (ex - es)) at 1 by lia. rewrite q10_add.
        pose proof (q10_pos es).
        assert (0 < inject_Z (Z.of_N T))%Q
          by (change 0%Q with (inject_Z 0); rewrite <- Zlt_Qlt; lia).
        field. split; lra.
      * intros n shift Hn ->.
        assert (Hd : ndigits P + (ex - es) <= 27).
        { destruct (Z.le_gt_cases (ndigits P + (ex - es)) 27) as [H | H];
            [exact H | exfalso].
          assert (10 ^ 27 <= 10 ^ (ndigits P - 1 + (ex - es)))
            by (apply Z.pow_le_mono_r; lia).
          rewrite Z.pow_add_r in H0 by lia. nia. }
        split; [lia |].
        replace (ndigits T - ndigits P + 29)
          with ((ex - es) + (ndigits T - ndigits P + 29 - (ex - es))) at 1 by lia.
        rewrite pow10_add by lia. rewrite N.mul_assoc, Hn. lia.
    + rewrite Z.max_l, Z.pow_0_r, Z.mul_1_r in Hshort by lia.
      assert (Hpe : Z.of_N (pow10 (- (ex - es))) = 10 ^ (- (ex - es)))
        by (apply pow10_Z; lia).
      pose proof (pow10_pos (- (ex - es)) ltac:(lia)) as Hpp.
      apply (dec_div_floor_core sx ss P T ex es P (T * pow10 (- (ex - es))) HP HT).
      * lia.
      * exact Hshort.
      * lia.
      * rewrite N2Z.inj_mul, Hpe, inject_Z_mult,
          <- (q10_inject (- (ex - es))) by lia.
        replace es with (ex + - (ex - es)) at 1 by lia. rewrite q10_add.
        pose proof (q10_pos ex). pose proof (q10_pos (- (ex - es))).
        assert (0 < inject_Z (Z.of_N T))%Q
          by (change 0%Q with (inject_Z 0); rewrite <- Zlt_Qlt; lia).
        field. repeat split; lra.
      * intros n shift Hn ->.
        assert (Hd : ndigits P <= 27) by (apply ndigits_le; lia).
        split; [lia |].
        replace (ndigits T - ndigits P + 29 - (ex - es))
          with ((ndigits T - ndigits P + 29) + - (ex - es)) by lia.
        rewrite (pow10_add (ndigits T - ndigits P + 29) (- (ex - es))) by lia.
        set (sh := ndigits T - ndigits P + 29).
        rewrite Hn at 1. ring.
Qed.

(** The chain of [_format_price] and [_format_quantity] over a positive
    step gives the multiple of the step next to the number towards zero:
    no rounding of the context shows in it, and no [quantize] raises. *)
Lemma floor_to_step_in_context (x step : Decimal) :
  d_sign step = false -> d_int step <> 0%N -> short_for x step ->
  floor_to_step_context x step = Some (floor_to_step x step).
Proof.
  intros Hs HT Hshort. unfold floor_to_step_context.
  destruct (dec_div_floor x step HT Hshort) as [q [Hq Hfl]]. rewrite Hq, Hfl.
  rewrite Hs, xorb_false_r.
  assert (Hle : Z.of_N (trunc_div x step * d_int step) < 10 ^ 27).
  { revert Hshort. unfold short_for, trunc_div.
    destruct x as [sx P ex], step as [ss T es]. cbn [d_sign d_int d_exp] in *.
    destruct (Z.leb_spec 0 (ex - es)) as [He | He]; intros Hshort.
    - rewrite Z.max_r in Hshort by lia.
      pose proof (N.Div0.mul_div_le (P * pow10 (ex - es)) T) as Hm.
      rewrite <- (pow10_Z (ex - es)), <- N2Z.inj_mul in Hshort by lia. lia.
    - rewrite Z.max_l, Z.pow_0_r, Z.mul_1_r in Hshort by lia.
      pose proof (N.Div0.mul_div_le P (T * pow10 (- (ex - es)))) as Hm.
      pose proof (pow10_pos (- (ex - es)) ltac:(lia)). nia. }
  unfold dec_mul. cbn [d_sign d_int d_exp]. rewrite Hs, xorb_false_r, Z.add_0_l.
  rewrite dec_fix_short by (cbn [d_int]; lia).
  unfold dec_quantize_down, floor_to_step. cbn [d_sign d_int d_exp].
  destruct (N.eqb_spec (trunc_div x step * d_int step) 0) as [E | E];
    [rewrite E; reflexivity |].
  pose proof (ndigits_le _ 27 ltac:(lia) Hle ltac:(lia)) as Hd.
  unfold context_prec.
  destruct (Z.ltb_spec 28 (ndigits (trunc_div x step * d_int step)
                           + d_exp step - d_exp step)) as [Hx | _]; [lia |].
  rewrite Z.leb_refl, Z.sub_diag, pow10_0, N.mul_1_r.
  destruct (Z.ltb_spec 28 (ndigits (trunc_div x step * d_int step))) as [Hx | _];
    [lia | reflexivity].
Qed.

(** [x.quantize(Decimal('1e-p'), rounding=ROUND_DOWN)] in the context. *)
Lemma quantize_down_in_context (x : Decimal) (precision : N) :
  short_for x (mkDecimal false 1 (- Z.of_N precision)) ->
  dec_quantize_down x (- Z.of_N precision) = Some (quantize_down x precision).
Proof.
  unfold short_for, quantize_down, floor_to_step, trunc_div, dec_quantize_down.
  destruct x as [sx P ex]. cbn [d_sign d_int d_exp].
  set (p := Z.of_N precision). intros Hshort.
  replace (ex - - p) with (ex + p) in * by lia.
  destruct (N.eqb_spec P 0) as [-> | HP].
  { rewrite N.mul_0_l. destruct (0 <=? ex + p); rewrite N.Div0.div_0_l; reflexivity. }
  destruct (ndigits_bounds P ltac:(lia)) as [La1 [La2 La3]].
  unfold context_prec.
  replace (ndigits P + ex - - p) with (ndigits P + ex + p) by lia.
  destruct (Z.leb_spec 0 (ex + p)) as [He | He].
  - rewrite Z.max_r in Hshort by lia.
    assert (Hpp : 0 < 10 ^ (ex + p)) by (apply Z.pow_pos_nonneg; lia).
    assert (Hd : ndigits P + ex + p <= 27).
    { destruct (Z.le_gt_cases (ndigits P + ex + p) 27) as [H | H];
        [exact H | exfalso].
      assert (10 ^ 27 <= 10 ^ (ndigits P - 1 + (ex + p)))
        by (apply Z.pow_le_mono_r; lia).
      rewrite Z.pow_add_r in H0 by lia. nia. }
    destruct (Z.ltb_spec 28 (ndigits P + ex + p)) as [Hx | _]; [lia |].
    destruct (Z.leb_spec (- p) ex) as [_ | Hx]; [| lia].
    rewrite N.div_1_r, N.mul_1_r.
    assert (Hc : Z.of_N (P * pow10 (ex + p)) < 10 ^ 27)
      by (rewrite N2Z.inj_mul, pow10_Z by lia; exact Hshort).
    pose proof (pow10_pos (ex + p) He).
    pose proof (ndigits_le _ 27 ltac:(lia) Hc ltac:(nia)) as Hdc.
    destruct (Z.ltb_spec 28 (ndigits (P * pow10 (ex + p)))) as [Hx | _];
      [lia | reflexivity].
  - rewrite Z.max_l, Z.pow_0_r, Z.mul_1_r in Hshort by lia.
    pose proof (ndigits_le P 27 ltac:(lia) Hshort ltac:(lia)) as Hd.
    destruct (Z.ltb_spec 28 (ndigits P + ex + p)) as [Hx | _]; [lia |].
    destruct (Z.leb_spec (- p) ex) as [Hx | _]; [lia |].
    rewrite N.mul_1_l, N.mul_1_r.
    replace (- p - ex) with (- (ex + p)) by lia.
    destruct (N.eq_dec (P / pow10 (- (ex + p)))%N 0%N) as [E | E];
      [rewrite E; reflexivity |].
    pose proof (pow10_pos (- (ex + p)) ltac:(lia)) as Hpp.
    pose proof (N.Div0.mul_div_le P (pow10 (- (ex + p)))) as Hm.
    assert (Hq : (P / pow10 (- (ex + p)) <= P)%N).
    { apply N.Div0.div_le_upper_bound.
      replace P with (1 * P)%N at 1 by lia.
      apply N.mul_le_mono_r. lia. }
    assert (Hc : Z.of_N (P / pow10 (- (ex + p)))%N < 10 ^ 27).
    { apply N2Z.inj_le in Hq. eapply Z.le_lt_trans; [exact Hq | exact Hshort]. }
    pose proof (ndigits_le _ 27 ltac:(lia) Hc (proj1 (N.neq_0_lt_0 _) E)) as Hdc.
    destruct (Z.ltb_spec 28 (ndigits (P / pow10 (- (ex + p)))%N)) as [Hx | _];
      [lia | reflexivity].
Qed.

Lemma floor_to_step_short (x step : Decimal) :
  short_for x step -> short_for (floor_to_step x step) step.
Proof.
  unfold short_for, floor_to_step, trunc_div.
  destruct x as [sx P ex], step as [ss T es]. cbn [d_sign d_int d_exp].
  intros Hshort. rewrite Z.sub_diag, Z.max_l, Z.pow_0_r, Z.mul_1_r by lia.
  destruct (Z.leb_spec 0 (ex - es)) as [He | He].
  - rewrite Z.max_r in Hshort by lia.
    pose proof (N.Div0.mul_div_le (P * pow10 (ex - es)) T) as Hm.
    rewrite <- (pow10_Z (ex - es)), <- N2Z.inj_mul in Hshort by lia.
    apply N2Z.inj_le in Hm. rewrite N.mul_comm. lia.
  - rewrite Z.max_l, Z.pow_0_r, Z.mul_1_r in Hshort by lia.
    pose proof (N.Div0.mul_div_le P (T * pow10 (- (ex - es)))) as Hm.
    pose proof (pow10_pos (- (ex - es)) ltac:(lia)) as Hp.
    set (q := (P / (T * pow10 (- (ex - es))))%N) in *.
    assert (Hq : (q * T <= P)%N) by nia.
    apply N2Z.inj_le in Hq. lia.
Qed.

Lemma format_price_in_context (env : Env) (v : Decimal) (sym : string) :
  short_for v (price_step env sym) ->
  format_price_context env v sym = Some (format_price_decimal env v sym).
Proof.
  unfold price_step, format_price_context, format_price_decimal.
  destruct (instrument_tickSize env sym) as [step |].
  - destruct (dec_positive step) eqn:Hp.
    + destruct (dec_positive_shape step Hp) as [Hs Hc]. intros H.
      apply floor_to_step_in_context; assumption.
    + apply quantize_down_in_context.
  - apply quantize_down_in_context.
Qed.

Lemma format_quantity_in_context (env : Env) (v : Decimal) (sym : string) :
  short_for v (qty_step env sym) ->
  format_quantity_context env v sym = Some (format_quantity_decimal env v sym).
Proof.
  unfold qty_step, format_quantity_context, format_quantity_decimal.
  destruct (instrument_qtyStep env sym) as [step |].
  - destruct (dec_positive step) eqn:Hp.
    + destruct (dec_positive_shape step Hp) as [Hs Hc]. intros H.
      apply floor_to_step_in_context; assumption.
    + apply quantize_down_in_context.
  - apply quantize_down_in_context.
Qed.

Lemma format_price_decimal_step (env : Env) (v : Decimal) (sym : string) :
  format_price_decimal env v sym = floor_to_step v (price_step env sym).
Proof.
  unfold format_price_decimal, price_step, quantize_down, unit_of_precision.
  destruct (instrument_tickSize env sym) as [step |]; [| reflexivity].
  destruct (dec_positive step); reflexivity.
Qed.

Lemma format_quantity_decimal_step (env : Env) (v : Decimal) (sym : string) :
  format_quantity_decimal env v sym = floor_to_step v (qty_step env sym).
Proof.
  unfold format_quantity_decimal, qty_step, quantize_down, unit_of_precision.
  destruct (instrument_qtyStep env sym) as [step |]; [| reflexivity].
  destruct (dec_positive step); reflexivity.
Qed.

Lemma price_step_nonzero (env : Env) (sym : string) : d_int (price_step env sym) <> 0%N.
Proof.
  unfold price_step. destruct (instrument_tickSize env sym) as [step |]; [| discriminate].
  destruct (dec_positive step) eqn:Hp; [| discriminate].
  apply dec_positive_shape in Hp. tauto.
Qed.

Lemma qty_step_nonzero (env : Env) (sym : string) : d_int (qty_step env sym) <> 0%N.
Proof.
  unfold qty_step. destruct (instrument_qtyStep env sym) as [step |]; [| discriminate].
  destruct (dec_positive step) eqn:Hp; [| discriminate].
  apply dec_positive_shape in Hp. tauto.
Qed.

(** The decimal operations of [_format_price] and [_format_quantity],
    computed with the 28 digits and the rounding of the context, come to
    the multiple of the step next to the number towards zero, with the
    exponent of the step, and none of them raises: for every number
    whose coefficient, written with the exponent of the step when that
    is the lower one, is below 10^27.  (Beyond that the quotient can be
    rounded up to the next integer, or a [quantize] can raise.) *)
Theorem format_in_context (env : Env) (v : Decimal) (sym : string) :
  (short_for v (price_step env sym) ->
   format_price_context env v sym = Some (floor_to_step v (price_step env sym))
   /\ _format_price env v sym = str_of_Decimal (floor_to_step v (price_step env sym)))
  /\ (short_for v (qty_step env sym) ->
      format_quantity_context env v sym = Some (floor_to_step v (qty_step env sym))
      /\ _format_quantity env v sym
         = str_of_Decimal (floor_to_step v (qty_step env sym))).
Proof.
  split; intros H.
  - rewrite (format_price_in_context env v sym H). unfold _format_price.
    rewrite format_price_decimal_step. split; reflexivity.
  - rewrite (format_quantity_in_context env v sym H). unfold _format_quantity.
    rewrite format_quantity_decimal_step. split; reflexivity.
Qed.

Lemma format_in_context_witness :
  format_price_context sample_env (mkDecimal false 10004 (-2)) "BTCUSDT"
  = Some (floor_to_step (mkDecimal false 10004 (-2)) (price_step sample_env "BTCUSDT"))
  /\ _format_price sample_env (mkDecimal false 10004 (-2)) "BTCUSDT"
     = str_of_Decimal
         (floor_to_step (mkDecimal false 10004 (-2)) (price_step sample_env "BTCUSDT")).
Proof.
  apply (proj1 (format_in_context sample_env (mkDecimal false 10004 (-2)) "BTCUSDT")).
  vm_compute. reflexivity.
Defined.

(** [_format_price] never rounds a price up and takes less than one tick
    off it: for a non-negative price short enough for the context, what
    it computes is a whole number of ticks, written with the exponent of
    the tick, not above the price and less than one tick below it. *)
Theorem format_price_floor (env : Env) (price tick : Decimal) (sym : string) :
  instrument_tickSize env sym = Some tick ->
  dec_positive tick = true ->
  d_sign price = false ->
  short_for price tick ->
  exists (formatted : Decimal) (n : N),
    format_price_context env price sym = Some formatted
    /\ _format_price env price sym = str_of_Decimal formatted
    /\ d_exp formatted = d_exp tick
    /\ (dec_val formatted == inject_Z (Z.of_N n) * dec_val tick)%Q
    /\ (dec_val formatted <= dec_val price)%Q
    /\ (dec_val price < dec_val formatted + dec_val tick)%Q.
Proof.
  intros Ht Hp Hs Hshort. destruct (dec_positive_shape tick Hp) as [Hts Htc].
  exists (floor_to_step price tick), (trunc_div price tick).
  destruct (trunc_div_bounds price tick Hs Hts Htc) as [Hlo Hhi].
  pose proof (floor_to_step_val price tick Hs Hts) as Hv.
  split; [| split; [| split; [| split; [| split]]]].
  - unfold format_price_context. rewrite Ht, Hp.
    apply floor_to_step_in_context; assumption.
  - unfold _format_price, format_price_decimal. rewrite Ht, Hp. reflexivity.
  - reflexivity.
  - exact Hv.
  - rewrite Hv. exact Hlo.
  - rewrite Hv. rewrite inject_Z_plus in Hhi. change (inject_Z 1) with 1%Q in Hhi. lra.
Qed.

Lemma format_price_floor_witness :
  exists (formatted : Decimal) (n : N),
    format_price_context sample_env (mkDecimal false 10004 (-2)) "BTCUSDT"
    = Some formatted
    /\ _format_price sample_env (mkDecimal false 10004 (-2)) "BTCUSDT"
       = str_of_Decimal formatted
    /\ d_exp formatted = d_exp (mkDecimal false 1 (-1))
    /\ (dec_val formatted == inject_Z (Z.of_N n) * dec_val (mkDecimal false 1 (-1)))%Q
    /\ (dec_val formatted <= dec_val (mkDecimal false 10004 (-2)))%Q
    /\ (dec_val (mkDecimal false 10004 (-2))
        < dec_val formatted + dec_val (mkDecimal false 1 (-1)))%Q.
Proof.
  apply (format_price_floor sample_env (mkDecimal false 10004 (-2))
           (mkDecimal false 1 (-1)) "BTCUSDT"); try reflexivity.
Defined.

(** Formatting is idempotent: what [_format_price] or
    [_format_quantity] computes for a number short enough for the
    context is computed again from it, and printed as the same text. *)
Theorem format_idempotent (env : Env) (v : Decimal) (sym : string) :
  (short_for v (price_step env sym) ->
   exists p, format_price_context env v sym = Some p
             /\ format_price_context env p sym = Some p
             /\ _format_price env p sym = _format_price env v sym)
  /\ (short_for v (qty_step env sym) ->
      exists q, format_quantity_context env v sym = Some q
                /\ format_quantity_context env q sym = Some q
                /\ _format_quantity env q sym = _format_quantity env v sym).
Proof.
  split; intros H.
  - exists (format_price_decimal env v sym).
    split; [apply format_price_in_context, H |].
    assert (Hagain : format_price_decimal env (format_price_decimal env v sym) sym
                     = format_price_decimal env v sym).
    { rewrite !format_price_decimal_step.
      apply floor_to_step_again, price_step_nonzero. }
    split.
    + rewrite format_price_in_context; [rewrite Hagain; reflexivity |].
      rewrite format_price_decimal_step. apply floor_to_step_short, H.
    + unfold _format_price. rewrite Hagain. reflexivity.
  - exists (format_quantity_decimal env v sym).
    split; [apply format_quantity_in_context, H |].
    assert (Hagain : format_quantity_decimal env (format_quantity_decimal env v sym) sym
                     = format_quantity_decimal env v sym).
    { rewrite !format_quantity_decimal_step.
      apply floor_to_step_again, qty_step_nonzero. }
    split.
    + rewrite format_quantity_in_context; [rewrite Hagain; reflexivity |].
      rewrite format_quantity_decimal_step. apply floor_to_step_short, H.
    + unfold _format_quantity. rewrite Hagain. reflexivity.
Qed.

Lemma format_idempotent_witness :
  exists p,
    format_price_context sample_env (mkDecimal false 10004 (-2)) "BTCUSDT" = Some p
    /\ format_price_context sample_env p "BTCUSDT" = Some p
    /\ _format_price sample_env p "BTCUSDT"
       = _format_price sample_env (mkDecimal false 10004 (-2)) "BTCUSDT".
Proof.
  apply (proj1 (format_idempotent sample_env (mkDecimal false 10004 (-2)) "BTCUSDT")).
  vm_compute. reflexivity.
Defined.
